(* ===== verification/_CoqProject ===== *)
-Q . S2P
Prelude.v
GoBytes.v
NetAddr.v
Codec.v
Sys.v
UnixSock.v
UnixSockProps.v
MsgCache.v
Client.v
ClientLemmas.v
Delivery.v
DeliveryProps.v
RequestProps.v
Recovery.v
Race.v
RawUdp.v
WinSock.v
Mcast.v
ClientOpen.v
NetIf.v
SockIf.v
McastProps.v
Receiver.v
ReceiverProps.v
Bpf.v
ZRing.v
ZRingProps.v
ZTxRun.v
ZSend.v
ZRx.v
ZRxRun.v
ZListen.v
ZWire.v
ZSetup.v
Diag.v
Flags.v
ZOpen.v
ZOpenProps.v
Main.v
MainProps.v
Program.v
