(* ===== verification/Prelude.v ===== *)
(** * go-mold: a verification library for a MoldUDP64 client

    go-mold receives a MoldUDP64 stream: numbered messages of a session,
    multicast in UDP datagrams.  A client puts the messages back in order, asks
    for the ones it misses and hands them to the application.  The datagrams come
    through one of three interfaces: Go's net package (netIf), sockets (sockIf)
    or, on Linux, rings of frames shared with the kernel (zsockIf).  This library
    models the program as functions on explicit states and as programs of system
    calls, and proves what each part promises.

    ** Parts of the program and where they are modelled

    Foundations.
    - [Prelude] (this file): Go integers at their width, calls that return,
      panic or do not return ([outcome]), loops, slices, field update, the
      tactics and hint databases of the library.
    - [GoBytes], [NetAddr]: octets, the big-endian coder (src/encode.go), what
      is used of net.IP and strings.
    - [Sys]: programs of system calls ([prog]); an environment [env] answers the
      calls, and may answer anything; weakest preconditions ([wp], [wlp]) and the
      predicates [crashfree], [only_calls].

    The client.
    - [Codec]: the wire format of src/moldUDP.go.
    - [MsgCache]: the cache of out-of-order messages, src/msgCache.go, in a memory
      that ends ([Memory]), and the interface the client needs of it (classes
      [SeqCache], [SeqCacheSpec]).
    - [Client]: src/client.go.  The record [Client] is the struct; [gotBuff],
      [doMsgBuf], [newReq], [request], [storeCache], [Read_iter] (one turn of
      [Read]) and the bodies of the goroutines ([onPacket], [onBatch] of
      [doMsgLoop]; [requestLoop_tick], [requestLoop_msg] of [requestLoop]).
      [doMsgBuf] is the composition of its part before the lock
      ([doMsgBuf_publish]) and its part under it ([append_pending]), the body of
      [Read] that of [Read_take] and [Read_test].
    - [ClientLemmas]: each operation of the client described branch by branch.
    - [Delivery]: the client as a transition system of receiver, worker, ticker
      and reader ([step], [reachable]), the session it listens to ([genuine]) and
      the invariants.  [DeliveryProps], [RequestProps]: the theorems on it.
    - [Recovery]: the client and a server of retransmissions, in rounds of
      ticker, request and answer.
    - [Race]: a [Read] between the two parts of [doMsgBuf].
    - [ClientOpen]: [NewClient] and [Close], over any interface.

    The program.
    - [Flags]: the command line of src/cmd/client/main.go, with what it uses of
      the packages flag and strconv.
    - [Main], [MainProps]: the goroutines of main around the client, as one
      transition system with it up to the end of the process ([astep], [arun]).
    - [Program]: main from its arguments on ([main_start]), and all goroutines
      over an interface ([pstep], [preach]).

    The interfaces.
    - [UnixSock], [UnixSockProps]: the wrappers of src/socket.go and
      src/rsocket.go.  [WinSock]: those of src/winsock.go (module [Win]) and a
      simulation between the two ([psim]).
    - [Mcast]: the interface McastConn and the registry of src/mcast.go; the
      class [SockApi] of wrappers the interfaces are written against, its two
      instances, and the contract of opening and closing ([Lifecycle],
      [LifecycleSpec]) with its abstract machine ([lc_step]).
    - [NetIf] (src/mcast.go), [SockIf] (src/sockif.go, src/sockif_linux.go,
      src/sockif_notlnx.go), [McastProps].
    - [Receiver], [ReceiverProps]: [doMsgLoop] over an interface; the class
      [McastRecvSpec] is what the client needs of it.

    The ring.
    - [RawUdp]: the frames written by src/zsockif.go and src/socket.go.
    - [Bpf]: the packet filter of src/rsocket.go and [setBPF].
    - [ZRing], [ZRingProps]: the transmit ring of src/zsocket.go.  [ZTxRun]: the
      ring between the program and the kernel ([tstep]).
    - [ZSend]: [Send] and [MSend] of src/zsockif.go over the ring.
    - [ZRx]: the receive side of src/zsocket.go ([walkBlock], the listeners).
      [ZRxRun]: the ring between the kernel and the listener ([rxstep]).
    - [ZListen]: the frame parser of [Listen] in src/zsockif.go between the
      receive ring and the client.  [ZWire]: [Send], the wire and the parser.
    - [ZSetup]: what [NewZSocket] computes; [ZOpen], [ZOpenProps]: [NewZSocket]
      with its calls, and [Open], [OpenSend], [Close] of zsockIf.
    - [Diag]: the accessors and the printing functions.

    ** What the theorems show

    - Delivery: the client hands over the session's messages in order, each
      once, in every interleaving ([delivery_in_order]; [delivery_from_encoder]
      for a sender that uses the encoder), has received all of them when it
      stops, and has handed over all but those that a [Read] overlapping the last
      delivery left behind ([delivery_complete]; [race_loses_last_batch] says when
      such a [Read] does), makes progress ([progress_on_expected]),
      recovers what was lost with the help of a server ([recovery]) and stops
      ([end_of_session_stops]).  No datagram makes it panic or hang, but for a
      data packet with a number beyond the memory of its cache, which ends it
      ([client_never_panics]).  Delivery over the interfaces
      ([interface_delivery]) and over the ring ([ring_delivery]); over the
      interfaces for datagrams that fit their buffers, a longer one being read
      wrongly ([long_datagram_misread]).
    - The program: it ends when the network is silent ([silence_stops]), and from
      its arguments to its exit status what it reads and reports is true of the
      session ([program_end_to_end]); its flags round-trip ([Parse_roundtrip]).
    - The wire format: round trips and exactly which buffers are accepted
      ([header_roundtrip], [header_reencode], [Unmarshal_exact],
      [marshal_roundtrip], [single_octet_session_lost]).
    - The cache is a finite map from sequence numbers below its capacity to
      messages, [Merge] gives the maximal run, and a number from the capacity on
      exhausts the memory ([cache_refines_map]).
    - Retransmission requests: what they ask for ([newReq_behaviour],
      [requests_in_session]) when there are none ([data_never_requests]) and
      where they go ([requests_single_peer]).
    - Interfaces: the contract of opening and closing ([lifecycle_contract],
      [zsock_lifecycle]), the interfaces have the same runs over the wrappers of
      Windows and of Unix ([windows_equivalent]), batches ([MRecv_batch]); error paths
      ([bind_failure_closes_twice], [close_crashes_receiver],
      [failed_open_leaks], [sockIf_open_paths]).
    - The rings are queues between the program and the kernel, in every
      interleaving of the two ([tx_ring_fifo], [rx_ring_fifo]); the operations on
      the transmit ring ([CopyToBuffer_queue], [FlushFrames_sends],
      [WriteToBuffer_enqueues], [Send_transmits], [MSend_transmits]), also as
      [OpenSend] leaves it ([OpenSend_ready]); its error paths ([tx_refused],
      [flush_error_wedges], [poll_error_misplaces]).
    - Frames, filter and set-up: [copyFx_frame], [copyFx_truncates],
      [ring_roundtrip] (a frame sent is the datagram received),
      [Send_reaches_receiver] (the datagrams sent are those received, in order),
      [multicast_hwaddr], [setBPF_exact], [walkBlock_delivers],
      [listenV3_turn_block], [NewZSocket_tx],
      [tiny_ring_accepted], [NewClient_opens], [parse_srv_ports], [Close_once].

    ** Conventions and bounds

    A Go integer is a [Z], wrapped ([u64], [i32], ...) where the source can
    wrap.  A slice is a list, indexed by [Z] with Go's panics; nil slices that
    the source tells from empty ones are [None].  A loop that is not structural
    is [for_loop] with a bound of 2^65 iterations ([go_fuel]), more than any
    index of a 64-bit machine; [for_loop_spec] turns a decreasing measure into
    the fact that the bound is not reached, and the theorems state that calls
    return.  An endless loop of a goroutine is modelled by its turn, and the turns
    of the goroutines are the steps of a transition system.  System calls are
    either arguments (the functions of [Client], [ZRing], [ZSetup]) or nodes of a
    [prog].  Kernel structures ([struct tpacket_hdr], [struct tpacket3_hdr],
    [struct block_desc], BPF instructions) follow the 64-bit Linux headers.
    Parameters stand for code of other packages: [CalculateChecksum] and the
    parsers of nettypes (laws [checksum_law], [NetTypesSpec]), [ParseIP],
    [InterfaceByName], [to.Int], [Bytes2TickFX].

    The steps of the transition systems.  The lock of the client divides the
    processing of a packet into two steps, the writes before the lock and the
    append under it, and the body of [Read] into two, taking what is ready under
    the lock and the test with the return; the steps of worker and reader
    alternate freely ([Delivery.step]).  The tests of [Running] at the heads of the
    loops are steps of their own: a body may run after another goroutine has
    cleared [Running].  In the program the handling of what [Read] returned is
    again a step of its own.  Dividing the writes before the lock further would
    add no outcome for the messages: [Read] looks at [bDone] first and at [seqNo]
    after it, the worker writes them in the opposite order, and of the other
    variables written there [Read] uses only [lastSeq].  A flag [ovl] tells
    whether a body of [Read] may overlap the processing of a packet; the theorems
    hold for both values, and say what more is true when it does not.

    Memory and buffers.  The cache grows by pages of 8 MiB; [Memory] is the number
    of pages the process can have, any number from the 16 of the start on, and
    growing beyond it ends the process ([Panic]).  The interfaces receive into
    buffers of 2048 octets, and a longer datagram arrives cut ([cut_to]).

    The kernel's side of the rings is what packet(7) and the kernel's packet_mmap
    document describe.

    ** Not modelled

    The formats and the set-up of log lines and the text of the usage, the call
    of WSAStartup when src/winsock.go is loaded, and the String methods that
    return a constant.  Frames that the kernel rejects as
    badly formed.  The Go memory model: shared variables are read and written in
    the order of the source. *)

From Stdlib Require Export ZArith Lia.
From stdpp Require Export base option list numbers gmap.

#[global] Set Default Goal Selector "!".
#[global] Open Scope Z_scope.

(** ** Machine integers

    A Go integer of width [w] is a [Z] kept in range by the functions below,
    which are written at every operation of the source that can wrap. *)

Definition u8 (z : Z) : Z := z mod 256.
Definition u16 (z : Z) : Z := z mod 65536.
Definition u32 (z : Z) : Z := z mod 4294967296.
Definition u64 (z : Z) : Z := z mod 18446744073709551616.
Definition i32 (z : Z) : Z := (z + 2147483648) mod 4294967296 - 2147483648.
Definition i64 (z : Z) : Z :=
  (z + 9223372036854775808) mod 18446744073709551616 - 9223372036854775808.

Definition max_u64 : Z := 18446744073709551615.

(** ** Outcomes of Go code

    A call returns a value, panics (index out of range, nil dereference,
    negative [make], no memory for a slice), or does not return within the
    iterations allowed. *)

Inductive outcome (A : Type) : Type :=
| Ret (a : A)
| Panic
| Diverge.
Arguments Ret {A} a.
Arguments Panic {A}.
Arguments Diverge {A}.

#[export] Instance outcome_mret : MRet outcome := @Ret.
#[export] Instance outcome_mbind : MBind outcome := λ A B f m,
  match m with
  | Ret a => f a
  | Panic => Panic
  | Diverge => Diverge
  end.

Definition returns {A} (m : outcome A) : Prop := ∃ a, m = Ret a.

(** ** Loops

    A Go [for] loop is a body that either goes on with a new state ([inl]) or
    leaves the loop with a result ([inr]).  The iteration bound is a binary
    positive, so that a bound of 2^65 costs nothing to evaluate. *)

Definition andthen {S R} (m : outcome (S + R)) (g : S → outcome (S + R)) : outcome (S + R) :=
  x ← m;
  match x with
  | inl s' => g s'
  | inr r => Ret (inr r)
  end.

Fixpoint run {S R} (body : S → outcome (S + R)) (p : positive) (s : S) : outcome (S + R) :=
  match p with
  | xH => body s
  | xO q => andthen (run body q s) (run body q)
  | xI q => andthen (body s) (λ s', andthen (run body q s') (run body q))
  end.

Definition for_loop {S R} (fuel : positive) (body : S → outcome (S + R)) (s : S) : outcome R :=
  x ← run body fuel s;
  match x with
  | inl _ => Diverge
  | inr r => Ret r
  end.

(** [for i := i0; i < i0+n; i++ { f }] for a body without [break]. *)
Fixpoint for_range {S} (n : nat) (i : Z) (f : Z → S → outcome S) (s : S) : outcome S :=
  match n with
  | O => Ret s
  | S k => s' ← f i s; for_range k (i + 1) f s'
  end.

(** The bound of the loops of the model: 2^65 iterations. *)
Definition go_fuel : positive := 36893488147419103232.

(** ** Lists as Go slices, indexed by [Z] *)

Definition len {A} (l : list A) : Z := Z.of_nat (length l).

(** The length of a possibly nil slice. *)
Definition slen {A} (o : option (list A)) : Z := len (default [] o).

(** [a[i]], panicking out of range. *)
Definition idx {A} (l : list A) (i : Z) : outcome A :=
  if (0 <=? i) then
    match l !! Z.to_nat i with Some x => Ret x | None => Panic end
  else Panic.

(** [a[i] = x], panicking out of range. *)
Definition set_idx {A} (l : list A) (i : Z) (x : A) : outcome (list A) :=
  if (0 <=? i) && (i <? len l) then Ret (<[Z.to_nat i := x]> l) else Panic.

(** [a[lo:hi]], panicking out of range (capacity is taken to be length). *)
Definition slice {A} (lo hi : Z) (l : list A) : outcome (list A) :=
  if (0 <=? lo) && (lo <=? hi) && (hi <=? len l)
  then Ret (take (Z.to_nat (hi - lo)) (drop (Z.to_nat lo) l))
  else Panic.

(** An in-place operation [f] on [a[lo:hi]], seen from [a]. *)
Definition with_slice {A} (lo hi : Z) (l : list A)
    (f : list A → outcome (list A)) : outcome (list A) :=
  sub ← slice lo hi l;
  sub' ← f sub;
  Ret (take (Z.to_nat lo) l ++ sub' ++ drop (Z.to_nat hi) l).

(** [copy(dst, src)]: the contents of [dst] afterwards. *)
Definition go_copy {A} (dst src : list A) : list A :=
  take (length dst) src ++ drop (length src) dst.

(** ** Time

    A [time.Time] is a number of nanoseconds since the zero time (year 1);
    [Sub] saturates at the ends of [time.Duration]. *)

Definition maxDuration : Z := 9223372036854775807.
Definition minDuration : Z := -9223372036854775808.
Definition time_sub (t u : Z) : Z := Z.max minDuration (Z.min maxDuration (t - u)).

(** ** Field update

    [c <| f := v |>] is [c] with field [f] set to [v], the model of an
    assignment to a field of a struct.  [Eta] gives a record rebuilt from its
    projections; the update function of a field is read off from it. *)

Class Eta (R : Type) := eta : R → R.

Class Update {R T : Type} (f : R → T) := update : T → R → R.

Ltac find_update f :=
  match type of f with
  | ?R → _ =>
      let e := constr:(_ : Eta R) in
      let e := eval hnf in e in
      let p := eval pattern f in e in
      match p with
      | ?F _ => exact (λ v, F (λ _, v))
      end
  end.

#[export] Hint Extern 0 (Update ?f) => find_update f : typeclass_instances.

Declare Scope go_scope.
Delimit Scope go_scope with go.
Notation "c <| f := v |>" := (update (f := f) v c)
  (at level 1, f at level 0, v at level 99, left associativity,
   format "c  <| f  :=  v |>") : go_scope.
#[global] Open Scope go_scope.

(** ** Automation *)

Create HintDb go discriminated.
Create Rewrite HintDb golen.
Create Rewrite HintDb gobind.

(** Decide the range side conditions of machine arithmetic. *)
Ltac word :=
  unfold u8, u16, u32, u64, i32, i64, max_u64 in *;
  Z.to_euclidean_division_equations; lia.

(** Turn the boolean comparisons of the source into propositions. *)
Ltac zbool :=
  repeat match goal with
  | H : _ && _ = true |- _ => apply andb_true_iff in H; destruct H
  | H : _ || _ = false |- _ => apply orb_false_iff in H; destruct H
  | H : (_ <=? _) = true |- _ => apply Z.leb_le in H
  | H : (_ <=? _) = false |- _ => apply Z.leb_gt in H
  | H : (_ <? _) = true |- _ => apply Z.ltb_lt in H
  | H : (_ <? _) = false |- _ => apply Z.ltb_ge in H
  | H : (_ =? _) = true |- _ => apply Z.eqb_eq in H
  | H : (_ =? _) = false |- _ => apply Z.eqb_neq in H
  | H : negb _ = true |- _ => apply negb_true_iff in H
  | H : negb _ = false |- _ => apply negb_false_iff in H
  end.

(** Case analysis on the first test of the goal, dropping impossible cases. *)
Ltac zcase :=
  match goal with
  | |- context [if ?b then _ else _] =>
      let E := fresh "E" in destruct b eqn:E; zbool; try lia
  end.

Ltac zcases := repeat zcase.

(** ** Lemmas on machine integers *)

Lemma u64_range z : 0 <= u64 z <= max_u64.
Proof. word. Qed.

Lemma u64_small z : 0 <= z <= max_u64 → u64 z = z.
Proof. intros; unfold max_u64 in *; apply Z.mod_small; lia. Qed.

Lemma u16_range z : 0 <= u16 z < 65536.
Proof. word. Qed.

Lemma u16_small z : 0 <= z < 65536 → u16 z = z.
Proof. intros; apply Z.mod_small; lia. Qed.

Lemma i32_small z : -2147483648 <= z < 2147483648 → i32 z = z.
Proof. intros; unfold i32; rewrite Z.mod_small; lia. Qed.

Lemma i64_small z : -9223372036854775808 <= z < 9223372036854775808 → i64 z = z.
Proof. intros; unfold i64; rewrite Z.mod_small; lia. Qed.

#[export] Hint Resolve u64_range u16_range : go.

(** ** Lemmas on outcomes *)

Lemma bind_Ret {A B} (a : A) (f : A → outcome B) : (Ret a ≫= f) = f a.
Proof. reflexivity. Qed.

Lemma bind_Ret_inv {A B} (m : outcome A) (f : A → outcome B) b :
  m ≫= f = Ret b → ∃ a, m = Ret a ∧ f a = Ret b.
Proof. destruct m; cbn; [eauto | discriminate | discriminate]. Qed.

Lemma returns_Ret {A} (a : A) : returns (Ret a).
Proof. by exists a. Qed.

Lemma returns_bind {A B} (m : outcome A) (f : A → outcome B) :
  returns m → (∀ a, m = Ret a → returns (f a)) → returns (m ≫= f).
Proof. intros [a Ha] Hf. rewrite Ha. cbn. by apply Hf. Qed.

#[export] Hint Resolve returns_Ret : go.
#[export] Hint Rewrite @bind_Ret : gobind.

(** Split every bind of a hypothesis [m = Ret b]. *)
Ltac inv_bind H :=
  match type of H with
  | (_ ≫= _) = Ret _ =>
      let a := fresh "a" in let H1 := fresh "Hb" in
      apply bind_Ret_inv in H as (a & H1 & H)
  end.

(** ** Reasoning rules for loops *)

Section LoopRules.
Context {S R : Type} (body : S → outcome (S + R)).
Context (I : S → Prop) (Q : R → Prop) (m : S → Z).

(** The variant rule: an invariant, a measure that every iteration lowers. *)
Definition body_ok : Prop := ∀ s, I s →
  (∃ s', body s = Ret (inl s') ∧ I s' ∧ m s' < m s) ∨
  (∃ r, body s = Ret (inr r) ∧ Q r).

Lemma run_spec : body_ok → ∀ p s, I s →
  (∃ s', run body p s = Ret (inl s') ∧ I s' ∧ m s' + Z.pos p <= m s) ∨
  (∃ r, run body p s = Ret (inr r) ∧ Q r).
Proof.
  intros Hb. induction p as [q IH|q IH|]; intros s Hs; cbn [run]; unfold andthen.
  - destruct (Hb s Hs) as [(s1 & -> & H1 & M1)|(r & -> & HQ)]; cbn; [|by eauto].
    destruct (IH s1 H1) as [(s2 & -> & H2 & M2)|(r & -> & HQ)]; cbn; [|by eauto].
    destruct (IH s2 H2) as [(s3 & -> & H3 & M3)|(r & -> & HQ)]; [|by eauto].
    left; exists s3; repeat split; [done|lia].
  - destruct (IH s Hs) as [(s2 & -> & H2 & M2)|(r & -> & HQ)]; cbn; [|by eauto].
    destruct (IH s2 H2) as [(s3 & -> & H3 & M3)|(r & -> & HQ)]; [|by eauto].
    left; exists s3; repeat split; [done|lia].
  - destruct (Hb s Hs) as [(s1 & -> & H1 & M1)|(r & -> & HQ)]; [|by eauto].
    left; exists s1; repeat split; [done|lia].
Qed.

Lemma for_loop_spec fuel s :
  body_ok → (∀ s, I s → 0 <= m s) → I s → m s < Z.pos fuel →
  ∃ r, for_loop fuel body s = Ret r ∧ Q r.
Proof.
  intros Hb Hm Hs Hf. unfold for_loop.
  destruct (run_spec Hb fuel s Hs) as [(s' & -> & H1 & M1)|(r & -> & HQ)]; cbn.
  - specialize (Hm s' H1). lia.
  - eauto.
Qed.

(** A loop that lowers its measure until its body panics. *)
Lemma for_loop_panics fuel s :
  (∀ s, I s → body s = Panic ∨ ∃ s', body s = Ret (inl s') ∧ I s' ∧ m s' < m s) →
  (∀ s, I s → 0 <= m s) → I s → m s < Z.pos fuel → for_loop fuel body s = Panic.
Proof.
  intros Hb Hm Hs Hf. unfold for_loop.
  assert (run body fuel s = Panic ∨ ∃ s', run body fuel s = Ret (inl s') ∧ I s' ∧ m s' + Z.pos fuel <= m s)
    as [->|(s' & -> & H1 & M1)]; [|done|specialize (Hm s' H1); lia].
  clear Hf. revert s Hs. induction fuel as [q IH|q IH|]; intros s Hs; cbn [run]; unfold andthen.
  - destruct (Hb s Hs) as [->|(s1 & -> & H1 & M1)]; cbn; [by left|].
    destruct (IH s1 H1) as [->|(s2 & -> & H2 & M2)]; cbn; [by left|].
    destruct (IH s2 H2) as [->|(s3 & -> & H3 & M3)]; [by left|].
    right; exists s3; repeat split; [done|lia].
  - destruct (IH s Hs) as [->|(s2 & -> & H2 & M2)]; cbn; [by left|].
    destruct (IH s2 H2) as [->|(s3 & -> & H3 & M3)]; [by left|].
    right; exists s3; repeat split; [done|lia].
  - destruct (Hb s Hs) as [->|(s1 & -> & H1 & M1)]; [by left|].
    right; exists s1; repeat split; [done|lia].
Qed.

(** A loop whose body always goes on never returns, whatever the bound. *)
Lemma for_loop_diverges fuel s :
  (∀ s, I s → ∃ s', body s = Ret (inl s') ∧ I s') → I s →
  for_loop fuel body s = Diverge.
Proof.
  intros Hb Hs. unfold for_loop.
  assert (∃ s', run body fuel s = Ret (inl s') ∧ I s') as (s' & -> & _); [|done].
  revert s Hs. induction fuel as [q IH|q IH|]; intros s Hs; cbn [run]; unfold andthen.
  - destruct (Hb s Hs) as (s1 & -> & H1); cbn.
    destruct (IH s1 H1) as (s2 & -> & H2); cbn. by apply IH.
  - destruct (IH s Hs) as (s2 & -> & H2); cbn. by apply IH.
  - by apply Hb.
Qed.
End LoopRules.

(** ** Lemmas on slices *)

Lemma len_nonneg {A} (l : list A) : 0 <= len l.
Proof. unfold len; lia. Qed.

Lemma len_app {A} (l k : list A) : len (l ++ k) = len l + len k.
Proof. unfold len; rewrite length_app; lia. Qed.

Lemma len_cons {A} (x : A) (l : list A) : len (x :: l) = 1 + len l.
Proof. unfold len; cbn; lia. Qed.

Lemma len_nil {A} : len (@nil A) = 0.
Proof. reflexivity. Qed.

Lemma len_replicate {A} n (x : A) : len (replicate n x) = Z.of_nat n.
Proof. unfold len; by rewrite length_replicate. Qed.

Lemma len_zero {A} (l : list A) : len l = 0 → l = [].
Proof. destruct l; [done|]. unfold len; cbn; lia. Qed.

#[export] Hint Resolve len_nonneg : go.
#[export] Hint Rewrite @len_app @len_cons @len_nil @len_replicate : golen.

Lemma slice_app {A} (l1 l2 l3 : list A) lo hi :
  lo = len l1 → hi = len l1 + len l2 → slice lo hi (l1 ++ l2 ++ l3) = Ret l2.
Proof.
  intros -> ->. unfold slice. autorewrite with golen.
  pose proof (len_nonneg l1); pose proof (len_nonneg l2); pose proof (len_nonneg l3).
  zcases; unfold len; f_equal.
  rewrite Nat2Z.id, drop_app_length.
  replace (Z.to_nat _) with (length l2) by lia. by rewrite take_app_length.
Qed.

(** A slice inside the bounds splits the list in three. *)
Lemma slice_split {A} lo hi (l : list A) : 0 <= lo → lo <= hi → hi <= len l →
  ∃ l1 l2 l3, l = l1 ++ l2 ++ l3 ∧ len l1 = lo ∧ len l2 = hi - lo ∧ slice lo hi l = Ret l2.
Proof.
  intros H1 H2 H3. unfold len in *.
  exists (take (Z.to_nat lo) l), (take (Z.to_nat (hi - lo)) (drop (Z.to_nat lo) l)),
    (drop (Z.to_nat (hi - lo)) (drop (Z.to_nat lo) l)).
  rewrite take_drop, take_drop, !length_take, length_drop.
  repeat split; [lia|lia|]. unfold slice, len. zcases. done.
Qed.

Lemma slice_Ret {A} lo hi (l : list A) : 0 <= lo → lo <= hi → hi <= len l →
  slice lo hi l = Ret (take (Z.to_nat (hi - lo)) (drop (Z.to_nat lo) l)).
Proof. intros. unfold slice. zcases. done. Qed.

Lemma with_slice_app {A} (l1 l2 l3 l2' : list A) lo hi f :
  lo = len l1 → hi = len l1 + len l2 → f l2 = Ret l2' →
  with_slice lo hi (l1 ++ l2 ++ l3) f = Ret (l1 ++ l2' ++ l3).
Proof.
  intros Hlo Hhi Hf. unfold with_slice. rewrite (slice_app l1 l2 l3) by done. cbn.
  rewrite Hf. cbn. f_equal. subst. unfold len.
  replace (Z.to_nat (Z.of_nat (length l1) + Z.of_nat (length l2)))
    with (length (l1 ++ l2)) by (rewrite length_app; lia).
  rewrite Nat2Z.id, take_app_length.
  by rewrite (app_assoc l1 l2 l3), drop_app_length.
Qed.

Lemma with_slice_prefix {A} (l2 l3 l2' : list A) hi f :
  hi = len l2 → f l2 = Ret l2' → with_slice 0 hi (l2 ++ l3) f = Ret (l2' ++ l3).
Proof. intros H1 H2. by apply (with_slice_app [] l2 l3 l2'). Qed.

Lemma go_copy_same {A} (dst src : list A) : length dst = length src → go_copy dst src = src.
Proof.
  intros E. unfold go_copy. rewrite E, firstn_all, <- E, drop_all. apply app_nil_r.
Qed.

Lemma go_copy_short {A} (d1 d2 src : list A) :
  length d1 = length src → go_copy (d1 ++ d2) src = src ++ d2.
Proof.
  intros E. unfold go_copy. rewrite length_app, E.
  rewrite take_ge by lia. by rewrite <- E, drop_app_length.
Qed.

Lemma length_go_copy {A} (dst src : list A) : length (go_copy dst src) = length dst.
Proof. unfold go_copy. rewrite length_app, length_take, length_drop. lia. Qed.

Lemma idx_middle {A} (l1 l2 : list A) x i : i = len l1 → idx (l1 ++ x :: l2) i = Ret x.
Proof.
  intros ->. unfold idx, len. zcases. by rewrite Nat2Z.id, list_lookup_middle.
Qed.

Lemma idx_lookup {A} (l : list A) i x : 0 <= i → l !! Z.to_nat i = Some x → idx l i = Ret x.
Proof. intros Hi Hx. unfold idx. zcases. by rewrite Hx. Qed.

Lemma set_idx_middle {A} (l1 l2 : list A) x y i :
  i = len l1 → set_idx (l1 ++ x :: l2) i y = Ret (l1 ++ y :: l2).
Proof.
  intros ->. unfold set_idx. autorewrite with golen.
  pose proof (len_nonneg l1); pose proof (len_nonneg l2). zcases.
  unfold len. rewrite Nat2Z.id. f_equal. rewrite insert_app_r_alt by lia.
  by rewrite Nat.sub_diag.
Qed.
