(* ===== verification/GoBytes.v ===== *)
(** * Bytes and the big-endian coder

    Octets of packets ([Byte.byte]), Go strings as byte sequences, and the part
    of [encoding/binary] the program uses through [coder] (src/encode.go):
    [Uint16], [Uint64], [PutUint16] and [PutUint64] of [binary.BigEndian]. *)

From Stdlib Require Import Strings.Byte.
From S2P Require Import Prelude.

Abbreviation byte := Byte.byte.

(** The value of an octet and the octet of a (wrapped) value: [byte(z)]. *)
Definition b2z (b : byte) : Z := Z.of_N (Byte.to_N b).
Definition z2b (z : Z) : byte := default x00 (Byte.of_N (Z.to_N (u8 z))).

#[export] Instance byte_eq_dec : EqDecision byte := Byte.byte_eq_dec.

(** A Go string is a sequence of octets. *)
Abbreviation gostring := (list byte).

(** The space character, [' ']. *)
Definition space : byte := x20.

(** Most significant octet first. *)
Definition be_get (l : list byte) : Z :=
  fold_left (λ a b, Z.lor (Z.shiftl a 8) (b2z b)) l 0.

Fixpoint be_put (n : nat) (v : Z) : list byte :=
  match n with
  | O => []
  | S k => z2b (Z.shiftr v (8 * Z.of_nat k)) :: be_put k v
  end.

(** [coder.Uint16(b)], [coder.Uint64(b)]: they read the first octets of [b] and
    panic when [b] is shorter. *)
Definition be_uint (n : nat) (b : list byte) : outcome Z :=
  if decide (n <= length b)%nat then Ret (be_get (take n b)) else Panic.

(** [coder.PutUint16(b, v)], [coder.PutUint64(b, v)]. *)
Definition be_put_uint (n : nat) (v : Z) (b : list byte) : outcome (list byte) :=
  if decide (n <= length b)%nat then Ret (be_put n v ++ drop n b) else Panic.

Definition Uint16 : list byte → outcome Z := be_uint 2.
Definition Uint64 : list byte → outcome Z := be_uint 8.
Definition PutUint16 (b : list byte) (v : Z) : outcome (list byte) := be_put_uint 2 v b.
Definition PutUint64 (b : list byte) (v : Z) : outcome (list byte) := be_put_uint 8 v b.

(** ** Octets *)

Lemma b2z_range b : 0 <= b2z b < 256.
Proof. unfold b2z. pose proof (Byte.to_N_bounded b). lia. Qed.

Lemma b2z_z2b z : b2z (z2b z) = u8 z.
Proof.
  unfold b2z, z2b. assert (0 <= u8 z < 256) as Hz by word.
  destruct (Byte.of_N (Z.to_N (u8 z))) as [b|] eqn:E; cbn.
  - apply Byte.to_of_N in E. rewrite E. lia.
  - apply Byte.of_N_None_iff in E. lia.
Qed.

Lemma z2b_b2z b : z2b (b2z b) = b.
Proof.
  pose proof (b2z_range b) as H. unfold z2b, u8. rewrite Z.mod_small; [|done].
  unfold b2z. rewrite N2Z.id. by rewrite Byte.of_to_N.
Qed.

Lemma b2z_inj b1 b2 : b2z b1 = b2z b2 → b1 = b2.
Proof. intros H. by rewrite <- (z2b_b2z b1), H, z2b_b2z. Qed.

(** ** Big-endian numbers *)

Lemma lor_shiftl_add a n b : 0 <= n → 0 <= b < 2 ^ n → Z.lor (Z.shiftl a n) b = a * 2 ^ n + b.
Proof.
  intros Hn Hb. rewrite Z.shiftl_mul_pow2; [|done].
  rewrite <- Z.add_lor_land.
  enough (Z.land (a * 2 ^ n) b = 0) by lia.
  apply Z.bits_inj'. intros k Hk. rewrite Z.land_spec, Z.bits_0.
  destruct (Z.lt_ge_cases k n) as [Hkn|Hkn].
  - rewrite <- Z.shiftl_mul_pow2 by done. by rewrite Z.shiftl_spec_low.
  - assert (Z.testbit b k = false) as ->; [|by rewrite andb_false_r].
    apply Z.testbit_false; [lia|]. rewrite Z.div_small; [done|]. split; [lia|].
    apply Z.lt_le_trans with (2 ^ n); [lia|]. apply Z.pow_le_mono_r; lia.
Qed.

Lemma be_get_snoc l b : be_get (l ++ [b]) = be_get l * 256 + b2z b.
Proof.
  unfold be_get. rewrite fold_left_app. cbn [fold_left].
  apply (lor_shiftl_add _ 8); [lia|]. pose proof (b2z_range b). lia.
Qed.

Lemma be_get_range l : 0 <= be_get l < 2 ^ (8 * len l).
Proof.
  induction l as [|b l IH] using rev_ind; [done|].
  rewrite be_get_snoc. autorewrite with golen. pose proof (b2z_range b).
  replace (8 * (len l + (1 + 0))) with (8 * len l + 8) by lia.
  rewrite Z.pow_add_r; [|pose proof (len_nonneg l); lia|lia].
  change (2 ^ 8) with 256. lia.
Qed.

Lemma length_be_put n v : length (be_put n v) = n.
Proof. induction n; cbn; congruence. Qed.

Lemma len_be_put n v : len (be_put n v) = Z.of_nat n.
Proof. unfold len. by rewrite length_be_put. Qed.

#[export] Hint Rewrite len_be_put : golen.

(** Writing from the most significant octet is writing the tail after the
    shifted head: the recursion of [be_put] from the other end. *)
Lemma be_put_snoc n v : be_put (S n) v = be_put n (Z.shiftr v 8) ++ [z2b v].
Proof.
  induction n as [|n IH]; [done|].
  change (be_put (S (S n)) v) with (z2b (Z.shiftr v (8 * Z.of_nat (S n))) :: be_put (S n) v).
  rewrite IH. cbn [be_put app]. f_equal. f_equal.
  rewrite Z.shiftr_shiftr; [|lia]. f_equal. lia.
Qed.

Lemma be_get_put n v : be_get (be_put n v) = v mod 2 ^ (8 * Z.of_nat n).
Proof.
  revert v. induction n as [|n IH]; intros v; [by rewrite Z.mod_1_r|].
  rewrite be_put_snoc, be_get_snoc, IH, b2z_z2b, Z.shiftr_div_pow2; [|lia].
  unfold u8. change (2 ^ 8) with 256.
  replace (8 * Z.of_nat (S n)) with (8 + 8 * Z.of_nat n) by lia.
  rewrite Z.pow_add_r; [|lia|lia]. change (2 ^ 8) with 256.
  rewrite (Z.rem_mul_r v 256); [|lia|lia]. lia.
Qed.

Lemma be_put_get l : be_put (length l) (be_get l) = l.
Proof.
  induction l as [|b l IH] using rev_ind; [done|].
  rewrite length_app, Nat.add_1_r, be_put_snoc, be_get_snoc.
  pose proof (b2z_range b) as Hb. f_equal.
  - rewrite Z.shiftr_div_pow2; [|lia]. change (2 ^ 8) with 256.
    rewrite Z.div_add_l; [|lia]. by rewrite (Z.div_small (b2z b)), Z.add_0_r by done.
  - f_equal. apply b2z_inj. rewrite b2z_z2b. unfold u8.
    rewrite Z.add_comm, Z.mod_add by lia. by apply Z.mod_small.
Qed.

(** ** The coder *)

Lemma Uint16_put v rest : Uint16 (be_put 2 v ++ rest) = Ret (u16 v).
Proof.
  unfold Uint16, be_uint. rewrite decide_True; [|cbn; lia].
  rewrite take_app_length' by (by rewrite length_be_put). by rewrite be_get_put.
Qed.

Lemma Uint64_put v rest : Uint64 (be_put 8 v ++ rest) = Ret (u64 v).
Proof.
  unfold Uint64, be_uint. rewrite decide_True; [|cbn; lia].
  rewrite take_app_length' by (by rewrite length_be_put). by rewrite be_get_put.
Qed.

Lemma be_uint_exact n b : length b = n → be_uint n b = Ret (be_get b).
Proof.
  intros <-. unfold be_uint. rewrite decide_True; [|lia]. by rewrite firstn_all.
Qed.

Lemma be_put_uint_exact n v b : length b = n → be_put_uint n v b = Ret (be_put n v).
Proof.
  intros <-. unfold be_put_uint. rewrite decide_True; [|lia].
  by rewrite drop_all, app_nil_r.
Qed.

(** Only the low octets are written. *)
Lemma be_put_mod n v : be_put n (v mod 2 ^ (8 * Z.of_nat n)) = be_put n v.
Proof.
  rewrite <- be_get_put. rewrite <- (length_be_put n v) at 1. apply be_put_get.
Qed.

(** ** Little-endian numbers: integers in memory *)

Definition le_get (l : list byte) : Z := be_get (rev l).
Definition le_put (n : nat) (v : Z) : list byte := rev (be_put n v).

Lemma length_le_put n v : length (le_put n v) = n.
Proof. unfold le_put. by rewrite length_rev, length_be_put. Qed.

Lemma le_get_put n v : le_get (le_put n v) = v mod 2 ^ (8 * Z.of_nat n).
Proof. unfold le_get, le_put. by rewrite rev_involutive, be_get_put. Qed.
