(* ===== verification/NetAddr.v ===== *)
(** * Addresses (package net)

    The part of package [net] the program uses: IPv4 addresses in four or sixteen
    octets, UDP addresses, and [strings.Split].  An address is an octet list; the
    nil address is the empty list. *)

From Stdlib Require Import Strings.Byte.
From S2P Require Import Prelude.
From S2P Require Import GoBytes.

(** [net.UDPAddr] *)
Record UDPAddr : Type := mkUDPAddr { IP : list byte; Port : Z }.

Definition v4InV6Prefix : list byte := replicate 10 x00 ++ [xff; xff].

Definition IPv4 (a b c d : byte) : list byte := v4InV6Prefix ++ [a; b; c; d].

(** [IP.To4]; [None] is nil. *)
Definition To4 (ip : list byte) : option (list byte) :=
  if decide (length ip = 4%nat) then Some ip
  else if decide (length ip = 16%nat ∧ take 12 ip = v4InV6Prefix) then Some (drop 12 ip)
  else None.

Definition IsMulticast (ip : list byte) : bool :=
  match To4 ip with
  | Some (a :: _) => Z.land (b2z a) 0xf0 =? 0xe0
  | Some [] => false
  | None => bool_decide (length ip = 16%nat) && bool_decide (ip !! 0%nat = Some xff)
  end.

(** [strings.Split(s, sep)] for a separator of one octet. *)
Fixpoint Split (sep : byte) (s : gostring) : list gostring :=
  match s with
  | [] => [[]]
  | x :: s' =>
      if decide (x = sep) then [] :: Split sep s'
      else match Split sep s' with
           | [] => [[x]]
           | p :: ps => (x :: p) :: ps
           end
  end.

Definition IPv4zero : list byte := IPv4 x00 x00 x00 x00.

(** ** Lemmas *)

Lemma Split_ne sep s : Split sep s ≠ [].
Proof. destruct s as [|x s]; cbn; [done|]. case_decide; [done|]. by destruct (Split sep s). Qed.

(** An entry without a separator is one part, one with a separator several. *)
Lemma Split_one sep s : sep ∉ s → Split sep s = [s].
Proof.
  induction s as [|x s IH]; [done|]. intros Hn. apply not_elem_of_cons in Hn as [Hx Hn].
  cbn. rewrite IH by done. by rewrite decide_False by congruence.
Qed.

Lemma Split_two sep s t : sep ∉ s → sep ∉ t → Split sep (s ++ sep :: t) = [s; t].
Proof.
  intros Hs Ht. induction s as [|x s IH]; cbn.
  - by rewrite decide_True, Split_one.
  - apply not_elem_of_cons in Hs as [Hx Hs]. rewrite IH by done. by rewrite decide_False by congruence.
Qed.

Lemma IsMulticast_default : IsMulticast (IPv4 xe0 x00 x00 x01) = true.
Proof. reflexivity. Qed.

Lemma To4_IPv4 a b c d : To4 (IPv4 a b c d) = Some [a; b; c; d].
Proof. reflexivity. Qed.

Lemma To4_length ip q : To4 ip = Some q → length q = 4%nat.
Proof.
  unfold To4. repeat case_decide; intros; simplify_eq; [done|].
  rewrite length_drop. lia.
Qed.
