(* ===== verification/Codec.v ===== *)
(** * The MoldUDP64 wire format (src/moldUDP.go)

    The downstream packet header and the message blocks: [EncodeHead],
    [DecodeHead], [Marshal], [Unmarshal], on octet buffers, with their error
    values and the in-place writes of the source. *)

From Stdlib Require Import Strings.Byte.
From S2P Require Import Prelude.
From S2P Require Import GoBytes.

(** ** Data *)

(** The package's error values (src/moldUDP.go, src/client.go, src/mcast.go),
    and the [errno] values of failed system calls. *)
Inductive error : Type :=
| errTooShort
| errUnmarshal
| errMessageCnt
| errClosed
| errNoIP
| errDecodeHead
| errInvMessageCnt
| errSession
| errNotSupport
| errOpened
| errModeRW
| errUDPlen
| Errno (e : Z)
| OtherError (code : Z).

#[export] Instance error_eq_dec : EqDecision error.
Proof. solve_decision. Defined.

Definition headSize : Z := 20.

Record Message : Type := mkMessage { Data : list byte }.

(** The zero value of the struct. *)
Definition zeroMessage : Message := mkMessage [].

Record Header : Type := mkHeader {
  Session : gostring;
  SeqNo : Z;
  MessageCnt : Z
}.

Definition zeroHeader : Header := mkHeader [] 0 0.

(** ** Operations *)

(** [EncodeHead]: the buffer afterwards and the error. *)
Definition EncodeHead (buff : list byte) (head : Header) : outcome (list byte * option error) :=
  if len buff <? headSize then Ret (buff, Some errTooShort)
  else
    buff ← for_range 10 0 (λ i b, set_idx b i space) buff;
    buff ← with_slice 0 10 buff (λ b, Ret (go_copy b (Session head)));
    buff ← with_slice 10 18 buff (λ b, PutUint64 b (SeqNo head));
    buff ← with_slice 18 20 buff (λ b, PutUint16 b (MessageCnt head));
    Ret (buff, None).

(** The loop of [DecodeHead] that looks for the end of the session name. *)
Definition session_end (buff : list byte) : outcome Z :=
  for_loop go_fuel (λ i,
    if 0 <? i then
      x ← idx buff i;
      if decide (x ≠ space) then Ret (inr (i + 1)) else Ret (inl (i - 1))
    else Ret (inr i)) 9.

(** [DecodeHead]: the header afterwards and the error. *)
Definition DecodeHead (buff : list byte) (head : Header) : outcome (Header * option error) :=
  if len buff <? headSize then Ret (head, Some errTooShort)
  else
    i ← session_end buff;
    session ← slice 0 i buff;
    b ← slice 10 18 buff;
    seqNo ← Uint64 b;
    b ← slice 18 20 buff;
    cnt ← Uint16 b;
    Ret (mkHeader session seqNo cnt, None).

(** One iteration of the loop of [Unmarshal]; the state is [(ret, i, off)].
    Leaving with [None] is the [return nil, errUnmarshal] inside the loop. *)
Definition Unmarshal_body (buff : list byte) (cnt : Z) (s : list Message * Z * Z)
    : outcome ((list Message * Z * Z) + option (list Message * Z)) :=
  let '(ret, i, off) := s in
  let n := len buff in
  if off <? n then
    if n <? off + 2 then Ret (inr None)
    else
      b ← slice off (off + 2) buff;
      ll ← Uint16 b;
      let off := off + 2 in
      if n <? off + ll then Ret (inr None)
      else
        d ← slice off (off + ll) buff;
        let off := off + ll in
        ret ← set_idx ret i (mkMessage d);
        let i := i + 1 in
        if i =? cnt then Ret (inr (Some (ret, off))) else Ret (inl (ret, i, off))
  else Ret (inr (Some (ret, off))).

(** [Unmarshal]: the messages ([None] is the nil slice) and the error. *)
Definition Unmarshal (buff : list byte) (cnt : Z)
    : outcome (option (list Message) * option error) :=
  if cnt =? 0 then Ret (None, None)
  else if cnt <? 0 then Panic
  else
    let ret := replicate (Z.to_nat cnt) zeroMessage in
    r ← for_loop go_fuel (Unmarshal_body buff cnt) (ret, 0, 0);
    match r with
    | None => Ret (None, Some errUnmarshal)
    | Some (ret, off) =>
        if negb (off =? len buff) then Ret (None, Some errUnmarshal)
        else Ret (Some ret, None)
    end.

(** The loop of [Marshal] over the messages left, with the buffer and the two
    results so far. *)
Fixpoint Marshal_loop (msgs : list Message) (buff : list byte) (msgCnt bufLen : Z)
    : outcome (list byte * Z * Z) :=
  match msgs with
  | [] => Ret (buff, msgCnt, bufLen)
  | msg :: msgs' =>
      let mLen := len (Data msg) in
      if len buff <? bufLen + 2 + mLen then Ret (buff, msgCnt, bufLen)
      else
        buff ← with_slice bufLen (bufLen + 2) buff (λ b, PutUint16 b (u16 mLen));
        let bufLen := bufLen + 2 in
        if 0 <? mLen then
          buff ← with_slice bufLen (bufLen + mLen) buff (λ b, Ret (go_copy b (Data msg)));
          Marshal_loop msgs' buff (msgCnt + 1) (bufLen + mLen)
        else Marshal_loop msgs' buff (msgCnt + 1) bufLen
  end.

(** [Marshal]: the buffer afterwards, [msgCnt] and [bufLen]. *)
Definition Marshal (buff : list byte) (msgs : list Message) : outcome (list byte * Z * Z) :=
  Marshal_loop msgs buff 0 0.

(** ** Specification *)

(** The session field: ten octets, padded with spaces. *)
Definition session_field (s : gostring) : list byte := take 10 (s ++ replicate 10 space).

(** The twenty octets of a header. *)
Definition head_bytes (h : Header) : list byte :=
  session_field (Session h) ++ be_put 8 (SeqNo h) ++ be_put 2 (MessageCnt h).

(** The session names that survive a round trip. *)
Definition wf_session (s : gostring) : Prop :=
  s = [] ∨ (2 <= len s <= 10 ∧ last s ≠ Some space).

Definition wf_header (h : Header) : Prop :=
  wf_session (Session h) ∧ 0 <= SeqNo h <= max_u64 ∧ 0 <= MessageCnt h < 65536.

(** The octets of a message block, and of a sequence of them. *)
Definition wire1 (m : Message) : list byte := be_put 2 (len (Data m)) ++ Data m.
Definition wire (ms : list Message) : list byte := concat (map wire1 ms).

Definition wf_message (m : Message) : Prop := len (Data m) < 65536.

(** How many messages [Marshal] takes: the longest prefix that fits. *)
Fixpoint fits (n : Z) (ms : list Message) : nat :=
  match ms with
  | [] => O
  | m :: ms' =>
      if n <? 2 + len (Data m) then O else S (fits (n - (2 + len (Data m))) ms')
  end.

(** ** Header lemmas *)

Lemma length_session_field s : length (session_field s) = 10%nat.
Proof. unfold session_field. rewrite length_take, length_app, length_replicate. lia. Qed.

Lemma length_head_bytes h : length (head_bytes h) = 20%nat.
Proof. unfold head_bytes. by rewrite !length_app, length_session_field, !length_be_put. Qed.

Lemma len_head_bytes h : len (head_bytes h) = headSize.
Proof. unfold len. by rewrite length_head_bytes. Qed.

#[export] Hint Rewrite len_head_bytes : golen.

(** Copying a name over ten spaces gives the session field. *)
Lemma copy_session s : go_copy (replicate 10 space) s = session_field s.
Proof.
  unfold go_copy, session_field. rewrite length_replicate, take_app.
  f_equal. rewrite drop_replicate, take_replicate. f_equal. lia.
Qed.

(** A buffer of at least twenty octets, taken apart at the header's fields. *)
Lemma header_split (buff : list byte) : headSize <= len buff →
  ∃ f s c rest, buff = f ++ s ++ c ++ rest ∧
    length f = 10%nat ∧ length s = 8%nat ∧ length c = 2%nat.
Proof.
  unfold headSize, len. intros H.
  exists (take 10 buff), (take 8 (drop 10 buff)), (take 2 (drop 8 (drop 10 buff))),
    (drop 2 (drop 8 (drop 10 buff))).
  rewrite !take_drop, !length_take, !length_drop. repeat split; lia.
Qed.

Lemma fill_spaces (l f rest : list byte) :
  for_range (length f) (len l) (λ i b, set_idx b i space) (l ++ f ++ rest)
    = Ret (l ++ replicate (length f) space ++ rest).
Proof.
  revert l. induction f as [|x f IH]; intros l; [done|]. cbn [length for_range app].
  rewrite set_idx_middle by done. cbn [mbind outcome_mbind].
  specialize (IH (l ++ [space])). autorewrite with golen in IH.
  rewrite <- !app_assoc in IH. cbn [app] in IH.
  by replace (len l + 1) with (len l + (1 + 0)) by lia.
Qed.

Lemma EncodeHead_short buff h : len buff < headSize → EncodeHead buff h = Ret (buff, Some errTooShort).
Proof. intros. unfold EncodeHead. zcases. done. Qed.

Lemma EncodeHead_spec buff h : headSize <= len buff →
  EncodeHead buff h = Ret (head_bytes h ++ drop 20 buff, None).
Proof.
  intros H. destruct (header_split buff H) as (f & s & c & rest & -> & Hf & Hs & Hc).
  unfold EncodeHead. zcases.
  pose proof (fill_spaces [] f (s ++ c ++ rest)) as Hfill. rewrite Hf in Hfill.
  change (len []) with 0 in Hfill. cbn [app] in Hfill. rewrite Hfill.
  cbn [mbind outcome_mbind].
  rewrite (with_slice_prefix (replicate 10 space) _ (session_field (Session h)))
    by (rewrite ?copy_session; done).
  cbn [mbind outcome_mbind].
  pose proof (length_session_field (Session h)) as Hl.
  rewrite (with_slice_app _ s (c ++ rest) (be_put 8 (SeqNo h)))
    by (unfold len, PutUint64; rewrite ?Hl, ?Hs, ?be_put_uint_exact; done).
  cbn [mbind outcome_mbind]. rewrite !app_assoc, <- (app_assoc _ c rest).
  rewrite (with_slice_app _ c rest (be_put 2 (MessageCnt h)))
    by (unfold len, PutUint16; rewrite ?length_app, ?length_be_put, ?Hl, ?Hc, ?be_put_uint_exact; done).
  cbn [mbind outcome_mbind]. f_equal. f_equal. unfold head_bytes.
  rewrite drop_app_length' by (rewrite !length_app; lia). by rewrite !app_assoc.
Qed.

(** Where [DecodeHead] cuts the session field [f]: after the last octet that is
    not a space, except that octet 0 is never looked at. *)
Definition session_cut (f : list byte) (r : Z) : Prop :=
  (r = 0 ∨ (2 <= r <= 10 ∧ ∃ x, f !! Z.to_nat (r - 1) = Some x ∧ x ≠ space)) ∧
  ∀ j, Z.max 1 r <= j < 10 → f !! Z.to_nat j = Some space.

Lemma session_end_spec f rest : length f = 10%nat →
  ∃ r, session_end (f ++ rest) = Ret r ∧ session_cut f r.
Proof.
  intros Hf. unfold session_end.
  eapply (for_loop_spec _ (λ i, 0 <= i <= 9 ∧ ∀ j, i < j < 10 → f !! Z.to_nat j = Some space)
    (session_cut f) (λ i, i)).
  - intros i [Hi Hsp]. zcase; [|right; exists i; split; [done|]; split; [lia|]].
    + destruct (lookup_lt_is_Some_2 f (Z.to_nat i)) as [x Hx]; [lia|].
      rewrite (idx_lookup _ _ x); [|lia|by apply lookup_app_l_Some]. cbn. case_decide as Hd.
      * right. exists (i + 1). split; [done|]. split; [right; split; [lia|]|].
        -- exists x. by replace (i + 1 - 1) with i by lia.
        -- intros j Hj. apply Hsp. lia.
      * subst x.
        left. exists (i - 1). repeat split; [lia|lia| |lia].
        intros j Hj. destruct (decide (j = i)) as [->|]; [done|]. apply Hsp. lia.
    + intros j Hj. apply Hsp. lia.
  - intros i [Hi _]. lia.
  - split; [lia|]. intros j Hj. lia.
  - unfold go_fuel. lia.
Qed.

Lemma session_cut_unique f r r' : session_cut f r → session_cut f r' → r = r'.
Proof.
  intros [H1 H2] [H1' H2'].
  destruct H1 as [->|[Hr (x & Hx & Hne)]], H1' as [->|[Hr' (x' & Hx' & Hne')]]; [done|..].
  - rewrite H2 in Hx' by lia. congruence.
  - rewrite H2' in Hx by lia. congruence.
  - destruct (Z.lt_trichotomy r r') as [Hlt|[->|Hlt]]; [|done|].
    + rewrite H2 in Hx' by lia. congruence.
    + rewrite H2' in Hx by lia. congruence.
Qed.

Lemma DecodeHead_short buff h : len buff < headSize → DecodeHead buff h = Ret (h, Some errTooShort).
Proof. intros. unfold DecodeHead. zcases. done. Qed.

(** [DecodeHead] reads the three fields. *)
Lemma DecodeHead_fields f s c rest h0 :
  length f = 10%nat → length s = 8%nat → length c = 2%nat →
  ∃ r, session_cut f r ∧
    DecodeHead (f ++ s ++ c ++ rest) h0 =
      Ret (mkHeader (take (Z.to_nat r) f) (be_get s) (be_get c), None).
Proof.
  intros Hf Hs Hc. unfold DecodeHead.
  assert (headSize <= len (f ++ s ++ c ++ rest)) as Hlen
    by (unfold headSize, len; rewrite !length_app; lia).
  zcases. clear E Hlen. destruct (session_end_spec f (s ++ c ++ rest) Hf) as (r & -> & Hr).
  exists r; split; [done|]. cbn [mbind outcome_mbind].
  assert (0 <= r <= 10) as Hr' by (destruct Hr as [[->|[? _]] _]; lia).
  rewrite (slice_Ret 0 r); [|lia|lia|unfold len; rewrite !length_app; lia].
  rewrite Z.sub_0_r, drop_0. rewrite take_app_le by lia. cbn [mbind outcome_mbind].
  rewrite (slice_app f s (c ++ rest) 10 18) by (unfold len; lia). cbn [mbind outcome_mbind].
  unfold Uint64, Uint16. rewrite be_uint_exact by done. cbn [mbind outcome_mbind].
  rewrite (app_assoc f s), (slice_app (f ++ s) c rest 18 20)
    by (unfold len; rewrite ?length_app; lia). cbn [mbind outcome_mbind].
  by rewrite be_uint_exact by done.
Qed.

(** The session field of a well-formed name is cut at its length. *)
Lemma session_cut_wf s : wf_session s → session_cut (session_field s) (len s).
Proof.
  unfold session_field. intros [->|[Hl Hlast]].
  { split; [by left|]. intros j Hj. unfold len in Hj. cbn [length] in Hj.
    rewrite app_nil_l, take_ge by (rewrite length_replicate; lia).
    apply lookup_replicate_2. lia. }
  unfold len in *. split.
  - right. split; [lia|].
    destruct (last s) as [x|] eqn:E; [|by apply last_None in E; subst; cbn in *; lia].
    exists x. split; [|congruence]. rewrite lookup_take_lt by lia.
    rewrite lookup_app_l by lia. rewrite last_lookup in E.
    by replace (Z.to_nat (Z.of_nat (length s) - 1)) with (pred (length s)) by lia.
  - intros j Hj. rewrite lookup_take_lt by lia. rewrite lookup_app_r by lia.
    apply lookup_replicate_2. lia.
Qed.

(** A name cut out of a field of ten octets is well formed. *)
Lemma wf_session_cut f r : length f = 10%nat → session_cut f r → wf_session (take (Z.to_nat r) f).
Proof.
  intros Hf [[->|[Hr (x & Hx & Hne)]] _]; [by left|right].
  unfold len. rewrite length_take. split; [lia|].
  rewrite last_lookup, length_take.
  rewrite lookup_take_lt by lia.
  replace (pred (Z.to_nat r `min` length f)) with (Z.to_nat (r - 1)) by lia.
  rewrite Hx. congruence.
Qed.

(** Padding a cut name again gives the field back, unless octet 0 was the only
    one that is not a space. *)
Lemma session_field_cut f r : length f = 10%nat → session_cut f r →
  (r ≠ 0 ∨ f !! 0%nat = Some space) → session_field (take (Z.to_nat r) f) = f.
Proof.
  intros Hf [Hr Hsp] H0. apply list_eq_same_length with (n := 10%nat);
    [done|by apply length_session_field|].
  assert (0 <= r <= 10) as Hr' by (destruct Hr as [->|[? _]]; lia).
  intros i x y Hi Hx Hy. unfold session_field in Hx. rewrite lookup_take_lt in Hx by lia.
  destruct (decide (i < Z.to_nat r)%nat) as [Hlt|Hge].
  - rewrite lookup_app_l in Hx by (rewrite length_take; lia).
    rewrite lookup_take_lt in Hx by lia. congruence.
  - rewrite lookup_app_r in Hx by (rewrite length_take; lia).
    apply lookup_replicate in Hx as [-> _].
    destruct (decide (i = 0)%nat) as [->|Hi0].
    + destruct H0 as [H0|H0]; [lia|congruence].
    + specialize (Hsp (Z.of_nat i)). rewrite Nat2Z.id in Hsp.
      assert (f !! i = Some space) by (apply Hsp; lia). congruence.
Qed.

(** ** Message-block lemmas *)

Lemma len_wire1 m : len (wire1 m) = 2 + len (Data m).
Proof. unfold wire1. by autorewrite with golen. Qed.

Lemma wire_cons m ms : wire (m :: ms) = wire1 m ++ wire ms.
Proof. reflexivity. Qed.

Lemma wire_one m : wire [m] = wire1 m.
Proof. apply app_nil_r. Qed.

Lemma wire_app ms1 ms2 : wire (ms1 ++ ms2) = wire ms1 ++ wire ms2.
Proof. unfold wire. by rewrite map_app, concat_app. Qed.

#[export] Hint Rewrite len_wire1 : golen.

(** A message block is self-delimiting. *)
Lemma wire1_inj m1 m2 r1 r2 : wf_message m1 → wf_message m2 →
  wire1 m1 ++ r1 = wire1 m2 ++ r2 → m1 = m2 ∧ r1 = r2.
Proof.
  unfold wf_message, wire1. intros H1 H2. rewrite <- !app_assoc. intros E.
  apply app_inj_1 in E as [Eh Ed]; [|by rewrite !length_be_put].
  apply (f_equal be_get) in Eh. rewrite !be_get_put in Eh.
  change (2 ^ (8 * Z.of_nat 2)) with 65536 in Eh.
  rewrite !Z.mod_small in Eh by (pose proof (len_nonneg (Data m1)); pose proof (len_nonneg (Data m2)); lia).
  apply app_inj_1 in Ed as [Ed ->]; [|unfold len in Eh; lia].
  destruct m1, m2. cbn in *. by subst.
Qed.

(** ... hence so is the start of a sequence of blocks. *)
Lemma wire_prefix ms ms' rest : Forall wf_message ms → Forall wf_message ms' →
  wire ms ++ rest = wire ms' → ∃ ms'', ms' = ms ++ ms'' ∧ rest = wire ms''.
Proof.
  intros Hms. revert ms'. induction Hms as [|m ms Hm Hms IH]; intros ms' Hms' E; [by exists ms'|].
  rewrite wire_cons, <- app_assoc in E. destruct Hms' as [|m' ms' Hm' Hms'].
  { apply (f_equal len) in E. autorewrite with golen in E. change (len (wire [])) with 0 in E.
    pose proof (len_nonneg (Data m)). pose proof (len_nonneg (wire ms)).
    pose proof (len_nonneg rest). lia. }
  rewrite wire_cons in E. apply wire1_inj in E as [-> E]; [|done|done].
  destruct (IH ms' Hms' E) as (ms'' & -> & ->). by exists ms''.
Qed.

(** Reading the next block of a buffer, where there is one. *)
Lemma Unmarshal_body_block ms d rest cnt ret1 x ret2 :
  len d < 65536 → len ret1 = len ms →
  Unmarshal_body (wire ms ++ wire1 (mkMessage d) ++ rest) cnt
    (ret1 ++ x :: ret2, len ms, len (wire ms)) =
  let ret := ret1 ++ mkMessage d :: ret2 in
  let off := len (wire ms) + len (wire1 (mkMessage d)) in
  if len ms + 1 =? cnt then Ret (inr (Some (ret, off)))
  else Ret (inl (ret, len ms + 1, off)).
Proof.
  intros Hd Hret. unfold Unmarshal_body, wire1. cbn [Data].
  set (W := wire ms). set (B := W ++ (be_put 2 (len d) ++ d) ++ rest).
  assert (len B = len W + 2 + len d + len rest) as HB
    by (unfold B; autorewrite with golen; lia).
  pose proof (len_nonneg W). pose proof (len_nonneg d). pose proof (len_nonneg rest).
  zcase; zcase.
  assert (B = W ++ be_put 2 (len d) ++ (d ++ rest)) as B1 by (unfold B; by rewrite <- !app_assoc).
  rewrite B1, (slice_app W) by (autorewrite with golen; lia). cbn [mbind outcome_mbind].
  rewrite <- (app_nil_r (be_put 2 (len d))), Uint16_put, u16_small by lia.
  cbn [mbind outcome_mbind]. rewrite app_nil_r, <- B1. zcase.
  assert (B = (W ++ be_put 2 (len d)) ++ d ++ rest) as B2 by (unfold B; by rewrite <- !app_assoc).
  rewrite B2, (slice_app (W ++ be_put 2 (len d))) by (autorewrite with golen; lia).
  cbn [mbind outcome_mbind]. rewrite set_idx_middle by done. cbn [mbind outcome_mbind].
  autorewrite with golen. by replace (len W + 2 + len d) with (len W + (Z.of_nat 2 + len d)) by lia.
Qed.

(** No well-formed block at the start of [l]. *)
Definition stuck (l : list byte) : Prop := ∀ m r, wf_message m → l ≠ wire1 m ++ r.

Lemma block_of_bytes h t : length h = 2%nat → be_get h <= len t →
  ∃ m r, wf_message m ∧ h ++ t = wire1 m ++ r.
Proof.
  intros Hh Hl. pose proof (be_get_range h) as Hr. unfold len in Hr at 1. rewrite Hh in Hr.
  change (2 ^ (8 * Z.of_nat 2)) with 65536 in Hr.
  set (d := take (Z.to_nat (be_get h)) t). assert (len d = be_get h) as Hd.
  { unfold d, len in *. rewrite length_take. lia. }
  exists (mkMessage d), (drop (Z.to_nat (be_get h)) t). split.
  - unfold wf_message. cbn [Data]. lia.
  - unfold wire1. cbn [Data]. rewrite Hd. replace 2%nat with (length h) by done.
    rewrite be_put_get, <- app_assoc. unfold d. by rewrite take_drop.
Qed.

Lemma Unmarshal_body_stuck ms rest cnt ret i : rest ≠ [] → stuck rest →
  Unmarshal_body (wire ms ++ rest) cnt (ret, i, len (wire ms)) = Ret (inr None).
Proof.
  intros Hne Hst. unfold Unmarshal_body. autorewrite with golen.
  assert (0 < len rest) by (destruct rest; [done|]; rewrite len_cons; pose proof (len_nonneg rest); lia).
  zcase. zcase; [done|].
  destruct (slice_split 0 2 rest) as (l0 & h & t & -> & H0 & Hh & _); [lia..|].
  apply len_zero in H0 as ->. cbn [app] in *.
  rewrite (slice_app (wire ms) h t) by lia. cbn [mbind outcome_mbind].
  unfold Uint16. rewrite be_uint_exact by (unfold len in Hh; lia). cbn [mbind outcome_mbind].
  zcase; [done|]. destruct (block_of_bytes h t) as (m & r & Hm & E'); [unfold len in Hh; lia| |].
  - autorewrite with golen in *. lia.
  - by destruct (Hst m r Hm).
Qed.

Lemma block_or_stuck rest :
  rest = [] ∨ (∃ m r, wf_message m ∧ rest = wire1 m ++ r) ∨ (rest ≠ [] ∧ stuck rest).
Proof.
  destruct rest as [|b0 [|b1 t]]; [by left| |]; right.
  - right. split; [done|]. intros m r _ E. apply (f_equal len) in E.
    autorewrite with golen in E. pose proof (len_nonneg (Data m)). pose proof (len_nonneg r). lia.
  - destruct (Z.le_gt_cases (be_get [b0; b1]) (len t)) as [Hle|Hgt].
    + left. by apply (block_of_bytes [b0; b1] t).
    + right. split; [done|]. intros m r Hm E. unfold wire1 in E.
      rewrite <- app_assoc in E. apply (app_inj_1 [b0; b1]) in E as [Eh ->];
        [|by rewrite length_be_put].
      rewrite Eh, be_get_put, Z.mod_small in Hgt; [|unfold wf_message in Hm].
      * autorewrite with golen in Hgt. pose proof (len_nonneg r). lia.
      * pose proof (len_nonneg (Data m)). change (2 ^ (8 * Z.of_nat 2)) with 65536. lia.
Qed.

(** What the loop of [Unmarshal] has read when it is left. *)
Definition unmarshal_read (buff : list byte) (cnt : Z) (r : option (list Message * Z)) : Prop :=
  ∃ ms rest, buff = wire ms ++ rest ∧ Forall wf_message ms ∧ len ms <= cnt ∧
    match r with
    | None => rest ≠ [] ∧ stuck rest
    | Some (ret, off) =>
        ret = ms ++ replicate (Z.to_nat (cnt - len ms)) zeroMessage ∧
        off = len (wire ms) ∧ (rest = [] ∨ len ms = cnt)
    end.

Lemma Unmarshal_loop_spec buff cnt : 0 < cnt → len buff < Z.pos go_fuel →
  ∃ r, for_loop go_fuel (Unmarshal_body buff cnt)
         (replicate (Z.to_nat cnt) zeroMessage, 0, 0) = Ret r ∧ unmarshal_read buff cnt r.
Proof.
  intros Hc Hfuel.
  apply (for_loop_spec _ (λ '(ret, i, off), ∃ ms rest, buff = wire ms ++ rest ∧
      Forall wf_message ms ∧ i = len ms ∧ i < cnt ∧ off = len (wire ms) ∧
      ret = ms ++ replicate (Z.to_nat (cnt - len ms)) zeroMessage)
    _ (λ '(_, _, off), len buff - off)).
  - intros [[ret i] off] (ms & rest & -> & Hms & -> & Hi & -> & ->).
    destruct (block_or_stuck rest) as [->|[(m & r & Hm & ->)|[Hne Hst]]].
    + right. unfold Unmarshal_body. autorewrite with golen. zcase.
      eexists; split; [done|]. exists ms, []. repeat split; [done|lia|by left].
    + replace (Z.to_nat (cnt - len ms)) with (S (Z.to_nat (cnt - (len ms + 1)))) by lia.
      cbn [replicate]. destruct m as [d]. rewrite Unmarshal_body_block by done. cbv zeta.
      pose proof (len_nonneg d).
      assert (len (ms ++ [mkMessage d]) = len ms + 1) as Hl by (by autorewrite with golen).
      assert (len (wire (ms ++ [mkMessage d])) = len (wire ms) + len (wire1 (mkMessage d))) as Hw
        by (rewrite wire_app, wire_one; apply len_app).
      assert (Forall wf_message (ms ++ [mkMessage d])) as Hall by (apply Forall_app; auto).
      assert (wire ms ++ wire1 (mkMessage d) ++ r = wire (ms ++ [mkMessage d]) ++ r) as Hb
        by (by rewrite wire_app, wire_one, <- app_assoc).
      zcase; [right|left]; eexists; (split; [done|]).
      * exists (ms ++ [mkMessage d]), r. rewrite Hl, Hw. repeat split; [done|done|lia| |by right].
        by rewrite <- app_assoc.
      * rewrite len_wire1. cbn [Data]. split; [|lia]. exists (ms ++ [mkMessage d]), r.
        rewrite Hl, Hw, len_wire1. cbn [Data]. repeat split; [done|done|lia|].
        by rewrite <- app_assoc.
    + right. exists None. split; [by apply Unmarshal_body_stuck|].
      exists ms, rest. repeat split; [done|lia|done|done].
  - intros [[ret i] off] (ms & rest & -> & _ & _ & _ & -> & _).
    autorewrite with golen. pose proof (len_nonneg rest). lia.
  - exists [], buff. repeat split; [by constructor|lia|]. cbn [app]. by rewrite Z.sub_0_r.
  - cbv beta iota. rewrite Z.sub_0_r. exact Hfuel.
Qed.

(** [buff] is the wire form of at most [cnt] well-formed messages. *)
Definition blocks_upto (cnt : Z) (buff : list byte) (ms : list Message) : Prop :=
  buff = wire ms ∧ Forall wf_message ms ∧ len ms <= cnt.

Lemma Unmarshal_result buff cnt : 0 < cnt → len buff < Z.pos go_fuel →
  (∃ ms, blocks_upto cnt buff ms ∧
     Unmarshal buff cnt = Ret (Some (ms ++ replicate (Z.to_nat (cnt - len ms)) zeroMessage), None)) ∨
  (Unmarshal buff cnt = Ret (None, Some errUnmarshal) ∧ ∀ ms, ¬ blocks_upto cnt buff ms).
Proof.
  intros Hc Hf. unfold Unmarshal. zcase. zcase.
  destruct (Unmarshal_loop_spec buff cnt Hc Hf) as (r & -> & ms & rest & -> & Hms & Hl & Hr).
  cbn [mbind outcome_mbind].
  assert (rest ≠ [] → len ms = cnt ∨ stuck rest →
    ∀ ms', ¬ blocks_upto cnt (wire ms ++ rest) ms') as Hno.
  { intros Hne Hor ms' (E' & Hms' & Hl').
    destruct (wire_prefix _ _ _ Hms Hms' E') as (ms'' & -> & ->).
    destruct ms'' as [|m ms'']; [done|]. apply Forall_app in Hms' as [_ Hms'].
    apply Forall_cons in Hms' as [Hm _]. destruct Hor as [Hor|Hst].
    - autorewrite with golen in Hl'. pose proof (len_nonneg ms''). lia.
    - by apply (Hst m (wire ms'')). }
  destruct r as [[ret off]|].
  - destruct Hr as (-> & -> & Hr). autorewrite with golen. zcase.
    + right. split; [done|]. apply Hno; [|destruct Hr; auto].
      * intros ->. rewrite len_nil in E1. lia.
      * subst. rewrite len_nil in E1. lia.
    + left. exists ms. assert (rest = []) as -> by (apply len_zero; lia).
      rewrite app_nil_r. by repeat split.
  - right. split; [done|]. destruct Hr. apply Hno; auto.
Qed.

(** [Marshal] writes the wire form of the longest prefix that fits. *)
Lemma Marshal_loop_spec msgs W tail cnt :
  let w := wire (take (fits (len tail) msgs) msgs) in
  Marshal_loop msgs (W ++ tail) cnt (len W) =
    Ret (W ++ w ++ drop (length w) tail, cnt + Z.of_nat (fits (len tail) msgs), len W + len w).
Proof.
  cbv zeta. revert W tail cnt. induction msgs as [|[d] msgs IH]; intros W tail cnt.
  { cbn. by rewrite !Z.add_0_r. }
  cbn [Marshal_loop fits Data]. rewrite len_app. pose proof (len_nonneg d) as Hd.
  destruct (Z.ltb_spec (len tail) (2 + len d)) as [Hlt|Hge].
  { rewrite (proj2 (Z.ltb_lt _ _)) by lia. cbn. by rewrite !Z.add_0_r. }
  rewrite (proj2 (Z.ltb_ge _ _)) by lia.
  destruct (slice_split 2 (2 + len d) tail) as (h & x & t & -> & Hh & Hx & _); [lia..|].
  rewrite (with_slice_app W h (x ++ t) (be_put 2 (u16 (len d))))
    by (unfold PutUint16; rewrite ?be_put_uint_exact; unfold len in *; lia || done).
  cbn [mbind outcome_mbind]. change (u16 (len d)) with (len d mod 2 ^ (8 * Z.of_nat 2)).
  rewrite be_put_mod.
  set (w1 := wire1 (mkMessage d)).
  assert (len w1 = 2 + len d) as Hw1 by apply len_wire1.
  assert (∀ k, wire (take (S k) (mkMessage d :: msgs)) = w1 ++ wire (take k msgs)) as Htake by done.
  rewrite Htake. autorewrite with golen in *.
  replace (len h + (len x + len t) - (2 + len d)) with (len t) by lia.
  replace (drop _ (h ++ x ++ t)) with (drop (length (wire (take (fits (len t) msgs) msgs))) t); last first.
  { rewrite app_assoc, length_app, drop_app_ge by (rewrite !length_app; unfold len in *; lia).
    f_equal. rewrite length_app. unfold len in *. lia. }
  assert (∀ c, Marshal_loop msgs (W ++ w1 ++ t) c (len W + 2 + len d) =
    Ret (W ++ (w1 ++ wire (take (fits (len t) msgs) msgs)) ++
           drop (length (wire (take (fits (len t) msgs) msgs))) t,
         c + Z.of_nat (fits (len t) msgs),
         len W + (2 + len d + len (wire (take (fits (len t) msgs) msgs))))) as Hrec.
  { intros c. specialize (IH (W ++ w1) t c). autorewrite with golen in IH. rewrite Hw1 in IH.
    rewrite <- !app_assoc in *. replace (len W + 2 + len d) with (len W + (2 + len d)) by lia.
    rewrite IH. f_equal. f_equal. lia. }
  replace (cnt + Z.of_nat (S (fits (len t) msgs))) with (cnt + 1 + Z.of_nat (fits (len t) msgs)) by lia.
  rewrite Hw1. zcase.
  - assert (go_copy x d = d) as Hcp by (apply go_copy_same; unfold len in *; lia).
    rewrite (app_assoc W), (with_slice_app _ x t d)
      by (autorewrite with golen; rewrite ?Hcp; lia || done).
    cbn [mbind outcome_mbind]. rewrite <- Hrec. by rewrite <- !app_assoc.
  - assert (d = []) as -> by (apply len_zero; lia). rewrite len_nil in *.
    assert (x = []) as -> by (apply len_zero; lia). rewrite <- Hrec. f_equal. lia.
Qed.

Lemma fits_le n ms : (fits n ms <= length ms)%nat.
Proof. revert n. induction ms; intros n; cbn; [lia|]. zcase. specialize (IHms (n - (2 + len (Data a)))). lia. Qed.

Lemma fits_wire n ms : 0 <= n → len (wire (take (fits n ms) ms)) <= n.
Proof.
  revert n. induction ms as [|m ms IH]; intros n Hn; [done|]. cbn [fits]. zcase; [done|].
  cbn [take]. rewrite wire_cons. autorewrite with golen. specialize (IH (n - (2 + len (Data m)))). lia.
Qed.

Lemma fits_all n ms : len (wire ms) <= n → fits n ms = length ms.
Proof.
  revert n. induction ms as [|m ms IH]; intros n Hn; [done|]. cbn [fits length].
  rewrite wire_cons in Hn. autorewrite with golen in Hn. pose proof (len_nonneg (wire ms)). zcase.
  f_equal. apply IH. lia.
Qed.

(** ... and the next message does not fit. *)
Lemma fits_maximal n ms m : 0 <= n → ms !! fits n ms = Some m →
  n < len (wire (take (fits n ms) ms)) + 2 + len (Data m).
Proof.
  revert n. induction ms as [|m' ms IH]; intros n Hn H; [done|]. cbn [fits] in *.
  destruct (n <? 2 + len (Data m')) eqn:E; zbool.
  - cbn in H. simplify_eq. cbn [take]. change (len (wire [])) with 0. lia.
  - cbn in H. cbn [take]. rewrite wire_cons. autorewrite with golen.
    specialize (IH (n - (2 + len (Data m'))) ltac:(lia) H). lia.
Qed.

Lemma Marshal_spec buff msgs :
  let k := fits (len buff) msgs in
  let w := wire (take k msgs) in
  Marshal buff msgs = Ret (w ++ drop (length w) buff, Z.of_nat k, len w).
Proof. apply (Marshal_loop_spec msgs [] buff 0). Qed.

(** What [Unmarshal] gives back on the wire form of messages, for any count
    that is large enough. *)
Lemma Unmarshal_wire ms cnt : Forall wf_message ms → 0 < cnt → len ms <= cnt →
  len (wire ms) < Z.pos go_fuel →
  Unmarshal (wire ms) cnt =
    Ret (Some (ms ++ replicate (Z.to_nat (cnt - len ms)) zeroMessage), None).
Proof.
  intros Hms Hc Hl Hf.
  destruct (Unmarshal_result (wire ms) cnt Hc Hf) as [(ms' & (E & Hms' & _) & ->)|[_ Hno]].
  - destruct (wire_prefix ms ms' [] Hms Hms') as (ms'' & -> & E''); [by rewrite app_nil_r|].
    destruct ms'' as [|m ms'']; [by rewrite app_nil_r|].
    apply (f_equal len) in E''. rewrite wire_cons in E''. autorewrite with golen in E''.
    pose proof (len_nonneg (Data m)). pose proof (len_nonneg (wire ms'')). lia.
  - by destruct (Hno ms).
Qed.

Lemma Unmarshal_wire_exact ms : Forall wf_message ms → 0 < len ms → len (wire ms) < Z.pos go_fuel →
  Unmarshal (wire ms) (len ms) = Ret (Some ms, None).
Proof.
  intros. rewrite Unmarshal_wire by (done || lia).
  by rewrite Z.sub_diag, app_nil_r.
Qed.

(** The length of the result of a successful call. *)
Lemma Unmarshal_length buff cnt ret : 0 < cnt → len buff < Z.pos go_fuel →
  Unmarshal buff cnt = Ret (Some ret, None) → len ret = cnt.
Proof.
  intros Hc Hf E. destruct (Unmarshal_result buff cnt Hc Hf) as [(ms & (_ & _ & Hl) & E')|[E' _]].
  - rewrite E' in E. simplify_eq. autorewrite with golen. pose proof (len_nonneg ms). lia.
  - rewrite E' in E. discriminate.
Qed.

(** [DecodeHead] on an encoded header, followed by anything. *)
Lemma DecodeHead_head_bytes h rest h0 : wf_header h →
  DecodeHead (head_bytes h ++ rest) h0 = Ret (h, None).
Proof.
  intros (Hs & Hn & Hc). unfold head_bytes. rewrite <- !app_assoc.
  destruct (DecodeHead_fields (session_field (Session h)) (be_put 8 (SeqNo h))
    (be_put 2 (MessageCnt h)) rest h0) as (r & Hr & ->);
    [apply length_session_field|apply length_be_put|apply length_be_put|].
  rewrite !be_get_put. rewrite (session_cut_unique _ _ _ Hr (session_cut_wf _ Hs)).
  rewrite !Z.mod_small by (unfold max_u64 in *; lia).
  replace (take _ (session_field (Session h))) with (Session h); [by destruct h|].
  unfold session_field, len. rewrite Nat2Z.id, take_take, Nat.min_l, take_app_length; [done|].
  destruct Hs as [->|[Hs _]]; [cbn|unfold len in Hs]; lia.
Qed.

(** [DecodeHead] always gives a well-formed header, or the error. *)
Lemma DecodeHead_total buff h0 :
  DecodeHead buff h0 = Ret (h0, Some errTooShort) ∧ len buff < headSize ∨
  (headSize <= len buff ∧ ∃ h, DecodeHead buff h0 = Ret (h, None) ∧ wf_header h).
Proof.
  destruct (Z.lt_ge_cases (len buff) headSize) as [Hlt|Hge].
  { left. split; [by apply DecodeHead_short|done]. }
  right. split; [done|]. destruct (header_split buff Hge) as (f & s & c & rest & -> & Hf & Hs & Hc).
  destruct (DecodeHead_fields f s c rest h0 Hf Hs Hc) as (r & Hr & ->).
  eexists; split; [done|]. repeat split; cbn; [by apply wf_session_cut|..].
  all: pose proof (be_get_range s) as H1; pose proof (be_get_range c) as H2.
  all: unfold len in *; rewrite Hs in H1; rewrite Hc in H2; unfold max_u64.
  all: change (2 ^ (8 * Z.of_nat 8)) with 18446744073709551616 in H1.
  all: change (2 ^ (8 * Z.of_nat 2)) with 65536 in H2; lia.
Qed.

(** ** Properties *)

(** C18: header round trip.  [EncodeHead] into a buffer of at least [headSize]
    octets succeeds, changes only the first twenty, and [DecodeHead] then gives
    back the sequence number and the count; it gives back the session name
    exactly when that name is empty, or has two to ten octets and does not end
    in a space. *)
Theorem header_roundtrip buff h h0
    (Hlen : headSize <= len buff) (Hseq : 0 <= SeqNo h <= max_u64)
    (Hcnt : 0 <= MessageCnt h < 65536) :
  ∃ buff' h', EncodeHead buff h = Ret (buff', None) ∧
    len buff' = len buff ∧ drop 20 buff' = drop 20 buff ∧
    DecodeHead buff' h0 = Ret (h', None) ∧
    SeqNo h' = SeqNo h ∧ MessageCnt h' = MessageCnt h ∧
    (Session h' = Session h ↔ wf_session (Session h)).
Proof.
  rewrite EncodeHead_spec by done.
  destruct (DecodeHead_fields (session_field (Session h)) (be_put 8 (SeqNo h))
    (be_put 2 (MessageCnt h)) (drop 20 buff) h0) as (r & Hr & E);
    [apply length_session_field|apply length_be_put|apply length_be_put|].
  unfold head_bytes. rewrite <- !app_assoc. eexists _, _. split; [done|].
  rewrite E, !be_get_put. cbn [SeqNo MessageCnt Session].
  rewrite !Z.mod_small by (unfold max_u64 in *; lia).
  repeat split; [| |intros <-|intros Hwf].
  - autorewrite with golen. unfold len, headSize in *.
    rewrite length_session_field, length_drop. lia.
  - rewrite !app_assoc, drop_app_length'; [done|].
    by rewrite !length_app, length_session_field, !length_be_put.
  - by apply wf_session_cut; [apply length_session_field|].
  - pose proof (DecodeHead_head_bytes h (drop 20 buff) h0 (conj Hwf (conj Hseq Hcnt))) as E'.
    unfold head_bytes in E'. rewrite <- !app_assoc, E in E'.
    assert (∀ a b : Header, @Ret (Header * option error) (a, None) = Ret (b, None) → a = b) as Hinj
      by (intros; congruence).
    by apply Hinj, (f_equal Session) in E'.
Qed.

Lemma header_roundtrip_witness :
  ∃ buff' h', EncodeHead (replicate 20 x00) (mkHeader [x74; x65; x73; x74; x30] 1 2) = Ret (buff', None) ∧
    len buff' = 20 ∧ drop 20 buff' = [] ∧
    DecodeHead buff' zeroHeader = Ret (h', None) ∧
    SeqNo h' = 1 ∧ MessageCnt h' = 2 ∧
    (Session h' = [x74; x65; x73; x74; x30] ↔ wf_session [x74; x65; x73; x74; x30]).
Proof.
  apply (header_roundtrip (replicate 20 x00) (mkHeader [x74; x65; x73; x74; x30] 1 2) zeroHeader);
    vm_compute; intuition congruence.
Defined.

(** Re-encoding.  [DecodeHead] accepts every buffer of at least [headSize]
    octets, the header it gives is well formed, and [EncodeHead] of that header
    into the buffer changes nothing, except where octet 0 is the only octet of
    the session field that is not a space. *)
Lemma header_reencode buff h0 (Hlen : headSize <= len buff) :
  ∃ h, DecodeHead buff h0 = Ret (h, None) ∧ wf_header h ∧
    (EncodeHead buff h = Ret (buff, None) ∨
     Session h = [] ∧ (∃ x, buff !! 0%nat = Some x ∧ x ≠ space) ∧
       ∀ j, 1 <= j < 10 → buff !! Z.to_nat j = Some space).
Proof.
  destruct (DecodeHead_total buff h0) as [[_ H]|(_ & h & Eh & Hwf)]; [lia|].
  exists h. split; [done|]. split; [done|].
  destruct (header_split buff Hlen) as (f & s & c & rest & -> & Hf & Hs & Hc).
  destruct (DecodeHead_fields f s c rest h0 Hf Hs Hc) as (r & Hr & E).
  rewrite Eh in E. simplify_eq. cbn [Session].
  destruct (lookup_lt_is_Some_2 f 0) as [x Hx]; [lia|].
  destruct (decide (r ≠ 0 ∨ x = space)) as [Hor|Hnor].
  - left. rewrite EncodeHead_spec by done. unfold head_bytes. cbn [Session SeqNo MessageCnt].
    rewrite session_field_cut; [|done|done|destruct Hor as [?| ->]; by auto].
    rewrite <- Hs at 1. rewrite <- Hc at 1. rewrite !be_put_get.
    assert (drop 20 (f ++ s ++ c ++ rest) = rest) as ->; [|by rewrite <- !app_assoc].
    rewrite !app_assoc. apply drop_app_length'. rewrite !length_app. lia.
  - right. assert (r = 0) as -> by (destruct (decide (r = 0)); tauto).
    repeat split; [exists x; split; [by apply lookup_app_l_Some|tauto]|].
    intros j Hj. apply lookup_app_l_Some. apply Hr. lia.
Qed.

Lemma header_reencode_witness :
  ∃ h, DecodeHead (replicate 20 space) zeroHeader = Ret (h, None) ∧ wf_header h ∧
    (EncodeHead (replicate 20 space) h = Ret (replicate 20 space, None) ∨
     Session h = [] ∧ (∃ x, replicate 20 space !! 0%nat = Some x ∧ x ≠ space) ∧
       ∀ j, 1 <= j < 10 → replicate 20 space !! Z.to_nat j = Some space).
Proof. apply (header_reencode (replicate 20 space) zeroHeader). vm_compute. congruence. Defined.

(** C40: a one-octet session name is lost.  Whatever octet the name is, the
    decoded session is the empty string. *)
Theorem single_octet_session_lost x n c buff h0
    (Hlen : headSize <= len buff) :
  ∃ buff' h', EncodeHead buff (mkHeader [x] n c) = Ret (buff', None) ∧
    DecodeHead buff' h0 = Ret (h', None) ∧ Session h' = [].
Proof.
  rewrite EncodeHead_spec by done.
  destruct (DecodeHead_fields (session_field [x]) (be_put 8 n) (be_put 2 c)
    (drop 20 buff) h0) as (r & Hr & E);
    [apply length_session_field|apply length_be_put|apply length_be_put|].
  eexists _, _. split; [done|]. unfold head_bytes. cbn [Session SeqNo MessageCnt].
  rewrite <- !app_assoc. split; [exact E|]. cbn [Session].
  assert (session_cut (session_field [x]) 0) as H0; [|by rewrite (session_cut_unique _ _ _ Hr H0)].
  split; [by left|]. intros j Hj. unfold session_field.
  rewrite lookup_take_lt, lookup_app_r by (cbn [length]; lia). apply lookup_replicate_2. cbn [length]. lia.
Qed.

Lemma single_octet_session_lost_witness :
  ∃ buff' h', EncodeHead (replicate 20 x00) (mkHeader [x41] 7 3) = Ret (buff', None) ∧
    DecodeHead buff' zeroHeader = Ret (h', None) ∧ Session h' = [].
Proof. apply (single_octet_session_lost x41 7 3 (replicate 20 x00) zeroHeader). vm_compute. congruence. Defined.

(** C20: what [Unmarshal] accepts.  For a positive count it returns exactly the
    messages of the blocks when the buffer is the wire form of at most [cnt]
    blocks, padded with empty messages up to [cnt]; on every other buffer it
    returns [errUnmarshal].  It never panics and its loop always ends. *)
Theorem Unmarshal_exact buff cnt (Hcnt : 0 < cnt) (Hlen : len buff < 2 ^ 63) :
  (∀ ret, Unmarshal buff cnt = Ret (Some ret, None) ↔
     ∃ ms, buff = wire ms ∧ Forall wf_message ms ∧ len ms <= cnt ∧
       ret = ms ++ replicate (Z.to_nat (cnt - len ms)) zeroMessage) ∧
  ((∀ ret, Unmarshal buff cnt ≠ Ret (Some ret, None)) →
     Unmarshal buff cnt = Ret (None, Some errUnmarshal)).
Proof.
  assert (len buff < Z.pos go_fuel) as Hf by (unfold go_fuel; lia). split.
  - intros ret. split.
    + intros E. destruct (Unmarshal_result buff cnt Hcnt Hf) as [(ms & (? & ? & ?) & E')|[E' _]];
        rewrite E' in E; simplify_eq. by exists ms.
    + intros (ms & -> & Hms & Hl & ->). by apply Unmarshal_wire.
  - intros Hno. destruct (Unmarshal_result buff cnt Hcnt Hf) as [(ms & _ & E')|[E' _]]; [|done].
    by destruct (Hno _ E').
Qed.

Lemma Unmarshal_exact_witness :
  (∀ ret, Unmarshal [x00; x01; x41] 2 = Ret (Some ret, None) ↔
     ∃ ms, [x00; x01; x41] = wire ms ∧ Forall wf_message ms ∧ len ms <= 2 ∧
       ret = ms ++ replicate (Z.to_nat (2 - len ms)) zeroMessage) ∧
  ((∀ ret, Unmarshal [x00; x01; x41] 2 ≠ Ret (Some ret, None)) →
     Unmarshal [x00; x01; x41] 2 = Ret (None, Some errUnmarshal)).
Proof. apply (Unmarshal_exact [x00; x01; x41] 2); vm_compute; congruence. Defined.

(** C19: message round trip.  [Marshal] of messages shorter than 64 KB never
    panics, writes the longest prefix of them that fits in the buffer and
    leaves the octets after it unchanged; [Unmarshal] of the octets written and
    the count returned gives that prefix back. *)
Theorem marshal_roundtrip buff msgs
    (Hmsgs : Forall wf_message msgs) (Hlen : len buff < 2 ^ 63) :
  ∃ buff' k n, Marshal buff msgs = Ret (buff', Z.of_nat k, n) ∧
    len buff' = len buff ∧ 0 <= n <= len buff ∧ (k <= length msgs)%nat ∧
    drop (Z.to_nat n) buff' = drop (Z.to_nat n) buff ∧
    (∀ m, msgs !! k = Some m → len buff < n + 2 + len (Data m)) ∧
    Unmarshal (take (Z.to_nat n) buff') (Z.of_nat k) =
      Ret (if decide (k = 0)%nat then None else Some (take k msgs), None).
Proof.
  set (k := fits (len buff) msgs). set (w := wire (take k msgs)).
  assert (len w <= len buff) as Hw by apply fits_wire, len_nonneg.
  exists (w ++ drop (length w) buff), k, (len w). split; [apply Marshal_spec|].
  assert (Z.to_nat (len w) = length w) as -> by (unfold len; lia).
  split; [autorewrite with golen; unfold len in *; rewrite length_drop; lia|].
  split; [pose proof (len_nonneg w); lia|]. split; [apply fits_le|].
  split; [apply drop_app_length|].
  split; [intros m; apply fits_maximal, len_nonneg|].
  rewrite take_app_length. pose proof (fits_le (len buff) msgs) as Hk. fold k in Hk.
  case_decide as Hk0; [by rewrite Hk0|].
  assert (Z.of_nat k = len (take k msgs)) as -> by (unfold len; rewrite length_take; lia).
  apply Unmarshal_wire_exact; [by apply Forall_take| |unfold go_fuel; fold w; lia].
  unfold len. rewrite length_take. lia.
Qed.

Lemma marshal_roundtrip_witness :
  ∃ buff' k n, Marshal (replicate 8 xff) [mkMessage [x41; x42]; mkMessage []; mkMessage [x43]]
      = Ret (buff', Z.of_nat k, n) ∧
    len buff' = 8 ∧ 0 <= n <= 8 ∧ (k <= 3)%nat ∧
    drop (Z.to_nat n) buff' = drop (Z.to_nat n) (replicate 8 xff) ∧
    (∀ m, [mkMessage [x41; x42]; mkMessage []; mkMessage [x43]] !! k = Some m →
       8 < n + 2 + len (Data m)) ∧
    Unmarshal (take (Z.to_nat n) buff') (Z.of_nat k) =
      Ret (if decide (k = 0)%nat then None
           else Some (take k [mkMessage [x41; x42]; mkMessage []; mkMessage [x43]]), None).
Proof.
  apply (marshal_roundtrip (replicate 8 xff)).
  - repeat constructor.
  - vm_compute. congruence.
Defined.
