(* ===== verification/Sys.v ===== *)
(** * System calls

    Programs that call the operating system: a program returns, panics, or makes
    a call and goes on with the reply ([prog]).  Calls of the C library, of
    Winsock and of the parts of package [net] and [os] that reach the kernel are
    constructors of [call]; what they answer is a [reply], about which nothing
    is assumed except where a law is stated.

    [exec] runs a program against an environment that may choose each reply
    from all that happened before; [wp] is the weakest precondition over every
    environment that keeps a law, and [wp_exec] relates the two. *)

From Stdlib Require Import Strings.Byte.
From S2P Require Import Prelude.
From S2P Require Import GoBytes.
From S2P Require Import NetAddr.
From S2P Require Import Codec.

(** ** Structures of the C library *)

(** Levels and options of [setsockopt], by the names of their macros (their
    numbers differ between platforms). *)
Inductive level : Type :=
| SOL_SOCKET
| IPPROTO_IP
| SOL_PACKET.

Inductive optname : Type :=
| SO_RCVBUF
| SO_SNDBUF
| SO_REUSEADDR
| SO_BROADCAST
| IP_ADD_MEMBERSHIP
| IP_DROP_MEMBERSHIP
| IP_MULTICAST_IF
| IP_MULTICAST_TTL
| IP_MULTICAST_LOOP
| SO_ATTACH_FILTER
| PACKET_ADD_MEMBERSHIP
| PACKET_VERSION
| PACKET_LOSS
| PACKET_STATISTICS
| PACKET_RX_RING
| PACKET_TX_RING.

Definition AF_INET : Z := 2.
Definition AF_PACKET : Z := 17.
Definition SOCK_DGRAM : Z := 2.
Definition SOCK_RAW : Z := 3.

(** [struct sockaddr_in]: the port is two octets in network order. *)
Record sockaddr_in : Type := mkSockaddrIn {
  sin_family : Z;
  sin_port : list byte;
  sin_addr : list byte
}.

Definition zero_sockaddr_in : sockaddr_in := mkSockaddrIn 0 [x00; x00] [x00; x00; x00; x00].

(** [struct sockaddr_ll] *)
Record sockaddr_ll : Type := mkSockaddrLl {
  sll_protocol : list byte;
  sll_ifindex : Z;
  sll_halen : Z;
  sll_addr : list byte
}.

Inductive sockaddr : Type :=
| Sin (a : sockaddr_in)
| Sll (a : sockaddr_ll).

(** [net.Interface] *)
Record Interface : Type := mkInterface {
  ifi_Index : Z;
  ifi_Name : gostring;
  ifi_HardwareAddr : list byte
}.

(** ** Calls and replies *)

Inductive call : Type :=
| sys_socket (domain typ proto : Z)
| sys_close (fd : Z)
| sys_bind (fd : Z) (addr : sockaddr)
| sys_getsockname (fd : Z)
| sys_setsockopt (fd : Z) (l : level) (o : optname) (val : list byte)
| sys_getsockopt (fd : Z) (l : level) (o : optname) (size : Z)
| sys_recvfrom (fd size flags : Z)
| sys_sendto (fd : Z) (data : option (list byte)) (flags : Z) (to : option sockaddr_in)
| sys_sendmmsg (fd : Z) (msgs : list (list (list byte))) (to : sockaddr)
| sys_recvmmsg (fd : Z) (sizes : list Z)
| sys_poll (fds : list (Z * Z * Z)) (timeo : Z)
| sys_mmap (fd size : Z)
| sys_closesocket (fd : Z)
| sys_WSACleanup
| os_Getenv (name : gostring)
| os_Getpagesize
| net_Addrs (ifIndex : Z)
| net_ListenUDP (laddr : UDPAddr)
| net_Close (conn : Z)
| net_File (conn : Z)
| net_WriteToUDP (conn : option Z) (data : option (list byte)) (addr : UDPAddr)
| net_ReadFromUDP (conn : option Z) (size : Z).

(** What a call answers: its result, [errno], the octets it stored, the address
    it stored, the datagrams of [recvmmsg]; for the calls of packages [net] and
    [os] their error and strings. *)
Record reply : Type := mkReply {
  r_ret : Z;
  r_errno : Z;
  r_data : list byte;
  r_addr : option sockaddr_in;
  r_msgs : list (list byte);
  r_err : option error;
  r_strs : list gostring;
  r_udp : option UDPAddr
}.

(** A call that succeeds with result [n] and nothing else. *)
Definition ret_reply (n : Z) : reply := mkReply n 0 [] None [] None [] None.
(** A call that fails with [e]. *)
Definition err_reply (e : Z) : reply := mkReply (-1) e [] None [] None [] None.

(** ** Programs *)

Inductive prog (A : Type) : Type :=
| Done (a : A)
| Crash
| Invoke (c : call) (k : reply → prog A).
Arguments Done {A} a.
Arguments Crash {A}.
Arguments Invoke {A} c k.

Fixpoint prog_bind {A B} (f : A → prog B) (p : prog A) : prog B :=
  match p with
  | Done a => f a
  | Crash => Crash
  | Invoke c k => Invoke c (λ r, prog_bind f (k r))
  end.

#[export] Instance prog_mret : MRet prog := @Done.
#[export] Instance prog_mbind : MBind prog := @prog_bind.

Definition sys (c : call) : prog reply := Invoke c Done.

(** Code without calls inside a program.  Loops of the wrappers are bounded, so
    the last case does not arise in them. *)
Definition pure {A} (m : outcome A) : prog A :=
  match m with
  | Ret a => Done a
  | Panic | Diverge => Crash
  end.

(** ** Running a program *)

(** What has happened: calls with their replies, oldest first. *)
Abbreviation trace := (list (call * reply)).

Definition env : Type := trace → call → reply.

Fixpoint exec {A} (E : env) (p : prog A) (h : trace) : outcome A * trace :=
  match p with
  | Done a => (Ret a, h)
  | Crash => (Panic, h)
  | Invoke c k => let r := E h c in exec E (k r) (h ++ [(c, r)])
  end.

(** The environment that gives the replies of a list in turn. *)
Definition replies (rs : list reply) : env := λ h _, default (ret_reply 0) (rs !! length h).

(** ** Reasoning about every environment *)

Section Wp.
Context (law : trace → call → reply → Prop).

Fixpoint wp {A} (p : prog A) (h : trace) (Q : A → trace → Prop) : Prop :=
  match p with
  | Done a => Q a h
  | Crash => False
  | Invoke c k => ∀ r, law h c r → wp (k r) (h ++ [(c, r)]) Q
  end.

Lemma wp_mono {A} (p : prog A) h (Q Q' : A → trace → Prop) :
  (∀ a h', Q a h' → Q' a h') → wp p h Q → wp p h Q'.
Proof. intros HQ. revert h. induction p; cbn; eauto. Qed.

Lemma wp_bind {A B} (p : prog A) (f : A → prog B) h Q :
  wp p h (λ a h', wp (f a) h' Q) → wp (p ≫= f) h Q.
Proof. revert h. induction p; cbn; eauto. Qed.

Lemma wp_bind_inv {A B} (p : prog A) (f : A → prog B) h Q :
  wp (p ≫= f) h Q → wp p h (λ a h', wp (f a) h' Q).
Proof. revert h. induction p; cbn; eauto. Qed.

Lemma wp_sys c h Q : (∀ r, law h c r → Q r (h ++ [(c, r)])) → wp (sys c) h Q.
Proof. done. Qed.

(** Two weakest preconditions over the same calls. *)
Lemma wp_and {A} (p : prog A) h (Q Q' : A → trace → Prop) :
  wp p h Q → wp p h Q' → wp p h (λ a h', Q a h' ∧ Q' a h').
Proof. revert h. induction p; cbn; eauto. Qed.

(** The replies keep the law. *)
Lemma wp_lawful {A} (P : call * reply → Prop) (p : prog A) h Q :
  (∀ h c r, law h c r → P (c, r)) → Forall P h → wp p h Q → wp p h (λ a h', Q a h' ∧ Forall P h').
Proof.
  intros HP. revert h. induction p as [a| |c k IH]; cbn; intros h Hh Hq; [done|done|].
  intros r Hr. apply IH; [|by apply Hq]. apply Forall_app. split; [done|]. constructor; [|done]. by eapply HP.
Qed.

Lemma wp_exec {A} (p : prog A) E h Q : (∀ h c, law h c (E h c)) → wp p h Q →
  ∃ a h', exec E p h = (Ret a, h') ∧ Q a h'.
Proof. intros HE. revert h. induction p; cbn; [eauto|done|]. eauto. Qed.
End Wp.

(** Any reply at all. *)
Definition any_reply : trace → call → reply → Prop := λ _ _ _, True.

Lemma wp_law {A} (law law' : trace → call → reply → Prop) (p : prog A) h Q :
  (∀ h c r, law' h c r → law h c r) → wp law p h Q → wp law' p h Q.
Proof. intros Hl. revert h. induction p; cbn; eauto. Qed.

Lemma exec_bind {A B} E (p : prog A) (f : A → prog B) h :
  exec E (p ≫= f) h =
    match exec E p h with
    | (Ret a, h') => exec E (f a) h'
    | (Panic, h') => (Panic, h')
    | (Diverge, h') => (Diverge, h')
    end.
Proof. revert h. induction p; cbn; eauto. Qed.

(** The calls of a trace. *)
Definition calls (h : trace) : list call := h.*1.

(** ** Partial correctness

    [wlp p Q]: whatever is answered, a result satisfies [Q]; [p] may panic. *)

Fixpoint wlp {A} (p : prog A) (Q : A → Prop) : Prop :=
  match p with
  | Done a => Q a
  | Crash => True
  | Invoke _ k => ∀ r, wlp (k r) Q
  end.

Lemma wlp_bind {A B} (p : prog A) (f : A → prog B) Q :
  wlp p (λ a, wlp (f a) Q) → wlp (p ≫= f) Q.
Proof. induction p; cbn; eauto. Qed.

Lemma wlp_mono {A} (p : prog A) (Q Q' : A → Prop) : (∀ a, Q a → Q' a) → wlp p Q → wlp p Q'.
Proof. intros HQ. induction p; cbn; eauto. Qed.

Lemma wlp_true {A} (p : prog A) (Q : A → Prop) : (∀ a, Q a) → wlp p Q.
Proof. intros HQ. induction p; cbn; eauto. Qed.

Lemma wlp_exec {A} (p : prog A) E h Q a h' : wlp p Q → exec E p h = (Ret a, h') → Q a.
Proof.
  revert h. induction p as [b| |c k IH]; cbn; intros h Hq He; [by simplify_eq|done|].
  by eapply IH.
Qed.

(** ** Programs that never panic *)

Fixpoint crashfree {A} (p : prog A) : Prop :=
  match p with
  | Done _ => True
  | Crash => False
  | Invoke _ k => ∀ r, crashfree (k r)
  end.

Lemma crashfree_bind {A B} (p : prog A) (f : A → prog B) : crashfree p → (∀ a, crashfree (f a)) → crashfree (p ≫= f).
Proof. intros Hp Hf. induction p; cbn in *; eauto. Qed.

Lemma crashfree_sys c : crashfree (sys c).
Proof. done. Qed.

Lemma crashfree_if {A} (b : bool) (p q : prog A) : crashfree p → crashfree q → crashfree (if b then p else q).
Proof. by destruct b. Qed.

Lemma crashfree_exec {A} (p : prog A) E h : crashfree p → ∃ a h', exec E p h = (Ret a, h').
Proof. revert h. induction p; cbn; intros h Hp; [eauto|done|]. eauto. Qed.

(** ** Programs that make only certain calls *)

Section OnlyCalls.
Context (P : call → Prop).

Fixpoint only_calls {A} (p : prog A) : Prop :=
  match p with
  | Done _ | Crash => True
  | Invoke c k => P c ∧ ∀ r, only_calls (k r)
  end.

Lemma only_bind {A B} (p : prog A) (f : A → prog B) :
  only_calls p → (∀ a, only_calls (f a)) → only_calls (p ≫= f).
Proof. intros Hp Hf. induction p; cbn in *; [done|done|]. destruct Hp. eauto. Qed.

Lemma only_sys c : P c → only_calls (sys c).
Proof. done. Qed.

Lemma only_pure {A} (m : outcome A) : only_calls (pure m).
Proof. by destruct m. Qed.

Lemma only_exec {A} (p : prog A) E h : only_calls p → Forall (λ ev, P ev.1) h →
  Forall (λ ev, P ev.1) (exec E p h).2.
Proof.
  revert h. induction p as [a| |c k IH]; cbn; intros h Hp Hh; [done|done|]. destruct Hp as [Hc Hk].
  apply IH; [done|]. apply Forall_app. split; [done|]. by apply Forall_singleton.
Qed.
End OnlyCalls.

Lemma crashfree_wp {A} law (p : prog A) h Q : crashfree p → (∀ a h', Q a h') → wp law p h Q.
Proof. intros Hp HQ. revert h. induction p; cbn in *; eauto. Qed.

#[export] Hint Resolve wp_bind wp_sys wlp_bind wlp_true crashfree_bind crashfree_sys crashfree_if : go.

(** Prove [crashfree] call by call. *)
Ltac crashfree_tac :=
  repeat match goal with
  | |- crashfree (Done _) => exact I
  | |- crashfree (sys _) => apply crashfree_sys
  | |- crashfree (_ ≫= _) => apply crashfree_bind; [|intros ?]
  | |- crashfree (if _ then _ else _) => apply crashfree_if
  | |- crashfree (match ?x with _ => _ end) => destruct x
  | |- crashfree (let '(_, _) := ?x in _) => destruct x
  end; auto with go.
