(* ===== verification/UnixSock.v ===== *)
(** * Wrappers of system calls (src/socket.go, src/rsocket.go)

    Every wrapper as a program over the calls of [Sys]: the arguments it passes
    on at the width of the C types, and how it turns the reply into Go values.
    [C.errNo()] right after a call is taken to be the [errno] of that call.  Log
    lines are left out.  [net.ParseIP] is a parameter (nil is the empty list). *)

From Stdlib Require Import Strings.Byte.
From S2P Require Import Prelude.
From S2P Require Import GoBytes.
From S2P Require Import NetAddr.
From S2P Require Import Codec.
From S2P Require Import Sys.

(** The numbers of the C library's [errno.h] that the wrappers compare with. *)
Class Errnos := { EAGAIN : Z; EWOULDBLOCK : Z }.

(** [syscall.Errno(C.errNo())] when [b] holds. *)
Definition errno_if (b : bool) (r : reply) : option error :=
  if b then Some (Errno (r_errno r)) else None.

(** The error of the receiving and sending calls: would-block is not one. *)
Definition would_block `{Errnos} (r : reply) : bool :=
  (r_errno r =? 0) || (r_errno r =? EAGAIN) || (r_errno r =? EWOULDBLOCK).

Definition io_errno `{Errnos} (r : reply) : option error :=
  errno_if ((r_ret r <? 0) && negb (would_block r)) r.

(** ** Addresses *)

(** Four octets of an address, zero for nil: [copy(dst[:4], ip.To4())]. *)
Definition octets4 (ip : list byte) : list byte := go_copy (replicate 4 x00) ip.

Record SockaddrInet4 : Type := mkSockaddrInet4 {
  sa_Port : Z;
  sa_Addr : list byte
}.

(** The C function [newSockaddrIn]: [htons] takes the low 16 bits of the port. *)
Definition newSockaddrIn (port : Z) (addr : list byte) : sockaddr_in :=
  mkSockaddrIn AF_INET (be_put 2 (u16 port)) addr.

(** A [SockaddrInet4] from what a call stored in a zeroed [struct sockaddr_in]:
    [ntohs] and [copyAddr]. *)
Definition from_sockaddr (o : option sockaddr_in) : SockaddrInet4 :=
  let a := default zero_sockaddr_in o in
  mkSockaddrInet4 (be_get (sin_port a)) (octets4 (sin_addr a)).

(** ** Time *)

(** [Sleep]: the clock is read until [interv] has passed since [t0]; the result
    is the readings left. *)
Fixpoint Sleep_loop (t0 interv : Z) (clock : list Z) : option (list Z) :=
  match clock with
  | [] => None
  | now :: clock' => if time_sub now t0 <? interv then Sleep_loop t0 interv clock' else Some clock'
  end.

Definition Sleep (interv : Z) (clock : list Z) : option (list Z) :=
  match clock with
  | [] => None
  | t0 :: clock' => Sleep_loop t0 interv clock'
  end.

(** ** Sockets and options *)

Definition GetsockoptInt (fd : Z) (l : level) (o : optname) : prog (Z * option error) :=
  r ← sys (sys_getsockopt (i32 fd) l o 8);
  let value := i64 (le_get (go_copy (replicate 8 x00) (r_data r))) in
  Done (value, errno_if (negb (r_ret r =? 0)) r).

(** [val] is read as four octets of a 64-bit [int]. *)
Definition SetsockoptInt (fd : Z) (l : level) (o : optname) (val : Z) : prog (option error) :=
  r ← sys (sys_setsockopt (i32 fd) l o (take 4 (le_put 8 val)));
  Done (errno_if (negb (r_ret r =? 0)) r).

(** [Getsockopt]: the error, the octets behind the pointer and the length. *)
Definition Getsockopt (fd : Z) (l : level) (o : optname) (val : list byte) (vallen : Z)
    : prog (option error * list byte * Z) :=
  r ← sys (sys_getsockopt (i32 fd) l o (u32 vallen));
  let val := go_copy val (r_data r) in
  if negb (r_ret r =? 0) then Done (Some (Errno (r_errno r)), val, vallen)
  else Done (None, val, len (r_data r)).

(** [Setsockopt]: [val] holds at least [vallen] octets. *)
Definition Setsockopt (fd : Z) (l : level) (o : optname) (val : list byte) (vallen : Z)
    : prog (option error) :=
  r ← sys (sys_setsockopt (i32 fd) l o (take (Z.to_nat (u32 vallen)) val));
  Done (errno_if (negb (r_ret r =? 0)) r).

Definition Socket (domain typ proto : Z) : prog (Z * option error) :=
  r ← sys (sys_socket (i32 domain) (i32 typ) (i32 proto));
  Done (r_ret r, errno_if (r_ret r <? 0) r).

Definition Close (fd : Z) : prog (option error) :=
  r ← sys (sys_close (i32 fd));
  Done (errno_if (r_ret r <? 0) r).

Record PollFd : Type := mkPollFd { pf_fd : Z; pf_events : Z; pf_revents : Z }.

Definition maxPollFd : Z := 16.

(** [Poll]: the entries beyond the sixteenth are not passed on, and [revents]
    stays in the C array. *)
Definition Poll (fds : list PollFd) (timeo : Z) : prog (Z * option error) :=
  let nn := len fds in
  if nn =? 0 then Done (0, None)
  else
    let nn := if maxPollFd <? nn then maxPollFd else nn in
    let cfds := map (λ f, (i32 (pf_fd f), pf_events f, pf_revents f)) (take (Z.to_nat nn) fds) in
    r ← sys (sys_poll cfds (i32 timeo));
    Done (r_ret r, errno_if (r_ret r <? 0) r).

(** [None] is the nil address. *)
Definition LocalAddr (fd : Z) : prog (option SockaddrInet4) :=
  r ← sys (sys_getsockname (i32 fd));
  if r_ret r <? 0 then Done None else Done (Some (from_sockaddr (r_addr r))).

Definition Bind (fd : Z) (laddr : SockaddrInet4) : prog (option error) :=
  r ← sys (sys_bind (i32 fd) (Sin (newSockaddrIn (sa_Port laddr) (sa_Addr laddr))));
  Done (errno_if (r_ret r <? 0) r).

Section Io.
Context `{Errnos}.

(** [Recvfrom]: the count, the sender, the error, and the buffer afterwards. *)
Definition Recvfrom (fd : Z) (p : list byte) (flags : Z)
    : prog (Z * SockaddrInet4 * option error * list byte) :=
  _ ← pure (idx p 0);
  r ← sys (sys_recvfrom (i32 fd) (len p) (i32 flags));
  let n := if r_ret r <? 0 then 0 else r_ret r in
  Done (n, from_sockaddr (r_addr r), io_errno r, go_copy p (r_data r)).

(** [Sendto]: a nil buffer or a nil address makes the call that only flushes. *)
Definition Sendto (fd : Z) (p : option (list byte)) (flags : Z) (to : option SockaddrInet4)
    : prog (Z * option error) :=
  r ← (match to, p with
       | Some a, Some b =>
           _ ← pure (idx b 0);
           sys (sys_sendto (i32 fd) (Some b) (i32 flags) (Some (newSockaddrIn (sa_Port a) (sa_Addr a))))
       | _, _ => sys (sys_sendto (i32 fd) None 0 None)
       end);
  Done (r_ret r, io_errno r).
End Io.

Definition ReserveRecvBuf (fd : Z) : prog unit :=
  let bLen := 4 * 1024 * 1024 in
  _ ← GetsockoptInt fd SOL_SOCKET SO_RCVBUF;
  _ ← SetsockoptInt fd SOL_SOCKET SO_RCVBUF bLen;
  _ ← GetsockoptInt fd SOL_SOCKET SO_RCVBUF;
  Done tt.

Definition ReserveSendBuf (fd : Z) : prog unit :=
  let bLen := 2 * 1024 * 1024 in
  _ ← GetsockoptInt fd SOL_SOCKET SO_SNDBUF;
  _ ← SetsockoptInt fd SOL_SOCKET SO_SNDBUF bLen;
  _ ← GetsockoptInt fd SOL_SOCKET SO_SNDBUF;
  Done tt.

(** ** Multicast *)

Definition LADDR : gostring := [x4c; x41; x44; x44; x52].

Section Multicast.
Context (ParseIP : gostring → list byte).

(** [getIfAddr]: the first address of the interface, without its mask. *)
Definition getIfAddr (ifn : option Interface) : prog (list byte * option error) :=
  match ifn with
  | None => Done (IPv4zero, None)
  | Some i =>
      r ← sys (net_Addrs (ifi_Index i));
      match r_err r with
      | Some e => Done (IPv4zero, Some e)
      | None =>
          match r_strs r with
          | [] => Done (IPv4zero, None)
          | a :: _ =>
              adr ← pure (idx (Split x2f a) 0);
              if bool_decide (ParseIP adr = []) then Done (IPv4zero, Some errNoIP)
              else Done (ParseIP adr, None)
          end
      end
  end.

(** The address of the interface to join on: that of [ifn], or [LADDR]. *)
Definition join_interface (ifn : option Interface) : prog (list byte) :=
  match ifn with
  | Some _ =>
      '(adr, err) ← getIfAddr ifn;
      match err with
      | None => Done (octets4 (default [] (To4 adr)))
      | Some _ => Done (octets4 [])
      end
  | None =>
      r ← sys (os_Getenv LADDR);
      let adr := ParseIP (r_data r) in
      if bool_decide (adr = []) then Done (octets4 []) else Done (octets4 (default [] (To4 adr)))
  end.

Definition JoinMulticast (fd : Z) (maddr : list byte) (ifn : option Interface) : prog (option error) :=
  let group := octets4 maddr in
  iface ← join_interface ifn;
  r ← sys (sys_setsockopt (i32 fd) IPPROTO_IP IP_ADD_MEMBERSHIP (group ++ iface));
  Done (errno_if (negb (r_ret r =? 0)) r).

Definition SetMulticastInterface (fd : Z) (ifn : option Interface) : prog (option error) :=
  match ifn with
  | None => Done None
  | Some _ =>
      '(ifAddr, err) ← getIfAddr ifn;
      match err with
      | Some e => Done (Some e)
      | None =>
          r ← sys (sys_setsockopt (i32 fd) IPPROTO_IP IP_MULTICAST_IF (octets4 (default [] (To4 ifAddr))));
          Done (errno_if (negb (r_ret r =? 0)) r)
      end
  end.
End Multicast.

Definition ExitMulticast (fd : Z) (maddr : list byte) : prog unit :=
  _ ← sys (sys_setsockopt (i32 fd) IPPROTO_IP IP_DROP_MEMBERSHIP
    (octets4 (default [] (To4 maddr)) ++ replicate 4 x00));
  Done tt.

Definition SetMulticastTTL (fd ttl : Z) : prog (option error) :=
  SetsockoptInt fd IPPROTO_IP IP_MULTICAST_TTL ttl.

Definition SetMulticastLoop (fd : Z) (bLoop : bool) : prog (option error) :=
  SetsockoptInt fd IPPROTO_IP IP_MULTICAST_LOOP (if bLoop then 1 else 0).

Definition SetBroadcast (fd : Z) (bLoop : bool) : prog (option error) :=
  SetsockoptInt fd SOL_SOCKET SO_BROADCAST (if bLoop then 1 else 0).

(** ** Packet sockets and batches (src/rsocket.go) *)

Abbreviation Packet := (list byte).

Definition MAX_BATCH : Z := 64.

(** [len(bufs)], at most [MAX_BATCH]. *)
Definition batch_size {A} (bufs : list A) : Z :=
  if MAX_BATCH <? len bufs then MAX_BATCH else len bufs.

(** The C function [setPacketMultiCast]: [struct packet_mreq]; the last two
    octets of its address field are never written ([pad]). *)
Definition setPacketMultiCast (ifIndex : Z) (ipAddr : list byte) (pad : list byte)
    : outcome (list byte) :=
  a1 ← idx ipAddr 1;
  a2 ← idx ipAddr 2;
  a3 ← idx ipAddr 3;
  Ret (le_put 4 ifIndex ++ le_put 2 0 ++ le_put 2 6 ++
       [x01; x00; x5e; z2b (Z.land (b2z a1) 0x7f); a2; a3] ++ pad).

(** [JoinPacketMulticast]; [None] is the nil interface. *)
Definition JoinPacketMulticast (fd : Z) (maddr : list byte) (ifn : option Interface) (pad : list byte)
    : prog (option error) :=
  i ← pure (match ifn with Some i => Ret i | None => Panic end);
  _ ← pure (idx maddr 0);
  mreq ← pure (setPacketMultiCast (i32 (ifi_Index i)) maddr pad);
  r ← sys (sys_setsockopt (i32 fd) SOL_PACKET PACKET_ADD_MEMBERSHIP mreq);
  Done (errno_if (negb (r_ret r =? 0)) r).

(** The loop that fills the message headers: every packet is addressed by its
    first octet. *)
Fixpoint fill_iovec (pktHdr : option Packet) (bufs : list Packet) : outcome (list (list Packet)) :=
  match bufs with
  | [] => Ret []
  | buf :: bufs' =>
      _ ← idx buf 0;
      rest ← fill_iovec pktHdr bufs';
      Ret (match pktHdr with Some h => [h; buf] | None => [buf] end :: rest)
  end.

(** The result of [sendmmsg]. *)
Definition mmsg_count (r : reply) : Z * option error :=
  if r_ret r <? 0 then (0, Some (Errno (r_errno r))) else (r_ret r, None).

Definition ETH_P_IP : Z := 0x0800.
Definition ETH_ALEN : Z := 6.

(** The C function [setSockaddrl2]: the address is the first six octets of the
    packet header. *)
Definition setSockaddrl2 (sbuf : list byte) (ifIndex : Z) : sockaddr_ll :=
  mkSockaddrLl (be_put 2 ETH_P_IP) (i32 ifIndex) ETH_ALEN (take 6 sbuf).

Definition Sendmmsg2 (fd : Z) (bufs : list Packet) (pktHdr : Packet) (ifIndex : Z)
    : prog (Z * option error) :=
  _ ← pure (idx pktHdr 0);
  let taddr := setSockaddrl2 pktHdr ifIndex in
  dgrams ← pure (fill_iovec (Some pktHdr) (take (Z.to_nat (batch_size bufs)) bufs));
  r ← sys (sys_sendmmsg (i32 fd) dgrams (Sll taddr));
  Done (mmsg_count r).

Definition Sendmmsg (fd : Z) (bufs : list Packet) (to : SockaddrInet4) : prog (Z * option error) :=
  let taddr := newSockaddrIn (sa_Port to) (sa_Addr to) in
  dgrams ← pure (fill_iovec None (take (Z.to_nat (batch_size bufs)) bufs));
  r ← sys (sys_sendmmsg (i32 fd) dgrams (Sin taddr));
  Done (mmsg_count r).

(** The kernel stores the datagrams in the buffers. *)
Fixpoint store_msgs (bufs msgs : list Packet) : list Packet :=
  match bufs, msgs with
  | b :: bufs', m :: msgs' => go_copy b m :: store_msgs bufs' msgs'
  | _, _ => bufs
  end.

(** The loop that cuts the first [cnt] buffers to the lengths received. *)
Definition cut_msgs (cnt : Z) (msgs : list Packet) (bufs : list Packet) : outcome (list Packet) :=
  for_range (Z.to_nat cnt) 0 (λ i bufs,
    buf ← idx bufs i;
    let bLen := match msgs !! Z.to_nat i with Some m => len m | None => len buf end in
    b ← slice 0 bLen buf;
    set_idx bufs i b) bufs.

(** [Recvmmsg]: the count, the sender of the first datagram, the error, the
    slices afterwards, and the octets of the buffers behind them.  The flags are
    not passed on. *)
Definition Recvmmsg `{Errnos} (fd : Z) (bufs : list Packet) (flags : Z)
    : prog (Z * SockaddrInet4 * option error * list Packet * list Packet) :=
  let bSize := batch_size bufs in
  _ ← pure (fill_iovec None (take (Z.to_nat bSize) bufs));
  r ← sys (sys_recvmmsg (i32 fd) (map len (take (Z.to_nat bSize) bufs)));
  let from := from_sockaddr (r_addr r) in
  if r_ret r <? 0 then Done (0, from, io_errno r, bufs, bufs)
  else
    let mem := store_msgs bufs (r_msgs r) in
    cut ← pure (cut_msgs (r_ret r) (r_msgs r) mem);
    Done (r_ret r, from, None, cut, mem).
