(* ===== verification/UnixSockProps.v ===== *)
(** * Properties of the wrappers of system calls

    What reaches the kernel and what comes back: addresses and integer options
    through their C representations, batches of datagrams, the multicast
    requests, and the clock loop of [Sleep]. *)

From Stdlib Require Import Strings.Byte.
From S2P Require Import Prelude.
From S2P Require Import GoBytes.
From S2P Require Import NetAddr.
From S2P Require Import Codec.
From S2P Require Import Sys.
From S2P Require Import UnixSock.

(** ** Addresses and options *)

Lemma octets4_4 ip : length ip = 4%nat → octets4 ip = ip.
Proof. intros Hl. apply go_copy_same. by rewrite length_replicate. Qed.

Lemma length_octets4 ip : length (octets4 ip) = 4%nat.
Proof. unfold octets4. by rewrite length_go_copy, length_replicate. Qed.

Lemma from_newSockaddrIn port addr : length addr = 4%nat →
  from_sockaddr (Some (newSockaddrIn port addr)) = mkSockaddrInet4 (u16 port) addr.
Proof.
  intros Hl. unfold from_sockaddr, newSockaddrIn. cbn [default from_option sin_port sin_addr id].
  rewrite octets4_4 by done. f_equal.
  rewrite be_get_put. apply Z.mod_small. change (2 ^ _) with 65536. apply u16_range.
Qed.

Lemma le_get_snoc l b : le_get (l ++ [b]) = le_get l + 2 ^ (8 * len l) * b2z b.
Proof.
  unfold le_get. rewrite rev_app_distr. cbn [rev app].
  change (b :: rev l) with ([b] ++ rev l).
  assert (∀ k a, be_get (a ++ k) = be_get a * 2 ^ (8 * len k) + be_get k) as Happ.
  { induction k as [|x k IH] using rev_ind; intros a; [rewrite app_nil_r; change (2 ^ (8 * len [])) with 1; change (be_get []) with 0; lia|].
    rewrite app_assoc, !be_get_snoc, IH. autorewrite with golen.
    replace (8 * (len k + (1 + 0))) with (8 * len k + 8) by lia.
    rewrite Z.pow_add_r; [|pose proof (len_nonneg k); lia|lia]. change (2 ^ 8) with 256. lia. }
  rewrite Happ. unfold be_get at 1. cbn [fold_left]. rewrite Z.shiftl_0_l, Z.lor_0_l.
  unfold len. rewrite length_rev. lia.
Qed.

Lemma le_get_zeros l n : le_get (l ++ replicate n x00) = le_get l.
Proof.
  induction n as [|n IH]; [by rewrite app_nil_r|].
  rewrite replicate_S_end, app_assoc, le_get_snoc, IH. change (b2z x00) with 0. lia.
Qed.

Lemma take_le_put (k n : nat) v : (k <= n)%nat → take k (le_put n v) = le_put k v.
Proof.
  intros Hk. induction Hk as [|n Hk IH]; [apply take_ge; by rewrite length_le_put|].
  rewrite <- IH. unfold le_put at 1. cbn [be_put rev].
  rewrite take_app_le by (rewrite length_rev, length_be_put; lia). done.
Qed.

(** What [GetsockoptInt] makes of the octets stored by [SetsockoptInt]: a
    four-octet integer widened without its sign. *)
Lemma sockopt_int_value val :
  i64 (le_get (go_copy (replicate 8 x00) (take 4 (le_put 8 val)))) = u32 val.
Proof.
  rewrite take_le_put by lia.
  assert (go_copy (replicate 8 x00) (le_put 4 val) = le_put 4 val ++ replicate 4 x00) as ->.
  { apply (go_copy_short (replicate 4 x00) (replicate 4 x00) (le_put 4 val)). by rewrite length_le_put. }
  rewrite le_get_zeros, le_get_put. change (2 ^ (8 * Z.of_nat 4)) with 4294967296.
  apply i64_small. word.
Qed.

(** ** Batches *)

Lemma fill_iovec_ok h bufs : Forall (λ b, b ≠ []) bufs →
  fill_iovec h bufs = Ret (map (λ b, match h with Some h => [h; b] | None => [b] end) bufs).
Proof.
  induction 1 as [|b bufs Hb _ IH]; [done|]. cbn [fill_iovec].
  destruct b as [|x b]; [done|]. rewrite IH. done.
Qed.

Lemma fill_iovec_empty h bufs : [] ∈ bufs → fill_iovec h bufs = Panic.
Proof.
  induction bufs as [|b bufs IH]; intros Hin; [by apply elem_of_nil in Hin|]. cbn [fill_iovec].
  destruct b as [|x b]; [done|]. apply elem_of_cons in Hin as [|Hin]; [done|].
  by rewrite (IH Hin).
Qed.

Lemma batch_size_le {A} (bufs : list A) : 0 <= batch_size bufs <= 64 ∧ batch_size bufs <= len bufs.
Proof. unfold batch_size, MAX_BATCH. pose proof (len_nonneg bufs). zcases; lia. Qed.

Lemma take_batch {A} (bufs : list A) : take (Z.to_nat (batch_size bufs)) bufs = take 64 bufs.
Proof.
  unfold batch_size, MAX_BATCH, len. zcases; [done|]. rewrite Nat2Z.id.
  rewrite firstn_all, take_ge by lia. done.
Qed.

Lemma length_store_msgs bufs msgs : length (store_msgs bufs msgs) = length bufs.
Proof. revert msgs. induction bufs as [|b bufs IH]; intros [|m msgs]; cbn; congruence. Qed.

Lemma store_msgs_lookup bufs msgs i b : bufs !! i = Some b →
  store_msgs bufs msgs !! i = Some (match msgs !! i with Some m => go_copy b m | None => b end).
Proof.
  revert msgs i. induction bufs as [|b' bufs IH]; intros msgs i Hb; [done|].
  destruct msgs as [|m msgs]; [cbn [store_msgs]; by rewrite lookup_nil|].
  destruct i as [|i]; cbn in Hb |- *; [by simplify_eq|]. by apply IH.
Qed.

(** What the kernel promises of [recvmmsg]: it fails, or it stores a datagram in
    each of the first [r_ret] buffers, cut to the size of the buffer. *)
Definition recvmmsg_law (sizes : list Z) (r : reply) : Prop :=
  r_ret r < 0 ∨
  (len (r_msgs r) = r_ret r ∧ (length (r_msgs r) <= length sizes)%nat ∧
   ∀ i m n, r_msgs r !! i = Some m → sizes !! i = Some n → len m <= n).

Lemma slice_stored (b m : list byte) : len m <= len b → slice 0 (len m) (go_copy b m) = Ret m.
Proof.
  intros Hl. pose proof (len_nonneg m). rewrite (slice_Ret 0) by (unfold len in *; rewrite ?length_go_copy; lia).
  f_equal. change (drop (Z.to_nat 0) ?x) with x. rewrite Z.sub_0_r. unfold go_copy, len in *.
  rewrite Nat2Z.id, (take_ge m) by lia. apply take_app_length.
Qed.

(** The cutting loop, started at index [i] with [msgs] already cut. *)
Lemma cut_msgs_loop n : ∀ (i : nat) (done todo bufs : list Packet),
  length done = i → length todo = n → (length todo <= length bufs)%nat →
  (∀ k m b, todo !! k = Some m → bufs !! k = Some b → len m <= len b) →
  for_range n (Z.of_nat i) (λ i bufs,
    buf ← idx bufs i;
    let bLen := match (done ++ todo) !! Z.to_nat i with Some m => len m | None => len buf end in
    b ← slice 0 bLen buf;
    set_idx bufs i b) (done ++ store_msgs bufs todo) = Ret (done ++ todo ++ drop n bufs).
Proof.
  induction n as [|n IH]; intros i done todo bufs Hd Ht Hl Hm.
  { destruct todo; [|done]. cbn. f_equal. rewrite drop_0. by destruct bufs. }
  destruct todo as [|m todo]; [done|]. destruct bufs as [|b bufs]; [cbn in Hl; lia|].
  cbn [for_range store_msgs].
  rewrite (idx_middle done) by (unfold len; lia). cbn [mbind outcome_mbind].
  rewrite Nat2Z.id, (list_lookup_middle done todo m i) by done.
  rewrite slice_stored by (by apply (Hm 0%nat)). cbn [mbind outcome_mbind].
  rewrite (set_idx_middle done) by (unfold len; lia). cbn [mbind outcome_mbind].
  replace (Z.of_nat i + 1) with (Z.of_nat (S i)) by lia.
  replace (done ++ m :: store_msgs bufs todo) with ((done ++ [m]) ++ store_msgs bufs todo)
    by (by rewrite <- app_assoc).
  replace (done ++ m :: todo) with ((done ++ [m]) ++ todo) by (by rewrite <- app_assoc).
  rewrite IH; [by rewrite <- !app_assoc|rewrite length_app; cbn; lia|cbn in Ht; lia|cbn in Hl; lia|].
  intros k m' b' Hk Hb. by apply (Hm (S k)).
Qed.

Lemma cut_msgs_stored cnt msgs bufs : len msgs = cnt → (length msgs <= length bufs)%nat →
  (∀ k m b, msgs !! k = Some m → bufs !! k = Some b → len m <= len b) →
  cut_msgs cnt msgs (store_msgs bufs msgs) = Ret (msgs ++ drop (length msgs) bufs).
Proof.
  intros Hc Hl Hm. unfold cut_msgs. replace (Z.to_nat cnt) with (length msgs) by (unfold len in Hc; lia).
  by apply (cut_msgs_loop (length msgs) 0 [] msgs bufs).
Qed.

Definition kernel_recvmmsg : trace → call → reply → Prop := λ _ c r,
  match c with sys_recvmmsg _ sizes => recvmmsg_law sizes r | _ => True end.

Section Batches.
Context `{Errnos}.

(** [Recvmmsg] makes one call and hands back the datagrams of the kernel in
    order, in the first slices. *)
Lemma Recvmmsg_spec fd bufs flags h (Q : _ → trace → Prop) :
  Forall (λ b, b ≠ []) (take 64 bufs) →
  (∀ r, let h' := h ++ [(sys_recvmmsg (i32 fd) (map len (take 64 bufs)), r)] in
    (r_ret r < 0 → Q (0, from_sockaddr (r_addr r), io_errno r, bufs, bufs) h') ∧
    (len (r_msgs r) = r_ret r → (length (r_msgs r) <= 64)%nat → (length (r_msgs r) <= length bufs)%nat →
     (∀ k m b, r_msgs r !! k = Some m → bufs !! k = Some b → len m <= len b) →
     Q (r_ret r, from_sockaddr (r_addr r), None,
        r_msgs r ++ drop (length (r_msgs r)) bufs, store_msgs bufs (r_msgs r)) h')) →
  wp kernel_recvmmsg (Recvmmsg fd bufs flags) h Q.
Proof.
  intros Hne HQ. unfold Recvmmsg. rewrite take_batch, fill_iovec_ok by done.
  cbn [pure mbind prog_mbind prog_bind sys wp]. intros r Hlaw. cbn [kernel_recvmmsg] in Hlaw.
  destruct (HQ r) as [HQ1 HQ2]. destruct (r_ret r <? 0) eqn:E; zbool; [by apply HQ1|].
  destruct Hlaw as [|(Hn & Hl & Hfit)]; [lia|]. rewrite length_map, length_take in Hl.
  assert (∀ k m b, r_msgs r !! k = Some m → bufs !! k = Some b → len m <= len b) as Hfit'.
  { intros k m b Hm Hb. apply (Hfit k m); [done|]. rewrite list_lookup_fmap, lookup_take_lt, Hb; [done|].
    apply lookup_lt_Some in Hm. lia. }
  rewrite cut_msgs_stored by (done || lia). apply HQ2; (done || lia).
Qed.

Lemma Sendmmsg_spec fd bufs to : Forall (λ b, b ≠ []) (take 64 bufs) →
  Sendmmsg fd bufs to =
    (r ← sys (sys_sendmmsg (i32 fd) (map (λ b, [b]) (take 64 bufs)) (Sin (newSockaddrIn (sa_Port to) (sa_Addr to))));
     Done (mmsg_count r)).
Proof. intros Hne. unfold Sendmmsg. by rewrite take_batch, fill_iovec_ok. Qed.

Lemma Sendmmsg_empty fd bufs to : [] ∈ take 64 bufs → Sendmmsg fd bufs to = Crash.
Proof. intros Hin. unfold Sendmmsg. by rewrite take_batch, fill_iovec_empty. Qed.

Lemma Sendmmsg2_spec fd bufs h6 rest ifIndex : length h6 = 6%nat → Forall (λ b, b ≠ []) (take 64 bufs) →
  Sendmmsg2 fd bufs (h6 ++ rest) ifIndex =
    (r ← sys (sys_sendmmsg (i32 fd) (map (λ b, [h6 ++ rest; b]) (take 64 bufs))
       (Sll (mkSockaddrLl (be_put 2 ETH_P_IP) (i32 ifIndex) 6 h6)));
     Done (mmsg_count r)).
Proof.
  intros Hl Hne. unfold Sendmmsg2, setSockaddrl2. rewrite take_batch, fill_iovec_ok by done.
  rewrite <- Hl, take_app_length. by destruct h6.
Qed.
End Batches.

(** ** Sleep *)

(** [Sleep] returns at the first reading that is late enough. *)
Lemma Sleep_returns interv t0 early now rest :
  Forall (λ t, time_sub t t0 < interv) early → interv <= time_sub now t0 →
  Sleep interv (t0 :: early ++ now :: rest) = Some rest.
Proof.
  intros He Hn. cbn [Sleep]. induction He as [|t early Ht _ IH]; cbn [Sleep_loop app].
  - by rewrite (proj2 (Z.ltb_ge _ _)).
  - by rewrite (proj2 (Z.ltb_lt _ _)).
Qed.

(** ** Multicast requests *)

(** The interface part of a join request, for what the system answers. *)
Definition iface_of (ParseIP : gostring → list byte) (ifn : option Interface) (r : reply) : list byte :=
  match ifn with
  | None => octets4 (default [] (To4 (ParseIP (r_data r))))
  | Some _ =>
      match r_err r, r_strs r with
      | None, a :: _ => octets4 (default [] (To4 (ParseIP (default [] (head (Split x2f a))))))
      | _, _ => octets4 []
      end
  end.

Lemma octets4_IPv4zero : octets4 (default [] (To4 IPv4zero)) = octets4 [].
Proof. reflexivity. Qed.

(** One question to the system, then one request with the group and the address
    found. *)
Lemma JoinMulticast_spec ParseIP fd maddr ifn law h (Q : _ → trace → Prop) :
  (∀ r r', let q := match ifn with Some i => net_Addrs (ifi_Index i) | None => os_Getenv LADDR end in
    Q (errno_if (negb (r_ret r' =? 0)) r')
      (h ++ [(q, r); (sys_setsockopt (i32 fd) IPPROTO_IP IP_ADD_MEMBERSHIP
                        (octets4 maddr ++ iface_of ParseIP ifn r), r')])) →
  wp law (JoinMulticast ParseIP fd maddr ifn) h Q.
Proof.
  intros HQ. unfold JoinMulticast, join_interface, getIfAddr, iface_of in *.
  destruct ifn as [i|]; cbn [mbind prog_mbind prog_bind sys wp].
  - intros r _. destruct (r_err r) as [e|] eqn:Ee.
    { cbn. intros r' _. rewrite <- app_assoc. specialize (HQ r r'). rewrite Ee in HQ. exact HQ. }
    destruct (r_strs r) as [|a l] eqn:Es.
    { cbn. intros r' _. rewrite <- app_assoc. specialize (HQ r r'). rewrite Ee, Es in HQ. exact HQ. }
    destruct (Split x2f a) as [|w ws] eqn:Ew; [by apply Split_ne in Ew|].
    change (idx (w :: ws) 0) with (Ret w). cbn [pure mbind prog_mbind prog_bind]. case_bool_decide as Hnil;
      cbn [prog_bind wp]; intros r' _; rewrite <- app_assoc; specialize (HQ r r');
      rewrite Ee, Es, Ew in HQ; cbn [head default from_option id] in HQ; [rewrite Hnil in HQ|]; exact HQ.
  - intros r _. cbv zeta. case_bool_decide as Hnil; cbn [prog_bind wp]; intros r' _; rewrite <- app_assoc;
      specialize (HQ r r'); [rewrite Hnil in HQ|]; exact HQ.
Qed.

(** The address a packet socket joins is the multicast hardware address. *)
Lemma setPacketMultiCast_hwaddr ix a b c d pad :
  setPacketMultiCast ix [a; b; c; d] pad =
    Ret (le_put 4 ix ++ le_put 2 0 ++ le_put 2 6 ++
         [x01; x00; x5e; z2b (Z.land (b2z b) 0x7f); c; d] ++ pad).
Proof. reflexivity. Qed.
