(* ===== verification/MsgCache.v ===== *)
(** * The out-of-order message cache (src/msgCache.go)

    A growing array of pages of message pointers, addressed by sequence number.
    A page is 8 MiB, so how far the array can grow depends on the memory of the
    process ([Memory]); beyond it the process dies.  The file ends with the interface the client relies on ([SeqCache] and its
    laws [SeqCacheSpec]) and the instance that discharges it. *)

From Stdlib Require Import Strings.Byte.
From S2P Require Import Prelude.
From S2P Require Import GoBytes.
From S2P Require Import Codec.

Definition maxPageMsg : Z := 0x100000.
Definition pageShift : Z := 20.
Definition pageIncrement : Z := 16.

(** An array of [maxPageMsg] pointers; a key that is absent is a nil pointer. *)
Abbreviation msgPage := (gmap Z Message).

Record msgCache : Type := mkCache {
  nPage : Z;
  maxPageNo : Z;
  msgPages : list msgPage
}.

Definition zeroCache : msgCache := mkCache 0 0 [].

(** The memory of the process: the number of pages [append] can still find room
    for.  The first pages are there, and the octets of a slice are counted by an
    int. *)
Class Memory := {
  maxPages : Z;
  maxPages_start : pageIncrement <= maxPages;
  maxPages_int : maxPages * (8 * maxPageMsg) < 2 ^ 63
}.

Section Cache.
Context {Mem : Memory}.

(** ** Operations *)

(** [pg[off]] and [pg[off] = msg] on a page, with the bounds check. *)
Definition page_get (pg : msgPage) (off : Z) : outcome (option Message) :=
  if (0 <=? off) && (off <? maxPageMsg) then Ret (pg !! off) else Panic.

Definition page_set (pg : msgPage) (off : Z) (msg : Message) : outcome msgPage :=
  if (0 <=? off) && (off <? maxPageMsg) then Ret (<[off := msg]> pg) else Panic.

(** [mc.msgPages[page][off]] *)
Definition slot (mc : msgCache) (page off : Z) : outcome (option Message) :=
  pg ← idx (msgPages mc) page;
  page_get pg off.

Definition page_of (seqNo : Z) : Z := i64 (Z.shiftr seqNo pageShift).
Definition off_of (seqNo : Z) : Z := i64 (Z.land seqNo (maxPageMsg - 1)).

Definition Init (mc : msgCache) : msgCache :=
  mkCache pageIncrement (maxPageNo mc) (replicate (Z.to_nat pageIncrement) ∅).

(** One iteration of the growing loop of [Upset]; without memory for the pages
    the process dies. *)
Definition Upset_grow (page : Z) (mc : msgCache) : outcome (msgCache + msgCache) :=
  if nPage mc <=? page then
    if maxPages <? nPage mc + pageIncrement then Panic
    else
      Ret (inl (mkCache (nPage mc + pageIncrement) (maxPageNo mc)
        (msgPages mc ++ replicate (Z.to_nat pageIncrement) ∅)))
  else Ret (inr mc).

Definition Upset (mc : msgCache) (seqNo : Z) (msg : Message) : outcome (bool * msgCache) :=
  let page := page_of seqNo in
  let off := off_of seqNo in
  mc ← (if nPage mc <=? page then for_loop go_fuel (Upset_grow page) mc else Ret mc);
  let mc := if maxPageNo mc <? page then mkCache (nPage mc) page (msgPages mc) else mc in
  old ← slot mc page off;
  pg ← idx (msgPages mc) page;
  pg ← page_set pg off msg;
  pages ← set_idx (msgPages mc) page pg;
  Ret (bool_decide (is_Some old), mkCache (nPage mc) (maxPageNo mc) pages).

Definition IsNil (mc : msgCache) (seqNo : Z) : outcome bool :=
  let page := page_of seqNo in
  let off := off_of seqNo in
  if nPage mc <=? page then Ret true
  else
    p ← slot mc page off;
    match p with
    | None => Ret true
    | Some _ => Ret false
    end.

(** One iteration of [getCount]; the state is [(res, page, off)]. *)
Definition getCount_body (mc : msgCache) (s : Z * Z * Z) : outcome ((Z * Z * Z) + Z) :=
  let '(res, page, off) := s in
  p ← slot mc page off;
  match p with
  | None => Ret (inr res)
  | Some _ =>
      let res := res + 1 in
      let off := off + 1 in
      if maxPageMsg <=? off then
        let page := page + 1 in
        if nPage mc <=? page then Ret (inr res) else Ret (inl (res, page, 0))
      else Ret (inl (res, page, off))
  end.

Definition getCount (mc : msgCache) (page off : Z) : outcome Z :=
  for_loop go_fuel (getCount_body mc) (0, page, off).

(** One iteration of the copying loop of [Merge]; the state is
    [(ret, i, page, off)]. *)
Definition Merge_body (mc : msgCache) (cnt : Z) (s : list Message * Z * Z * Z)
    : outcome ((list Message * Z * Z * Z) + list Message) :=
  let '(ret, i, page, off) := s in
  p ← slot mc page off;
  match p with
  | None => Ret (inr ret)
  | Some m =>
      ret ← set_idx ret i m;
      let i := i + 1 in
      if cnt <=? i then Ret (inr ret)
      else
        let off := off + 1 in
        if maxPageMsg <=? off then Ret (inl (ret, i, page + 1, 0))
        else Ret (inl (ret, i, page, off))
  end.

Definition Merge (mc : msgCache) (seqNo : Z) : outcome (option (list Message)) :=
  let page := page_of seqNo in
  let off := off_of seqNo in
  if nPage mc <=? page then Ret None
  else
    p ← slot mc page off;
    match p with
    | None => Ret None
    | Some _ =>
        cnt ← getCount mc page off;
        if cnt =? 0 then Ret (Some [])
        else
          ret ← for_loop go_fuel (Merge_body mc cnt)
                  (replicate (Z.to_nat cnt) zeroMessage, 0, page, off);
          Ret (Some ret)
    end.

End Cache.

(** ** The interface of the client *)

(** A store of messages by sequence number. *)
Class SeqCache (C : Type) := {
  sc_zero : C;
  sc_init : C → C;
  sc_upset : C → Z → Message → outcome (bool * C);
  sc_isNil : C → Z → outcome bool;
  sc_merge : C → Z → outcome (option (list Message));
  sc_maxPageNo : C → Z
}.

(** [ms] is the run of messages that [get] holds from [s] on, up to the first
    missing one. *)
Definition maximal_run (get : Z → option Message) (s : Z) (ms : list Message) : Prop :=
  (∀ i m, ms !! i = Some m → get (s + Z.of_nat i) = Some m) ∧ get (s + len ms) = None.

(** Its contract: a partial function from sequence numbers to messages.  Numbers
    from [sc_cap] on cannot be stored: the attempt ends the process. *)
Class SeqCacheSpec (C : Type) `{SeqCache C} := {
  sc_ok : C → Prop;
  sc_get : C → Z → option Message;
  sc_cap : Z;
  sc_init_ok : sc_ok (sc_init sc_zero);
  sc_init_get s : sc_get (sc_init sc_zero) s = None;
  sc_cap_range : 0 < sc_cap < 2 ^ 63;
  sc_upset_full c s m : sc_ok c → sc_cap <= s <= max_u64 → sc_upset c s m = Panic;
  sc_upset_spec c s m : sc_ok c → 0 <= s < sc_cap →
    ∃ c', sc_upset c s m = Ret (bool_decide (is_Some (sc_get c s)), c') ∧ sc_ok c' ∧
      ∀ s', 0 <= s' → sc_get c' s' = if decide (s' = s) then Some m else sc_get c s';
  sc_isNil_spec c s : sc_ok c → 0 <= s <= max_u64 →
    sc_isNil c s = Ret (bool_decide (sc_get c s = None));
  sc_merge_spec c s : sc_ok c → 0 <= s <= max_u64 →
    ∃ ms, maximal_run (sc_get c) s ms ∧
      sc_merge c s = Ret (if decide (ms = []) then None else Some ms)
}.

#[export] Instance msgCache_SeqCache `{Memory} : SeqCache msgCache := {
  sc_zero := zeroCache;
  sc_init := Init;
  sc_upset := Upset;
  sc_isNil := IsNil;
  sc_merge := Merge;
  sc_maxPageNo := maxPageNo
}.

(** ** Invariant and abstraction *)

Section Lemmas.
Context {Mem : Memory}.

(** The pages the array can have: it grows by [pageIncrement]. *)
Definition capPages : Z := maxPages / pageIncrement * pageIncrement.

(** The first sequence number that cannot be stored. *)
Definition capacity : Z := capPages * maxPageMsg.

Lemma capPages_range : 16 <= capPages <= maxPages ∧ maxPages < capPages + 16 ∧ capPages mod 16 = 0 ∧
  capPages < 1099511627776.
Proof.
  pose proof maxPages_start as H1. pose proof maxPages_int as H2.
  unfold capPages, pageIncrement, maxPageMsg in *. Z.to_euclidean_division_equations; lia.
Qed.

Lemma capacity_range : 0 < capacity < 2 ^ 63.
Proof. pose proof capPages_range. unfold capacity, maxPageMsg. lia. Qed.

Definition cache_ok (mc : msgCache) : Prop :=
  nPage mc = len (msgPages mc) ∧ 0 < nPage mc <= capPages ∧
  nPage mc mod pageIncrement = 0 ∧ 0 <= maxPageNo mc < nPage mc.

(** The message stored under a sequence number. *)
Definition cache_get (mc : msgCache) (s : Z) : option Message :=
  pg ← msgPages mc !! Z.to_nat (Z.shiftr s pageShift);
  (pg : msgPage) !! Z.land s (maxPageMsg - 1).

(** ** Addressing *)

Lemma page_off s : 0 <= s <= max_u64 →
  page_of s = s / maxPageMsg ∧ off_of s = s mod maxPageMsg.
Proof.
  unfold max_u64, page_of, off_of, maxPageMsg, pageShift. intros Hs.
  change (1048576 - 1) with (Z.ones 20). rewrite Z.land_ones, Z.shiftr_div_pow2 by lia.
  change (2 ^ 20) with 1048576.
  pose proof (Z.mod_pos_bound s 1048576). rewrite !i64_small; [done|lia|].
  split; [apply Z.le_trans with 0; [lia|]; apply Z.div_pos; lia|].
  apply Z.div_lt_upper_bound; lia.
Qed.

Lemma cache_get_at mc page off : 0 <= page → 0 <= off < maxPageMsg →
  cache_get mc (page * maxPageMsg + off) =
    (pg ← msgPages mc !! Z.to_nat page; (pg : msgPage) !! off).
Proof.
  unfold cache_get, pageShift, maxPageMsg. intros Hp Ho.
  change (1048576 - 1) with (Z.ones 20). rewrite Z.land_ones, Z.shiftr_div_pow2 by lia.
  change (2 ^ 20) with 1048576. rewrite Z.div_add_l, (Z.div_small off), Z.add_0_r by lia.
  by rewrite Z.add_comm, Z.mod_add, Z.mod_small by lia.
Qed.

Lemma seq_split s : 0 <= s →
  s = s / maxPageMsg * maxPageMsg + s mod maxPageMsg ∧
  0 <= s / maxPageMsg ∧ 0 <= s mod maxPageMsg < maxPageMsg.
Proof. unfold maxPageMsg. intros. Z.to_euclidean_division_equations; lia. Qed.

(** Reading a slot inside the array never panics. *)
Lemma slot_get mc page off : cache_ok mc → 0 <= page < nPage mc → 0 <= off < maxPageMsg →
  slot mc page off = Ret (cache_get mc (page * maxPageMsg + off)).
Proof.
  intros (Hn & _) Hp Ho. unfold slot. rewrite cache_get_at by lia.
  destruct (lookup_lt_is_Some_2 (msgPages mc) (Z.to_nat page)) as [pg Hpg];
    [unfold len in Hn; lia|].
  rewrite (idx_lookup _ _ pg), Hpg by (done || lia). cbn. unfold page_get. by zcases.
Qed.

(** Nothing is stored beyond the last page. *)
Lemma cache_get_beyond mc s : cache_ok mc → nPage mc * maxPageMsg <= s → cache_get mc s = None.
Proof.
  intros (Hn & Hr & _) Hs. unfold maxPageMsg in Hs. destruct (seq_split s) as (E & H1 & H2); [lia|].
  rewrite E, cache_get_at by done. rewrite (lookup_ge_None_2 (msgPages mc)); [done|].
  unfold len, maxPageMsg in *. lia.
Qed.

(** ** Init, IsNil *)

Lemma Init_ok mc : maxPageNo mc = 0 → cache_ok (Init mc).
Proof.
  intros E. pose proof capPages_range. unfold cache_ok, Init. cbn. rewrite E.
  repeat split; unfold pageIncrement; lia || done.
Qed.

Lemma Init_get mc s : cache_get (Init mc) s = None.
Proof.
  unfold cache_get, Init. cbn [msgPages].
  destruct (replicate _ _ !! _) as [pg|] eqn:E; cbn; [|done].
  apply lookup_replicate in E as [-> _]. apply lookup_empty.
Qed.

Lemma IsNil_get mc s : cache_ok mc → 0 <= s <= max_u64 →
  IsNil mc s = Ret (bool_decide (cache_get mc s = None)).
Proof.
  intros Hok Hs. destruct (page_off s Hs) as [Hp Ho].
  destruct (seq_split s) as (E & H1 & H2); [lia|].
  unfold IsNil. rewrite Hp, Ho. zcase.
  - rewrite bool_decide_eq_true_2; [done|]. apply cache_get_beyond; [done|].
    unfold maxPageMsg in *. lia.
  - rewrite slot_get, <- E by (done || lia). cbn.
    by destruct (cache_get mc s).
Qed.

(** ** Upset *)

(** [mc'] has more (empty) pages than [mc] and is otherwise the same. *)
Definition grown (mc mc' : msgCache) : Prop :=
  cache_ok mc' ∧ nPage mc <= nPage mc' ∧ maxPageNo mc' = maxPageNo mc ∧
  ∀ s, 0 <= s → cache_get mc' s = cache_get mc s.

Lemma grow_step mc : cache_ok mc → nPage mc + pageIncrement <= capPages →
  grown mc (mkCache (nPage mc + pageIncrement) (maxPageNo mc)
    (msgPages mc ++ replicate (Z.to_nat pageIncrement) ∅)).
Proof.
  intros (Hn & Hr & Hm & Hx) Hle. unfold grown, cache_ok. cbn [nPage maxPageNo msgPages].
  unfold pageIncrement in *. autorewrite with golen. repeat split; try lia.
  - Z.to_euclidean_division_equations; lia.
  - intros s Hs. unfold cache_get. cbn [msgPages].
    destruct (decide (Z.to_nat (Z.shiftr s pageShift) < length (msgPages mc))%nat) as [Hlt|Hge].
    + by rewrite lookup_app_l.
    + rewrite lookup_app_r, (lookup_ge_None_2 (msgPages mc)) by lia.
      destruct (replicate _ _ !! _) as [pg|] eqn:E; cbn; [|done].
      apply lookup_replicate in E as [-> _]. apply lookup_empty.
Qed.

Lemma grown_trans mc1 mc2 mc3 : grown mc1 mc2 → grown mc2 mc3 → grown mc1 mc3.
Proof.
  intros (_ & H2 & H3 & H4) (G1 & G2 & G3 & G4).
  split; [done|]. split; [lia|]. split; [congruence|].
  intros s Hs. by rewrite G4, H4.
Qed.

Lemma grown_refl mc : cache_ok mc → grown mc mc.
Proof. intros H. split; [done|]. split; [lia|]. by split. Qed.

(** The array grows while there is memory. *)
Lemma grow_room mc : cache_ok mc → nPage mc < capPages → nPage mc + pageIncrement <= capPages.
Proof.
  intros (_ & _ & Hm & _) Hlt. pose proof capPages_range. unfold pageIncrement in *.
  Z.to_euclidean_division_equations; lia.
Qed.

(** The growing loop ends with enough pages. *)
Lemma grow_loop mc page : cache_ok mc → 0 <= page < capPages →
  ∃ mc', for_loop go_fuel (Upset_grow page) mc = Ret mc' ∧ grown mc mc' ∧ page < nPage mc'.
Proof.
  intros Hok Hp. pose proof capPages_range as Hcap.
  apply (for_loop_spec _ (grown mc) (λ mc', grown mc mc' ∧ page < nPage mc') (λ mc', capPages - nPage mc')).
  - intros mc' Hg. unfold Upset_grow. zcase; [|right; eexists; (split; [done|]); by split].
    pose proof (grow_room mc' ltac:(apply Hg) ltac:(lia)) as Hle. rewrite (proj2 (Z.ltb_ge _ _)) by lia.
    left; eexists; (split; [done|]). split; [|cbn; unfold pageIncrement; lia].
    apply (grown_trans _ mc'); [done|]. apply grow_step; [apply Hg|done].
  - intros mc' ((_ & Hr & _) & _). lia.
  - by apply grown_refl.
  - destruct Hok as (_ & Hr & _). unfold go_fuel. lia.
Qed.

(** It runs out of memory when the page is too far. *)
Lemma grow_loop_full mc page : cache_ok mc → capPages <= page →
  for_loop go_fuel (Upset_grow page) mc = Panic.
Proof.
  intros Hok Hp. pose proof capPages_range as Hcap.
  apply (for_loop_panics _ (grown mc) (λ mc', capPages - nPage mc')).
  - intros mc' Hg. pose proof Hg as (Hok' & _). pose proof Hok' as (_ & Hr & _). unfold Upset_grow.
    rewrite (proj2 (Z.leb_le _ _)) by lia.
    destruct (Z.lt_ge_cases (nPage mc') capPages) as [Hlt|Hge].
    + pose proof (grow_room mc' Hok' Hlt) as Hle. rewrite (proj2 (Z.ltb_ge _ _)) by lia.
      right; eexists; (split; [done|]). split; [|cbn; unfold pageIncrement; lia].
      apply (grown_trans _ mc'); [done|]. by apply grow_step.
    + rewrite (proj2 (Z.ltb_lt _ _)) by (unfold pageIncrement; lia). by left.
  - intros mc' ((_ & Hr & _) & _). lia.
  - by apply grown_refl.
  - destruct Hok as (_ & Hr & _). unfold go_fuel. lia.
Qed.

(** Writing one slot, with enough pages. *)
Lemma write_slot mc s m mx : cache_ok mc → 0 <= s → s / maxPageMsg < nPage mc → 0 <= mx < nPage mc →
  ∃ pg pg' pages, idx (msgPages mc) (s / maxPageMsg) = Ret pg ∧
    page_set pg (s mod maxPageMsg) m = Ret pg' ∧
    set_idx (msgPages mc) (s / maxPageMsg) pg' = Ret pages ∧
    cache_ok (mkCache (nPage mc) mx pages) ∧
    ∀ s', 0 <= s' → cache_get (mkCache (nPage mc) mx pages) s' =
      if decide (s' = s) then Some m else cache_get mc s'.
Proof.
  intros (Hn & Hr & Hm & Hx) Hs Hpg Hmx. destruct (seq_split s Hs) as (E & H1 & H2).
  set (p := s / maxPageMsg) in *. set (o := s mod maxPageMsg) in *.
  destruct (lookup_lt_is_Some_2 (msgPages mc) (Z.to_nat p)) as [pg Hl]; [unfold len in Hn; lia|].
  exists pg, (<[o := m]> pg), (<[Z.to_nat p := <[o := m]> pg]> (msgPages mc)).
  split; [apply idx_lookup; [lia|done]|].
  split; [unfold page_set; zcases; done|].
  split; [unfold set_idx; zcases; done|].
  split; [split; [cbn; unfold len; by rewrite length_insert|]; cbn; tauto|].
  intros s' Hs'. destruct (seq_split s' Hs') as (E' & H1' & H2').
  rewrite E'. rewrite !cache_get_at by done. cbn [msgPages].
  destruct (decide (s' / maxPageMsg = p)) as [Hp|Hp].
  - rewrite Hp, list_lookup_insert_eq by (unfold len in Hn; lia). rewrite Hl. cbn.
    destruct (decide (s' mod maxPageMsg = o)) as [Ho|Ho].
    + rewrite Ho, lookup_insert_eq, decide_True; [done|]. lia.
    + rewrite lookup_insert_ne, decide_False by congruence || lia. done.
  - rewrite list_lookup_insert_ne by lia. rewrite decide_False; [done|]. intros Heq.
    apply Hp. rewrite <- E' in Heq. subst s'. done.
Qed.

Lemma Upset_full mc s m : cache_ok mc → capacity <= s <= max_u64 → Upset mc s m = Panic.
Proof.
  intros Hok Hs. pose proof capacity_range. destruct (page_off s ltac:(lia)) as [Hp _].
  assert (capPages <= s / maxPageMsg) as Hfar.
  { apply Z.div_le_lower_bound; [done|]. unfold capacity in Hs. lia. }
  unfold Upset. rewrite Hp. pose proof Hok as (_ & Hr & _).
  rewrite (proj2 (Z.leb_le _ _)) by lia. by rewrite grow_loop_full.
Qed.

Lemma Upset_get mc s m : cache_ok mc → 0 <= s < capacity →
  ∃ mc', Upset mc s m = Ret (bool_decide (is_Some (cache_get mc s)), mc') ∧ cache_ok mc' ∧
    ∀ s', 0 <= s' → cache_get mc' s' = if decide (s' = s) then Some m else cache_get mc s'.
Proof.
  intros Hok Hs. pose proof capacity_range. destruct (page_off s ltac:(unfold max_u64; lia)) as [Hp Ho].
  destruct (seq_split s) as (E & H1 & H2); [lia|].
  assert (s / maxPageMsg < capPages) as Hlim
    by (unfold capacity, maxPageMsg in *; apply Z.div_lt_upper_bound; lia).
  unfold Upset. rewrite Hp, Ho.
  assert (∃ mc1, (if nPage mc <=? s / maxPageMsg then for_loop go_fuel (Upset_grow (s / maxPageMsg)) mc
    else Ret mc) = Ret mc1 ∧ grown mc mc1 ∧ s / maxPageMsg < nPage mc1) as (mc1 & -> & Hg & Hlt).
  { zcase; [by apply grow_loop|]. exists mc. split; [done|]. split; [by apply grown_refl|done]. }
  cbn [mbind outcome_mbind].
  set (mx := if maxPageNo mc1 <? s / maxPageMsg then s / maxPageMsg else maxPageNo mc1).
  replace (if maxPageNo mc1 <? s / maxPageMsg then _ else mc1)
    with (mkCache (nPage mc1) mx (msgPages mc1)) by (unfold mx; zcase; by destruct mc1).
  destruct Hg as (Hok1 & _ & _ & Hget).
  assert (0 <= mx < nPage mc1) as Hmx by (destruct Hok1 as (_ & _ & _ & ?); unfold mx; zcase).
  assert (cache_ok (mkCache (nPage mc1) mx (msgPages mc1))) as Hok2
    by (destruct Hok1 as (? & ? & ? & _); split; cbn; tauto).
  rewrite slot_get by (done || cbn; lia). rewrite <- E. cbn [mbind outcome_mbind nPage maxPageNo msgPages].
  destruct (write_slot mc1 s m mx) as (pg & pg' & pages & -> & Hset & Hpages & Hok' & Hget'); [done|lia|done|done|].
  cbn [mbind outcome_mbind]. rewrite Hset. cbn [mbind outcome_mbind]. rewrite Hpages.
  cbn [mbind outcome_mbind].
  change (cache_get (mkCache (nPage mc1) mx (msgPages mc1)) s) with (cache_get mc1 s).
  rewrite Hget by lia. eexists; split; [done|]. split; [done|].
  intros s' Hs'. rewrite Hget' by done. by rewrite Hget.
Qed.

(** ** Merge *)

(** [res] messages are stored without a gap from [s] on. *)
Definition stored_run (mc : msgCache) (s res : Z) : Prop :=
  ∀ i, 0 <= i < res → is_Some (cache_get mc (s + i)).

Lemma stored_run_snoc mc s res : 0 <= res → stored_run mc s res →
  is_Some (cache_get mc (s + res)) → stored_run mc s (res + 1).
Proof.
  intros Hr H1 H2 i Hi. destruct (decide (i = res)) as [->|]; [done|]. apply H1. lia.
Qed.

(** The loop state [(page, off)] addresses sequence number [q]. *)
Definition at_seq (mc : msgCache) (page off q : Z) : Prop :=
  0 <= page < nPage mc ∧ 0 <= off < maxPageMsg ∧ page * maxPageMsg + off = q.

Lemma at_seq_start mc s : 0 <= s <= max_u64 → page_of s < nPage mc →
  at_seq mc (page_of s) (off_of s) s.
Proof.
  intros Hs. destruct (page_off s Hs) as [-> ->]. destruct (seq_split s) as (E & H1 & H2); [lia|].
  intros Hp. repeat split; lia.
Qed.

Lemma slot_at mc page off q : cache_ok mc → at_seq mc page off q →
  slot mc page off = Ret (cache_get mc q).
Proof. intros Hok (Hp & Ho & <-). by apply slot_get. Qed.

Lemma getCount_spec mc s : cache_ok mc → 0 <= s <= max_u64 → page_of s < nPage mc →
  ∃ r, getCount mc (page_of s) (off_of s) = Ret r ∧ 0 <= r ∧ stored_run mc s r ∧
    cache_get mc (s + r) = None.
Proof.
  intros Hok Hs Hp. unfold getCount.
  apply (for_loop_spec _ (λ '(res, page, off), 0 <= res ∧ stored_run mc s res ∧ at_seq mc page off (s + res))
    (λ r, 0 <= r ∧ stored_run mc s r ∧ cache_get mc (s + r) = None)
    (λ '(_, page, off), nPage mc * maxPageMsg - (page * maxPageMsg + off))).
  - intros [[res page] off] (Hres & Hrun & Hat). unfold getCount_body.
    rewrite (slot_at _ _ _ _ Hok Hat). cbn [mbind outcome_mbind].
    destruct (cache_get mc (s + res)) as [m|] eqn:Em; [|by right; exists res].
    assert (stored_run mc s (res + 1)) as Hrun' by (apply stored_run_snoc; [done|done|by rewrite Em]).
    destruct Hat as (Hpg & Ho & E).
    zcase; [zcase|].
    + right. exists (res + 1). split; [done|]. split; [lia|]. split; [done|].
      apply cache_get_beyond; [done|]. unfold maxPageMsg in *. lia.
    + left. eexists; split; [done|]. repeat split; try done; unfold maxPageMsg in *; lia.
    + left. eexists; split; [done|]. repeat split; try done; unfold maxPageMsg in *; lia.
  - intros [[res page] off] (_ & _ & (Hpg & Ho & _)). unfold maxPageMsg in *. nia.
  - split; [lia|]. split; [intros i Hi; lia|]. rewrite Z.add_0_r. by apply at_seq_start.
  - destruct Hok as (_ & Hr & _). destruct (at_seq_start mc s Hs Hp) as (Hpg & Ho & _).
    pose proof capPages_range. unfold go_fuel, maxPageMsg in *. lia.
Qed.

(** The messages of [get] from [s] on, [n] of them. *)
Definition collect (get : Z → option Message) (s : Z) (n : nat) : list Message :=
  map (λ i, default zeroMessage (get (s + i))) (seqZ 0 (Z.of_nat n)).

Lemma length_collect get s n : length (collect get s n) = n.
Proof. unfold collect. rewrite length_map, length_seqZ. lia. Qed.

Lemma collect_snoc get s n m : get (s + Z.of_nat n) = Some m →
  collect get s (S n) = collect get s n ++ [m].
Proof.
  intros E. unfold collect. rewrite seqZ_S, map_app. cbn [map]. by rewrite Z.add_0_l, E.
Qed.

Lemma collect_lookup get s n i m : collect get s n !! i = Some m →
  is_Some (get (s + Z.of_nat i)) → get (s + Z.of_nat i) = Some m.
Proof.
  unfold collect. rewrite list_lookup_fmap. intros E [m' Hm'].
  destruct (seqZ 0 (Z.of_nat n) !! i) as [j|] eqn:Ej; [|discriminate].
  apply lookup_seqZ in Ej as [-> _]. rewrite Z.add_0_l in E. cbn in E. rewrite Hm' in E. cbn in E. congruence.
Qed.

Lemma Merge_loop_spec mc s cnt : cache_ok mc → 0 <= s <= max_u64 → page_of s < nPage mc →
  0 < cnt < Z.pos go_fuel → stored_run mc s cnt →
  for_loop go_fuel (Merge_body mc cnt)
    (replicate (Z.to_nat cnt) zeroMessage, 0, page_of s, off_of s) =
  Ret (collect (cache_get mc) s (Z.to_nat cnt)).
Proof.
  intros Hok Hs Hp Hc Hrun.
  destruct (for_loop_spec (Merge_body mc cnt)
    (λ '(ret, i, page, off), 0 <= i < cnt ∧ at_seq mc page off (s + i) ∧
       ret = collect (cache_get mc) s (Z.to_nat i) ++ replicate (Z.to_nat (cnt - i)) zeroMessage)
    (λ ret, ret = collect (cache_get mc) s (Z.to_nat cnt))
    (λ '(_, i, _, _), cnt - i) go_fuel
    (replicate (Z.to_nat cnt) zeroMessage, 0, page_of s, off_of s)) as (r & -> & ->); [..|done].
  - intros [[[ret i] page] off] (Hi & Hat & ->). unfold Merge_body.
    rewrite (slot_at _ _ _ _ Hok Hat). cbn [mbind outcome_mbind].
    destruct (Hrun i Hi) as [m Hm]. rewrite Hm.
    replace (Z.to_nat (cnt - i)) with (S (Z.to_nat (cnt - (i + 1)))) by lia. cbn [replicate].
    rewrite set_idx_middle by (unfold len; rewrite length_collect; lia). cbn [mbind outcome_mbind].
    rewrite <- (Z2Nat.id i) in Hm at 1 by lia.
    assert (collect (cache_get mc) s (Z.to_nat i) ++ m :: replicate (Z.to_nat (cnt - (i + 1))) zeroMessage
      = collect (cache_get mc) s (Z.to_nat (i + 1)) ++ replicate (Z.to_nat (cnt - (i + 1))) zeroMessage) as ->.
    { replace (Z.to_nat (i + 1)) with (S (Z.to_nat i)) by lia.
      by rewrite (collect_snoc _ _ _ _ Hm), <- app_assoc. }
    destruct Hat as (Hpg & Ho & E). zcase.
    + right. eexists; split; [done|]. replace (i + 1) with cnt by lia.
      by rewrite Z.sub_diag, app_nil_r.
    + assert (page * maxPageMsg + off + 1 < nPage mc * maxPageMsg) as Hin.
      { destruct (Z.lt_ge_cases (page * maxPageMsg + off + 1) (nPage mc * maxPageMsg)); [done|].
        destruct (Hrun (i + 1)) as [m' Hm']; [lia|].
        rewrite cache_get_beyond in Hm'; [done|done|lia]. }
      left. unfold maxPageMsg in *.
      zcase; eexists; (split; [done|]); repeat split; unfold maxPageMsg; lia.
  - intros [[[ret i] page] off] (Hi & _). lia.
  - split; [lia|]. rewrite Z.add_0_r, Z.sub_0_r. split; [by apply at_seq_start|done].
  - lia.
Qed.

Lemma Merge_get mc s : cache_ok mc → 0 <= s <= max_u64 →
  ∃ ms, maximal_run (cache_get mc) s ms ∧
    Merge mc s = Ret (if decide (ms = []) then None else Some ms).
Proof.
  intros Hok Hs. assert (cache_get mc s = None → maximal_run (cache_get mc) s []) as Hnil.
  { intros E. split; [done|]. by rewrite len_nil, Z.add_0_r. }
  unfold Merge. zcase.
  { exists []. split; [|done]. apply Hnil, cache_get_beyond; [done|].
    destruct (page_off s Hs) as [Hp _]. rewrite Hp in E. destruct (seq_split s) as (E' & _ & ?); [lia|].
    unfold maxPageMsg in *. lia. }
  pose proof (at_seq_start mc s Hs E) as Hat. rewrite (slot_at _ _ _ _ Hok Hat). cbn [mbind outcome_mbind].
  destruct (cache_get mc s) as [m|] eqn:Em; [|exists []; auto].
  destruct (getCount_spec mc s Hok Hs E) as (r & -> & Hr & Hrun & Hend). cbn [mbind outcome_mbind].
  assert (r ≠ 0) by (intros ->; rewrite Z.add_0_r in Hend; congruence). zcase.
  assert (r < Z.pos go_fuel) as Hf.
  { destruct (Z.lt_ge_cases r (Z.pos go_fuel)) as [|Hge]; [done|].
    destruct (Hrun (nPage mc * maxPageMsg)) as [m' Hm'].
    - destruct Hok as (_ & ? & _). pose proof capPages_range. unfold go_fuel, maxPageMsg in *. lia.
    - rewrite cache_get_beyond in Hm'; [done|done|lia]. }
  rewrite Merge_loop_spec by (done || lia). cbn [mbind outcome_mbind].
  exists (collect (cache_get mc) s (Z.to_nat r)). split.
  - split.
    + intros i m' Hi. eapply collect_lookup; [done|]. apply Hrun.
      apply lookup_lt_Some in Hi. rewrite length_collect in Hi. lia.
    + unfold len. by rewrite length_collect, Z2Nat.id by lia.
  - rewrite decide_False; [done|]. intros Hc. apply (f_equal length) in Hc.
    rewrite length_collect in Hc. cbn in Hc. lia.
Qed.

End Lemmas.

(** The cache of the program meets its contract. *)
#[export] Instance msgCache_SeqCacheSpec `{Memory} : SeqCacheSpec msgCache := {
  sc_ok := cache_ok;
  sc_get := cache_get;
  sc_cap := capacity;
  sc_cap_range := capacity_range;
  sc_upset_full := Upset_full;
  sc_init_ok := Init_ok zeroCache eq_refl;
  sc_init_get := Init_get zeroCache;
  sc_upset_spec := Upset_get;
  sc_isNil_spec := IsNil_get;
  sc_merge_spec := Merge_get
}.

(** ** Refinement of a finite map *)

Section Refinement.
Context {Mem : Memory}.

(** A sequence of [Upset] calls and their results. *)
Fixpoint upsets (mc : msgCache) (ops : list (Z * Message)) : outcome (list bool * msgCache) :=
  match ops with
  | [] => Ret ([], mc)
  | (s, m) :: ops' =>
      '(b, mc1) ← Upset mc s m;
      '(bs, mc2) ← upsets mc1 ops';
      Ret (b :: bs, mc2)
  end.

(** The same calls on the abstract store. *)
Fixpoint ref_upsets (g : gmap Z Message) (ops : list (Z * Message)) : list bool * gmap Z Message :=
  match ops with
  | [] => ([], g)
  | (s, m) :: ops' =>
      let r := ref_upsets (<[s := m]> g) ops' in
      (bool_decide (is_Some (g !! s)) :: r.1, r.2)
  end.

Lemma upsets_refine mc g ops : cache_ok mc → (∀ s, 0 <= s → cache_get mc s = g !! s) →
  Forall (λ op, 0 <= op.1 < capacity) ops →
  ∃ mc', upsets mc ops = Ret ((ref_upsets g ops).1, mc') ∧ cache_ok mc' ∧
    ∀ s, 0 <= s → cache_get mc' s = (ref_upsets g ops).2 !! s.
Proof.
  intros Hok Hg Hops. revert mc g Hok Hg.
  induction Hops as [|[s m] ops Hs Hops IH]; intros mc g Hok Hg; [by exists mc|].
  cbn in Hs. destruct (Upset_get mc s m Hok Hs) as (mc1 & E & Hok1 & Hget).
  cbn [upsets ref_upsets fst snd]. rewrite E. cbn [mbind outcome_mbind].
  destruct (IH mc1 (<[s := m]> g) Hok1) as (mc2 & E2 & Hok2 & Hget2).
  { intros s' Hs'. rewrite Hget, Hg, lookup_insert by done.
    repeat case_decide; congruence. }
  rewrite E2. cbn [mbind outcome_mbind]. exists mc2. rewrite Hg by lia. by split.
Qed.

Lemma upsets_full mc ops : cache_ok mc → Forall (λ op, 0 <= op.1 <= max_u64) ops →
  Exists (λ op, capacity <= op.1) ops → upsets mc ops = Panic.
Proof.
  intros Hok Hops Hex. revert mc Hok. induction Hops as [|[s m] ops Hs Hops IH]; intros mc Hok; [by inversion Hex|].
  cbn [upsets]. cbn in Hs. destruct (Z.lt_ge_cases s capacity) as [Hlt|Hge].
  - destruct (Upset_get mc s m Hok ltac:(lia)) as (mc1 & -> & Hok1 & _). cbn [mbind outcome_mbind].
    rewrite IH; [done| |done]. apply Exists_cons in Hex as [Hx|Hx]; [cbn in Hx; lia|done].
  - by rewrite Upset_full by (done || lia).
Qed.

(** ** Properties *)

(** C14: the cache refines a finite map, as far as memory goes.  Whatever messages
    with numbers below the capacity (16 Mi for each 128 MiB of memory) are stored, in
    any order, in a freshly initialised cache, every [Upset] returns (whether the
    entry was there before), [IsNil] tells whether the map has the sequence
    number, and [Merge] returns the maximal run of consecutive messages from it
    (nil when there is none), across page boundaries and at the end of the
    pages; none of them panics or loops for ever.  As soon as one message has a
    number from the capacity on, the growing loop runs out of memory: the process
    dies, however few messages are stored. *)
Theorem cache_refines_map ops (Hops : Forall (λ op, 0 <= op.1 <= max_u64) ops) :
  let g := (ref_upsets ∅ ops).2 in
  (Forall (λ op, op.1 < capacity) ops →
   ∃ mc, upsets (Init zeroCache) ops = Ret ((ref_upsets ∅ ops).1, mc) ∧ cache_ok mc ∧
    ∀ s, 0 <= s <= max_u64 →
      IsNil mc s = Ret (bool_decide (g !! s = None)) ∧
      ∃ ms, Merge mc s = Ret (if decide (ms = []) then None else Some ms) ∧
        (∀ i m, ms !! i = Some m → g !! (s + Z.of_nat i) = Some m) ∧
        g !! (s + len ms) = None) ∧
  (Exists (λ op, capacity <= op.1) ops → upsets (Init zeroCache) ops = Panic).
Proof.
  cbv zeta. split; [|by apply upsets_full; [apply Init_ok|]]. intros Hlow.
  destruct (upsets_refine (Init zeroCache) ∅ ops) as (mc & E & Hok & Hget);
    [by apply Init_ok|intros; by rewrite Init_get, lookup_empty| |].
  { rewrite Forall_forall in *. intros op Hin. specialize (Hops op Hin). specialize (Hlow op Hin). lia. }
  exists mc. split; [done|]. split; [done|]. intros s Hs.
  rewrite IsNil_get, Hget by (done || lia). split; [done|].
  destruct (Merge_get mc s Hok Hs) as (ms & [Hr1 Hr2] & ->).
  exists ms. split; [done|]. pose proof (len_nonneg ms). split.
  - intros i m Hi. rewrite <- Hget by lia. by apply Hr1.
  - by rewrite <- Hget by lia.
Qed.
End Refinement.

(** ** Witnesses *)

(** A process with memory for 100 pages: 96 of them can be used. *)
Definition ex_memory : Memory.
Proof. refine {| maxPages := 100 |}; vm_compute; congruence. Defined.
#[local] Existing Instance ex_memory.

Lemma cache_refines_map_witness :
  let ops := [(1048575, mkMessage [x41]); (1048576, mkMessage [x42]); (20000000, mkMessage [])] in
  let g := (ref_upsets ∅ ops).2 in
  (∃ mc, upsets (Init zeroCache) ops = Ret ([false; false; false], mc) ∧
    Merge mc 1048575 = Ret (Some [mkMessage [x41]; mkMessage [x42]])) ∧
  upsets (Init zeroCache) (ops ++ [(100663296, mkMessage [])]) = Panic.
Proof.
  assert (Forall (λ op : Z * Message, 0 <= op.1 <= max_u64)
    [(1048575, mkMessage [x41]); (1048576, mkMessage [x42]); (20000000, mkMessage []); (100663296, mkMessage [])])
    as Hops by (repeat constructor; vm_compute; congruence).
  split.
  - destruct (cache_refines_map [(1048575, mkMessage [x41]); (1048576, mkMessage [x42]); (20000000, mkMessage [])])
      as [Hlow _]; [repeat constructor; vm_compute; congruence|].
    destruct Hlow as (mc & E & _ & _); [repeat constructor; vm_compute; reflexivity|].
    exists mc. split; [exact E|]. vm_compute in E. injection E as <-. vm_compute. reflexivity.
  - apply (cache_refines_map [(1048575, mkMessage [x41]); (1048576, mkMessage [x42]); (20000000, mkMessage []);
      (100663296, mkMessage [])] Hops).
    do 3 apply Exists_cons_tl. apply Exists_cons_hd. vm_compute. congruence.
Defined.

(** The run across a page boundary, evaluated. *)
Example Merge_across_pages :
  ('(_, mc) ← upsets (Init zeroCache)
     [(1048576, mkMessage [x42]); (1048575, mkMessage [x41]); (1048578, mkMessage [x44])];
   Merge mc 1048575) = Ret (Some [mkMessage [x41]; mkMessage [x42]]).
Proof. vm_compute. reflexivity. Qed.
