(* ===== verification/Client.v ===== *)
(** * The MoldUDP64 client (src/client.go)

    The state of a client and its operations: receiving a datagram
    ([gotBuff]), processing a buffered packet ([doMsgBuf]) with the
    out-of-order cache, asking for retransmissions ([newReq], [request]),
    handing messages to the application ([Read]), and the bodies of its two
    goroutines.  The client is written against the interface [SeqCache] of its
    cache and is polymorphic in the type of its multicast connection. *)

From Stdlib Require Import Strings.Byte.
From S2P Require Import Prelude.
From S2P Require Import GoBytes.
From S2P Require Import NetAddr.
From S2P Require Import Codec.
From S2P Require Import MsgCache.

(** ** Constants *)

Definition reqInterval : Z := 10000000.
Definition maxMessages : Z := 1024.
Definition nakWindow : Z := 65400.

(** The capacity of [Client.ch]. *)
Definition chanCap : Z := 5000.

(** ** Data *)

Record msgBuf : Type := mkMsgBuf {
  mb_seqNo : Z;
  mb_msgCnt : Z;
  mb_dataBuf : list byte
}.

(** The struct [Client].  [connReq] is the peer of the connected request
    socket; [ready] is [None] for the nil slice; [ch] holds the packets in the
    channel, oldest first.  [readLock] is not a field: the sections it protects
    are functions of their own ([commit_append], [Read_take]) and single steps of
    the transition systems; src/client.go never assigns [nInvalid]. *)
Record Client {Conn Cache : Type} : Type := mkClient {
  dstIP : list byte;
  dstPort : Z;
  connReq : option UDPAddr;
  conn : option Conn;
  reqSrv : list UDPAddr;
  Running : bool;
  endSession : bool;
  bDone : bool;
  LastRecv : Z;
  seqNo : Z;
  seqMax : Z;
  seqEnd : Z;
  reqLast : Z;
  nRecvs : Z;
  nRequest : Z;
  nError : Z;
  nMissed : Z;
  nRepeats : Z;
  lastLogTime : Z;
  lastSeq : Z;
  lastN : Z;
  robinN : Z;
  session : gostring;
  nMerges : Z;
  ch : list msgBuf;
  ready : option (list Message);
  cache : Cache
}.
Arguments Client : clear implicits.
Arguments mkClient {Conn Cache}.

#[export] Instance Client_eta {Conn Cache} : Eta (Client Conn Cache) := λ c,
  mkClient (dstIP c) (dstPort c) (connReq c) (conn c) (reqSrv c) (Running c)
    (endSession c) (bDone c) (LastRecv c) (seqNo c) (seqMax c) (seqEnd c)
    (reqLast c) (nRecvs c) (nRequest c) (nError c) (nMissed c) (nRepeats c)
    (lastLogTime c) (lastSeq c) (lastN c) (robinN c) (session c) (nMerges c)
    (ch c) (ready c) (cache c).

(** What [doMsgBuf] still has to append under its lock, when it has got there. *)
Abbreviation pending := (option (option (list Message))).

Section Operations.
Context {Conn Cache : Type} `{SeqCache Cache}.
Abbreviation client := (Client Conn Cache).

(** ** Out-of-order messages *)

(** The loop of [storeCache]: [bMerge], the sequence number and the client. *)
Fixpoint storeCache_loop (c : client) (buf : list Message) (bMerge : bool) (seq : Z)
    : outcome (bool * Z * client) :=
  match buf with
  | [] => Ret (bMerge, seq, c)
  | m :: buf' =>
      '(old, cache') ← sc_upset (cache c) seq m;
      storeCache_loop (c <| cache := cache' |>) buf' (if old : bool then true else bMerge)
        (u64 (seq + 1))
  end.

Definition storeCache (c : client) (buf : list Message) (seq : Z) : outcome (Z * client) :=
  '(bMerge, seq', c) ← storeCache_loop c buf false seq;
  if bMerge : bool then Ret (0, c <| nMerges := nMerges c + 1 |>)
  else
    nil ← sc_isNil (cache c) (u64 (seq' - 1));
    if negb nil then Ret (0, c) else Ret (seq, c).

Definition popCache (c : client) (seq : Z) : outcome (option (list Message)) :=
  sc_merge (cache c) seq.

(** ** Retransmission requests *)

(** [newReq] at time [tt]: the request packet ([None] is nil). *)
Definition newReq (c : client) (seq : Z) (tt : Z) : outcome (option (list byte) * client) :=
  if seq <=? seqNo c then Ret (None, c)
  else
    let c := if seqMax c <? seq then c <| seqMax := seq |> else c in
    if time_sub tt (reqLast c) <? reqInterval then Ret (None, c)
    else
      let c := c <| reqLast := tt |> in
      let seqF := seqNo c in
      let cnt := u64 (seq - seqF) in
      let cnt := if nakWindow <? cnt then nakWindow else cnt in
      let head := mkHeader (session c) seqF (u16 cnt) in
      '(buff, err) ← EncodeHead (replicate (Z.to_nat headSize) x00) head;
      match err with
      | Some _ => Ret (None, c)
      | None =>
          buff ← slice 0 headSize buff;
          Ret (Some buff, c)
      end.

(** ** Receiving a datagram *)

(** [gotBuff] at Unix time [now]. *)
Definition gotBuff (c : client) (buff : list byte) (n : Z) (now : Z)
    : outcome (option error * client) :=
  let c := c <| nRecvs := nRecvs c + 1 |> in
  b ← slice 0 n buff;
  '(head, err) ← DecodeHead b zeroHeader;
  match err with
  | Some _ => Ret (Some errDecodeHead, c <| nError := nError c + 1 |>)
  | None =>
      let nMsg := MessageCnt head in
      if negb (nMsg =? 0xffff) && (maxMessages <=? nMsg)
      then Ret (Some errInvMessageCnt, c <| nError := nError c + 1 |>)
      else
        let c := c <| LastRecv := now |> in
        if negb (bool_decide (session c = [])) && negb (bool_decide (session c = Session head))
        then Ret (Some errSession, c <| nError := nError c + 1 |>)
        else
          let c := if bool_decide (session c = []) then c <| session := Session head |> else c in
          if negb (nMsg =? 0xffff) && negb (nMsg =? 0) then
            if n =? headSize then Ret (Some errMessageCnt, c)
            else if n <? headSize then Panic
            else
              payload ← slice headSize n buff;
              let newBuf := go_copy (replicate (Z.to_nat (n - headSize)) x00) payload in
              Ret (None, c <| ch := ch c ++ [mkMsgBuf (SeqNo head) nMsg newBuf] |>)
          else Ret (None, c <| ch := ch c ++ [mkMsgBuf (SeqNo head) nMsg []] |>)
  end.

(** ** Processing a packet *)

(** The end-of-session part of [doMsgBuf] (message count 0xffff). *)
Definition gotEndSession (c : client) (mb : msgBuf) : client :=
  let c := if endSession c then c
           else c <| endSession := true |> <| seqEnd := mb_seqNo mb |> in
  if seqMax c <=? seqNo c then
    if (seqMax c <? seqEnd c) && (seqNo c <? seqEnd c) then
      if bool_decide (ready c = None) then c <| seqMax := seqEnd c |> else c
    else
      let c := c <| bDone := true |> in
      if bool_decide (ready c = None) then c <| Running := false |> else c
  else c.

(** The end of [doMsgBuf] before the lock: [seq] is the next expected sequence
    number.  Another goroutine sees these writes before the messages. *)
Definition commit_publish (c : client) (seq : Z) : client :=
  let c := c <| lastSeq := seqNo c |> in
  let c := c <| lastN := i32 (u64 (seq - seqNo c)) |> in
  let c := c <| seqNo := seq |> in
  if endSession c && (seqMax c <=? seq) then
    if seq <? seqEnd c then c <| seqMax := seqEnd c |> else c <| bDone := true |>
  else c.

(** The append of the messages [res] under the lock. *)
Definition commit_append (c : client) (res : option (list Message)) : client :=
  match ready c with
  | None => c <| ready := res |>
  | Some r => c <| ready := Some (r ++ default [] res) |>
  end.

(** The delivering part of [doMsgBuf] before the lock: the messages [res] of
    packet [mb] reach the next expected sequence number.  The messages to append
    and the client. *)
Definition deliver_publish (c : client) (mb : msgBuf) (res : option (list Message))
    : outcome (option (list Message) * client) :=
  let seq := mb_seqNo mb in
  res ← (if seq <? seqNo c
         then r ← slice (i64 (u64 (seqNo c - seq))) (slen res) (default [] res); Ret (Some r)
         else Ret res);
  let seq := u64 (seqNo c + slen res) in
  bb ← popCache c seq;
  match bb with
  | Some b => Ret (Some (default [] res ++ b), commit_publish c (u64 (seq + len b)))
  | None => Ret (res, commit_publish c seq)
  end.

Definition append_pending (c : client) (p : pending) : client :=
  match p with
  | Some res => commit_append c res
  | None => c
  end.

(** [doMsgBuf] at time [tt] up to the lock: the request to send, the error, what
    is still to be appended, the client. *)
Definition doMsgBuf_publish (c : client) (mb : msgBuf) (tt : Z)
    : outcome (option (list byte) * option error * pending * client) :=
  '(res, err) ← (if 0 <? len (mb_dataBuf mb)
                 then Unmarshal (mb_dataBuf mb) (mb_msgCnt mb) else Ret (None, None));
  match err with
  | Some e => Ret (None, Some e, None, c <| nError := nError c + 1 |>)
  | None =>
      let c := if mb_msgCnt mb =? 0xffff then gotEndSession c mb else c in
      let seq := mb_seqNo mb in
      let msgCnt := mb_msgCnt mb in
      if negb (msgCnt =? 0) && negb (msgCnt =? 0xffff) then
        if negb (slen res =? msgCnt)
        then Ret (None, Some errMessageCnt, None, c <| nError := nError c + 1 |>)
        else
          let seqNext := u64 (seq + msgCnt) in
          let seqF := seqNo c in
          if seqNext <? seqF then Ret (None, None, None, c <| nRepeats := nRepeats c + 1 |>)
          else if seqF <? seq then
            '(seq, c) ← storeCache c (default [] res) seq;
            if seq <=? seqF then Ret (None, None, None, c)
            else
              '(reqBuf, c) ← newReq c seq tt;
              Ret (reqBuf, None, None, c <| nMissed := nMissed c + 1 |>)
          else
            '(res, c) ← deliver_publish c mb res;
            Ret (None, None, Some res, c)
      else if seqNo c <? seq then
        '(reqBuf, c) ← newReq c seq tt;
        Ret (reqBuf, None, None, c <| nMissed := nMissed c + 1 |>)
      else Ret (None, None, None, c)
  end.

(** [doMsgBuf] at time [tt]: the request to send, the error, the client. *)
Definition doMsgBuf (c : client) (mb : msgBuf) (tt : Z)
    : outcome (option (list byte) * option error * client) :=
  '(req, err, p, c) ← doMsgBuf_publish c mb tt;
  Ret (req, err, append_pending c p).

(** ** Handing messages to the application *)

(** What one turn of the loop of [Read] does: return messages with a sequence
    number, return (nil, 0) because the client is not running, or go round. *)
Inductive read_result : Type :=
| ReadMsgs (ms : list Message) (seq : Z)
| ReadEnd
| ReadAgain.

(** The section of the loop's body that holds the lock: what is ready, with the
    number of the last delivery. *)
Definition Read_take (c : client) : option (list Message) * Z * client :=
  (ready c, lastSeq c, c <| ready := None |>).

(** The rest of the body. *)
Definition Read_test (c : client) (res : option (list Message)) (seq : Z) : read_result * client :=
  let c := if bDone c && (seqNo c <=? u64 (seq + slen res))
           then c <| Running := false |> else c in
  match res with
  | Some ms => (ReadMsgs ms seq, c)
  | None => (ReadAgain, c)
  end.

(** The body of the loop, after its test of [Running]. *)
Definition Read_body (c : client) : read_result * client :=
  let '(res, seq, c) := Read_take c in
  Read_test c res seq.

Definition Read_iter (c : client) : read_result * client :=
  if Running c then Read_body c else (ReadEnd, c).

Definition SeqNo_get (c : client) : Z := i64 (seqNo c).

Definition LastSeq (c : client) : Z * Z := (lastSeq c, lastN c).

(** ** The goroutines *)

(** [request]: [dial] and [write] are the errors of the system calls
    ([net.DialUDP], [UDPConn.Write]); the result is the datagram written, with
    the peer it goes to. *)
Definition request (c : client) (buff : list byte) (dial write : option error)
    : outcome (option (UDPAddr * list byte) * client) :=
  if len (reqSrv c) =? 0 then Ret (None, c)
  else
    let c := c <| nRequest := nRequest c + 1 |> in
    _ ← (if nRequest c <? 5 then _ ← idx (reqSrv c) (robinN c); Ret tt else Ret tt);
    r ← (match connReq c with
         | Some peer => Ret (Some peer)
         | None =>
             peer ← idx (reqSrv c) (robinN c);
             match dial with
             | Some _ => Ret None
             | None => Ret (Some peer)
             end
         end);
    match r with
    | None => Ret (None, c)
    | Some peer =>
        let c := c <| connReq := Some peer |> in
        let sent := match write with None => Some (peer, buff) | Some _ => None end in
        let c := c <| robinN := robinN c + 1 |> in
        let c := if len (reqSrv c) <=? robinN c then c <| robinN := 0 |> else c in
        Ret (sent, c)
    end.

(** The ticker branch of [requestLoop]. *)
Definition requestLoop_tick (c : client) (tt : Z) (dial write : option error)
    : outcome (option (UDPAddr * list byte) * client) :=
  if seqNo c <? seqMax c then
    '(req, c) ← newReq c (seqMax c) tt;
    match req with
    | Some buff => request c buff dial write
    | None => Ret (None, c)
    end
  else Ret (None, c).

(** The channel branch of [requestLoop], when a packet is there. *)
Definition requestLoop_msg (c : client) (tt now : Z) (dial write : option error)
    : outcome (option (UDPAddr * list byte) * client) :=
  match ch c with
  | [] => Ret (None, c)
  | mb :: rest =>
      '(req, err, c) ← doMsgBuf (c <| ch := rest |>) mb tt;
      match err with
      | Some _ => Ret (None, if lastLogTime c <? now then c <| lastLogTime := now |> else c)
      | None =>
          match req with
          | Some buff => request c buff dial write
          | None => Ret (None, c)
          end
      end
  end.

(** The same branch up to the lock of [doMsgBuf]: what is sent, what is still to
    be appended. *)
Definition requestLoop_publish (c : client) (tt now : Z) (dial write : option error)
    : outcome (option (UDPAddr * list byte) * pending * client) :=
  match ch c with
  | [] => Ret (None, None, c)
  | mb :: rest =>
      '(req, err, p, c) ← doMsgBuf_publish (c <| ch := rest |>) mb tt;
      match p with
      | Some res => Ret (None, Some res, c)
      | None =>
          match err with
          | Some _ => Ret (None, None, if lastLogTime c <? now then c <| lastLogTime := now |> else c)
          | None =>
              match req with
              | Some buff => '(o, c) ← request c buff dial write; Ret (o, None, c)
              | None => Ret (None, None, c)
              end
          end
      end
  end.

(** What [doMsgLoop] does with one datagram and its sender, in each of its
    three branches. *)
Definition onPacket (c : client) (buff : list byte) (n : Z) (rAddr : UDPAddr) (now : Z)
    : outcome client :=
  '(err, c) ← gotBuff c buff n now;
  match err with
  | Some _ => Ret (if negb (lastLogTime c =? now) then c <| lastLogTime := now |> else c)
  | None =>
      if len (reqSrv c) =? 0
      then Ret (c <| reqSrv := reqSrv c ++ [mkUDPAddr (IP rAddr) (dstPort c + 1)] |>)
      else Ret c
  end.

(** The batch of [MRecv]: every buffer in turn. *)
Fixpoint onBatch (c : client) (bufs : list (list byte)) (rAddr : UDPAddr) (now : Z)
    : outcome client :=
  match bufs with
  | [] => Ret c
  | buf :: bufs' => c ← onPacket c buf (len buf) rAddr now; onBatch c bufs' rAddr now
  end.

(** The struct [NewClient] builds once the connection is open. *)
Definition newClientState (cn : Conn) (nextSeq : Z) (ip : list byte) (port : Z)
    (srvs : list UDPAddr) (now : Z) : client :=
  {| dstIP := ip; dstPort := port; connReq := None; conn := Some cn; reqSrv := srvs;
     Running := true; endSession := false; bDone := false; LastRecv := now;
     seqNo := if nextSeq =? 0 then 1 else nextSeq; seqMax := 0; seqEnd := 0; reqLast := 0;
     nRecvs := 0; nRequest := 0; nError := 0; nMissed := 0; nRepeats := 0; lastLogTime := 0;
     lastSeq := 0; lastN := 0; robinN := 0; session := []; nMerges := 0; ch := [];
     ready := None; cache := sc_init sc_zero |}.
End Operations.
