(* ===== verification/ClientLemmas.v ===== *)
(** * Lemmas on the client's operations

    Total behaviour of every operation of [Client.v] on every branch, for any
    cache that meets the contract [SeqCacheSpec].  No hypothesis is made on the
    packets beyond the ranges of their fields. *)

From Stdlib Require Import Strings.Byte.
From S2P Require Import Prelude.
From S2P Require Import GoBytes.
From S2P Require Import Codec.
From S2P Require Import MsgCache.
From S2P Require Import Client.

(** A packet in the channel, as [gotBuff] builds it from any datagram. *)
Definition wf_mb (mb : msgBuf) : Prop :=
  0 <= mb_seqNo mb <= max_u64 ∧ 0 <= mb_msgCnt mb < 65536 ∧ len (mb_dataBuf mb) < 2 ^ 63.

(** A packet with messages: neither a heartbeat nor an end of session. *)
Definition is_data (mb : msgBuf) : Prop := mb_msgCnt mb ≠ 0 ∧ mb_msgCnt mb ≠ 0xffff.

#[export] Instance is_data_dec mb : Decision (is_data mb).
Proof. unfold is_data. apply _. Defined.

Section Lemmas.
Context {Conn Cache : Type} `{SeqCacheSpec Cache}.
Abbreviation client := (Client Conn Cache).
Implicit Types (c : client) (mb : msgBuf).

(** The part of the state every operation keeps well formed. *)
Definition client_ok (c : client) : Prop :=
  sc_ok (cache c) ∧ 0 <= seqNo c <= max_u64 ∧ wf_session (session c).

(** ** storeCache *)

Lemma u64_step seq i : u64 (u64 (seq + 1) + i) = u64 (seq + (1 + i)).
Proof. unfold u64. rewrite Zplus_mod_idemp_l. f_equal. lia. Qed.

Lemma storeCache_loop_spec c buf b seq : sc_ok (cache c) → 0 <= seq <= max_u64 →
  (∀ i, (i < length buf)%nat → u64 (seq + Z.of_nat i) < sc_cap) →
  ∃ b' k, storeCache_loop c buf b seq = Ret (b', u64 (seq + len buf), c <| cache := k |>) ∧
    sc_ok k ∧
    (∀ s, 0 <= s → sc_get k s = sc_get (cache c) s ∨
       ∃ i m, buf !! i = Some m ∧ s = u64 (seq + Z.of_nat i) ∧ sc_get k s = Some m) ∧
    (∀ s, 0 <= s → is_Some (sc_get (cache c) s) → is_Some (sc_get k s)) ∧
    (∀ i, (i < length buf)%nat → is_Some (sc_get k (u64 (seq + Z.of_nat i)))).
Proof.
  revert c b seq. induction buf as [|m buf IH]; intros c b seq Hok Hseq Hcap; cbn [storeCache_loop].
  { exists b, (cache c). rewrite len_nil, Z.add_0_r, u64_small by done.
    split; [by destruct c|]. split; [done|]. split; [by left|]. split; [done|]. cbn. lia. }
  pose proof (u64_step seq) as Hu. pose proof (Hcap 0%nat ltac:(cbn; lia)) as Hlt0.
  rewrite Z.add_0_r, u64_small in Hlt0 by done.
  destruct (sc_upset_spec (cache c) seq m Hok ltac:(lia)) as (k1 & -> & Hok1 & Hget1).
  cbn [mbind outcome_mbind].
  destruct (IH (c <| cache := k1 |>) (if bool_decide (is_Some (sc_get (cache c) seq)) then true else b)
    (u64 (seq + 1))) as (b' & k & -> & Hok2 & Hor & Hmono & Hin); [done|apply u64_range| |].
  { intros i Hi. rewrite Hu. specialize (Hcap (S i) ltac:(cbn; lia)).
    by replace (Z.of_nat (S i)) with (1 + Z.of_nat i) in Hcap by lia. }
  exists b', k. rewrite len_cons, Hu. split; [done|]. split; [done|].
  cbn [cache] in Hor, Hmono. cbv [update] in Hor, Hmono. cbn [cache] in Hor, Hmono.
  split; [|split].
  - intros s Hs. destruct (Hor s Hs) as [E|(i & m' & Hi & -> & E)].
    + rewrite Hget1 in E by done. case_decide as Hd; [|by left].
      right. exists 0%nat, m. subst s. by rewrite Z.add_0_r, u64_small.
    + right. exists (S i), m'. split; [done|]. split; [|done].
      rewrite Hu. f_equal. lia.
  - intros s Hs Hsome. apply Hmono; [done|]. rewrite Hget1 by done. by case_decide.
  - intros [|i] Hi; cbn in Hi.
    + rewrite Z.add_0_r, u64_small by done. apply Hmono; [lia|].
      rewrite Hget1, decide_True by (done || lia). done.
    + replace (seq + Z.of_nat (S i)) with (seq + (1 + Z.of_nat i)) by lia.
      rewrite <- Hu. apply Hin. lia.
Qed.

(** A number beyond what the cache can hold ends the process. *)
Lemma storeCache_loop_full c buf b seq i : sc_ok (cache c) → 0 <= seq <= max_u64 →
  (i < length buf)%nat → sc_cap <= u64 (seq + Z.of_nat i) → storeCache_loop c buf b seq = Panic.
Proof.
  revert c b seq i. induction buf as [|m buf IH]; intros c b seq i Hok Hseq Hi Hfull; cbn in Hi; [lia|].
  cbn [storeCache_loop]. destruct (Z.lt_ge_cases seq sc_cap) as [Hlt|Hge]; [|by rewrite sc_upset_full by (done || lia)].
  destruct (sc_upset_spec (cache c) seq m Hok ltac:(lia)) as (k1 & -> & Hok1 & _). cbn [mbind outcome_mbind].
  destruct i as [|i]; [rewrite Z.add_0_r, u64_small in Hfull by done; lia|].
  apply (IH _ _ _ i); [done|apply u64_range|lia|]. rewrite u64_step.
  by replace (1 + Z.of_nat i) with (Z.of_nat (S i)) by lia.
Qed.

(** [storeCache] of at least one message stores them and returns 0: the entry
    it tests is the one it has just stored. *)
Lemma storeCache_spec c buf seq : sc_ok (cache c) → 0 <= seq <= max_u64 → buf ≠ [] →
  (∀ i, (i < length buf)%nat → u64 (seq + Z.of_nat i) < sc_cap) →
  ∃ k n, storeCache c buf seq = Ret (0, c <| cache := k |> <| nMerges := n |>) ∧
    sc_ok k ∧
    (∀ s, 0 <= s → sc_get k s = sc_get (cache c) s ∨
       ∃ i m, buf !! i = Some m ∧ s = u64 (seq + Z.of_nat i) ∧ sc_get k s = Some m) ∧
    (∀ s, 0 <= s → is_Some (sc_get (cache c) s) → is_Some (sc_get k s)) ∧
    (∀ i, (i < length buf)%nat → is_Some (sc_get k (u64 (seq + Z.of_nat i)))).
Proof.
  intros Hok Hseq Hne Hcap. unfold storeCache.
  destruct (storeCache_loop_spec c buf false seq Hok Hseq Hcap) as (b & k & -> & Hok' & Hrest).
  cbn [mbind outcome_mbind]. exists k. destruct b.
  { eexists. split; [reflexivity|]. by split. }
  exists (nMerges c). cbn [cache update].
  rewrite sc_isNil_spec; [|done|apply u64_range]. cbn [mbind outcome_mbind].
  assert (u64 (u64 (seq + len buf) - 1) = u64 (seq + Z.of_nat (pred (length buf)))) as ->.
  { unfold u64, len. rewrite Zminus_mod_idemp_l. f_equal. destruct buf; [done|]. cbn [length pred]. lia. }
  destruct (proj2 (proj2 Hrest) (pred (length buf))) as [m Hm]; [destruct buf; [done|]; cbn; lia|].
  cbn [cache]. rewrite bool_decide_eq_false_2 by (by rewrite Hm). cbn. split; [|by split].
  by destruct c.
Qed.

(** ** newReq *)

(** [newReq] in closed form: it never fails, and the request asks for the
    messages from the next expected one on, at most [nakWindow] of them. *)
Lemma newReq_eq c seq tt : newReq c seq tt = Ret (
  if seq <=? seqNo c then (None, c)
  else
    let c1 := c <| seqMax := Z.max (seqMax c) seq |> in
    if time_sub tt (reqLast c) <? reqInterval then (None, c1)
    else (Some (head_bytes (mkHeader (session c) (seqNo c) (Z.min nakWindow (u64 (seq - seqNo c))))),
          c1 <| reqLast := tt |>)).
Proof.
  unfold newReq. zcase; [done|].
  assert ((if seqMax c <? seq then c <| seqMax := seq |> else c)
    = c <| seqMax := Z.max (seqMax c) seq |>) as ->.
  { zcase; destruct c; cbn in *; do 2 f_equal; cbv [update]; f_equal; lia. }
  cbn [reqLast update]. zcase; [done|]. cbv zeta. cbn [session seqNo update].
  rewrite EncodeHead_spec by (vm_compute; congruence). cbn [mbind outcome_mbind].
  change (drop 20 (replicate (Z.to_nat headSize) x00)) with (@nil byte).
  rewrite app_nil_r, slice_Ret by (rewrite ?len_head_bytes; unfold headSize; lia).
  cbn [mbind outcome_mbind]. rewrite Z.sub_0_r, drop_0, take_ge by (by rewrite length_head_bytes).
  assert (u16 (if nakWindow <? u64 (seq - seqNo c) then nakWindow else u64 (seq - seqNo c))
    = Z.min nakWindow (u64 (seq - seqNo c))) as ->; [|done].
  pose proof (u64_range (seq - seqNo c)). unfold nakWindow in *. zcase; rewrite u16_small; lia.
Qed.

(** ** gotBuff *)

(** The packet [gotBuff] puts in the channel for a header and a payload. *)
Definition packet_of (h : Header) (payload : list byte) : msgBuf :=
  mkMsgBuf (SeqNo h) (MessageCnt h)
    (if decide (MessageCnt h ≠ 0xffff ∧ MessageCnt h ≠ 0) then payload else []).

(** When [gotBuff] accepts a datagram with header [h] and payload [p]. *)
Definition accepts (c : client) (h : Header) (payload : list byte) : Prop :=
  (MessageCnt h = 0xffff ∨ MessageCnt h < maxMessages) ∧
  (session c = [] ∨ session c = Session h) ∧
  (MessageCnt h = 0xffff ∨ MessageCnt h = 0 ∨ payload ≠ []).

(** The receiver changes only counters, the receive time, the session and the
    channel. *)
Record recv_frame (c c' : client) : Prop := {
  rf_cache : cache c' = cache c; rf_seqNo : seqNo c' = seqNo c; rf_ready : ready c' = ready c;
  rf_seqMax : seqMax c' = seqMax c; rf_endSession : endSession c' = endSession c;
  rf_seqEnd : seqEnd c' = seqEnd c; rf_lastSeq : lastSeq c' = lastSeq c; rf_lastN : lastN c' = lastN c;
  rf_bDone : bDone c' = bDone c; rf_Running : Running c' = Running c;
  rf_reqLast : reqLast c' = reqLast c; rf_reqSrv : reqSrv c' = reqSrv c;
  rf_connReq : connReq c' = connReq c; rf_robinN : robinN c' = robinN c
}.

(** On any datagram [gotBuff] either rejects it, and changes at most counters
    and the session, or accepts it and queues its packet. *)
Lemma gotBuff_spec c buff n now : 0 <= n <= len buff → wf_session (session c) →
  let b := take (Z.to_nat n) buff in
  ∃ e c', gotBuff c buff n now = Ret (e, c') ∧ recv_frame c c' ∧ wf_session (session c') ∧
    ((is_Some e ∧ ch c' = ch c ∧
        ∀ h, DecodeHead b zeroHeader = Ret (h, None) → ¬ accepts c h (drop 20 b)) ∨
     (e = None ∧ ∃ h, DecodeHead b zeroHeader = Ret (h, None) ∧
        wf_header h ∧ accepts c h (drop 20 b) ∧ session c' = Session h ∧
        ch c' = ch c ++ [packet_of h (drop 20 b)])).
Proof.
  intros Hn Hws. cbv zeta. unfold gotBuff. rewrite (slice_Ret 0 n) by lia. cbn [mbind outcome_mbind].
  rewrite Z.sub_0_r, drop_0. set (b := take (Z.to_nat n) buff).
  assert (len b = n) as Hb by (unfold b, len in *; rewrite length_take; lia).
  destruct (DecodeHead_total b zeroHeader) as [[-> Hlt]|(Hge & h & -> & Hwf)]; cbn [mbind outcome_mbind].
  { eexists _, _. split; [done|]. split; [by constructor|]. split; [done|]. left.
    split; [by eexists|]. split; [done|]. intros h Hh. discriminate. }
  rewrite Hb in Hge. destruct (negb (MessageCnt h =? 0xffff) && (maxMessages <=? MessageCnt h)) eqn:E1.
  { zbool. eexists _, _. split; [done|]. split; [by constructor|]. split; [done|]. left.
    split; [by eexists|]. split; [done|]. intros h' [= <-] ([?|?] & _); lia. }
  assert (MessageCnt h = 0xffff ∨ MessageCnt h < maxMessages) as Hcnt
    by (apply andb_false_iff in E1 as [E1|E1]; zbool; lia).
  cbn [session update].
  destruct (negb (bool_decide (session c = [])) && negb (bool_decide (session c = Session h))) eqn:E2.
  { apply andb_true_iff in E2 as [H1 H2]. apply negb_true_iff, bool_decide_eq_false in H1, H2.
    eexists _, _. split; [done|]. split; [by constructor|]. split; [done|]. left.
    split; [by eexists|]. split; [done|]. intros h' [= <-] (_ & [?|?] & _); congruence. }
  assert (session c = [] ∨ session c = Session h) as Hses.
  { apply andb_false_iff in E2 as [E2|E2]; apply negb_false_iff, bool_decide_eq_true in E2; auto. }
  set (c1 := if bool_decide (session c = []) then _ else _).
  assert (recv_frame c c1 ∧ session c1 = Session h ∧ ch c1 = ch c) as (Hf & Hs1 & Hch1).
  { unfold c1. case_bool_decide as Hd; [by repeat split|]. destruct Hses as [?|Hs]; [done|]. by repeat split. }
  clearbody c1.
  assert (drop 20 b = take (Z.to_nat (n - headSize)) (drop (Z.to_nat headSize) buff)) as Hdrop.
  { unfold b, headSize. rewrite skipn_firstn_comm. f_equal. lia. }
  assert (∀ l, recv_frame c (c1 <| ch := l |>)) as Hf' by (intros l; by destruct Hf; constructor).
  destruct (negb (MessageCnt h =? 0xffff) && negb (MessageCnt h =? 0)) eqn:E3.
  - zbool. zcase; [|zcase].
    + eexists _, c1. split; [done|]. split; [done|]. rewrite Hs1. split; [apply Hwf|]. left.
      split; [by eexists|]. split; [done|].
      intros h' [= <-] (_ & _ & [?|[?|Hp]]); [lia|lia|]. apply Hp. rewrite Hdrop. by rewrite E, Z.sub_diag.
    + rewrite slice_Ret by (unfold headSize in *; lia). cbn [mbind outcome_mbind]. rewrite <- Hdrop.
      assert (length (drop 20 b) = Z.to_nat (n - headSize)) as Hdl
        by (unfold len, headSize in *; rewrite length_drop; lia).
      rewrite go_copy_same by (by rewrite length_replicate).
      eexists _, _. split; [done|]. split; [by apply Hf'|]. cbn [session ch update]. rewrite Hs1, Hch1.
      split; [apply Hwf|]. right. split; [done|]. exists h. split; [done|]. split; [done|].
      unfold packet_of. rewrite decide_True by done. split; [|done]. split; [done|]. split; [done|].
      right; right. intros Hnil. rewrite Hnil in Hdl. cbn in Hdl. lia.
  - assert (¬ (MessageCnt h ≠ 0xffff ∧ MessageCnt h ≠ 0)) as Hno
      by (apply andb_false_iff in E3 as [E3|E3]; zbool; lia).
    eexists _, _. split; [done|]. split; [by apply Hf'|]. cbn [session ch update]. rewrite Hs1, Hch1.
    split; [apply Hwf|]. right. split; [done|]. exists h. split; [done|]. split; [done|].
    unfold packet_of. rewrite decide_False by done. split; [|done]. split; [done|]. split; [done|]. lia.
Qed.

(** ** Delivering *)

(** The writes before the lock, in closed form. *)
Lemma publish_eq c seq : commit_publish c seq =
  c <| lastSeq := seqNo c |> <| lastN := i32 (u64 (seq - seqNo c)) |> <| seqNo := seq |>
    <| seqMax := if endSession c && (seqMax c <=? seq) && (seq <? seqEnd c)
                 then seqEnd c else seqMax c |>
    <| bDone := bDone c || endSession c && (seqMax c <=? seq) && (seqEnd c <=? seq) |>.
Proof.
  unfold commit_publish. destruct c as [? ? ? ? ? ? es bd ? sq sm se].
  cbn -[Z.leb Z.ltb i32 u64].
  destruct es, (sm <=? seq) eqn:E1; cbn [andb orb]; rewrite ?orb_false_r; [|done..].
  rewrite (Z.leb_antisym seq se). destruct (seq <? se) eqn:E2; cbn [negb];
    by rewrite ?orb_false_r, ?orb_true_r.
Qed.

Lemma append_eq c l : commit_append c (Some l) = c <| ready := Some (default [] (ready c) ++ l) |>.
Proof. unfold commit_append. by destruct (ready c). Qed.

Lemma deliver_spec c mb l : client_ok c → 0 <= mb_seqNo mb <= seqNo c →
  seqNo c - mb_seqNo mb <= len l < 65536 →
  let l' := drop (Z.to_nat (seqNo c - mb_seqNo mb)) l in
  let s1 := u64 (seqNo c + len l') in
  ∃ ms, maximal_run (sc_get (cache c)) s1 ms ∧
    deliver_publish c mb (Some l) = Ret (Some (l' ++ ms), commit_publish c (u64 (s1 + len ms))).
Proof.
  intros (Hok & Hseq & _) Hmb Hl. cbv zeta. unfold deliver_publish.
  set (k := seqNo c - mb_seqNo mb) in *. set (l' := drop (Z.to_nat k) l).
  assert ((if mb_seqNo mb <? seqNo c
    then r ← slice (i64 (u64 k)) (slen (Some l)) (default [] (Some l)); Ret (Some r)
    else Ret (Some l)) = Ret (Some l')) as ->.
  { change (slen (Some l)) with (len l). change (default [] (Some l)) with l.
    destruct (Z.ltb_spec (mb_seqNo mb) (seqNo c)).
    - rewrite u64_small, i64_small by (unfold max_u64 in *; lia). rewrite slice_Ret by lia.
      cbn [mbind outcome_mbind]. rewrite take_ge; [done|]. rewrite length_drop. unfold len. lia.
    - assert (Z.to_nat k = 0)%nat as Hk by lia. unfold l'. by rewrite Hk, drop_0. }
  cbn [mbind outcome_mbind]. unfold popCache. change (slen (Some l')) with (len l').
  destruct (sc_merge_spec (cache c) (u64 (seqNo c + len l')) Hok (u64_range _)) as (ms & Hrun & ->).
  exists ms. split; [done|]. cbn [mbind outcome_mbind]. case_decide as Hd; [|done].
  subst ms. rewrite len_nil, Z.add_0_r, app_nil_r.
  by rewrite (u64_small (u64 _)) by apply u64_range.
Qed.

(** ** doMsgBuf, branch by branch *)

(** The messages of a packet have numbers the cache can hold. *)
Definition fits_cache (mb : msgBuf) : Prop :=
  Forall (λ i, u64 (mb_seqNo mb + i) < sc_cap) (seqZ 0 (mb_msgCnt mb)).

#[export] Instance fits_cache_dec mb : Decision (fits_cache mb).
Proof. unfold fits_cache. apply _. Defined.

(** A readable packet ahead of the next expected message, with numbers beyond
    the memory of the cache. *)
Record beyond_cache (c : client) (mb : msgBuf) : Prop := {
  bc_data : is_data mb;
  bc_read : ∃ l, 0 < len (mb_dataBuf mb) ∧ Unmarshal (mb_dataBuf mb) (mb_msgCnt mb) = Ret (Some l, None);
  bc_ahead : seqNo c < mb_seqNo mb ∧ seqNo c <= u64 (mb_seqNo mb + mb_msgCnt mb);
  bc_full : ¬ fits_cache mb
}.

Lemma fits_cache_small mb : 0 <= mb_seqNo mb → mb_seqNo mb + mb_msgCnt mb <= sc_cap → fits_cache mb.
Proof.
  intros Hs Hcap. pose proof sc_cap_range. apply Forall_forall. intros i Hi. apply elem_of_seqZ in Hi.
  rewrite u64_small by (unfold max_u64; lia). lia.
Qed.

Inductive doMsgBuf_result (c : client) (mb : msgBuf) (tt : Z)
    : option (list byte) → option error → pending → client → Prop :=
(** the payload cannot be read, or there is none *)
| DM_error e : e = errUnmarshal ∨ e = errMessageCnt →
    (∀ l, Unmarshal (mb_dataBuf mb) (mb_msgCnt mb) = Ret (Some l, None) → len (mb_dataBuf mb) = 0) →
    doMsgBuf_result c mb tt None (Some e) None (c <| nError := nError c + 1 |>)
(** all its messages are old *)
| DM_repeat l : is_data mb → Unmarshal (mb_dataBuf mb) (mb_msgCnt mb) = Ret (Some l, None) →
    len l = mb_msgCnt mb → u64 (mb_seqNo mb + mb_msgCnt mb) < seqNo c →
    doMsgBuf_result c mb tt None None None (c <| nRepeats := nRepeats c + 1 |>)
(** it is ahead of the next expected message: cached *)
| DM_store l k n : is_data mb → Unmarshal (mb_dataBuf mb) (mb_msgCnt mb) = Ret (Some l, None) →
    len l = mb_msgCnt mb → seqNo c < mb_seqNo mb → sc_ok k →
    (∀ s, 0 <= s → sc_get k s = sc_get (cache c) s ∨
       ∃ i m, l !! i = Some m ∧ s = u64 (mb_seqNo mb + Z.of_nat i) ∧ sc_get k s = Some m) →
    (∀ s, 0 <= s → is_Some (sc_get (cache c) s) → is_Some (sc_get k s)) →
    (∀ i, (i < length l)%nat → is_Some (sc_get k (u64 (mb_seqNo mb + Z.of_nat i)))) →
    doMsgBuf_result c mb tt None None None (c <| cache := k |> <| nMerges := n |>)
(** it reaches the next expected message: delivered, with the cached run *)
| DM_deliver l ms : is_data mb → Unmarshal (mb_dataBuf mb) (mb_msgCnt mb) = Ret (Some l, None) →
    len l = mb_msgCnt mb → mb_seqNo mb <= seqNo c → seqNo c <= mb_seqNo mb + mb_msgCnt mb →
    let l' := drop (Z.to_nat (seqNo c - mb_seqNo mb)) l in
    let s1 := u64 (seqNo c + len l') in
    maximal_run (sc_get (cache c)) s1 ms →
    doMsgBuf_result c mb tt None None (Some (Some (l' ++ ms))) (commit_publish c (u64 (s1 + len ms)))
(** a heartbeat or an end of session *)
| DM_control req c1 c2 : ¬ is_data mb →
    c1 = (if mb_msgCnt mb =? 0xffff then gotEndSession c mb else c) →
    (req, c2) = (if seqNo c1 <? mb_seqNo mb then
                   match newReq c1 (mb_seqNo mb) tt with
                   | Ret (r, c') => (r, c' <| nMissed := nMissed c' + 1 |>)
                   | _ => (None, c1)
                   end
                 else (None, c1)) →
    doMsgBuf_result c mb tt req None None c2.

Lemma doMsgBuf_data c mb tt l : client_ok c → wf_mb mb → is_data mb →
  Unmarshal (mb_dataBuf mb) (mb_msgCnt mb) = Ret (Some l, None) → 0 < len (mb_dataBuf mb) →
  doMsgBuf_publish c mb tt = Panic ∧ beyond_cache c mb ∨
  ¬ beyond_cache c mb ∧
  ∃ p c', doMsgBuf_publish c mb tt = Ret (None, None, p, c') ∧ doMsgBuf_result c mb tt None None p c'.
Proof.
  intros Hc (Hs & Hm & Hd) Hdata E Hpos. unfold doMsgBuf_publish.
  rewrite (proj2 (Z.ltb_lt _ _) Hpos), E. cbn [mbind outcome_mbind].
  assert (len l = mb_msgCnt mb) as Hl
    by (apply (Unmarshal_length (mb_dataBuf mb)); [destruct Hdata; lia|unfold go_fuel; lia|done]).
  pose proof Hdata as [Hd0 Hd1]. rewrite (proj2 (Z.eqb_neq _ _) Hd0), (proj2 (Z.eqb_neq _ _) Hd1).
  cbn [negb andb]. change (slen (Some l)) with (len l). rewrite Hl, Z.eqb_refl. cbn [negb].
  pose proof Hc as (Hok & Hseq & _).
  zcase; [right; split; [intros [_ _ ? _]; lia|]; eexists _, _; split; [done|]; eapply DM_repeat; done|].
  zcase.
  - assert (l ≠ []) as Hne by (intros ->; rewrite len_nil in Hl; lia). change (default [] (Some l)) with l.
    destruct (decide (fits_cache mb)) as [Hfit|Hfull].
    + right. split; [by intros [_ _ _ ?]|].
      destruct (storeCache_spec c l (mb_seqNo mb) Hok Hs Hne) as (k & n & Est & Hok' & H1 & H2 & H3).
      { intros i Hi. unfold fits_cache in Hfit. rewrite Forall_forall in Hfit. apply Hfit, elem_of_seqZ. unfold len in Hl. lia. }
      rewrite Est. cbn [mbind outcome_mbind]. zcase.
      eexists _, _; split; [done|]. eapply DM_store; done.
    + left. split; [|constructor; [done|by exists l|lia|done]].
      apply not_Forall_Exists, Exists_exists in Hfull as (i & Hi & Hfar); [|apply _]. apply elem_of_seqZ in Hi.
      unfold storeCache. rewrite (storeCache_loop_full c l false _ (Z.to_nat i)); [done|done|done| |].
      * unfold len in Hl. lia.
      * rewrite Z2Nat.id by lia. by apply Z.nlt_ge.
  - right. split; [intros [_ _ ? _]; lia|].
    assert (seqNo c <= mb_seqNo mb + mb_msgCnt mb) as Hreach by (unfold max_u64 in *; word).
    destruct (deliver_spec c mb l) as (ms & Hrun & ->); [done|lia|lia|].
    cbn [mbind outcome_mbind]. eexists _, _; split; [done|]. by eapply DM_deliver.
Qed.

Lemma doMsgBuf_control c mb tt : ¬ is_data mb → 0 <= mb_msgCnt mb →
  (0 < len (mb_dataBuf mb) → ∃ r, Unmarshal (mb_dataBuf mb) (mb_msgCnt mb) = Ret (r, None)) →
  ∃ req c', doMsgBuf_publish c mb tt = Ret (req, None, None, c') ∧ doMsgBuf_result c mb tt req None None c'.
Proof.
  intros Hdata Hm Hun. unfold doMsgBuf_publish.
  assert (∃ r, (if 0 <? len (mb_dataBuf mb) then Unmarshal (mb_dataBuf mb) (mb_msgCnt mb)
    else Ret (None, None)) = Ret (r, None)) as (r & ->) by (zcase; [by apply Hun|by eexists]).
  cbn [mbind outcome_mbind].
  assert (negb (mb_msgCnt mb =? 0) && negb (mb_msgCnt mb =? 65535) = false) as ->.
  { apply andb_false_iff. unfold is_data in Hdata.
    destruct (decide (mb_msgCnt mb = 0)) as [->|]; [by left|right].
    apply negb_false_iff, Z.eqb_eq. lia. }
  set (c1 := if mb_msgCnt mb =? 65535 then _ else _).
  destruct (seqNo c1 <? mb_seqNo mb) eqn:E2.
  - destruct (newReq c1 (mb_seqNo mb) tt) as [[req c2]| |] eqn:En;
      [|by rewrite newReq_eq in En..]. cbn [mbind outcome_mbind].
    eexists _, _. split; [done|]. eapply (DM_control _ _ _ _ c1); [done|done|]. by rewrite E2, En.
  - eexists _, _. split; [done|]. eapply (DM_control _ _ _ _ c1); [done|done|]. by rewrite E2.
Qed.

(** [doMsgBuf] returns on every packet by one of the branches, but for those
    whose numbers are beyond the memory of the cache. *)
Lemma doMsgBuf_cases c mb tt : client_ok c → wf_mb mb →
  doMsgBuf_publish c mb tt = Panic ∧ beyond_cache c mb ∨
  ¬ beyond_cache c mb ∧
  ∃ req e p c', doMsgBuf_publish c mb tt = Ret (req, e, p, c') ∧ doMsgBuf_result c mb tt req e p c'.
Proof.
  intros Hc Hwf. pose proof Hwf as (Hs & Hm & Hd).
  assert (len (mb_dataBuf mb) < Z.pos go_fuel) as Hf by (unfold go_fuel; lia).
  destruct (decide (0 < len (mb_dataBuf mb) ∧ mb_msgCnt mb ≠ 0)) as [[Hpos Hnz]|Hno].
  - destruct (Unmarshal_result (mb_dataBuf mb) (mb_msgCnt mb)) as [(ms & _ & E)|[E _]]; [lia|done|..].
    + destruct (decide (is_data mb)) as [Hdata|Hdata].
      * destruct (doMsgBuf_data c mb tt _ Hc Hwf Hdata E Hpos) as [?|(Hb & p & c' & E1 & E2)]; [by left|].
        right. split; [done|]. by eexists _, _, _, _.
      * right. split; [by intros []|].
        destruct (doMsgBuf_control c mb tt Hdata) as (req & c' & E1 & E2); [lia|by eexists|].
        by eexists _, _, _, _.
    + right. split; [intros [_ (l & _ & E') _ _]; congruence|].
      eexists _, _, _, _. unfold doMsgBuf_publish. rewrite (proj2 (Z.ltb_lt _ _) Hpos), E.
      cbn [mbind outcome_mbind]. split; [done|].
      apply DM_error; [by left|]. intros l E'. rewrite E in E'. discriminate.
  - right. split; [intros [[??] (? & ? & _) _ _]; tauto|]. destruct (decide (is_data mb)) as [Hdata|Hdata].
    + assert (mb_dataBuf mb = []) as Hnil.
      { apply len_zero. pose proof (len_nonneg (mb_dataBuf mb)). destruct Hdata. lia. }
      eexists _, _, _, _. unfold doMsgBuf_publish. rewrite Hnil. change (len (@nil byte)) with 0. cbn [Z.ltb Z.compare].
      destruct Hdata as [Hd0 Hd1]. rewrite (proj2 (Z.eqb_neq _ _) Hd0), (proj2 (Z.eqb_neq _ _) Hd1).
      cbn [mbind outcome_mbind negb andb].
      change (slen None) with 0. rewrite (proj2 (Z.eqb_neq 0 (mb_msgCnt mb))) by lia.
      split; [done|]. apply DM_error; [by right|]. intros. by rewrite Hnil.
    + destruct (doMsgBuf_control c mb tt Hdata) as (req & c' & E1 & E2); [lia| |by eexists _, _, _, _].
      intros Hpos. assert (mb_msgCnt mb = 0) as -> by lia. by eexists.
Qed.

Lemma doMsgBuf_returned c mb tt req e p c' : client_ok c → wf_mb mb →
  doMsgBuf_publish c mb tt = Ret (req, e, p, c') → doMsgBuf_result c mb tt req e p c'.
Proof.
  intros Hc Hwf E. destruct (doMsgBuf_cases c mb tt Hc Hwf) as [[E' _]|(_ & ? & ? & ? & ? & E' & Hres)];
    rewrite E in E'; [done|]. by injection E' as <- <- <- <-.
Qed.

(** The packet that starts with the next expected message. *)
Lemma doMsgBuf_next c mb tt l : client_ok c → wf_mb mb → is_data mb →
  Unmarshal (mb_dataBuf mb) (mb_msgCnt mb) = Ret (Some l, None) → 0 < len (mb_dataBuf mb) →
  mb_seqNo mb = seqNo c → seqNo c + mb_msgCnt mb <= max_u64 →
  ∃ run, maximal_run (sc_get (cache c)) (seqNo c + mb_msgCnt mb) run ∧ len l = mb_msgCnt mb ∧
    doMsgBuf c mb tt = Ret (None, None,
      commit_append (commit_publish c (u64 (seqNo c + mb_msgCnt mb + len run))) (Some (l ++ run))).
Proof.
  intros Hc Hwf Hdata E Hpos Hs Hmax. pose proof Hwf as (_ & Hm & _). pose proof Hc as (_ & Hseq & _).
  destruct (doMsgBuf_data c mb tt l Hc Hwf Hdata E Hpos) as [[_ [_ _ Ha _]]|(_ & p & c' & Hdo & Hres)]; [lia|].
  unfold doMsgBuf. rewrite Hdo. cbn [mbind outcome_mbind].
  inversion Hres as [|l1 ? ? ? Hlt|l1 ? ? ? ? ? Hlt|l1 run ? E1 Hl1 ? ? l' s1 Hrun|? ? ? Hnd]; subst p c'.
  - rewrite u64_small in Hlt by lia. lia.
  - lia.
  - rewrite E in E1. injection E1 as <-. subst l' s1. rewrite Hs, Z.sub_diag in *. cbn [Z.to_nat] in *. rewrite drop_0, Hl1 in *.
    rewrite (u64_small (seqNo c + mb_msgCnt mb)) in * by lia. exists run. split; [done|]. by split.
  - by destruct Hnd.
Qed.

(** Only a delivery leaves something to append; it makes no request and no error. *)
Lemma doMsgBuf_pending c mb tt req e res c' : doMsgBuf_publish c mb tt = Ret (req, e, Some res, c') →
  req = None ∧ e = None.
Proof.
  unfold doMsgBuf_publish. cbv zeta. intros E.
  repeat first [by simplify_eq|inv_bind E|case_match].
Qed.

(** A turn of the worker is its part up to the lock and the append. *)
Lemma requestLoop_split c tt now dial write : requestLoop_msg c tt now dial write =
  '(o, p, c') ← requestLoop_publish c tt now dial write; Ret (o, append_pending c' p).
Proof.
  unfold requestLoop_msg, requestLoop_publish, doMsgBuf. destruct (ch c) as [|mb rest]; [done|].
  destruct (doMsgBuf_publish (c <| ch := rest |>) mb tt) as [[[[req e] p] c1]| |] eqn:E; cbn [mbind outcome_mbind]; [|done..].
  destruct p as [res|]; [by destruct (doMsgBuf_pending _ _ _ _ _ _ _ E) as [-> ->]|].
  destruct e; [done|]. destruct req; [|done]. cbn [append_pending].
  by destruct (request c1 _ dial write) as [[]| |].
Qed.

Lemma gotEndSession_frame c mb : ∃ a b d e f, gotEndSession c mb =
  c <| endSession := a |> <| seqEnd := b |> <| seqMax := d |> <| bDone := e |> <| Running := f |>.
Proof.
  exists (endSession (gotEndSession c mb)), (seqEnd (gotEndSession c mb)),
    (seqMax (gotEndSession c mb)), (bDone (gotEndSession c mb)), (Running (gotEndSession c mb)).
  unfold gotEndSession. destruct (endSession c) eqn:E0; repeat case_match; by destruct c.
Qed.

(** Every branch keeps the client well formed and the channel as it was. *)
Lemma doMsgBuf_ok c mb tt req e p c' : client_ok c → wf_mb mb → doMsgBuf_result c mb tt req e p c' →
  client_ok c' ∧ ch c' = ch c ∧ reqSrv c' = reqSrv c ∧ robinN c' = robinN c ∧
  connReq c' = connReq c ∧ session c' = session c.
Proof.
  intros (Hok & Hseq & Hses) Hwf Hres.
  destruct Hres as [e He Hno|l Hd E Hl Hlt|l k n Hd E Hl Hlt Hok' H1 H2 H3|l ms Hd E Hl Hle Hge l' s1 Hrun|req c1 c2 Hd -> Hc2].
  - done.
  - done.
  - done.
  - rewrite publish_eq. repeat split; cbn; done || apply u64_range.
  - assert (∀ a b d e f, client_ok (c <| endSession := a |> <| seqEnd := b |> <| seqMax := d |>
      <| bDone := e |> <| Running := f |>)) as Hc1 by done.
    destruct (gotEndSession_frame c mb) as (a & b & d & e & f & Hg).
    destruct (mb_msgCnt mb =? 65535); [rewrite Hg in Hc2; clear Hg|];
      rewrite newReq_eq in Hc2; cbv zeta in Hc2; repeat case_match; by simplify_eq.
Qed.

(** ** request *)

(** The index of the next server is in range. *)
Definition robin_ok (c : client) : Prop :=
  0 <= robinN c ∧ (robinN c = 0 ∨ robinN c < len (reqSrv c)).

(** [request] changes only its own fields, keeps the peer of a connected
    socket, and sends what it is given to the peer of the socket. *)
Lemma request_frame c buff dial write o c' : request c buff dial write = Ret (o, c') →
  ∃ n p r, c' = c <| nRequest := n |> <| connReq := p |> <| robinN := r |> ∧
    (∀ q, connReq c = Some q → p = Some q) ∧
    (∀ peer b, o = Some (peer, b) → p = Some peer ∧ b = buff) ∧
    (robin_ok c → robin_ok c').
Proof.
  unfold request. destruct (len (reqSrv c) =? 0) eqn:E0; zbool.
  { intros [= <- <-]. exists (nRequest c), (connReq c), (robinN c). split; [by destruct c|].
    split; [done|]. split; [done|]. done. }
  cbv zeta. intros Hr. inv_bind Hr. clear Hb. inv_bind Hr. cbn [connReq reqSrv robinN update] in Hb.
  destruct a0 as [peer|].
  - cbn [reqSrv robinN update] in Hr.
    exists (nRequest c + 1), (Some peer), (if len (reqSrv c) <=? robinN c + 1 then 0 else robinN c + 1).
    split; [destruct (_ <=? _); by simplify_eq|].
    split; [intros q Hq; rewrite Hq in Hb; congruence|].
    split; [destruct (_ <=? _); simplify_eq; intros peer' b; destruct write; intros; by simplify_eq|].
    intros [H1 H2]. unfold robin_ok. destruct (_ <=? _) eqn:E2; zbool; simplify_eq; cbn; lia.
  - simplify_eq. exists (nRequest c + 1), (connReq c), (robinN c). split; [by destruct c|]. done.
Qed.

Lemma request_returns c buff dial write : robin_ok c → returns (request c buff dial write).
Proof.
  intros [H1 H2]. unfold request. zcase; [by eexists|]. cbv zeta.
  pose proof (len_nonneg (reqSrv c)) as Hl.
  destruct (lookup_lt_is_Some_2 (reqSrv c) (Z.to_nat (robinN c))) as [peer Hp]; [unfold len in *; lia|].
  cbn [reqSrv robinN nRequest connReq update]. rewrite (idx_lookup _ _ peer H1 Hp).
  apply returns_bind; [by zcase; eexists|]. intros _ _.
  destruct (connReq c), dial; cbn [mbind outcome_mbind]; eexists; reflexivity.
Qed.
End Lemmas.
