(* ===== verification/Delivery.v ===== *)
(** * In-order, exactly-once delivery (src/client.go)

    The goroutines of the client as a transition system: the receiver that
    queues datagrams, the worker that processes the queue and the ticker, and
    the application that calls [Read].  The lock divides the processing of a
    packet and the body of [Read] into two steps each, and the steps of the two
    may alternate.  Against an abstract session (the messages numbered [start] to
    [fin - 1]) every interleaving hands the application the messages in order,
    each once.  When the client stops it has received all of them; those it has
    not handed over are the ones that a [Read] overlapping the last delivery left
    behind. *)

From Stdlib Require Import Strings.Byte.
From S2P Require Import Prelude.
From S2P Require Import GoBytes.
From S2P Require Import NetAddr.
From S2P Require Import Codec.
From S2P Require Import MsgCache.
From S2P Require Import Client.
From S2P Require Import ClientLemmas.

(** ** The transition system *)

Section System.
Context {Conn Cache : Type} `{SeqCache Cache}.
Abbreviation client := (Client Conn Cache).

(** The client, what [Read] has returned so far (oldest first), and the
    requests sent so far; what the worker still has to append under the lock; and
    what a [Read] has taken under the lock, with the number it has read, before
    it returns. *)
Record sys : Type := mkSysAt {
  cl : client;
  out : list Message;
  sent : list (UDPAddr * list byte);
  pend : pending;
  rd : option (option (list Message) * Z)
}.
#[export] Instance sys_eta : Eta sys := λ s, mkSysAt (cl s) (out s) (sent s) (pend s) (rd s).

(** Before the goroutines start. *)
Definition sys_init (c : client) : sys := mkSysAt c [] [] None None.

Definition sent_add (o : option (UDPAddr * list byte)) (l : list (UDPAddr * list byte))
  : list (UDPAddr * list byte) := l ++ option_list o.

Definition msgs_of (r : read_result) : list Message :=
  match r with
  | ReadMsgs ms _ => ms
  | _ => []
  end.

(** What is on its way to the application: taken by a [Read] that has not
    returned, ready, or still to be appended. *)
Definition held (r : option (option (list Message) * Z)) : list Message :=
  match r with
  | Some (res, _) => default [] res
  | None => []
  end.

Definition unread (s : sys) : list Message :=
  held (rd s) ++ default [] (ready (cl s)) ++ default [] (default None (pend s)).

(** Whose step it is; the time a datagram is received, and what a turn of [Read]
    ends with. *)
Inductive action : Type :=
| APacket (now : Z)
| AWorker
| ALog
| ATake
| AReturn (r : read_result).

#[export] Instance message_eq_dec : EqDecision Message.
Proof. solve_decision. Defined.
#[export] Instance read_result_eq_dec : EqDecision read_result.
Proof. solve_decision. Defined.
#[export] Instance action_eq_dec : EqDecision action.
Proof. solve_decision. Defined.

(** One step of the system; [allowed] restricts the datagrams that arrive.
    A datagram is received when the channel has room (also when the client has
    stopped meanwhile: the receiver finishes its batch), a packet is processed
    when there is one, up to the lock and then under the lock.  [Read] takes what
    is ready under the lock, and then tests and returns.  Each loop tests
    [Running] before its body; another goroutine may clear it in between, so the
    bodies run whatever it is.  A failed receive may change the time of the last
    log line.  When [ovl] is false, no body of [Read] overlaps the processing of a
    packet. *)
Inductive step (allowed : client → list byte → Prop) (ovl : bool) : action → sys → sys → Prop :=
| step_packet s buff n rAddr now c' :
    len (ch (cl s)) < chanCap →
    0 <= n <= len buff → n < 65536 → allowed (cl s) (take (Z.to_nat n) buff) →
    onPacket (cl s) buff n rAddr now = Ret c' →
    step allowed ovl (APacket now) s (s <| cl := c' |>)
| step_publish s tt now dial write o p c' :
    pend s = None → (ovl = false → rd s = None) →
    ch (cl s) ≠ [] →
    requestLoop_publish (cl s) tt now dial write = Ret (o, p, c') →
    step allowed ovl AWorker s (s <| cl := c' |> <| sent := sent_add o (sent s) |> <| pend := p |>)
| step_append s res :
    pend s = Some res →
    step allowed ovl AWorker s (s <| cl := commit_append (cl s) res |> <| pend := None |>)
| step_tick s tt dial write o c' :
    pend s = None →
    requestLoop_tick (cl s) tt dial write = Ret (o, c') →
    step allowed ovl AWorker s (s <| cl := c' |> <| sent := sent_add o (sent s) |>)
| step_take s res seq c' :
    rd s = None → (ovl = false → pend s = None) →
    Read_take (cl s) = (res, seq, c') →
    step allowed ovl ATake s (s <| cl := c' |> <| rd := Some (res, seq) |>)
| step_test s res seq r c' :
    rd s = Some (res, seq) →
    Read_test (cl s) res seq = (r, c') →
    step allowed ovl (AReturn r) s (s <| cl := c' |> <| out := out s ++ msgs_of r |> <| rd := None |>)
| step_end s :
    rd s = None → Running (cl s) = false →
    step allowed ovl (AReturn ReadEnd) s s
| step_log s now :
    step allowed ovl ALog s (s <| cl := (cl s) <| lastLogTime := now |> |>).

Inductive reachable (allowed : client → list byte → Prop) (ovl : bool) (c0 : client) : sys → Prop :=
| reach_init : reachable allowed ovl c0 (sys_init c0)
| reach_step l s s' : reachable allowed ovl c0 s → step allowed ovl l s s' → reachable allowed ovl c0 s'.

(** Rule induction for invariants that steps preserve. *)
Lemma reachable_invariant allowed ovl c0 (I : sys → Prop) :
  I (sys_init c0) → (∀ l s s', I s → step allowed ovl l s s' → I s') →
  ∀ s, reachable allowed ovl c0 s → I s.
Proof. intros H0 Hstep s Hr. induction Hr; eauto. Qed.

Lemma step_mono (P Q : client → list byte → Prop) ovl l s s' :
  (∀ c b, P c b → Q c b) → step P ovl l s s' → step Q ovl l s s'.
Proof. intros HPQ Hst. destruct Hst; by econstructor; eauto. Qed.

Lemma reachable_mono (P Q : client → list byte → Prop) ovl c0 s :
  (∀ c b, P c b → Q c b) → reachable P ovl c0 s → reachable Q ovl c0 s.
Proof.
  intros HPQ Hr. induction Hr as [|l s1 s2 _ IH Hst]; [apply reach_init|].
  eapply reach_step; [exact IH|]. by eapply step_mono.
Qed.
(** Runs without overlap are runs. *)
Lemma reachable_overlap allowed ovl c0 s : reachable allowed ovl c0 s → reachable allowed true c0 s.
Proof.
  intros Hr. induction Hr as [|l s1 s2 _ IH Hst]; [apply reach_init|].
  apply (reach_step _ _ _ l s1); [exact IH|]. destruct Hst; by econstructor.
Qed.
End System.
Arguments sys : clear implicits.

(** A state with the worker and the application between their turns. *)
Abbreviation mkSys c o t := (mkSysAt c o t None None).

(** ** Whole turns *)

Section Turns.
Context {Conn Cache : Type} `{SeqCache Cache}.
Abbreviation client := (Client Conn Cache).
Context (allowed : client → list byte → Prop) (ovl : bool).

Definition steps : sys Conn Cache → sys Conn Cache → Prop := rtc (λ s s', ∃ l, step allowed ovl l s s').

(** A turn of the worker with nothing in between. *)
Lemma steps_msg c out sent tt now dial write o c' :
  ch c ≠ [] → requestLoop_msg c tt now dial write = Ret (o, c') →
  steps (mkSys c out sent) (mkSys c' out (sent_add o sent)).
Proof.
  intros Hne. rewrite requestLoop_split. intros E. inv_bind E. destruct a as [[o1 p] c1]. injection E as -> <-.
  eapply rtc_l; [eexists; by apply (step_publish _ _ (mkSys c out sent) tt now dial write o p c1)|].
  destruct p as [res|]; [|apply rtc_refl]. apply rtc_once. eexists.
  by apply (step_append _ _ (mkSysAt c1 out (sent_add o sent) (Some res) None)).
Qed.

(** A turn of [Read] with nothing in between. *)
Lemma steps_read c out sent r c' : Read_iter c = (r, c') → steps (mkSys c out sent) (mkSys c' (out ++ msgs_of r) sent).
Proof.
  unfold Read_iter. destruct (Running c) eqn:E.
  - unfold Read_body. destruct (Read_take c) as [[res seq] c1] eqn:Et. intros Hb.
    eapply rtc_l; [eexists; by apply (step_take _ _ (mkSys c out sent) res seq c1)|]. apply rtc_once. eexists.
    by apply (step_test _ _ (mkSysAt c1 out sent None (Some (res, seq))) res seq).
  - intros [= <- <-]. cbn [msgs_of]. rewrite app_nil_r. apply rtc_refl.
Qed.

Context (c0 : client).

Lemma reach_steps s s' : reachable allowed ovl c0 s → steps s s' → reachable allowed ovl c0 s'.
Proof. intros Hr Hst. induction Hst as [|s1 s2 s3 [l Hst] _ IH]; [done|]. apply IH. by eapply reach_step. Qed.

Lemma reach_msg c out sent tt now dial write o c' : reachable allowed ovl c0 (mkSys c out sent) →
  ch c ≠ [] → requestLoop_msg c tt now dial write = Ret (o, c') →
  reachable allowed ovl c0 (mkSys c' out (sent_add o sent)).
Proof. intros Hr Hne E. eapply reach_steps; [exact Hr|]. by eapply steps_msg. Qed.

Lemma reach_read c out sent r c' : reachable allowed ovl c0 (mkSys c out sent) → Read_iter c = (r, c') →
  reachable allowed ovl c0 (mkSys c' (out ++ msgs_of r) sent).
Proof. intros Hr E. eapply reach_steps; [exact Hr|]. by apply steps_read. Qed.

Lemma reach_tick c out sent tt dial write o c' : reachable allowed ovl c0 (mkSys c out sent) →
  requestLoop_tick c tt dial write = Ret (o, c') → reachable allowed ovl c0 (mkSys c' out (sent_add o sent)).
Proof.
  intros Hr E. eapply reach_step; [exact Hr|]. by apply (step_tick _ _ (mkSys c out sent) tt dial write).
Qed.

Lemma reach_packet c out sent buff n rAddr now c' : reachable allowed ovl c0 (mkSys c out sent) →
  len (ch c) < chanCap → 0 <= n <= len buff → n < 65536 → allowed c (take (Z.to_nat n) buff) →
  onPacket c buff n rAddr now = Ret c' → reachable allowed ovl c0 (mkSys c' out sent).
Proof.
  intros Hr H1 H2 H3 H4 H5. eapply reach_step; [exact Hr|]. by eapply (step_packet _ _ (mkSys c out sent)).
Qed.
End Turns.

(** ** The session *)

Section Session.
Context {Conn Cache : Type} `{SeqCacheSpec Cache}.
Abbreviation client := (Client Conn Cache).
Context (stream : Z → Message) (start fin : Z).
Context (Hsession : 0 <= start <= fin) (Hfin : fin < 2 ^ 63).
(** Whether the application may have cleared [Running] itself, and whether
    bodies of [Read] may overlap the processing of a packet. *)
Context (ext ovl : bool).
Implicit Types (c : client) (mb : msgBuf) (p : pending) (r : option (option (list Message) * Z)).

(** The messages numbered [s] to [s + n - 1]. *)
Definition segment (s n : Z) : list Message := map stream (seqZ s n).

(** A packet of the session: its messages are those of the session under their
    numbers (or cannot be read at all), an end of session carries the number
    after the last message, a heartbeat does not go beyond it. *)
Definition faithful (mb : msgBuf) : Prop :=
  wf_mb mb ∧
  (is_data mb → mb_seqNo mb + mb_msgCnt mb <= fin ∧
     ∀ l, Unmarshal (mb_dataBuf mb) (mb_msgCnt mb) = Ret (Some l, None) →
       l = segment (mb_seqNo mb) (mb_msgCnt mb)) ∧
  (mb_msgCnt mb = 0xffff → mb_seqNo mb = fin) ∧
  (mb_msgCnt mb = 0 → mb_seqNo mb <= fin).

(** A datagram that the client's checks let through is a packet of the session. *)
Definition genuine (c : client) (buff : list byte) : Prop :=
  ∀ h, DecodeHead buff zeroHeader = Ret (h, None) → accepts c h (drop 20 buff) →
    faithful (packet_of h (drop 20 buff)).

(** The [Read] in progress will stop the client. *)
Definition stopping c r : Prop :=
  ∃ res seq, r = Some (res, seq) ∧ seqNo c <= u64 (seq + slen res).

(** The invariant that ties the client, what the application has, what the
    worker still has to append and what a [Read] holds to the session. *)
Record inv (c : client) (out : list Message) p r : Prop := {
  inv_ok : client_ok c;
  inv_range : start <= seqNo c <= fin;
  inv_cache s m : 0 <= s → sc_get (cache c) s = Some m → m = stream s ∧ s < fin;
  inv_settled : sc_get (cache c) (seqNo c) = None;
  inv_log : out ++ held r ++ default [] (ready c) ++ default [] (default None p) =
    segment start (seqNo c - start);
  inv_max : 0 <= seqMax c <= fin;
  inv_end : endSession c = true → seqEnd c = fin;
  inv_last ms : ready c = Some ms → start <= lastSeq c <= fin ∧ (p = None → seqNo c <= lastSeq c + len ms);
  inv_pend res : p = Some res → ∃ ms, res = Some ms ∧ start <= lastSeq c <= fin ∧ seqNo c <= lastSeq c + len ms;
  inv_done : bDone c = true → endSession c = true ∧ seqNo c = fin;
  inv_halt : ext = false → Running c = false → bDone c = true;
  inv_live : ext = false → bDone c = true → Running c = true → is_Some (ready c) ∨ is_Some p ∨ stopping c r;
  inv_alone : ext = false → ovl = false → is_Some r → p = None ∧ ready c = None;
  inv_stop : ext = false → ovl = false → Running c = false → default [] (ready c) ++ default [] (default None p) = [];
  inv_chan : Forall faithful (ch c)
}.

(** ** Segments *)

Lemma len_segment s n : 0 <= n → len (segment s n) = n.
Proof. intros. unfold segment, len. rewrite length_map, length_seqZ. lia. Qed.

Lemma segment_app s n1 n2 : 0 <= n1 → 0 <= n2 →
  segment s (n1 + n2) = segment s n1 ++ segment (s + n1) n2.
Proof. intros. unfold segment. by rewrite <- map_app, seqZ_app. Qed.

Lemma drop_segment s n k : 0 <= k <= n → drop (Z.to_nat k) (segment s n) = segment (s + k) (n - k).
Proof.
  intros Hk. replace n with (k + (n - k)) at 1 by lia. rewrite segment_app by lia.
  apply drop_app_length'. pose proof (len_segment s k). unfold len in *. lia.
Qed.

Lemma lookup_segment s n i m : segment s n !! i = Some m → m = stream (s + Z.of_nat i).
Proof.
  unfold segment. rewrite list_lookup_fmap. destruct (seqZ s n !! i) as [j|] eqn:E; [|done].
  apply lookup_seqZ in E as [-> _]. cbn. congruence.
Qed.

(** A list that agrees with the session is a segment of it. *)
Lemma segment_intro s ms : (∀ i m, ms !! i = Some m → m = stream (s + Z.of_nat i)) →
  ms = segment s (len ms).
Proof.
  intros Hms. apply list_eq_same_length with (n := length ms).
  - unfold segment, len. rewrite length_map, length_seqZ. lia.
  - done.
  - intros i x y _ Hx Hy. rewrite (Hms _ _ Hx). by rewrite (lookup_segment _ _ _ _ Hy).
Qed.

(** What is handed over is always a segment starting at [start]. *)
Lemma out_prefix c out p r : inv c out p r → out = segment start (len out).
Proof.
  intros Hinv. apply segment_intro. intros i m Hi.
  pose proof (inv_log _ _ _ _ Hinv) as Hlog. apply (lookup_segment _ (seqNo c - start)).
  rewrite <- Hlog. by apply lookup_app_l_Some.
Qed.

(** ** Preservation of the invariant *)

(** The invariant does not depend on the other fields (counters, times, the
    request servers). *)
Lemma inv_ext c c' out p r : inv c out p r →
  cache c' = cache c → seqNo c' = seqNo c → ready c' = ready c → seqMax c' = seqMax c →
  endSession c' = endSession c → seqEnd c' = seqEnd c → lastSeq c' = lastSeq c →
  bDone c' = bDone c → Running c' = Running c → wf_session (session c') →
  Forall faithful (ch c') → inv c' out p r.
Proof.
  intros [(Hok & Hs & _) ? ? ? ? ? ? ? ? ? ? ? ? ? ?] E1 E2 E3 E4 E5 E6 E7 E8 E9 Hses Hch.
  constructor; unfold stopping; rewrite ?E1, ?E2, ?E3, ?E4, ?E5, ?E6, ?E7, ?E8, ?E9; try done.
  unfold client_ok. rewrite E1, E2. auto.
Qed.

Local Ltac inv_frame H := apply (inv_ext _ _ _ _ _ H); try reflexivity; try apply H.

Lemma inv_newReq c out p r seq tt req c' : inv c out p r → seq <= fin →
  newReq c seq tt = Ret (req, c') → inv c' out p r.
Proof.
  intros Hinv Hseq. rewrite newReq_eq. intros [= E].
  assert (seqNo c < seq → inv (c <| seqMax := Z.max (seqMax c) seq |>) out p r) as Hmax.
  { intros Hlt. destruct Hinv. constructor; cbn; try done. lia. }
  destruct (seq <=? seqNo c) eqn:E1; zbool; [by simplify_eq|].
  destruct (time_sub tt (reqLast c) <? reqInterval); simplify_eq; [by apply Hmax|].
  inv_frame (Hmax ltac:(lia)).
Qed.

Lemma inv_gotEndSession c out r mb : inv c out None r → mb_seqNo mb = fin →
  inv (gotEndSession c mb) out None r.
Proof.
  intros Hinv Hmb. unfold gotEndSession.
  set (c1 := if endSession c then c else _).
  assert (inv c1 out None r ∧ endSession c1 = true) as (Hinv1 & Hes).
  { unfold c1. destruct (endSession c) eqn:E; [done|]. split; [|done].
    destruct Hinv as [? ? ? ? ? ? ? ? ? Hd ? ? ? ? ?]. constructor; cbn; try done.
    intros Hb. apply Hd in Hb as [? _]. congruence. }
  clearbody c1. pose proof (inv_end _ _ _ _ Hinv1 Hes) as He. pose proof (inv_range _ _ _ _ Hinv1) as Hr.
  destruct (seqMax c1 <=? seqNo c1) eqn:E1; zbool; [|done].
  destruct ((seqMax c1 <? seqEnd c1) && (seqNo c1 <? seqEnd c1)) eqn:E2.
  - case_bool_decide; [|done]. destruct Hinv1. constructor; cbn; try done. lia.
  - assert (seqNo c1 = fin) as Hall by (apply andb_false_iff in E2 as [E2|E2]; zbool; lia).
    case_bool_decide as Hrd; cbn in Hrd; destruct Hinv1; constructor; cbn; try done.
    + intros _ _ _. by rewrite Hrd.
    + intros _ _ _. left. by destruct (ready c1).
Qed.

Lemma inv_store c out p r mb l k n : inv c out p r → faithful mb → is_data mb →
  l = segment (mb_seqNo mb) (mb_msgCnt mb) → seqNo c < mb_seqNo mb → sc_ok k →
  (∀ s, 0 <= s → sc_get k s = sc_get (cache c) s ∨
     ∃ i m, l !! i = Some m ∧ s = u64 (mb_seqNo mb + Z.of_nat i) ∧ sc_get k s = Some m) →
  inv (c <| cache := k |> <| nMerges := n |>) out p r.
Proof.
  intros Hinv (Hwf & Hdata & _) Hd -> Hlt Hok Hk. destruct (Hdata Hd) as [Hle _].
  pose proof Hwf as (Hs & Hm & _).
  assert (∀ s i m, segment (mb_seqNo mb) (mb_msgCnt mb) !! i = Some m →
    s = u64 (mb_seqNo mb + Z.of_nat i) → s = mb_seqNo mb + Z.of_nat i ∧ s < fin ∧ m = stream s) as Hnew.
  { intros s i m Hi ->. pose proof (lookup_lt_Some _ _ _ Hi) as Hil.
    pose proof (len_segment (mb_seqNo mb) (mb_msgCnt mb)) as Hl. unfold len in Hl.
    rewrite u64_small by (unfold max_u64; lia). split; [done|]. split; [lia|]. by apply lookup_segment in Hi. }
  destruct Hinv as [Hok0 Hr Hc Hst]. constructor; cbn; try done.
  - by split; [done|apply Hok0].
  - intros s m Hs0 Hg. destruct (Hk s Hs0) as [E|(i & m' & Hi & Es & E)].
    + rewrite E in Hg. by apply Hc.
    + destruct (Hnew s i m' Hi Es) as (_ & ? & ->). split; congruence.
  - destruct (Hk (seqNo c)) as [E|(i & m' & Hi & Es & E)]; [lia|by rewrite E|].
    destruct (Hnew _ i m' Hi Es) as (? & _). lia.
Qed.

Lemma run_segment c out p r s ms : inv c out p r → 0 <= s <= fin → maximal_run (sc_get (cache c)) s ms →
  ms = segment s (len ms) ∧ s + len ms <= fin.
Proof.
  intros Hinv Hs [Hrun _]. split.
  - apply segment_intro. intros i m Hi. apply Hrun in Hi. apply (inv_cache _ _ _ _ Hinv) in Hi; [tauto|lia].
  - destruct (decide (ms = [])) as [->|Hne]; [rewrite len_nil; lia|].
    destruct (lookup_lt_is_Some_2 ms (pred (length ms))) as [m Hm]; [destruct ms; [done|]; cbn; lia|].
    apply Hrun, (inv_cache _ _ _ _ Hinv) in Hm as [_ Hlt]; [|lia].
    unfold len. destruct ms; [done|]. cbn [length pred] in *. lia.
Qed.

(** Publishing the messages up to [s2]. *)
Lemma inv_publish c out r s2 : inv c out None r → seqNo c <= s2 <= fin →
  sc_get (cache c) s2 = None → (ext = false → ovl = false → r = None) →
  inv (commit_publish c s2) out (Some (Some (segment (seqNo c) (s2 - seqNo c)))) r.
Proof.
  intros [Hok Hr Hc Hst Hlog Hmax Hend Hlast Hpend Hdone Hhalt Hlive Halone Hstop Hch] Hs2 Hnone Hr0.
  rewrite publish_eq. constructor; cbn -[Z.leb Z.ltb]; try done.
  - destruct Hok as (? & ? & ?). repeat split; cbn; unfold max_u64 in *; done || lia.
  - lia.
  - cbn in Hlog. rewrite app_nil_r in Hlog. rewrite !app_assoc, <- (app_assoc out), Hlog.
    replace (seqNo c) with (start + (seqNo c - start)) at 2 by lia.
    rewrite <- segment_app by lia. f_equal. lia.
  - destruct (endSession c) eqn:Ee; cbn [andb]; [|done]. rewrite Hend by done.
    destruct ((seqMax c <=? s2) && (s2 <? fin)); lia.
  - intros res [= <-]. eexists. split; [done|]. split; [lia|]. rewrite len_segment by lia. lia.
  - intros Hd. apply orb_true_iff in Hd as [Hd|Hd].
    + destruct (Hdone Hd) as (? & ?). split; [done|lia].
    + zbool. rewrite Hend in * by done. split; [done|lia].
  - intros He Hf. by rewrite (Hhalt He Hf).
  - intros _ _ _. right. left. done.
  - intros He Ho [x Hx]. by rewrite Hr0 in Hx.
  - intros He Ho Hf. destruct (Hdone (Hhalt He Hf)) as [_ Hall]. specialize (Hstop He Ho Hf).
    apply app_eq_nil in Hstop as [-> _]. replace (s2 - seqNo c) with 0 by lia. done.
Qed.

(** The append under the lock. *)
Lemma inv_append c out r res : inv c out (Some res) r → inv (commit_append c res) out None r.
Proof.
  intros [Hok Hr Hc Hst Hlog Hmax Hend Hlast Hpend Hdone Hhalt Hlive Halone Hstop Hch].
  destruct (Hpend res eq_refl) as (ms & -> & Hls & Hle). rewrite append_eq.
  constructor; cbn; try done.
  - by rewrite app_nil_r.
  - intros ms' [= <-]. split; [done|]. intros _. rewrite len_app.
    pose proof (len_nonneg (default [] (ready c))). lia.
  - intros _ _ _. by left.
  - intros He Ho Hx. by destruct (Halone He Ho Hx).
  - intros He Ho Hf. rewrite app_nil_r. by apply Hstop.
Qed.

Lemma inv_deliver c out p r mb l ms : inv c out p r → faithful mb → is_data mb →
  l = segment (mb_seqNo mb) (mb_msgCnt mb) →
  mb_seqNo mb <= seqNo c → seqNo c <= mb_seqNo mb + mb_msgCnt mb →
  let l' := drop (Z.to_nat (seqNo c - mb_seqNo mb)) l in
  let s1 := u64 (seqNo c + len l') in
  maximal_run (sc_get (cache c)) s1 ms →
  ∃ s2, mb_seqNo mb + mb_msgCnt mb <= s2 <= fin ∧ sc_get (cache c) s2 = None ∧
    (∀ s, mb_seqNo mb + mb_msgCnt mb <= s < s2 → is_Some (sc_get (cache c) s)) ∧
    l' ++ ms = segment (seqNo c) (s2 - seqNo c) ∧ u64 (s1 + len ms) = s2.
Proof.
  intros Hinv (Hwf & Hdata & _) Hd -> Hle Hge. destruct (Hdata Hd) as [Hfin' _].
  pose proof Hwf as (Hs & Hm & _). pose proof (inv_range _ _ _ _ Hinv) as Hr. cbv zeta.
  rewrite drop_segment by lia.
  replace (mb_seqNo mb + (seqNo c - mb_seqNo mb)) with (seqNo c) by lia.
  rewrite len_segment by lia.
  replace (seqNo c + (mb_msgCnt mb - (seqNo c - mb_seqNo mb))) with (mb_seqNo mb + mb_msgCnt mb) by lia.
  rewrite (u64_small (mb_seqNo mb + mb_msgCnt mb)) by (unfold max_u64; lia). intros Hmr.
  destruct (run_segment c out p r (mb_seqNo mb + mb_msgCnt mb) ms Hinv ltac:(lia) Hmr) as [Hms Hend].
  set (n := len ms) in *. pose proof (len_nonneg ms) as Hn. fold n in Hn.
  exists (mb_seqNo mb + mb_msgCnt mb + n). split; [lia|]. split; [apply Hmr|]. split.
  - intros s Hss. destruct (lookup_lt_is_Some_2 ms (Z.to_nat (s - (mb_seqNo mb + mb_msgCnt mb)))) as [m Hmm];
      [unfold n, len in *; lia|]. apply Hmr in Hmm. eexists. rewrite <- Hmm. f_equal. lia.
  - split; [|by apply u64_small; unfold max_u64; lia]. rewrite Hms.
    replace (mb_seqNo mb + mb_msgCnt mb) with (seqNo c + (mb_msgCnt mb - (seqNo c - mb_seqNo mb))) at 1 by lia.
    rewrite <- segment_app by lia. f_equal. lia.
Qed.

Lemma inv_doMsgBuf c out r mb tt req e p c' : inv c out None r → faithful mb →
  (ext = false → ovl = false → r = None) → doMsgBuf_result c mb tt req e p c' → inv c' out p r.
Proof.
  intros Hinv Hf Hr0 Hres. pose proof Hf as (Hwf & Hdata & Heos & Hhb).
  destruct Hres as [e He Hno|l Hd E Hl Hlt|l k n Hd E Hl Hlt Hok H1 H2 H3|l ms Hd E Hl Hle Hge l' s1 Hrun'|req c1 c2 Hd -> Hc2].
  - inv_frame Hinv.
  - inv_frame Hinv.
  - apply (inv_store c out None r mb l); auto. by apply Hdata.
  - subst l' s1. destruct (inv_deliver c out None r mb l ms) as (s2 & Hs2 & Hnone & _ & -> & ->); auto; [by apply Hdata|].
    apply inv_publish; [done|lia|done|done].
  - set (c1 := if mb_msgCnt mb =? 0xffff then gotEndSession c mb else c) in *.
    assert (mb_seqNo mb <= fin) as Hsq.
    { destruct (decide (mb_msgCnt mb = 0)); [by apply Hhb|].
      assert (mb_msgCnt mb = 0xffff) as Hff by (unfold is_data in Hd; lia). rewrite Heos by done. lia. }
    assert (inv c1 out None r) as Hinv1.
    { unfold c1. destruct (mb_msgCnt mb =? 0xffff) eqn:Eq; [|done]. zbool.
      apply inv_gotEndSession; [done|by apply Heos]. }
    clearbody c1. destruct (seqNo c1 <? mb_seqNo mb); [|by simplify_eq].
    destruct (newReq c1 (mb_seqNo mb) tt) as [[rq c3]| |] eqn:En; [|by rewrite newReq_eq in En..].
    simplify_eq. pose proof (inv_newReq _ _ _ _ _ _ _ _ Hinv1 Hsq En) as Hinv3.
    inv_frame Hinv3.
Qed.

(** A packet that holds its messages is read. *)
Lemma data_read c out p r mb tt : inv c out p r → faithful mb → is_data mb →
  mb_dataBuf mb = wire (segment (mb_seqNo mb) (mb_msgCnt mb)) →
  Forall wf_message (segment (mb_seqNo mb) (mb_msgCnt mb)) →
  mb_seqNo mb <= seqNo c ∨ fin <= sc_cap →
  Unmarshal (mb_dataBuf mb) (mb_msgCnt mb) = Ret (Some (segment (mb_seqNo mb) (mb_msgCnt mb)), None) ∧
  ∃ p' c', doMsgBuf_publish c mb tt = Ret (None, None, p', c') ∧ doMsgBuf_result c mb tt None None p' c'.
Proof.
  intros Hinv Hmb Hdata Hpay Hwf Hcap. pose proof Hmb as ((Hs & Hm & Hl) & Hle & _).
  assert (len (segment (mb_seqNo mb) (mb_msgCnt mb)) = mb_msgCnt mb) as Hlen by (apply len_segment; lia).
  assert (0 < mb_msgCnt mb) as Hcnt by (destruct Hdata; lia).
  assert (Unmarshal (mb_dataBuf mb) (mb_msgCnt mb) =
    Ret (Some (segment (mb_seqNo mb) (mb_msgCnt mb)), None)) as Hun.
  { rewrite Hpay in *. rewrite <- Hlen at 2. apply Unmarshal_wire_exact; [done|lia|unfold go_fuel; lia]. }
  split; [done|].
  destruct (doMsgBuf_data c mb tt _ ltac:(apply Hinv) ltac:(apply Hmb) Hdata Hun) as [[_ [_ _ Ha Hf]]|[_ Hr]]; [| |done].
  2:{ destruct Hcap as [?|Hcap]; [lia|]. destruct (Hle Hdata) as [? _]. by destruct Hf; apply fits_cache_small; lia. }
  rewrite Hpay. destruct (segment (mb_seqNo mb) (mb_msgCnt mb)) as [|m ms];
    [rewrite len_nil in Hlen; lia|]. rewrite wire_cons. autorewrite with golen.
  pose proof (len_nonneg (Data m)). pose proof (len_nonneg (wire ms)). lia.
Qed.

(** A packet that reaches the next expected message is taken, with the cached
    run after it. *)
Lemma inv_taken c out p r mb tt : inv c out p r → faithful mb → is_data mb →
  mb_dataBuf mb = wire (segment (mb_seqNo mb) (mb_msgCnt mb)) →
  Forall wf_message (segment (mb_seqNo mb) (mb_msgCnt mb)) →
  mb_seqNo mb <= seqNo c <= mb_seqNo mb + mb_msgCnt mb →
  ∃ c', doMsgBuf c mb tt = Ret (None, None, c') ∧
    mb_seqNo mb + mb_msgCnt mb <= seqNo c' ∧
    (∀ q, mb_seqNo mb + mb_msgCnt mb <= q < seqNo c' → is_Some (sc_get (cache c) q)) ∧
    sc_get (cache c) (seqNo c') = None ∧
    ready c' = Some (default [] (ready c) ++ segment (seqNo c) (seqNo c' - seqNo c)).
Proof.
  intros Hinv Hmb Hdata Hpay Hwf Hcover. pose proof Hmb as ((Hs & Hm & Hl) & Hd & _). destruct (Hd Hdata) as [Hle _].
  destruct (data_read c out p r mb tt Hinv Hmb Hdata Hpay Hwf) as (Hun & p' & c' & Hdo & Hres); [left; lia|].
  unfold doMsgBuf. rewrite Hdo. cbn [mbind outcome_mbind]. eexists. split; [done|].
  assert (u64 (mb_seqNo mb + mb_msgCnt mb) = mb_seqNo mb + mb_msgCnt mb) as Hu
    by (apply u64_small; unfold max_u64; lia).
  inversion Hres as [|l ? ? ? Hlt|l k n ? ? ? Hlt|l ms ? E ? ? ? l' s1 Hrun'|? ? ? Hnd]; subst.
  - lia.
  - lia.
  - subst l' s1. rewrite Hun in E. simplify_eq.
    destruct (inv_deliver c out p r mb _ ms Hinv Hmb Hdata eq_refl) as (s2 & Hs2 & Hnone & Hrange & -> & ->); [lia|lia|done|].
    cbn [append_pending]. rewrite append_eq, publish_eq. cbn [seqNo ready update].
    split; [lia|]. split; [done|]. by split.
  - by destruct (Hnd Hdata).
Qed.

Lemma inv_request c out p r buff dial write o c' : inv c out p r →
  request c buff dial write = Ret (o, c') → inv c' out p r.
Proof.
  intros Hinv Hr. destruct (request_frame _ _ _ _ _ _ Hr) as (n & q & rb & -> & _).
  inv_frame Hinv.
Qed.

Lemma inv_tick c out p r tt dial write o c' : inv c out p r →
  requestLoop_tick c tt dial write = Ret (o, c') → inv c' out p r.
Proof.
  intros Hinv. unfold requestLoop_tick. destruct (seqNo c <? seqMax c); [|by intros [= <- <-]].
  intros Hr. inv_bind Hr. destruct a as [req c1].
  apply (inv_newReq _ out p r) in Hb as Hinv1; [|done|apply (inv_max _ _ _ _ Hinv)].
  destruct req; [by eapply inv_request|by simplify_eq].
Qed.

(** The worker up to the lock. *)
Lemma inv_worker c out r tt now dial write o p c' : inv c out None r →
  (ext = false → ovl = false → r = None) →
  requestLoop_publish c tt now dial write = Ret (o, p, c') → inv c' out p r.
Proof.
  intros Hinv Hr0. unfold requestLoop_publish.
  destruct (ch c) as [|mb rest] eqn:Ech; [by intros [= <- <- <-]|].
  pose proof (inv_chan _ _ _ _ Hinv) as Hch. rewrite Ech in Hch. apply Forall_cons in Hch as [Hmb Hrest].
  assert (inv (c <| ch := rest |>) out None r) as Hinv0 by (by inv_frame Hinv).
  intros E. inv_bind E. destruct a as [[[req e] p1] c1].
  apply doMsgBuf_returned in Hb; [|apply Hinv0|apply Hmb].
  pose proof (inv_doMsgBuf _ _ _ _ _ _ _ _ _ Hinv0 Hmb Hr0 Hb) as Hinv1.
  destruct p1 as [res|]; [by simplify_eq|]. destruct e.
  - injection E as <- <- <-. destruct (_ <? _); [|done]. inv_frame Hinv1.
  - destruct req; [|by simplify_eq]. inv_bind E. destruct a as [o1 c2]. simplify_eq. by eapply inv_request.
Qed.

(** A whole turn of the worker. *)
Lemma inv_msg c out r tt now dial write o c' : inv c out None r →
  (ext = false → ovl = false → r = None) →
  requestLoop_msg c tt now dial write = Ret (o, c') → inv c' out None r.
Proof.
  intros Hinv Hr0. rewrite requestLoop_split. intros E. inv_bind E. destruct a as [[o1 p] c1]. simplify_eq.
  pose proof (inv_worker _ _ _ _ _ _ _ _ _ _ Hinv Hr0 Hb) as Hinv1.
  destruct p; [by apply inv_append|done].
Qed.

Lemma inv_packet c out p r buff n rAddr now c' : inv c out p r → 0 <= n <= len buff → n < 65536 →
  genuine c (take (Z.to_nat n) buff) → onPacket c buff n rAddr now = Ret c' → inv c' out p r.
Proof.
  intros Hinv Hn Hsmall Hgen. unfold onPacket.
  destruct (gotBuff_spec c buff n now Hn) as (e & c1 & -> & Hf & Hs & Hcase);
    [apply Hinv|]. cbn [mbind outcome_mbind].
  assert (inv c1 out p r) as Hinv1.
  { apply (inv_ext c); [done|apply Hf..|done|].
    destruct Hcase as [(_ & -> & _)|(_ & h & Hh & _ & Hacc & _ & ->)]; [apply Hinv|].
    apply Forall_app. split; [apply Hinv|]. apply Forall_singleton. by apply Hgen. }
  destruct e.
  - intros [= <-]. destruct (negb _); [|done]. inv_frame Hinv1.
  - destruct (_ =? 0); intros [= <-]; [|done]. inv_frame Hinv1.
Qed.

(** [Read] takes everything that is ready. *)
Lemma inv_take c out p res seq c' : inv c out p None → (ext = false → ovl = false → p = None) →
  Read_take c = (res, seq, c') → inv c' out p (Some (res, seq)).
Proof.
  intros [Hok Hra Hca Hst Hlog Hmax Hend Hlast Hpend Hdone Hhalt Hlive Halone Hstop Hch] Hp [= <- <- <-].
  constructor; cbn; try done.
  - intros Hx Hd Hrun. destruct (Hlive Hx Hd Hrun) as [[ms El]|[?|(? & ? & ? & _)]]; [|by auto|done].
    destruct p as [x|]; [by auto|]. right. right. exists (ready c), (lastSeq c). split; [done|].
    destruct (Hlast ms El) as [Hls Hge]. specialize (Hge eq_refl). cbn [seqNo update]. rewrite El in *. change (slen (Some ms)) with (len ms).
    apply (f_equal len) in Hlog. cbn in Hlog. rewrite app_nil_r, len_app, len_segment in Hlog by lia.
    pose proof (len_nonneg out). pose proof (len_nonneg ms). rewrite u64_small by (unfold max_u64; lia). done.
  - intros He Ho _. split; [by apply Hp|done].
  - intros He Ho Hf. by apply app_eq_nil in Hstop as [_ ->].
Qed.

(** Then it tests whether the session is done, and returns. *)
Lemma inv_test c out p res seq rr c' : inv c out p (Some (res, seq)) → Read_test c res seq = (rr, c') →
  inv c' (out ++ msgs_of rr) p None.
Proof.
  intros [Hok Hra Hca Hst Hlog Hmax Hend Hlast Hpend Hdone Hhalt Hlive Halone Hstop Hch]. unfold Read_test.
  set (stop := bDone c && (seqNo c <=? u64 (seq + slen res))). intros Hr.
  assert (c' = (if stop then c <| Running := false |> else c) ∧ msgs_of rr = default [] res) as [-> ->]
    by (destruct res; by simplify_eq).
  assert (stop = true → bDone c = true) as Hsd by (unfold stop; by destruct (bDone c)).
  cbn in Hlog. rewrite app_assoc in Hlog.
  destruct stop eqn:Es; constructor; cbn; try done; try (by intros ? ? [? ?]).
  - by auto.
  - intros He Ho _. destruct (Halone He Ho) as [-> ->]; done.
  - intros He Hd Hrun. destruct (Hlive He Hd Hrun) as [?|[?|(res' & seq' & [= <- <-] & Hle)]]; [by auto..|].
    unfold stop in Es. rewrite Hd in Es. zbool. lia.
Qed.

(** A whole turn of [Read]. *)
Lemma inv_read c out rr c' : inv c out None None → Read_iter c = (rr, c') →
  inv c' (out ++ msgs_of rr) None None ∧
  (ext = false → Running c = true → bDone c = true → Running c' = false ∧ ready c' = None).
Proof.
  intros Hinv. unfold Read_iter. destruct (Running c) eqn:Hrun; [|intros [= <- <-]; by rewrite app_nil_r].
  unfold Read_body. destruct (Read_take c) as [[res seq] c1] eqn:Et. intros Hr.
  pose proof (inv_take _ _ _ _ _ _ Hinv (λ _ _, eq_refl) Et) as Hinv1.
  pose proof (inv_test _ _ _ _ _ _ _ Hinv1 Hr) as Hinv2. split; [done|]. intros Hx _ Hd.
  assert (ready c' = None ∧ bDone c' = true) as [Hn Hd'].
  { injection Et as <- <- <-. unfold Read_test in Hr. destruct (_ && _), (ready c); by simplify_eq. }
  destruct (Running c') eqn:Hrun'; [|done].
  destruct (inv_live _ _ _ _ Hinv2 Hx Hd' Hrun') as [[? ?]|[[? ?]|(? & ? & ? & _)]]; congruence.
Qed.

(** The application clears or sets [Running]. *)
Lemma inv_external c out p r b : ext = true → inv c out p r → inv (c <| Running := b |>) out p r.
Proof. intros Hx []. constructor; cbn; try done; by rewrite Hx. Qed.

Definition sys_inv (s : sys Conn Cache) : Prop := inv (cl s) (out s) (pend s) (rd s).

Lemma inv_step l s s' : sys_inv s → step genuine ovl l s s' → sys_inv s'.
Proof.
  unfold sys_inv. intros Hinv Hst. destruct Hst as [s buff n ra now c' Hroom Hn Hsm Hg Hp|s tt now dial write o p c' Hp Hr0 Hne Hm
    |s res Hp|s tt dial write o c' Hp Ht|s res seq c' Hr Hp Ht|s res seq r c' Hr Ht|s Hr Hf|s now]; cbn [cl out pend rd update].
  - by eapply inv_packet.
  - rewrite Hp in Hinv. eapply inv_worker; [done| |done]. auto.
  - rewrite Hp in Hinv. by apply inv_append.
  - by eapply inv_tick.
  - rewrite Hr in Hinv. eapply inv_take; [done| |done]. auto.
  - rewrite Hr in Hinv. by eapply inv_test.
  - done.
  - inv_frame Hinv.
Qed.

Lemma inv_init cn ip port srvs now nextSeq :
  start = (if nextSeq =? 0 then 1 else nextSeq) →
  inv (newClientState cn nextSeq ip port srvs now) [] None None.
Proof.
  intros Hs. constructor; cbn; rewrite <- ?Hs; try done.
  - repeat split; cbn; rewrite <- ?Hs; [apply sc_init_ok|lia|unfold max_u64; lia|by left].
  - lia.
  - intros s m _ Hg. rewrite sc_init_get in Hg. discriminate.
  - apply sc_init_get.
  - by rewrite Z.sub_diag.
  - lia.
Qed.

Lemma inv_reachable cn ip port srvs now nextSeq s :
  start = (if nextSeq =? 0 then 1 else nextSeq) →
  reachable genuine ovl (newClientState cn nextSeq ip port srvs now) s → sys_inv s.
Proof.
  intros Hs. apply reachable_invariant.
  - by apply inv_init.
  - intros l s1 s2 H1 H2. by eapply inv_step.
Qed.

(** A client that has stopped by itself has received the whole session. *)
Lemma inv_all s : ext = false → sys_inv s → Running (cl s) = false →
  endSession (cl s) = true ∧ out s ++ unread s = segment start (fin - start) ∧
  (ovl = false → rd s = None → out s = segment start (fin - start) ∧ unread s = []).
Proof.
  intros Hx Hinv Hrun. pose proof (inv_halt _ _ _ _ Hinv Hx Hrun) as Hd.
  destruct (inv_done _ _ _ _ Hinv Hd) as (He & Hs).
  pose proof (inv_log _ _ _ _ Hinv) as Hlog. rewrite Hs in Hlog. split; [done|]. split; [done|].
  intros Ho Hr. pose proof (inv_stop _ _ _ _ Hinv Hx Ho Hrun) as Hn.
  unfold unread. rewrite Hr in *. cbn [held app] in *. rewrite Hn, app_nil_r in *. done.
Qed.
End Session.

(** ** Safety against arbitrary datagrams *)

Section Safety.
Context {Conn Cache : Type} `{SeqCacheSpec Cache}.
Abbreviation client := (Client Conn Cache).
Implicit Types (c : client).

(** What holds of the client whatever it receives. *)
Definition safe (c : client) : Prop :=
  client_ok c ∧ Forall wf_mb (ch c) ∧ robin_ok c.

Lemma safe_ext c c' : safe c → cache c' = cache c → seqNo c' = seqNo c → session c' = session c →
  ch c' = ch c → robinN c' = robinN c → reqSrv c' = reqSrv c → safe c'.
Proof.
  unfold safe, client_ok, robin_ok. intros Hs E1 E2 E3 E4 E5 E6. by rewrite E1, E2, E3, E4, E5, E6.
Qed.

Lemma safe_init cn nextSeq ip port srvs now : 0 <= nextSeq <= max_u64 →
  safe (newClientState cn nextSeq ip port srvs now).
Proof.
  intros Hn. split; [|split; [by constructor|split; [done|by left]]].
  split; [apply sc_init_ok|]. split; [cbn; unfold max_u64 in *; zcase|by left].
Qed.

Lemma packet_of_wf h payload : wf_header h → len payload < 2 ^ 63 → wf_mb (packet_of h payload).
Proof.
  intros (_ & Hs & Hc) Hl. split; [done|]. split; [done|].
  unfold packet_of. cbn [mb_dataBuf]. case_decide; [done|]. change (len (@nil byte)) with 0. lia.
Qed.

(** The receiver returns on any datagram, queues at most its packet, and keeps
    the client safe. *)
Lemma onPacket_spec c buff n rAddr now : safe c → 0 <= n <= len buff → n < 65536 →
  ∃ c', onPacket c buff n rAddr now = Ret c' ∧ safe c' ∧ connReq c' = connReq c ∧
    seqMax c' = seqMax c ∧ endSession c' = endSession c ∧ reqLast c' = reqLast c ∧
    (ch c' = ch c ∨ ∃ h, let b := take (Z.to_nat n) buff in
       DecodeHead b zeroHeader = Ret (h, None) ∧ ch c' = ch c ++ [packet_of h (drop 20 b)]).
Proof.
  intros (Hc & Hch & Hrob) Hn Hsmall. unfold onPacket.
  destruct (gotBuff_spec c buff n now Hn) as (e & c1 & -> & Hf & Hs & Hcase); [apply Hc|].
  cbn [mbind outcome_mbind].
  assert (safe c1 ∧ (ch c1 = ch c ∨ ∃ h, DecodeHead (take (Z.to_nat n) buff) zeroHeader = Ret (h, None) ∧
    ch c1 = ch c ++ [packet_of h (drop 20 (take (Z.to_nat n) buff))])) as [Hs1 Hor].
  { assert (robin_ok c1) by (unfold robin_ok; by rewrite (rf_robinN _ _ Hf), (rf_reqSrv _ _ Hf)).
    assert (client_ok c1) by (unfold client_ok; rewrite (rf_cache _ _ Hf), (rf_seqNo _ _ Hf); by split_and!; try apply Hc).
    destruct Hcase as [(_ & E & _)|(_ & h & Hh & Hwh & _ & _ & E)].
    - split; [|by left]. split; [done|]. by rewrite E.
    - split; [|right; by exists h]. split; [done|]. split; [|done]. rewrite E.
      apply Forall_app. split; [done|]. apply Forall_singleton, packet_of_wf; [done|].
      unfold len in *. rewrite length_drop, length_take. lia. }
  destruct Hf. destruct e as [e|].
  - eexists. split; [done|]. destruct (negb _); [|done]. split; [by apply (safe_ext c1)|done].
  - destruct (len (reqSrv c1) =? 0) eqn:E0; (eexists; split; [done|]); [|done].
    split; [|done]. destruct Hs1 as (? & ? & Hr & Hr'). split; [done|]. split; [done|].
    split; [done|]. left. zbool. cbn. lia.
Qed.

Lemma safe_newReq c seq tt : safe c → ∃ r c', newReq c seq tt = Ret (r, c') ∧ safe c' ∧
  connReq c' = connReq c.
Proof.
  intros Hs. rewrite newReq_eq. cbv zeta.
  repeat case_match; eexists _, _; (split; [done|]); (split; [by apply (safe_ext c)|done]).
Qed.

Lemma safe_request c buff dial write : safe c → ∃ o c', request c buff dial write = Ret (o, c') ∧ safe c' ∧
  (∀ q, connReq c = Some q → connReq c' = Some q) ∧
  (∀ peer b, o = Some (peer, b) → connReq c' = Some peer ∧ b = buff).
Proof.
  intros (Hc & Hch & Hrob). destruct (request_returns c buff dial write Hrob) as [[o c'] E].
  destruct (request_frame _ _ _ _ _ _ E) as (n & p & r & -> & Hq & Ho & Hr).
  exists o. eexists. split; [done|]. split; [|done]. split; [done|]. split; [done|]. by apply Hr.
Qed.

Lemma safe_tick c tt dial write : safe c → ∃ o c', requestLoop_tick c tt dial write = Ret (o, c') ∧ safe c' ∧
  (∀ q, connReq c = Some q → connReq c' = Some q) ∧
  (∀ peer b, o = Some (peer, b) → connReq c' = Some peer).
Proof.
  intros Hs. unfold requestLoop_tick. destruct (_ <? _); [|by eexists _, _].
  destruct (safe_newReq c (seqMax c) tt Hs) as (r & c1 & -> & Hs1 & Hc1). cbn [mbind outcome_mbind].
  destruct r as [b|]; [|eexists _, _; split; [done|]; by rewrite Hc1].
  destruct (safe_request c1 b dial write Hs1) as (o & c2 & -> & Hs2 & Hq & Ho).
  eexists _, _. split; [done|]. split; [done|]. rewrite <- Hc1. split; [done|].
  intros peer b' ->. by apply (Ho peer b').
Qed.

(** The worker up to the lock: it returns, or the next packet has numbers beyond
    the memory of the cache and the process dies. *)
Lemma safe_worker c tt now dial write : safe c →
  requestLoop_publish c tt now dial write = Panic ∧ (∃ mb, head (ch c) = Some mb ∧ beyond_cache c mb) ∨
  (∀ mb, head (ch c) = Some mb → ¬ beyond_cache c mb) ∧
  ∃ o p c', requestLoop_publish c tt now dial write = Ret (o, p, c') ∧ safe c' ∧
    (∀ q, connReq c = Some q → connReq c' = Some q) ∧
    (∀ peer b, o = Some (peer, b) → connReq c' = Some peer).
Proof.
  intros (Hc & Hch & Hrob). unfold requestLoop_publish. destruct (ch c) as [|mb rest] eqn:Ech.
  { right. split; [done|]. eexists _, _, _. split; [done|]. split; [|done]. split; [done|]. by rewrite Ech. }
  apply Forall_cons in Hch as [Hmb Hrest].
  assert (beyond_cache (c <| ch := rest |>) mb ↔ beyond_cache c mb) as Hb by (by split; intros []; constructor).
  destruct (doMsgBuf_cases (c <| ch := rest |>) mb tt) as [[-> Hbc]|(Hnb & req & e & p & c1 & -> & Hres)]; [done|done|..].
  { left. split; [done|]. exists mb. split; [done|]. by apply Hb. }
  right. split; [intros ? [= <-]; by rewrite <- Hb|].
  eapply doMsgBuf_ok in Hres as (Hc1 & E1 & E2 & E3 & E4 & _); [|exact Hc|exact Hmb].
  cbn [ch reqSrv robinN connReq update] in E1, E2, E3, E4.
  assert (safe c1) as Hs1.
  { split; [done|]. split; [by rewrite E1|]. unfold robin_ok. by rewrite E2, E3. }
  cbn [mbind outcome_mbind]. rewrite <- E4. destruct p as [res|]; [by eexists _, _, _|]. destruct e as [e|].
  - eexists _, _, _. split; [done|]. destruct (_ <? _); [|done]. split; [by apply (safe_ext c1)|done].
  - destruct req as [b|]; [|by eexists _, _, _].
    destruct (safe_request c1 b dial write Hs1) as (o & c2 & -> & Hs2 & Hq & Ho). cbn [mbind outcome_mbind].
    eexists _, _, _. split; [done|]. split; [done|]. split; [done|]. intros peer b' ->. by apply (Ho peer b').
Qed.

Lemma safe_published c tt now dial write o p c' : safe c →
  requestLoop_publish c tt now dial write = Ret (o, p, c') → safe c' ∧
    (∀ q, connReq c = Some q → connReq c' = Some q) ∧
    (∀ peer b, o = Some (peer, b) → connReq c' = Some peer).
Proof.
  intros Hs E. destruct (safe_worker c tt now dial write Hs) as [[E' _]|(_ & ? & ? & ? & E' & Hr)];
    rewrite E in E'; [done|]. by injection E' as <- <- <-.
Qed.

Lemma append_frame c res : ∃ a, commit_append c res = c <| ready := a |>.
Proof. unfold commit_append. destruct (ready c); by eexists. Qed.

Lemma safe_append c p : safe c → safe (append_pending c p).
Proof.
  intros Hs. destruct p as [res|]; [|done]. cbn. destruct (append_frame c res) as (a & ->). by apply (safe_ext c).
Qed.

(** A whole turn of the worker. *)
Lemma safe_msg c tt now dial write o c' : safe c → requestLoop_msg c tt now dial write = Ret (o, c') → safe c'.
Proof.
  intros Hs. rewrite requestLoop_split. intros E. inv_bind E. destruct a as [[o1 p] c1]. simplify_eq.
  apply safe_append. by eapply safe_published.
Qed.

Lemma Read_test_frame c res seq r c' : Read_test c res seq = (r, c') → ∃ b, c' = c <| Running := b |>.
Proof.
  unfold Read_test. destruct (_ && _); destruct res; intros [= <- <-];
    [exists false|exists false|exists (Running c)|exists (Running c)]; by destruct c.
Qed.

(** Safety, and the peer of every request sent, along the steps. *)
Definition safe_sys (s : sys Conn Cache) : Prop :=
  safe (cl s) ∧ Forall (λ x, connReq (cl s) = Some x.1) (sent s).

Lemma sent_step (s : sys Conn Cache) (c' : client) o l : Forall (λ x : UDPAddr * list byte, connReq (cl s) = Some x.1) l →
  (∀ q, connReq (cl s) = Some q → connReq c' = Some q) →
  (∀ peer b, o = Some (peer, b) → connReq c' = Some peer) →
  Forall (λ x, connReq c' = Some x.1) (sent_add o l).
Proof.
  intros Hl Hq Ho. apply Forall_app. split.
  - eapply Forall_impl; [done|]. intros x Hx. by apply Hq.
  - destruct o as [[peer b]|]; cbn; constructor; [by eapply Ho|done].
Qed.

Lemma safe_step allowed ovl l s s' : safe_sys s → step allowed ovl l s s' → safe_sys s'.
Proof.
  intros [Hs Hp] Hst. destruct Hst as [s buff n ra now c' Hroom Hn Hsm Hg E|s tt now dial write o p c' _ _ Hne E
    |s res _|s tt dial write o c' _ E|s res seq c' _ _ E|s res seq r c' _ E|s _ _|s now];
    unfold safe_sys; cbn [cl sent update].
  - destruct (onPacket_spec (cl s) buff n ra now Hs Hn Hsm) as (c1 & E1 & Hs1 & Hc1 & _).
    rewrite E1 in E. simplify_eq. by rewrite Hc1.
  - destruct (safe_published _ _ _ _ _ _ _ _ Hs E) as (Hs1 & Hq & Ho). split; [done|]. by eapply sent_step.
  - split; [by apply (safe_append (cl s) (Some res))|]. by destruct (append_frame (cl s) res) as (a & ->).
  - destruct (safe_tick (cl s) tt dial write Hs) as (o1 & c1 & E1 & Hs1 & Hq & Ho).
    rewrite E1 in E. simplify_eq. split; [done|]. by eapply sent_step.
  - injection E as _ _ <-. split; [by apply (safe_ext (cl s))|done].
  - destruct (Read_test_frame _ _ _ _ _ E) as (b & ->). split; [by apply (safe_ext (cl s))|done].
  - by split.
  - split; [by apply (safe_ext (cl s))|done].
Qed.
End Safety.
