(* ===== verification/DeliveryProps.v ===== *)
(** * Properties of the client

    The theorems on delivery, progress and stopping, proved from the lemmas of [ClientLemmas] and [Delivery] for every cache
    that meets [SeqCacheSpec]; the witnesses run the program's own cache. *)

From Stdlib Require Import Strings.Byte.
From S2P Require Import Prelude.
From S2P Require Import GoBytes.
From S2P Require Import NetAddr.
From S2P Require Import Codec.
From S2P Require Import MsgCache.
From S2P Require Import Client.
From S2P Require Import ClientLemmas.
From S2P Require Import Delivery.

(** ** A small session for the witnesses: messages 1 and 2, in two datagrams *)

#[local] Existing Instance ex_memory.

Definition ex_stream (z : Z) : Message := mkMessage [z2b (64 + z)].
Definition ex_sess : gostring := [x61; x62].
Definition ex_dgram (s : Z) : list byte :=
  head_bytes (mkHeader ex_sess s 1) ++ wire [ex_stream s].
Definition ex_eos : list byte := head_bytes (mkHeader ex_sess 3 0xffff).
Definition ex_addr : UDPAddr := mkUDPAddr [x0a; x00; x00; x01] 5000.

Definition ex_client0 : Client unit msgCache := newClientState tt 0 [] 5858 [] 100.

Definition ret_or {A} (d : A) (m : outcome A) : A :=
  match m with Ret a => a | _ => d end.

(** Datagram 2 arrives, then datagram 1, then the end of the session; then the
    two data packets are processed. *)
Definition ex_c1 : Client unit msgCache :=
  ret_or ex_client0 (onPacket ex_client0 (ex_dgram 2) 23 ex_addr 100).
Definition ex_c2 : Client unit msgCache :=
  ret_or ex_client0 (onPacket ex_c1 (ex_dgram 1) 23 ex_addr 100).
Definition ex_c3 : Client unit msgCache :=
  ret_or ex_client0 (onPacket ex_c2 ex_eos 20 ex_addr 100).
Definition ex_c4 : Client unit msgCache :=
  (ret_or (None, ex_client0) (requestLoop_msg ex_c3 1000000000000 101 None None)).2.
Definition ex_c5 : Client unit msgCache :=
  (ret_or (None, ex_client0) (requestLoop_msg ex_c4 1000000000000 101 None None)).2.

Lemma ex_genuine_data (c : Client unit msgCache) s : s = 1 ∨ s = 2 → genuine ex_stream 3 c (ex_dgram s).
Proof.
  intros Hs h Hh _. destruct Hs as [-> | ->]; vm_compute in Hh; injection Hh as <-.
  all: split; [vm_compute; intuition congruence|].
  all: split; [intros _|split; vm_compute; congruence].
  all: split; [vm_compute; congruence|]; intros l Hl; vm_compute in Hl; injection Hl as <-; reflexivity.
Qed.

Lemma ex_genuine_eos (c : Client unit msgCache) : genuine ex_stream 3 c ex_eos.
Proof.
  intros h Hh _. vm_compute in Hh. injection Hh as <-.
  split; [vm_compute; intuition congruence|].
  split; [intros [_ Hd]; by destruct Hd|split; [done|vm_compute; congruence]].
Qed.

Lemma ex_packet_step (allowed : Client unit msgCache → list byte → Prop) ovl c c' buff n :
  len (ch c) < chanCap → 0 <= n <= len buff → n < 65536 →
  allowed c (take (Z.to_nat n) buff) →
  onPacket c buff n ex_addr 100 = Ret c' →
  reachable allowed ovl ex_client0 (mkSys c [] []) →
  reachable allowed ovl ex_client0 (mkSys c' [] []).
Proof. intros H1 H2 H3 H4 H5 H6. by apply (reach_packet _ _ _ c [] [] buff n ex_addr 100). Qed.

Lemma ex_msg_step (allowed : Client unit msgCache → list byte → Prop) ovl c o c' :
  ch c ≠ [] → requestLoop_msg c 1000000000000 101 None None = Ret (o, c') →
  reachable allowed ovl ex_client0 (mkSys c [] []) →
  reachable allowed ovl ex_client0 (mkSys c' [] (option_list o)).
Proof. intros H2 H3 H4. by apply (reach_msg _ _ _ c [] [] 1000000000000 101 None None o). Qed.

(** Then the end of the session is processed and the application reads. *)
Definition ex_c6 : Client unit msgCache :=
  (ret_or (None, ex_client0) (requestLoop_msg ex_c5 1000000000000 101 None None)).2.
Definition ex_c7 : Client unit msgCache := (Read_iter ex_c6).2.

Section Runs.
Context (allowed : Client unit msgCache → list byte → Prop) (ovl : bool).
Context (Hdata : ∀ c s, s = 1 ∨ s = 2 → allowed c (ex_dgram s)) (Heos : ∀ c, allowed c ex_eos).

Lemma ex_run3 : reachable allowed ovl ex_client0 (mkSys ex_c3 [] []).
Proof.
  apply (ex_packet_step _ _ ex_c2 _ ex_eos 20); [vm_compute; intuition congruence..|apply Heos|vm_compute; reflexivity|].
  apply (ex_packet_step _ _ ex_c1 _ (ex_dgram 1) 23);
    [vm_compute; intuition congruence..|apply (Hdata _ 1); by left|vm_compute; reflexivity|].
  apply (ex_packet_step _ _ ex_client0 _ (ex_dgram 2) 23);
    [vm_compute; intuition congruence..|apply (Hdata _ 2); by right|vm_compute; reflexivity|].
  apply reach_init.
Qed.

Lemma ex_run4 : reachable allowed ovl ex_client0 (mkSys ex_c4 [] []).
Proof. apply (ex_msg_step _ _ ex_c3 None); [vm_compute; congruence..|vm_compute; reflexivity|apply ex_run3]. Qed.

Lemma ex_run5 : reachable allowed ovl ex_client0 (mkSys ex_c5 [] []).
Proof. apply (ex_msg_step _ _ ex_c4 None); [vm_compute; congruence..|vm_compute; reflexivity|apply ex_run4]. Qed.

Lemma ex_run6 : reachable allowed ovl ex_client0 (mkSys ex_c6 [] []).
Proof. apply (ex_msg_step _ _ ex_c5 None); [vm_compute; congruence..|vm_compute; reflexivity|apply ex_run5]. Qed.

Lemma ex_run : reachable allowed ovl ex_client0 (mkSys ex_c7 [ex_stream 1; ex_stream 2] []).
Proof.
  apply (reach_read _ _ _ ex_c6 [] [] (ReadMsgs [ex_stream 1; ex_stream 2] 1)); [exact ex_run6|].
  vm_compute. reflexivity.
Qed.
End Runs.

(** Another run: datagram 1, the end of the session and datagram 2 arrive in this
    order.  The first two are processed; then the worker publishes message 2, and
    a [Read] takes message 1 and stops the client before message 2 is ready. *)
Definition ex_d1 : Client unit msgCache :=
  ret_or ex_client0 (onPacket ex_client0 (ex_dgram 1) 23 ex_addr 100).
Definition ex_d2 : Client unit msgCache :=
  ret_or ex_client0 (onPacket ex_d1 ex_eos 20 ex_addr 100).
Definition ex_d3 : Client unit msgCache :=
  ret_or ex_client0 (onPacket ex_d2 (ex_dgram 2) 23 ex_addr 100).
Definition ex_d4 : Client unit msgCache :=
  (ret_or (None, ex_client0) (requestLoop_msg ex_d3 0 101 None None)).2.
Definition ex_d5 : Client unit msgCache :=
  (ret_or (None, ex_client0) (requestLoop_msg ex_d4 0 101 None None)).2.
Definition ex_d6 : Client unit msgCache :=
  (ret_or (None, None, ex_client0) (requestLoop_publish ex_d5 0 101 None None)).2.
Definition ex_d7 : Client unit msgCache := (Read_body ex_d6).2.
Definition ex_d8 : Client unit msgCache := commit_append ex_d7 (Some [ex_stream 2]).

Section Race.
Context (allowed : Client unit msgCache → list byte → Prop).
Context (Hdata : ∀ c s, s = 1 ∨ s = 2 → allowed c (ex_dgram s)) (Heos : ∀ c, allowed c ex_eos).

Lemma ex_race5 : reachable allowed true ex_client0 (mkSys ex_d5 [] []).
Proof.
  apply (reach_msg _ _ _ ex_d4 [] [] 0 101 None None None); [|vm_compute; congruence|vm_compute; reflexivity].
  apply (reach_msg _ _ _ ex_d3 [] [] 0 101 None None None); [|vm_compute; congruence|vm_compute; reflexivity].
  apply (ex_packet_step _ _ ex_d2 _ (ex_dgram 2) 23);
    [vm_compute; intuition congruence..|apply (Hdata _ 2); by right|vm_compute; reflexivity|].
  apply (ex_packet_step _ _ ex_d1 _ ex_eos 20); [vm_compute; intuition congruence..|apply Heos|vm_compute; reflexivity|].
  apply (ex_packet_step _ _ ex_client0 _ (ex_dgram 1) 23);
    [vm_compute; intuition congruence..|apply (Hdata _ 1); by left|vm_compute; reflexivity|].
  apply reach_init.
Qed.

Lemma ex_race : reachable allowed true ex_client0 (mkSys ex_d8 [ex_stream 1] []).
Proof.
  eapply reach_step; [eapply reach_step; [eapply reach_step; [eapply reach_step; [exact ex_race5|]|]|]|].
  - apply (step_publish _ _ (mkSys ex_d5 [] []) 0 101 None None None (Some (Some [ex_stream 2])) ex_d6);
      [done|done|vm_compute; congruence|vm_compute; reflexivity].
  - apply (step_take _ _ (mkSysAt ex_d6 [] [] (Some (Some [ex_stream 2])) None) (Some [ex_stream 1]) 2 (ex_d6 <| ready := None |>));
      [done|done|vm_compute; reflexivity].
  - apply (step_test _ _ (mkSysAt (ex_d6 <| ready := None |>) [] [] (Some (Some [ex_stream 2])) (Some (Some [ex_stream 1], 2)))
      (Some [ex_stream 1]) 2 (ReadMsgs [ex_stream 1] 2) ex_d7); [done|vm_compute; reflexivity].
  - by apply (step_append _ _ (mkSysAt ex_d7 [ex_stream 1] [] (Some (Some [ex_stream 2])) None) (Some [ex_stream 2])).
Qed.
End Race.

(** ** Delivery and termination *)

Section Theorems.
Context {Conn Cache : Type} `{SeqCacheSpec Cache}.

(** C1: in-order, exactly-once delivery.  Whatever datagrams of the session
    arrive, in whatever order, lost, duplicated or overlapping, mixed with
    datagrams the client rejects, and however the goroutines and the ticker
    interleave with [Read] (also with a [Read] that runs while a packet is being
    processed), what [Read] has returned is the session's messages from the first
    expected one on, each once and in order; together with what is on its way to
    the application it reaches exactly to the next expected sequence number. *)
Theorem delivery_in_order (stream : Z → Message) start fin nextSeq (cn : Conn) ip port srvs now ovl
    (s : sys Conn Cache)
    (Hsession : 0 <= start <= fin) (Hfin : fin < 2 ^ 63)
    (Hstart : start = if nextSeq =? 0 then 1 else nextSeq)
    (Hreach : reachable (genuine stream fin) ovl (newClientState cn nextSeq ip port srvs now) s) :
  out s = segment stream start (len (out s)) ∧
  out s ++ unread s = segment stream start (seqNo (cl s) - start) ∧
  start <= seqNo (cl s) <= fin.
Proof.
  pose proof (inv_reachable stream start fin Hsession Hfin false ovl cn ip port srvs now nextSeq s Hstart Hreach) as Hinv.
  split; [by eapply out_prefix|]. split; [apply Hinv|apply Hinv].
Qed.

(** C3: complete delivery.  When the client has stopped by itself ([Running] is
    false) it has received the end of the session and every message: what [Read]
    has returned is the whole session but for the messages, if any, that are
    still on their way (held by a [Read] that has not returned, ready, or to be
    appended).  When no body of [Read] overlapped the processing of a packet and
    none is in progress, nothing is on its way and [Read] has returned the whole
    session. *)
Theorem delivery_complete (stream : Z → Message) start fin nextSeq (cn : Conn) ip port srvs now ovl
    (s : sys Conn Cache)
    (Hsession : 0 <= start <= fin) (Hfin : fin < 2 ^ 63)
    (Hstart : start = if nextSeq =? 0 then 1 else nextSeq)
    (Hreach : reachable (genuine stream fin) ovl (newClientState cn nextSeq ip port srvs now) s)
    (Hstop : Running (cl s) = false) :
  endSession (cl s) = true ∧ out s ++ unread s = segment stream start (fin - start) ∧
  (ovl = false → rd s = None → out s = segment stream start (fin - start) ∧ unread s = []).
Proof.
  pose proof (inv_reachable stream start fin Hsession Hfin false ovl cn ip port srvs now nextSeq s Hstart Hreach) as Hinv.
  by apply (inv_all stream start fin false ovl).
Qed.

(** C12: the client stops.  When it has received every message and the next
    packet of the channel is an end of session, the worker processes it without
    a request or a panic, and then at most one turn of [Read] stops the client,
    having returned the whole session.  (Worker and [Read] are between turns; a
    client that a [Read] overlapping a delivery has stopped before is excluded.) *)
Theorem end_of_session_stops (stream : Z → Message) start fin nextSeq (cn : Conn) ip port srvs now ovl
    (s : sys Conn Cache) mb rest tt now' dial write
    (Hsession : 0 <= start <= fin) (Hfin : fin < 2 ^ 63)
    (Hstart : start = if nextSeq =? 0 then 1 else nextSeq)
    (Hreach : reachable (genuine stream fin) ovl (newClientState cn nextSeq ip port srvs now) s)
    (Hpend : pend s = None) (Hrd : rd s = None) (Hrun : ovl = true → Running (cl s) = true)
    (Hall : seqNo (cl s) = fin)
    (Hch : ch (cl s) = mb :: rest) (Heos : mb_msgCnt mb = 0xffff) (Hbuf : mb_dataBuf mb = []) :
  ∃ c', requestLoop_msg (cl s) tt now' dial write = Ret (None, c') ∧ bDone c' = true ∧
    let '(r, c'') := Read_iter c' in
    Running c'' = false ∧ out s ++ msgs_of r = segment stream start (fin - start).
Proof.
  pose proof (inv_reachable stream start fin Hsession Hfin false ovl cn ip port srvs now nextSeq s Hstart Hreach) as Hinv.
  unfold sys_inv in Hinv. rewrite Hpend, Hrd in Hinv.
  pose proof (inv_chan _ _ _ _ _ _ _ _ _ Hinv) as Hfaith. rewrite Hch in Hfaith.
  apply Forall_cons in Hfaith as [(_ & _ & Hseq & _) _]. specialize (Hseq Heos).
  assert (∃ c', requestLoop_msg (cl s) tt now' dial write = Ret (None, c') ∧ bDone c' = true ∧ seqNo c' = fin ∧
    (Running c' = false → default [] (ready c') = [])) as (c' & Hmsg & Hd & Hs' & Hempty).
  { unfold requestLoop_msg. rewrite Hch. unfold doMsgBuf, doMsgBuf_publish. rewrite Hbuf, Heos.
    change (len (@nil byte)) with 0. cbn [Z.ltb Z.compare Z.eqb negb andb Pos.eqb mbind outcome_mbind].
    set (c1 := gotEndSession ((cl s) <| ch := rest |>) mb).
    assert (bDone c1 = true ∧ seqNo c1 = fin ∧ (Running c1 = false → default [] (ready c1) = [])) as (Hd1 & Hs1 & He1).
    { pose proof (inv_max _ _ _ _ _ _ _ _ _ Hinv). pose proof (inv_end _ _ _ _ _ _ _ _ _ Hinv) as He.
      assert (Running (cl s) = false → default [] (ready (cl s)) = []) as Hold.
      { intros Hf. destruct ovl; [by rewrite Hrun in Hf|].
        by apply (inv_stop _ _ _ _ _ _ _ _ _ Hinv), app_eq_nil in Hf as [? _]. }
      assert ((seqMax (cl s) <=? seqNo (cl s)) = true) as Hle by (apply Z.leb_le; lia).
      unfold c1, gotEndSession. cbn [endSession update].
      destruct (endSession (cl s)) eqn:Ee; cbn [seqMax seqNo seqEnd ready update]; rewrite Hle;
        [rewrite He by done; rewrite (proj2 (Z.ltb_ge (seqNo (cl s)) fin)) by lia
        |rewrite (proj2 (Z.ltb_ge (seqNo (cl s)) (mb_seqNo mb))) by lia];
        rewrite andb_false_r; case_bool_decide as Hrdy; cbn [bDone seqNo Running ready update]; (split; [done|]); (split; [done|]);
        intros Hf; [by rewrite Hrdy|by apply Hold|by rewrite Hrdy|by apply Hold]. }
    rewrite Hs1. zcase. cbn [mbind outcome_mbind append_pending]. by eexists. }
  exists c'. split; [done|]. split; [done|].
  pose proof (inv_msg stream start fin Hsession Hfin false ovl _ _ _ _ _ _ _ _ _ Hinv (λ _ _, eq_refl) Hmsg) as Hinv'.
  destruct (Read_iter c') as [r c''] eqn:Hr.
  destruct (inv_read stream start fin Hsession Hfin false ovl _ _ _ _ Hinv' Hr) as [Hinv2 Hstop].
  pose proof (inv_log _ _ _ _ _ _ _ _ _ Hinv2) as Hlog. cbn [held app default] in Hlog. rewrite app_nil_r in Hlog.
  destruct (Running c') eqn:Hrun'.
  - destruct (Hstop eq_refl eq_refl Hd) as [? Hn]. split; [done|]. rewrite Hn in Hlog.
    change (default [] None) with (@nil Message) in Hlog. rewrite app_nil_r in Hlog. rewrite Hlog. f_equal.
    destruct (inv_done _ _ _ _ _ _ _ _ _ Hinv2) as [_ ?]; [by apply (inv_halt _ _ _ _ _ _ _ _ _ Hinv2)|]. lia.
  - unfold Read_iter in Hr. rewrite Hrun' in Hr. injection Hr as <- <-. split; [done|].
    rewrite Hempty, Hs', app_nil_r in Hlog by done. done.
Qed.

(** C11: recovery.  A packet that covers the next expected message is always
    taken: the worker hands over its new messages and the cached run after
    them, and the next expected number becomes the first one that neither the
    packet nor the cache holds. *)
Theorem progress_on_expected (stream : Z → Message) start fin nextSeq (cn : Conn) ip port srvs now ovl
    (s : sys Conn Cache) mb tt
    (Hsession : 0 <= start <= fin) (Hfin : fin < 2 ^ 63)
    (Hstart : start = if nextSeq =? 0 then 1 else nextSeq)
    (Hreach : reachable (genuine stream fin) ovl (newClientState cn nextSeq ip port srvs now) s)
    (Hmb : faithful stream fin mb) (Hdata : is_data mb)
    (Hpay : mb_dataBuf mb = wire (segment stream (mb_seqNo mb) (mb_msgCnt mb)))
    (Hwf : Forall wf_message (segment stream (mb_seqNo mb) (mb_msgCnt mb)))
    (Hcover : mb_seqNo mb <= seqNo (cl s) < mb_seqNo mb + mb_msgCnt mb) :
  ∃ c', doMsgBuf (cl s) mb tt = Ret (None, None, c') ∧
    mb_seqNo mb + mb_msgCnt mb <= seqNo c' ∧
    (∀ q, mb_seqNo mb + mb_msgCnt mb <= q < seqNo c' → is_Some (sc_get (cache (cl s)) q)) ∧
    sc_get (cache (cl s)) (seqNo c') = None ∧
    ready c' = Some (default [] (ready (cl s)) ++
                 segment stream (seqNo (cl s)) (seqNo c' - seqNo (cl s))).
Proof.
  apply (inv_taken stream start fin Hsession Hfin false ovl (cl s) (out s) (pend s) (rd s)); [|done..|lia].
  by apply (inv_reachable stream start fin Hsession Hfin false ovl cn ip port srvs now nextSeq s Hstart).
Qed.
End Theorems.

Lemma delivery_in_order_witness :
  out (mkSys ex_c7 [ex_stream 1; ex_stream 2] []) =
    segment ex_stream 1 (len [ex_stream 1; ex_stream 2]).
Proof.
  apply (delivery_in_order ex_stream 1 3 0 tt [] 5858 [] 100 true
           (mkSys ex_c7 [ex_stream 1; ex_stream 2] []));
    [lia|lia|reflexivity|apply (ex_run _ _ ex_genuine_data ex_genuine_eos)].
Defined.

(** The first run hands over the session; in the second message 2 stays unread. *)
Lemma delivery_complete_witness :
  [ex_stream 1; ex_stream 2] = segment ex_stream 1 2 ∧
  [ex_stream 1] ++ unread (mkSys ex_d8 [ex_stream 1] []) = segment ex_stream 1 2.
Proof.
  split.
  - apply (delivery_complete ex_stream 1 3 0 tt [] 5858 [] 100 false
             (mkSys ex_c7 [ex_stream 1; ex_stream 2] []));
      [lia|lia|reflexivity|apply (ex_run _ _ ex_genuine_data ex_genuine_eos)|vm_compute; reflexivity|reflexivity|reflexivity].
  - apply (delivery_complete ex_stream 1 3 0 tt [] 5858 [] 100 true (mkSys ex_d8 [ex_stream 1] []));
      [lia|lia|reflexivity|apply (ex_race _ ex_genuine_data ex_genuine_eos)|vm_compute; reflexivity].
Defined.

Lemma end_of_session_stops_witness :
  ∃ c', requestLoop_msg ex_c5 1000000000000 101 None None = Ret (None, c') ∧ bDone c' = true ∧
    let '(r, c'') := Read_iter c' in Running c'' = false ∧ [] ++ msgs_of r = segment ex_stream 1 2.
Proof.
  apply (end_of_session_stops ex_stream 1 3 0 tt [] 5858 [] 100 true (mkSys ex_c5 [] [])
           (mkMsgBuf 3 0xffff []) []);
    [lia|lia|reflexivity|apply (ex_run5 _ _ ex_genuine_data ex_genuine_eos)|vm_compute; reflexivity..].
Defined.

Lemma progress_on_expected_witness :
  ∃ c', doMsgBuf ex_c4 (mkMsgBuf 1 1 (wire [ex_stream 1])) 0 = Ret (None, None, c') ∧
    1 + 1 <= seqNo c'.
Proof.
  edestruct (progress_on_expected ex_stream 1 3 0 tt [] 5858 [] 100 true (mkSys ex_c4 [] [])
           (mkMsgBuf 1 1 (wire [ex_stream 1])) 0) as (c' & E & Hle & _);
    [lia|lia|reflexivity|apply (ex_run4 _ _ ex_genuine_data ex_genuine_eos)|..|exists c'; split; [exact E|exact Hle]].
  - split; [vm_compute; intuition congruence|].
    split; [intros _|split; vm_compute; congruence].
    split; [vm_compute; congruence|]. intros l Hl. vm_compute in Hl. injection Hl as <-. reflexivity.
  - vm_compute. intuition congruence.
  - reflexivity.
  - repeat constructor; vm_compute; congruence.
  - vm_compute. intuition congruence.
Defined.
