(* ===== verification/RequestProps.v ===== *)
(** * Safety, requests and the sender's side of a session

    Theorems on the client under arbitrary datagrams (when it panics, who its
    requests go to), on what its requests ask for and when it makes none, and
    the delivery theorem for a sender that builds its datagrams with the
    encoder of src/moldUDP.go. *)

From Stdlib Require Import Strings.Byte.
From S2P Require Import Prelude.
From S2P Require Import GoBytes.
From S2P Require Import NetAddr.
From S2P Require Import Codec.
From S2P Require Import MsgCache.
From S2P Require Import Client.
From S2P Require Import ClientLemmas.
From S2P Require Import Delivery.
From S2P Require Import DeliveryProps.

(** ** Arbitrary datagrams *)

Section Safety.
Context {Conn Cache : Type} `{SeqCacheSpec Cache}.
Abbreviation client := (Client Conn Cache).

(** Any datagram may arrive. *)
Definition anything (c : client) (b : list byte) : Prop := True.

Lemma safe_reachable allowed ovl (cn : Conn) nextSeq ip port srvs now (s : sys Conn Cache) :
  0 <= nextSeq <= max_u64 →
  reachable allowed ovl (newClientState cn nextSeq ip port srvs now) s → safe_sys s.
Proof.
  intros Hn. apply reachable_invariant.
  - split; [by apply safe_init|constructor].
  - intros l s1 s2. apply safe_step.
Qed.


(** C24: requests go to one peer.  The round robin over [reqSrv] advances
    [robinN], but the request socket is connected once and kept: all requests a
    client ever sends go to the same server. *)
Theorem requests_single_peer (cn : Conn) nextSeq ip port srvs now ovl (s : sys Conn Cache) p1 b1 p2 b2
    (Hnext : 0 <= nextSeq <= max_u64)
    (Hreach : reachable anything ovl (newClientState cn nextSeq ip port srvs now) s)
    (H1 : (p1, b1) ∈ sent s) (H2 : (p2, b2) ∈ sent s) : p1 = p2.
Proof.
  destruct (safe_reachable _ _ _ _ _ _ _ _ _ Hnext Hreach) as [_ Hp].
  rewrite Forall_forall in Hp. apply Hp in H1, H2. cbn in *. congruence.
Qed.

(** C21: retransmission requests.  [newReq] never fails; it makes a request
    exactly when [seq] is ahead of the next expected message and the last
    request is at least 10 ms old.  The request is one header that asks, in the
    client's session, for the messages from the next expected one on up to
    [seq], 65400 at most; [seqMax] becomes the largest number known to exist. *)
Theorem newReq_behaviour (c : client) seq tt
    (Hc : client_ok c) (Hseq : 0 <= seq <= max_u64) :
  ∃ r c', newReq c seq tt = Ret (r, c') ∧ seqNo c' = seqNo c ∧
    seqMax c' = (if decide (seqNo c < seq) then Z.max (seqMax c) seq else seqMax c) ∧
    (r = None ↔ seq <= seqNo c ∨ time_sub tt (reqLast c) < reqInterval) ∧
    reqLast c' = match r with Some _ => tt | None => reqLast c end ∧
    ∀ b, r = Some b → len b = headSize ∧ DecodeHead b zeroHeader =
      Ret (mkHeader (session c) (seqNo c) (Z.min nakWindow (seq - seqNo c)), None).
Proof.
  destruct Hc as (_ & Hn & Hses). rewrite newReq_eq. cbv zeta.
  zcase; [eexists _, _; split; [done|]|zcase; eexists _, _; (split; [done|])].
  - rewrite decide_False by lia. split_and!; [done..|by split; [left|]|done|done].
  - rewrite decide_True by lia. split_and!; [done..|by split; [right|]|done|done].
  - rewrite decide_True by lia. split; [done|]. split; [done|].
    split; [split; [done|lia]|]. split; [done|].
    intros b [= <-]. split; [apply len_head_bytes|].
    rewrite (u64_small (seq - seqNo c)) by (unfold max_u64 in *; lia).
    rewrite <- (app_nil_r (head_bytes _)). apply DecodeHead_head_bytes.
    split; [done|]. split; [done|]. cbn. unfold nakWindow. lia.
Qed.
End Safety.

(** ** Requests in a session *)

Section Requests.
Context {Conn Cache : Type} `{SeqCacheSpec Cache}.
Abbreviation client := (Client Conn Cache).
Implicit Types (c : client).

(** A request for messages of the session [start, fin). *)
Definition asks_within (start fin : Z) (b : list byte) : Prop :=
  ∃ h, DecodeHead b zeroHeader = Ret (h, None) ∧ len b = headSize ∧
    start <= SeqNo h ∧ SeqNo h + MessageCnt h <= fin ∧ 1 <= MessageCnt h <= nakWindow.

Lemma newReq_within start fin c seq tt b c' : client_ok c → start <= seqNo c → seq <= fin → fin < 2 ^ 63 →
  0 <= seq → newReq c seq tt = Ret (Some b, c') → asks_within start fin b.
Proof.
  intros (_ & Hn & Hses) Hs Hf Hf' Hpos E. rewrite newReq_eq in E. cbv zeta in E.
  destruct (seq <=? seqNo c) eqn:E1; [done|]. zbool.
  destruct (time_sub _ _ <? _); [done|]. injection E as <- _.
  rewrite u64_small by (unfold max_u64 in *; lia).
  eexists. split; [rewrite <- (app_nil_r (head_bytes _)); apply DecodeHead_head_bytes|].
  - split; [done|]. cbn. unfold nakWindow. split; [done|lia].
  - split; [apply len_head_bytes|]. cbn. unfold nakWindow. lia.
Qed.

Lemma request_sends c buff dial write o c' peer b : request c buff dial write = Ret (o, c') →
  o = Some (peer, b) → b = buff.
Proof. intros E ->. apply request_frame in E as (? & ? & ? & _ & _ & Ho & _). by apply (Ho peer b). Qed.

Section Session.
Context (stream : Z → Message) (start fin : Z) (Hs : 0 <= start <= fin) (Hf : fin < 2 ^ 63) (ovl : bool).
Abbreviation sinv := (inv stream start fin false ovl).

Lemma tick_within c out p r tt dial write peer b c' : sinv c out p r →
  requestLoop_tick c tt dial write = Ret (Some (peer, b), c') → asks_within start fin b.
Proof.
  intros Hinv. unfold requestLoop_tick. destruct (_ <? _); [|done]. intros E. inv_bind E.
  destruct a as [[b1|] c1]; [|done]. eapply request_sends in E; [|done]. subst b1.
  pose proof (inv_max _ _ _ _ _ _ _ _ _ Hinv). pose proof (inv_range _ _ _ _ _ _ _ _ _ Hinv).
  eapply (newReq_within start fin c (seqMax c)); [apply Hinv|lia..|done].
Qed.

Lemma doMsgBuf_within c out p r mb tt b e p' c' : sinv c out p r →
  faithful stream fin mb → doMsgBuf_result c mb tt (Some b) e p' c' → asks_within start fin b.
Proof.
  intros Hinv (Hwf & _ & Heos & Hhb) Hres.
  inversion Hres as [| | | |req c1 c2 Hd Ec1 Hc2]; subst.
  assert (mb_seqNo mb <= fin) as Hsq.
  { destruct (decide (mb_msgCnt mb = 0)); [by apply Hhb|]. rewrite Heos; [lia|].
    destruct (decide (mb_msgCnt mb = 65535)); [done|]. by destruct Hd. }
  set (c1 := if mb_msgCnt mb =? 0xffff then gotEndSession c mb else c) in *.
  assert (client_ok c1 ∧ seqNo c1 = seqNo c) as [Hok1 Hs1].
  { destruct (inv_ok _ _ _ _ _ _ _ _ _ Hinv) as (? & ? & ?). subst c1.
    destruct (mb_msgCnt mb =? 65535); [|by split_and!; try apply Hinv].
    by destruct (gotEndSession_frame c mb) as (? & ? & ? & ? & ? & ->). }
  pose proof (inv_range _ _ _ _ _ _ _ _ _ Hinv). destruct Hwf as (Hq & _).
  destruct (_ <? _); [|done]. destruct (newReq c1 (mb_seqNo mb) tt) as [[rq c3]| |] eqn:E; [|done..].
  injection Hc2 as <- _. by eapply (newReq_within start fin c1 (mb_seqNo mb)); [done|lia..|].
Qed.

Lemma msg_within c out p r tt now dial write peer b p' c' : sinv c out p r →
  requestLoop_publish c tt now dial write = Ret (Some (peer, b), p', c') → asks_within start fin b.
Proof.
  intros Hinv. unfold requestLoop_publish. destruct (ch c) as [|mb rest] eqn:Ech; [done|].
  intros E. pose proof (inv_chan _ _ _ _ _ _ _ _ _ Hinv) as Hch. rewrite Ech in Hch.
  apply Forall_cons in Hch as [Hmb Hrest].
  assert (sinv (c <| ch := rest |>) out p r) as Hinv' by (destruct Hinv; constructor; done).
  inv_bind E. destruct a as [[[req e] p1] c1]. apply doMsgBuf_returned in Hb; [|apply Hinv'|apply Hmb].
  destruct p1; [done|]. destruct e as [e|]; [done|]. destruct req as [b1|]; [|done]. inv_bind E. destruct a as [o c2].
  simplify_eq. eapply request_sends in Hb0; [|done]. subst b1. by eapply doMsgBuf_within in Hb.
Qed.
End Session.

(** C22: requests stay within the session.  Whatever arrives of a session, every
    request the client sends is one well-formed header asking for at least one
    and at most 65400 messages, all of them messages of the session that come
    after the ones it started from. *)
Theorem requests_in_session (stream : Z → Message) start fin nextSeq (cn : Conn) ip port srvs now ovl
    (s : sys Conn Cache) peer b
    (Hsession : 0 <= start <= fin) (Hfin : fin < 2 ^ 63)
    (Hstart : start = if nextSeq =? 0 then 1 else nextSeq)
    (Hreach : reachable (genuine stream fin) ovl (newClientState cn nextSeq ip port srvs now) s)
    (Hsent : (peer, b) ∈ sent s) : asks_within start fin b.
Proof.
  assert (sys_inv stream start fin false ovl s ∧ Forall (λ x, asks_within start fin x.2) (sent s)) as [_ HF];
    [|rewrite Forall_forall in HF; apply (HF _ Hsent)].
  clear Hsent. revert s Hreach. apply reachable_invariant.
  - split; [by apply inv_init|constructor].
  - intros l s1 s2 [Hinv HF] Hst. split; [by eapply inv_step|].
    destruct Hst as [|s tt t dial write o p c' _ _ _ E| |s tt dial write o c' _ E| | | |]; cbn [sent update]; try done.
    + apply Forall_app. split; [done|]. destruct o as [[q b']|]; constructor; [|done].
      by eapply msg_within.
    + apply Forall_app. split; [done|]. destruct o as [[q b']|]; constructor; [|done].
      by eapply tick_within.
Qed.
End Requests.

(** ** A stream without heartbeats *)

Section DataOnly.
Context {Conn Cache : Type} `{SeqCacheSpec Cache}.
Abbreviation client := (Client Conn Cache).
Implicit Types (c : client).

(** Every datagram that decodes carries messages: no heartbeat, no end of session. *)
Definition data_only c (b : list byte) : Prop :=
  ∀ h, DecodeHead b zeroHeader = Ret (h, None) → MessageCnt h ≠ 0 ∧ MessageCnt h ≠ 0xffff.

Definition quiet (s : sys Conn Cache) : Prop :=
  safe (cl s) ∧ seqMax (cl s) = 0 ∧ endSession (cl s) = false ∧ Forall is_data (ch (cl s)) ∧ sent s = [].

Lemma quiet_doMsgBuf c mb tt req e p c' : is_data mb → seqMax c = 0 → endSession c = false →
  doMsgBuf_result c mb tt req e p c' → req = None ∧ seqMax c' = 0 ∧ endSession c' = false.
Proof.
  intros Hd Hm He Hres.
  inversion Hres as [| | |l ms ? ? ? ? ? l' s1 Hrun|req' c1 c2 Hnd]; subst; try done.
  rewrite publish_eq. cbn. by rewrite He.
Qed.

Lemma quiet_msg c tt now dial write o p c' : safe c → seqMax c = 0 → endSession c = false →
  Forall is_data (ch c) → requestLoop_publish c tt now dial write = Ret (o, p, c') →
  o = None ∧ seqMax c' = 0 ∧ endSession c' = false ∧ Forall is_data (ch c').
Proof.
  intros (Hc & Hch & _) Hm He Hd. unfold requestLoop_publish. destruct (ch c) as [|mb rest] eqn:Ech.
  { intros [= <- <- <-]. by rewrite Ech. }
  apply Forall_cons in Hch as [Hmb _], Hd as [Hdm Hd'].
  intros E. inv_bind E. destruct a as [[[req e] p1] c1]. apply doMsgBuf_returned in Hb; [|done|done].
  pose proof Hb as Hq. eapply quiet_doMsgBuf in Hq as (-> & Hm1 & He1); [|done..].
  eapply doMsgBuf_ok in Hb as (_ & E1 & _); [|exact Hc|exact Hmb]. cbn in E1. rewrite <- E1 in Hd'.
  destruct p1; [by simplify_eq|]. destruct e; injection E as <- <- <-; [|done]. by destruct (_ <? _).
Qed.

Lemma quiet_step ovl l s s' : quiet s → step data_only ovl l s s' → quiet s'.
Proof.
  intros (Hs & Hm & He & Hd & Hsent) Hst.
  assert (safe (cl s')) as Hs'.
  { eapply (safe_step data_only ovl l s s'); [|done]. split; [done|]. by rewrite Hsent. }
  split; [exact Hs'|]. clear Hs'.
  destruct Hst as [s buff n ra now c' Hroom Hn Hsm Hal E|s tt now dial write o p c' _ _ Hne E
    |s res _|s tt dial write o c' _ E|s res seq c' _ _ E|s res seq r c' _ E|s _ _|s now];
    cbn [cl sent update].
  - destruct (onPacket_spec (cl s) buff n ra now Hs Hn Hsm) as (c1 & E1 & _ & _ & Em & Ee & _ & Hor).
    rewrite E1 in E. simplify_eq. rewrite Em, Ee. split_and!; try done.
    destruct Hor as [->|(h & Hh & ->)]; [done|]. apply Forall_app. split; [done|].
    apply Forall_singleton. by apply Hal in Hh.
  - destruct (quiet_msg _ _ _ _ _ _ _ _ Hs Hm He Hd E) as (-> & ? & ? & ?). by rewrite Hsent.
  - by destruct (append_frame (cl s) res) as (a & ->).
  - unfold requestLoop_tick in E. destruct Hs as ((_ & Hr & _) & _).
    rewrite (proj2 (Z.ltb_ge (seqNo (cl s)) (seqMax (cl s)))) in E by lia.
    injection E as <- <-. by rewrite Hsent.
  - by injection E as _ _ <-.
  - by destruct (Read_test_frame _ _ _ _ _ E) as (b & ->).
  - done.
  - done.
Qed.

(** C23: without heartbeats there is no recovery.  If the datagrams that arrive
    all carry messages, then whatever is lost or reordered among them, however
    long the client runs and however often its ticker fires, it sends no
    retransmission request at all. *)
Theorem data_never_requests (cn : Conn) nextSeq ip port srvs now ovl (s : sys Conn Cache)
    (Hnext : 0 <= nextSeq <= max_u64)
    (Hreach : reachable data_only ovl (newClientState cn nextSeq ip port srvs now) s) :
  sent s = [] ∧ seqMax (cl s) = 0.
Proof.
  assert (quiet s) as (_ & ? & _ & _ & ?); [|done].
  revert s Hreach. apply reachable_invariant.
  - split; [by apply safe_init|]. by repeat (split; [done|]).
  - intros l s1 s2. apply quiet_step.
Qed.
End DataOnly.

(** ** A sender that uses the encoder *)

Section Sender.
Context (stream : Z → Message) (fin : Z).

(** The datagrams of a session [sess]: [Marshal] packs messages of the session,
    as many as fit, under a header by [EncodeHead] with the number of the first
    and the count [Marshal] returned; heartbeats, ends of session. *)
Inductive sends (sess : gostring) : list byte → Prop :=
| sends_data s msgs room k n hbuf pbuf :
    0 <= s → s + Z.of_nat k <= fin → Z.of_nat k < 0xffff → (0 < k)%nat →
    msgs = segment stream s (len msgs) → len room < 65536 →
    Marshal room msgs = Ret (pbuf, Z.of_nat k, n) →
    EncodeHead (replicate 20 x00) (mkHeader sess s (Z.of_nat k)) = Ret (hbuf, None) →
    sends sess (hbuf ++ take (Z.to_nat n) pbuf)
| sends_heartbeat s hbuf :
    0 <= s <= fin → EncodeHead (replicate 20 x00) (mkHeader sess s 0) = Ret (hbuf, None) →
    sends sess hbuf
| sends_end hbuf :
    EncodeHead (replicate 20 x00) (mkHeader sess fin 0xffff) = Ret (hbuf, None) →
    sends sess hbuf.

Lemma EncodeHead_fresh h buf : EncodeHead (replicate 20 x00) h = Ret (buf, None) → buf = head_bytes h.
Proof.
  rewrite EncodeHead_spec by (vm_compute; congruence). intros [= <-].
  change (drop 20 (replicate 20 x00)) with (@nil byte). apply app_nil_r.
Qed.

Context (Hwf : ∀ s, wf_message (stream s)).

Lemma Marshal_segment room s msgs pbuf k n : msgs = segment stream s (len msgs) →
  Marshal room msgs = Ret (pbuf, Z.of_nat k, n) →
  take (Z.to_nat n) pbuf = wire (segment stream s (Z.of_nat k)) ∧
  len (take (Z.to_nat n) pbuf) <= len room.
Proof.
  intros Hseg E. rewrite Marshal_spec in E. injection E as <- Hk <-.
  apply Nat2Z.inj in Hk. pose proof (fits_wire (len room) msgs (len_nonneg _)) as Hfw.
  pose proof (fits_le (len room) msgs) as Hle. rewrite Hk in *.
  set (w := wire (take k msgs)) in *.
  replace (Z.to_nat (len w)) with (length w) by (unfold len; lia). rewrite take_app_length.
  split; [|done]. unfold w. f_equal. rewrite Hseg at 1.
  assert (len msgs = Z.of_nat k + (len msgs - Z.of_nat k)) as -> by lia.
  rewrite segment_app by (unfold len; lia). apply take_app_length'.
  pose proof (len_segment stream s (Z.of_nat k)) as Hls. unfold len in Hls. lia.
Qed.

Lemma segment_wf s n : Forall wf_message (segment stream s n).
Proof. apply Forall_forall. intros m Hm. apply list_elem_of_In, in_map_iff in Hm as (z & <- & _). apply Hwf. Qed.

Context (Hfin : 0 <= fin < 2 ^ 63).

(** The packet of a datagram of the sender is a packet of the session. *)
Lemma packet_faithful sess s k payload : wf_session sess → 0 <= s <= fin → 0 <= k < 65536 →
  (k ≠ 0 → k ≠ 0xffff → s + k <= fin ∧ payload = wire (segment stream s k) ∧ len payload < 65536) →
  (k = 0xffff → s = fin) →
  faithful stream fin (packet_of (mkHeader sess s k) payload).
Proof.
  intros Hses Hs Hk Hdata Heos. unfold packet_of. cbn [MessageCnt Codec.SeqNo].
  split; [|split; [|split]]; cbn [mb_seqNo mb_msgCnt mb_dataBuf].
  - split; [unfold max_u64; cbn; lia|]. split; [done|]. case_decide as Hd; cbn [mb_dataBuf].
    + destruct (Hdata ltac:(tauto) ltac:(tauto)) as (_ & _ & ?). lia.
    + change (len (@nil byte)) with 0. lia.
  - intros [Hd0 Hd1]. cbn in Hd0, Hd1. destruct (Hdata Hd0 Hd1) as (Hle & Hp & Hl).
    split; [done|]. rewrite decide_True by done. intros l Hun.
    assert (len (segment stream s k) = k) as Hlen by (apply len_segment; lia).
    rewrite Hp in Hun. rewrite <- Hlen in Hun at 2.
    rewrite Unmarshal_wire_exact in Hun; [by simplify_eq|apply segment_wf|lia|].
    rewrite <- Hp. unfold go_fuel. lia.
  - done.
  - lia.
Qed.

Lemma sends_genuine {Conn Cache} (c : Client Conn Cache) sess b :
  wf_session sess → sends sess b → genuine stream fin c b.
Proof.
  intros Hses Hsend h Hh _.
  assert (∃ s k payload, b = head_bytes (mkHeader sess s k) ++ payload ∧ 0 <= s <= fin ∧ 0 <= k < 65536 ∧
    (k ≠ 0 → k ≠ 0xffff → s + k <= fin ∧ payload = wire (segment stream s k) ∧ len payload < 65536) ∧
    (k = 0xffff → s = fin)) as (s & k & payload & -> & Hs & Hk & Hdata & Heos).
  { destruct Hsend as [s msgs room k n hbuf pbuf Hs Hle Hk Hk0 Hseg Hroom Hm He|s hbuf Hs He|hbuf He];
      apply EncodeHead_fresh in He as ->.
    - destruct (Marshal_segment _ _ _ _ _ _ Hseg Hm) as [Hw Hl].
      eexists s, (Z.of_nat k), _. split; [done|]. split_and!; try lia. intros _ _. by split_and!; [lia| |lia].
    - exists s, 0, []. rewrite app_nil_r. split; [done|]. split_and!; lia.
    - exists fin, 0xffff, []. rewrite app_nil_r. split; [done|]. split_and!; lia. }
  rewrite DecodeHead_head_bytes in Hh by (split; [done|]; unfold max_u64; cbn; lia).
  injection Hh as <-. rewrite drop_app_length' by (by rewrite length_head_bytes).
  by apply packet_faithful.
Qed.
End Sender.


(** ** Witnesses *)

#[local] Existing Instance ex_memory.

(** A heartbeat that announces the messages before number 3, and what the
    worker does with it. *)
Definition ex_heartbeat : list byte := head_bytes (mkHeader ex_sess 3 0).
Definition ex_h1 : Client unit msgCache :=
  ret_or ex_client0 (onPacket ex_client0 ex_heartbeat 20 ex_addr 100).
Definition ex_h2 : option (UDPAddr * list byte) * Client unit msgCache :=
  ret_or (None, ex_client0) (requestLoop_msg ex_h1 1000000000000 101 None None).
Definition ex_peer : UDPAddr := mkUDPAddr [x0a; x00; x00; x01] 5859.
Definition ex_req : list byte := head_bytes (mkHeader ex_sess 1 2).

Lemma ex_reachable_h (allowed : Client unit msgCache → list byte → Prop) ovl :
  allowed ex_client0 ex_heartbeat →
  reachable allowed ovl ex_client0 (mkSys ex_h2.2 [] [(ex_peer, ex_req)]).
Proof.
  intros Hall. apply (ex_msg_step _ _ ex_h1 (Some (ex_peer, ex_req))); [vm_compute; congruence..|vm_compute; reflexivity|].
  apply (ex_packet_step _ _ ex_client0 _ ex_heartbeat 20); [vm_compute; intuition congruence..|done|vm_compute; reflexivity|].
  apply reach_init.
Qed.

Lemma ex_genuine_heartbeat : genuine ex_stream 3 ex_client0 ex_heartbeat.
Proof.
  intros h Hh _. vm_compute in Hh. injection Hh as <-.
  split; [vm_compute; intuition congruence|].
  split; [intros [Hd _]; by destruct Hd|split; [done|vm_compute; congruence]].
Qed.

Lemma ex_client0_ok : client_ok ex_client0.
Proof. apply (safe_init tt 0 [] 5858 [] 100). vm_compute. intuition congruence. Qed.

Definition ex_hs : sys unit msgCache := mkSys ex_h2.2 [] [(ex_peer, ex_req)].

(** A datagram of 23 octets with the sequence number 2^40 is in the channel: the
    worker dies of it. *)
Definition ex_far : list byte := head_bytes (mkHeader ex_sess (2 ^ 40) 1) ++ wire [ex_stream 1].
Definition ex_f1 : Client unit msgCache :=
  ret_or ex_client0 (onPacket ex_client0 ex_far 23 ex_addr 100).


(** Two servers are configured; a heartbeat causes one request and the ticker,
    10 ms later, another.  The round robin is back at the first server then, but
    both have gone to it. *)
Definition ex_srvs : list UDPAddr := [mkUDPAddr [x0a; x00; x00; x02] 7000; mkUDPAddr [x0a; x00; x00; x03] 7001].
Definition ex_s0 : Client unit msgCache := newClientState tt 0 [] 5858 ex_srvs 100.
Definition ex_s1 : Client unit msgCache := ret_or ex_s0 (onPacket ex_s0 ex_heartbeat 20 ex_addr 100).
Definition ex_s2 : option (UDPAddr * list byte) * Client unit msgCache :=
  ret_or (None, ex_s0) (requestLoop_msg ex_s1 1000000000000 101 None None).
(** Message 1 comes in before the ticker fires. *)
Definition ex_s3 : Client unit msgCache := ret_or ex_s0 (onPacket ex_s2.2 (ex_dgram 1) 23 ex_addr 100).
Definition ex_s4 : Client unit msgCache := (ret_or (None, ex_s0) (requestLoop_msg ex_s3 1000000000000 101 None None)).2.
Definition ex_s5 : option (UDPAddr * list byte) * Client unit msgCache :=
  ret_or (None, ex_s0) (requestLoop_tick ex_s4 1000010000000 None None).
Definition ex_srv_sent : list (UDPAddr * list byte) := sent_add ex_s5.1 (sent_add ex_s2.1 []).

Lemma ex_reachable_s : reachable anything true ex_s0 (mkSys ex_s5.2 [] ex_srv_sent).
Proof.
  apply (reach_tick _ _ _ ex_s4 [] (sent_add ex_s2.1 []) 1000010000000 None None ex_s5.1); [|vm_compute; reflexivity].
  apply (reach_msg _ _ _ ex_s3 [] (sent_add ex_s2.1 []) 1000000000000 101 None None None); [|vm_compute; congruence|vm_compute; reflexivity].
  apply (reach_packet _ _ _ ex_s2.2 [] (sent_add ex_s2.1 []) (ex_dgram 1) 23 ex_addr 100);
    [|vm_compute; intuition congruence..|done|vm_compute; reflexivity].
  apply (reach_msg _ _ _ ex_s1 [] [] 1000000000000 101 None None ex_s2.1); [|vm_compute; congruence|vm_compute; reflexivity].
  apply (reach_packet _ _ _ ex_s0 [] [] ex_heartbeat 20 ex_addr 100);
    [apply reach_init|vm_compute; intuition congruence..|done|vm_compute; reflexivity].
Qed.

Lemma requests_single_peer_witness : ∃ p1 b1 p2 b2,
  ex_srv_sent = [(p1, b1); (p2, b2)] ∧ b1 ≠ b2 ∧ robinN ex_s5.2 = 0 ∧ len (reqSrv ex_s5.2) = 2 ∧ p1 = p2.
Proof.
  destruct ex_srv_sent as [|[p1 b1] [|[p2 b2] [|]]] eqn:E; try (vm_compute in E; discriminate).
  exists p1, b1, p2, b2. split; [reflexivity|].
  assert ((p1, b1) ∈ ex_srv_sent ∧ (p2, b2) ∈ ex_srv_sent) as [Hin1 Hin2].
  { rewrite E. split; [apply list_elem_of_here|apply list_elem_of_further, list_elem_of_here]. }
  split; [vm_compute in E; injection E as _ <- _ <-; vm_compute; congruence|].
  split; [vm_compute; reflexivity|]. split; [vm_compute; reflexivity|].
  apply (requests_single_peer tt 0 [] 5858 ex_srvs 100 true (mkSys ex_s5.2 [] ex_srv_sent) p1 b1 p2 b2);
    [vm_compute; intuition congruence|exact ex_reachable_s|exact Hin1|exact Hin2].
Defined.

Lemma requests_in_session_witness : asks_within 1 3 ex_req.
Proof.
  apply (requests_in_session ex_stream 1 3 0 tt [] 5858 [] 100 true
           (mkSys ex_h2.2 [] [(ex_peer, ex_req)]) ex_peer);
    [lia|lia|reflexivity|apply ex_reachable_h, ex_genuine_heartbeat|by apply list_elem_of_here].
Defined.

Lemma newReq_behaviour_witness :
  ∃ r c', newReq ex_client0 5 1000000000000 = Ret (r, c') ∧ seqMax c' = 5.
Proof.
  destruct (newReq_behaviour ex_client0 5 1000000000000) as (r & c' & E & _ & Hm & _);
    [exact ex_client0_ok|vm_compute; intuition congruence|exists r, c'; split; [exact E|exact Hm]].
Defined.

Lemma data_never_requests_witness :
  sent (mkSys ex_c1 [] []) = [] ∧ seqMax ex_c1 = 0.
Proof.
  apply (data_never_requests tt 0 [] 5858 [] 100 true (mkSys ex_c1 [] [])); [vm_compute; intuition congruence|].
  apply (ex_packet_step _ _ ex_client0 _ (ex_dgram 2) 23);
    [vm_compute; intuition congruence..| |vm_compute; reflexivity|apply reach_init].
  intros h Hh. vm_compute in Hh. injection Hh as <-. vm_compute. intuition congruence.
Defined.

Lemma ex_sends_data s : s = 1 ∨ s = 2 → sends ex_stream 3 ex_sess (ex_dgram s).
Proof.
  intros Hs. apply (sends_data ex_stream 3 ex_sess s [ex_stream s] (replicate 3 x00) 1 3
    (head_bytes (mkHeader ex_sess s 1)) (wire [ex_stream s]));
    destruct Hs as [-> | ->]; vm_compute; reflexivity || (try congruence; lia).
Qed.

