(* ===== verification/Recovery.v ===== *)
(** * Recovery of lost messages (src/client.go)

    The client against a server of retransmissions: a heartbeat announces how
    far the session has got, the ticker asks for what is missing, the server
    answers with packets.  However much was lost before, and however little of a
    request each answer covers, the client gets to the number announced. *)

From Stdlib Require Import Strings.Byte.
From S2P Require Import Prelude.
From S2P Require Import GoBytes.
From S2P Require Import NetAddr.
From S2P Require Import Codec.
From S2P Require Import MsgCache.
From S2P Require Import Client.
From S2P Require Import ClientLemmas.
From S2P Require Import Delivery.
From S2P Require Import DeliveryProps.
From S2P Require Import RequestProps.

(** ** Rounds of request and answer *)

Section Rounds.
Context {Conn Cache : Type} `{SeqCache Cache}.
Abbreviation client := (Client Conn Cache).
(** The server's answers, the address they come from, the time in seconds. *)
Context (answer : list byte → list (list byte)) (rAddr : UDPAddr) (now : Z).

(** A datagram is received and processed; requests are sent without errors. *)
Definition take_in (c : client) (d : list byte) (tt : Z) : outcome client :=
  c ← onPacket c d (len d) rAddr now;
  '(_, c) ← requestLoop_msg c tt now None None;
  Ret c.

Fixpoint take_all (c : client) (ds : list (list byte)) (tt : Z) : outcome client :=
  match ds with
  | [] => Ret c
  | d :: ds => c ← take_in c d tt; take_all c ds tt
  end.

(** The ticker fires, and the answer to the request, if one is sent, comes in. *)
Definition round (c : client) (tt : Z) : outcome client :=
  '(o, c) ← requestLoop_tick c tt None None;
  match o with
  | Some (_, req) => take_all c (answer req) tt
  | None => Ret c
  end.

Fixpoint rounds (c : client) (tts : list Z) : outcome client :=
  match tts with
  | [] => Ret c
  | t :: tts => c ← round c t; rounds c tts
  end.

(** Times at least as far apart as requests have to be. *)
Fixpoint spaced (last : Z) (tts : list Z) : Prop :=
  match tts with
  | [] => True
  | t :: tts => reqInterval <= time_sub t last ∧ spaced t tts
  end.
End Rounds.

Section Recovery.
Context {Conn Cache : Type} `{SeqCacheSpec Cache}.
Abbreviation client := (Client Conn Cache).
Context (stream : Z → Message) (sess : gostring) (start fin : Z).
Context (Hsession : 0 <= start <= fin) (Hfin : fin < 2 ^ 63).
Context (Hsess : wf_session sess) (Hmsgs : ∀ z, wf_message (stream z)).
(** The cache has room for the session; the application may be in a [Read]. *)
Context (Hcap : fin <= sc_cap) (r : option (option (list Message) * Z)).
Implicit Types (c : client).

(** A datagram with the messages [q] to [q + k - 1] of the session. *)
Record data_dgram (q k : Z) (d : list byte) : Prop := {
  dd_bytes : d = head_bytes (mkHeader sess q k) ++ wire (segment stream q k);
  dd_range : 0 <= q ∧ 0 < k < maxMessages ∧ q + k <= fin;
  dd_len : len d < 65536
}.

(** A server of retransmissions: it answers a request for messages of the
    session with packets of the session, one of which holds the first message
    asked for. *)
Definition server_ok (answer : list byte → list (list byte)) : Prop :=
  ∀ req s n, DecodeHead req zeroHeader = Ret (mkHeader sess s n, None) → 0 < n → s < fin →
    Forall (λ d, ∃ q k, data_dgram q k d) (answer req) ∧
    ∃ d q k, d ∈ answer req ∧ data_dgram q k d ∧ q <= s < q + k.

(** The state between rounds: [q] was announced, the channel is empty, there is
    a server to ask. *)
Record waiting (q : Z) (out : list Message) c : Prop := {
  wt_inv : inv stream start fin false true c out None r;
  wt_safe : safe c;
  wt_ch : ch c = [];
  wt_session : session c = sess;
  wt_srv : 0 < len (reqSrv c);
  wt_max : q <= seqMax c
}.

(** ** Receiving *)

(** A datagram with a good header of the session is queued; its sender becomes
    the server to ask when none is known. *)
Lemma onPacket_queues c rAddr now h payload : safe c → wf_header h → ch c = [] →
  accepts c h payload → Session h = sess → len (head_bytes h ++ payload) < 65536 →
  ∃ c', onPacket c (head_bytes h ++ payload) (len (head_bytes h ++ payload)) rAddr now = Ret c' ∧
    ch c' = [packet_of h payload] ∧ session c' = sess ∧ 0 < len (reqSrv c') ∧
    seqNo c' = seqNo c ∧ seqMax c' = seqMax c ∧ reqLast c' = reqLast c ∧
    cache c' = cache c ∧ ready c' = ready c.
Proof.
  intros Hs Hh Hch Hacc Hses Hlen. set (d := head_bytes h ++ payload) in *. unfold onPacket.
  assert (take (Z.to_nat (len d)) d = d) as Hd by (apply take_ge; unfold len; lia).
  assert (drop 20 d = payload) as Hdr by (apply drop_app_length'; by rewrite length_head_bytes).
  destruct (gotBuff_spec c d (len d) now) as (e & c1 & -> & Hf & _ & Hcase);
    [pose proof (len_nonneg d); lia|apply Hs|]. cbn [mbind outcome_mbind].
  rewrite Hd, Hdr in Hcase. unfold d in Hcase. rewrite DecodeHead_head_bytes in Hcase by done.
  destruct Hcase as [(_ & _ & Hno)|(-> & h' & [= <-] & _ & _ & Hs1 & Hc1)]; [by destruct (Hno h eq_refl)|].
  rewrite Hch in Hc1. cbn in Hc1. pose proof (len_nonneg (reqSrv c1)).
  destruct Hf as [Hk Hn Hrd Hm _ _ _ _ _ _ Hr _ _ _].
  zcase; (eexists; split; [done|]); cbn [ch session reqSrv seqNo seqMax reqLast cache ready update]; rewrite Hs1, ?len_app, Hc1.
  - change (len [_]) with 1. split_and!; (done || lia).
  - split_and!; (done || lia).
Qed.

(** ** Processing *)

(** A data packet makes no request; it never takes the client back. *)
Lemma data_processed c out mb tt now : inv stream start fin false true c out None r → ch c = [mb] →
  is_data mb → mb_dataBuf mb = wire (segment stream (mb_seqNo mb) (mb_msgCnt mb)) →
  ∃ c', requestLoop_msg c tt now None None = Ret (None, c') ∧ ch c' = [] ∧ session c' = session c ∧
    reqSrv c' = reqSrv c ∧ reqLast c' = reqLast c ∧ seqMax c <= seqMax c' ∧ seqNo c <= seqNo c' ∧
    (mb_seqNo mb <= seqNo c → mb_seqNo mb + mb_msgCnt mb <= seqNo c').
Proof.
  intros Hinv Hch Hd Hpay. pose proof (inv_chan _ _ _ _ _ _ _ _ _ Hinv) as Hfa. rewrite Hch in Hfa.
  apply Forall_cons in Hfa as [Hmb _]. unfold requestLoop_msg. rewrite Hch.
  assert (inv stream start fin false true (c <| ch := [] |>) out None r) as Hinv0 by (destruct Hinv; by constructor).
  pose proof (segment_wf stream Hmsgs (mb_seqNo mb) (mb_msgCnt mb)) as Hwf.
  destruct (data_read stream start fin false true _ _ _ _ _ tt Hinv0 Hmb Hd Hpay Hwf (or_intror Hcap)) as (_ & p & c1 & Hdo & Hres).
  assert (doMsgBuf (c <| ch := [] |>) mb tt = Ret (None, None, append_pending c1 p)) as Hdo' by (unfold doMsgBuf; by rewrite Hdo).
  rewrite Hdo'. cbn [mbind outcome_mbind]. eexists. split; [done|].
  assert (∃ a, append_pending c1 p = c1 <| ready := a |>) as (a & Ha).
  { destruct p as [res|]; [apply append_frame|]. exists (ready c1). by destruct c1. }
  destruct (doMsgBuf_ok _ _ _ _ _ _ _ (inv_ok _ _ _ _ _ _ _ _ _ Hinv0) ltac:(apply Hmb) Hres) as (_ & Hc & Hsv & _ & _ & Hse).
  assert (mb_seqNo mb <= seqNo c <= mb_seqNo mb + mb_msgCnt mb → mb_seqNo mb + mb_msgCnt mb <= seqNo c1) as Hcov.
  { intros Hin. destruct (inv_taken stream start fin Hsession Hfin false true _ _ _ _ _ tt Hinv0 Hmb Hd Hpay Hwf Hin)
      as (c2 & E & Hle & _). rewrite Hdo' in E. injection E as <-. by rewrite Ha in Hle. }
  rewrite !Ha. clear Ha Hdo Hdo'. cbn [ch session reqSrv reqLast seqMax seqNo update].
  split; [done|]. split; [done|]. split; [done|].
  destruct Hmb as ((Hq & Hk & _) & Hle & _). destruct (Hle Hd) as [Hle' _].
  inversion Hres as [|l ? ? ? Hlt|l k n ? ? ? Hlt|l ms ? E ? Hl1 Hl2 l' s1 Hrun'|? ? ? Hnd]; subst;
    [| |cbn in Hl1, Hl2; specialize (Hcov (conj Hl1 Hl2)); revert Hcov; rewrite publish_eq|by destruct (Hnd Hd)].
  - cbn in *. rewrite u64_small in Hlt by (unfold max_u64; lia). split_and!; (done || lia).
  - cbn in *. split_and!; (done || lia).
  - cbn -[Z.leb Z.ltb]. intros Hcov. pose proof (inv_max _ _ _ _ _ _ _ _ _ Hinv).
    destruct (endSession c) eqn:Ee; cbn [andb]; split_and!; try (done || lia).
    rewrite (inv_end _ _ _ _ _ _ _ _ _ Hinv Ee).
    destruct ((seqMax c <=? _) && _); lia.
Qed.

(** A data datagram, received and processed. *)
Lemma data_taken_in q out c rAddr now tt q' k d : waiting q out c → data_dgram q' k d →
  ∃ c', take_in rAddr now c d tt = Ret c' ∧ waiting q out c' ∧ reqLast c' = reqLast c ∧
    seqNo c <= seqNo c' ∧ (q' <= seqNo c → q' + k <= seqNo c').
Proof.
  intros [Hinv Hs Hch Hses Hsrv Hmax] [Hd (Hq & Hk & Hle) Hlen]. unfold maxMessages in Hk.
  set (h := mkHeader sess q' k). set (payload := wire (segment stream q' k)).
  change (d = head_bytes h ++ payload) in Hd.
  assert (wf_header h) as Hwh by (split; [done|]; unfold max_u64; cbn; lia).
  assert (payload ≠ []) as Hne.
  { intros E. apply (f_equal len) in E. unfold payload in E. pose proof (len_segment stream q' k ltac:(lia)) as Hl.
    destruct (segment stream q' k) as [|m ms]; [rewrite len_nil in Hl; lia|].
    rewrite wire_cons in E. revert E. autorewrite with golen. pose proof (len_nonneg (Data m)).
    pose proof (len_nonneg (wire ms)). change (len (@nil byte)) with 0. lia. }
  assert (packet_of h payload = mkMsgBuf q' k payload) as Hpk by (unfold packet_of; rewrite decide_True; cbn; [done|lia]).
  destruct (onPacket_queues c rAddr now h payload) as (c1 & Hon & Hc1 & Hs1 & Hr1 & Hn1 & Hm1 & Hl1 & _);
    [done|done|done| |done|by rewrite <- Hd|].
  { split; [right; cbn; unfold maxMessages; lia|]. split; [by right|by right; right]. }
  assert (take (Z.to_nat (len d)) d = d) as Htk by (apply take_ge; unfold len; lia).
  unfold take_in. rewrite Hd, Hon. cbn [mbind outcome_mbind].
  assert (inv stream start fin false true c1 out None r) as Hinv1.
  { eapply (inv_packet stream start fin false true c out None r d (len d)); [done|pose proof (len_nonneg d); lia|done| |by rewrite Hd].
    rewrite Htk, Hd. intros h' Hh' _. rewrite DecodeHead_head_bytes in Hh' by done. injection Hh' as <-.
    rewrite drop_app_length' by (by rewrite length_head_bytes).
    apply packet_faithful; [done|lia|done|lia|lia| |cbn; lia]. intros _ _. split; [lia|]. split; [done|].
    rewrite Hd, len_app in Hlen. pose proof (len_nonneg (head_bytes h)). lia. }
  assert (safe c1) as Hsafe1.
  { destruct (onPacket_spec c d (len d) rAddr now Hs) as (c2 & E & Hs2 & _); [pose proof (len_nonneg d); lia|done|].
    rewrite Hd, Hon in E. by injection E as <-. }
  rewrite Hpk in Hc1.
  destruct (data_processed c1 out _ tt now Hinv1 Hc1) as (c2 & Hm & Hc2 & Hs2 & Hr2 & Hl2 & Hm2 & Hn2 & Hcov);
    [split; cbn; lia|done|]. rewrite Hm. cbn [mbind outcome_mbind]. exists c2. split; [done|].
  cbn [mb_seqNo mb_msgCnt] in Hcov. split; [|by rewrite Hl2; split_and!; [done|lia|intros; lia]].
  pose proof (safe_msg _ _ _ _ _ _ _ Hsafe1 Hm) as Hs3.
  constructor; [by eapply inv_msg|done|done|congruence|by rewrite Hr2|lia].
Qed.

(** The datagrams of an answer: the client does not go back, and gets past the
    message that one of them holds. *)
Lemma answer_taken q out rAddr now tt ds c : waiting q out c → Forall (λ d, ∃ q k, data_dgram q k d) ds →
  ∃ c', take_all rAddr now c ds tt = Ret c' ∧ waiting q out c' ∧ reqLast c' = reqLast c ∧ seqNo c <= seqNo c' ∧
    ∀ d q' k, d ∈ ds → data_dgram q' k d → q' <= seqNo c < q' + k → seqNo c < seqNo c'.
Proof.
  intros Hw Hds. revert c Hw. induction Hds as [|d ds (q1 & k1 & Hd) _ IH]; intros c Hw; cbn [take_all].
  { exists c. split_and!; [done..|lia|]. intros d q' k Hd. by apply not_elem_of_nil in Hd. }
  destruct (data_taken_in q out c rAddr now tt q1 k1 d Hw Hd) as (c1 & E1 & Hw1 & Hl1 & Hn1 & Hc1).
  rewrite E1. cbn [mbind outcome_mbind]. destruct (IH c1 Hw1) as (c2 & -> & Hw2 & Hl2 & Hn2 & Hc2).
  exists c2. split_and!; [done|done|congruence|lia|].
  intros d' q' k Hin Hd' Hcov. apply elem_of_cons in Hin as [->|Hin].
  - destruct (data_taken_in q out c rAddr now tt q' k d Hw Hd') as (c1' & E & _ & _ & _ & Hc1').
    rewrite E1 in E. injection E as <-. lia.
  - destruct (decide (seqNo c1 = seqNo c)) as [E|]; [|lia]. rewrite <- E. apply (Hc2 d' q' k); [done|done|]. by rewrite E.
Qed.

Lemma request_succeeds c buff : robin_ok c → 0 < len (reqSrv c) →
  ∃ peer c', request c buff None None = Ret (Some (peer, buff), c').
Proof.
  intros [H1 H2] Hlen. destruct (request_returns c buff None None) as [[o c'] E]; [done|].
  rewrite E. unfold request in E. rewrite (proj2 (Z.eqb_neq (len (reqSrv c)) 0)) in E by lia.
  inv_bind E. clear Hb. inv_bind E. destruct a0 as [peer|].
  - injection E as <- <-. by eexists _, _.
  - exfalso. destruct (connReq _); [done|]. by inv_bind Hb.
Qed.

(** The ticker asks, from the next expected message on, exactly when something
    announced is missing and the last request is old enough. *)
Lemma tick_waiting q out c tt : waiting q out c →
  ∃ o c', requestLoop_tick c tt None None = Ret (o, c') ∧ waiting q out c' ∧ seqNo c' = seqNo c ∧
    match o with
    | Some (_, req) => reqLast c' = tt ∧ seqNo c < fin ∧
        ∃ n, DecodeHead req zeroHeader = Ret (mkHeader sess (seqNo c) n, None) ∧ 0 < n
    | None => seqMax c <= seqNo c ∨ time_sub tt (reqLast c) < reqInterval
    end.
Proof.
  intros Hw. pose proof Hw as [Hinv Hs Hch Hses Hsrv Hmax].
  pose proof (inv_max _ _ _ _ _ _ _ _ _ Hinv) as Hm. pose proof (inv_range _ _ _ _ _ _ _ _ _ Hinv) as Hr.
  destruct (safe_tick c tt None None Hs) as (o & c' & E & Hs' & _). exists o, c'. split; [done|].
  assert (inv stream start fin false true c' out None r) as Hinv' by (by eapply inv_tick).
  unfold requestLoop_tick in E. destruct (seqNo c <? seqMax c) eqn:El; zbool; [|injection E as <- <-; by auto].
  rewrite newReq_eq in E. cbv zeta in E. rewrite (proj2 (Z.leb_gt (seqMax c) (seqNo c))), Z.max_id in E by lia.
  destruct (time_sub tt (reqLast c) <? reqInterval) eqn:Et; zbool; cbn [mbind outcome_mbind] in E.
  { injection E as <- <-. split; [by constructor|]. auto. }
  match type of E with request ?c1 ?b _ _ = _ =>
    destruct (request_succeeds c1 b (proj2 (proj2 Hs)) Hsrv) as (peer & c2 & E2) end.
  rewrite E in E2. injection E2 as -> <-.
  destruct (request_frame _ _ _ _ _ _ E) as (n & p & rb & -> & _).
  split; [by constructor|]. split; [done|]. split; [done|]. split; [lia|].
  rewrite u64_small by (unfold max_u64; lia). rewrite Hses. eexists. split.
  - rewrite <- (app_nil_r (head_bytes _)). apply DecodeHead_head_bytes. split; [done|].
    unfold max_u64, nakWindow. cbn. lia.
  - unfold nakWindow. lia.
Qed.

(** The packet of a heartbeat that announces [q]: whatever becomes of the request
    it may cause, [q] is kept. *)
Lemma heartbeat_processed q c tt now o c' : ch c = [mkMsgBuf q 0 []] → seqNo c < q →
  requestLoop_msg c tt now None None = Ret (o, c') →
  ch c' = [] ∧ session c' = session c ∧ reqSrv c' = reqSrv c ∧ seqNo c' = seqNo c ∧ q <= seqMax c'.
Proof.
  intros Hch Hq. unfold requestLoop_msg. rewrite Hch. unfold doMsgBuf, doMsgBuf_publish.
  cbn [mb_dataBuf mb_msgCnt mb_seqNo]. change (len (@nil byte)) with 0.
  cbn [Z.ltb Z.compare Z.eqb negb andb mbind outcome_mbind seqNo update].
  rewrite (proj2 (Z.ltb_lt (seqNo c) q)), newReq_eq by lia. cbv zeta. cbn [seqNo update].
  rewrite (proj2 (Z.leb_gt q (seqNo c))) by lia.
  destruct (_ <? reqInterval); cbn [mbind outcome_mbind]; intros E.
  - injection E as <- <-. split_and!; try done. apply Z.le_max_r.
  - destruct (request_frame _ _ _ _ _ _ E) as (n & p & rb & -> & _). split_and!; try done. apply Z.le_max_r.
Qed.

(** A heartbeat, received and processed: the session and a server to ask are
    known. *)
Lemma heartbeat_taken_in q out c rAddr now tt : inv stream start fin false true c out None r → safe c →
  ch c = [] → session c = [] ∨ session c = sess → seqNo c < q <= fin →
  ∃ c', take_in rAddr now c (head_bytes (mkHeader sess q 0)) tt = Ret c' ∧ waiting q out c' ∧ seqNo c' = seqNo c.
Proof.
  intros Hinv Hs Hch Hses Hq. pose proof (inv_range _ _ _ _ _ _ _ _ _ Hinv) as Hr.
  set (h := mkHeader sess q 0). assert (wf_header h) as Hwh by (split; [done|]; unfold max_u64; cbn; lia).
  rewrite <- (app_nil_r (head_bytes h)). set (d := head_bytes h ++ []).
  assert (len d = 20) as Hd by (unfold d; rewrite app_nil_r; apply len_head_bytes).
  destruct (onPacket_queues c rAddr now h []) as (c1 & Hon & Hc1 & Hs1 & Hr1 & Hn1 & Hm1 & _);
    [done|done|done| |done|fold d; lia|].
  { split; [by right|]. split; [done|]. by right; left. }
  fold d in Hon. unfold take_in. rewrite Hon. cbn [mbind outcome_mbind].
  assert (inv stream start fin false true c1 out None r) as Hinv1.
  { eapply (inv_packet stream start fin false true c out None r d (len d)); [done|lia|lia| |done].
    rewrite take_ge by (unfold len; lia). intros h' Hh' _. unfold d in Hh'. rewrite DecodeHead_head_bytes in Hh' by done.
    injection Hh' as <-. apply packet_faithful; [done|lia|done|lia|lia|done|done]. }
  destruct (onPacket_spec c d (len d) rAddr now Hs) as (c2 & E & Hs2 & _); [lia|lia|].
  rewrite Hon in E. injection E as <-.
  assert (packet_of h [] = mkMsgBuf q 0 []) as Hpk by (unfold packet_of; by rewrite decide_False by (cbn; lia)).
  rewrite Hpk in Hc1.
  assert (∃ o c2, requestLoop_msg c1 tt now None None = Ret (o, c2)) as (o & c2 & E).
  { rewrite requestLoop_split.
    destruct (safe_worker c1 tt now None None Hs2) as [[_ (mb & Hh & [[Hz _] _ _ _])]|(_ & o & p & c2 & -> & _)]; [|by eexists _, _].
    rewrite Hc1 in Hh. injection Hh as <-. by cbn in Hz. }
  pose proof (safe_msg _ _ _ _ _ _ _ Hs2 E) as Hs3. rewrite E. cbn [mbind outcome_mbind].
  exists c2. split; [done|]. destruct (heartbeat_processed q c1 tt now o c2 Hc1 ltac:(lia) E) as (? & ? & Hsv & ? & ?).
  split; [|congruence]. constructor; [by eapply inv_msg|done|done|congruence|by rewrite Hsv|done].
Qed.

(** ** Rounds *)

Context (answer : list byte → list (list byte)) (Hserver : server_ok answer).

(** One round: the client never goes back, and gets on when the number announced
    is still ahead and the last request is old enough. *)
Lemma round_progress q out rAddr now c tt : waiting q out c →
  ∃ c', round answer rAddr now c tt = Ret c' ∧ waiting q out c' ∧ seqNo c <= seqNo c' ∧
    (seqNo c < q → reqInterval <= time_sub tt (reqLast c) → seqNo c < seqNo c' ∧ reqLast c' = tt).
Proof.
  intros Hw. unfold round. destruct (tick_waiting q out c tt Hw) as (o & c1 & -> & Hw1 & Hn1 & Ho).
  cbn [mbind outcome_mbind]. destruct o as [[peer req]|].
  - destruct Ho as (Hl & Hlt & n & Hreq & Hn). destruct (Hserver req (seqNo c) n Hreq Hn Hlt) as [Hall (d & q' & k & Hin & Hd & Hcov)].
    destruct (answer_taken q out rAddr now tt (answer req) c1 Hw1 Hall) as (c2 & -> & Hw2 & Hl2 & Hn2 & Hc2).
    exists c2. split_and!; [done|done|lia|]. intros _ _. split; [|congruence].
    rewrite <- Hn1 in *. by apply (Hc2 d q' k).
  - exists c1. split_and!; [done|done|lia|]. pose proof (wt_max _ _ _ Hw). lia.
Qed.

Lemma rounds_reach q out rAddr now tts c : waiting q out c →
  (seqNo c < q → spaced (reqLast c) tts ∧ q - seqNo c <= len tts) →
  ∃ c', rounds answer rAddr now c tts = Ret c' ∧ waiting q out c' ∧ q <= seqNo c'.
Proof.
  revert c. induction tts as [|t tts IH]; intros c Hw Hsp; cbn [rounds].
  { exists c. split_and!; [done|done|]. change (len (@nil Z)) with 0 in Hsp. lia. }
  destruct (round_progress q out rAddr now c t Hw) as (c1 & -> & Hw1 & Hn1 & Hp). cbn [mbind outcome_mbind].
  apply IH; [done|]. intros Hlt. destruct (Hsp ltac:(lia)) as [[Ht Hsp'] Hlen].
  destruct (Hp ltac:(lia) Ht) as [Hn ->]. split; [done|]. rewrite len_cons in Hlen. lia.
Qed.
End Recovery.

(** ** Properties *)

(** C8: recovery.  A client that knows messages of the session only up to some
    number, with whatever it has cached and whatever was lost, receives a
    heartbeat that announces the messages before [q].  With a cache that has
    memory for the numbers of the session and a server that answers each request
    by packets of which one at least holds the first message asked for,
    [q - seqNo] rounds of the ticker and an answer, 10 ms or more apart, bring the
    client to [q]: every message before [q] has been read or is on its way to the
    application, in order and once. *)
Theorem recovery {Conn Cache : Type} `{SeqCacheSpec Cache} (stream : Z → Message) sess start fin nextSeq
    (cn : Conn) ip port srvs now ovl (s : sys Conn Cache) answer rAddr now' q tt
    (Hsession : 0 <= start <= fin) (Hfin : fin < 2 ^ 63) (Hcap : fin <= sc_cap)
    (Hstart : start = if nextSeq =? 0 then 1 else nextSeq)
    (Hsess : wf_session sess) (Hmsgs : ∀ z, wf_message (stream z))
    (Hreach : reachable (genuine stream fin) ovl (newClientState cn nextSeq ip port srvs now) s)
    (Hpend : pend s = None)
    (Hch : ch (cl s) = []) (Hses : session (cl s) = [] ∨ session (cl s) = sess)
    (Hmiss : seqNo (cl s) < q <= fin)
    (Hserver : server_ok stream sess fin answer) :
  ∃ c1, take_in rAddr now' (cl s) (head_bytes (mkHeader sess q 0)) tt = Ret c1 ∧
    ∀ tts, spaced (reqLast c1) tts → q - seqNo (cl s) <= len tts →
    ∃ c', rounds answer rAddr now' c1 tts = Ret c' ∧ q <= seqNo c' <= fin ∧
      out s ++ held (rd s) ++ default [] (ready c') = segment stream start (seqNo c' - start).
Proof.
  assert (inv stream start fin false true (cl s) (out s) None (rd s)) as Hinv.
  { rewrite <- Hpend. apply (inv_reachable stream start fin Hsession Hfin false true cn ip port srvs now nextSeq s Hstart).
    by apply (reachable_overlap _ ovl). }
  assert (safe_sys s) as [Hs _].
  { apply (safe_reachable (genuine stream fin) ovl cn nextSeq ip port srvs now s); [|done].
    unfold max_u64. destruct (nextSeq =? 0) eqn:E; zbool; lia. }
  destruct (heartbeat_taken_in stream sess start fin Hsession Hfin Hsess Hmsgs (rd s) q (out s) (cl s) rAddr now' tt
    Hinv Hs Hch Hses Hmiss) as (c1 & E & Hw & Hn). exists c1. split; [exact E|]. intros tts Hsp Hlen.
  destruct (rounds_reach stream sess start fin Hsession Hfin Hsess Hmsgs Hcap (rd s) answer Hserver q (out s) rAddr now' tts c1 Hw)
    as (c' & Hr & [Hinv' _ _ _ _ _] & Hq); [intros _; split; [done|by rewrite Hn]|].
  exists c'. split; [done|]. pose proof (inv_range _ _ _ _ _ _ _ _ _ Hinv'). split; [lia|].
  pose proof (inv_log _ _ _ _ _ _ _ _ _ Hinv') as Hlog. cbn [default] in Hlog. by rewrite app_nil_r in Hlog.
Qed.

(** ** Witness: nothing of the session has arrived; the server sends one message
    for each request. *)

Definition ex_answer (req : list byte) : list (list byte) :=
  match DecodeHead req zeroHeader with
  | Ret (h, None) => [head_bytes (mkHeader ex_sess (SeqNo h) 1) ++ wire [ex_stream (SeqNo h)]]
  | _ => []
  end.

Lemma ex_server_ok : server_ok ex_stream ex_sess 3 ex_answer.
Proof.
  intros req s n Hreq Hn Hs. unfold ex_answer. rewrite Hreq. cbn [SeqNo].
  destruct (DecodeHead_total req zeroHeader) as [[E _]|(_ & h & E & Hwf)]; rewrite E in Hreq; [done|].
  injection Hreq as ->. destruct Hwf as (_ & Hs0 & _). cbn in Hs0.
  assert (data_dgram ex_stream ex_sess 3 s 1 (head_bytes (mkHeader ex_sess s 1) ++ wire [ex_stream s])) as Hd.
  { split; [done|unfold maxMessages; lia|]. rewrite len_app, len_head_bytes. vm_compute. reflexivity. }
  split; [apply Forall_singleton; by eexists _, _|].
  eexists _, s, 1. split; [by apply list_elem_of_singleton|]. split; [exact Hd|lia].
Qed.

#[local] Existing Instance ex_memory.

Definition ex_t0 : Z := 1000000000000.

Lemma recovery_witness : ∃ c1 c' : Client unit msgCache,
  take_in ex_addr 101 ex_client0 ex_heartbeat ex_t0 = Ret c1 ∧
  rounds ex_answer ex_addr 101 c1 [ex_t0 + 10000000; ex_t0 + 20000000] = Ret c' ∧
  default [] (ready c') = segment ex_stream 1 (seqNo c' - 1) ∧ 3 <= seqNo c'.
Proof.
  destruct (recovery ex_stream ex_sess 1 3 0 tt [] 5858 [] 100 true (mkSys ex_client0 [] []) ex_answer ex_addr 101 3 ex_t0)
    as (c1 & E & Hr);
    [lia|lia|vm_compute; congruence|reflexivity|right; vm_compute; intuition congruence|intros z; vm_compute; congruence|apply reach_init
    |reflexivity|reflexivity|left; reflexivity|vm_compute; intuition congruence|exact ex_server_ok|].
  exists c1. destruct (Hr [ex_t0 + 10000000; ex_t0 + 20000000]) as (c' & Hc & Hq & Ho);
    [|vm_compute; congruence|exists c'; split; [exact E|split; [exact Hc|split; [exact Ho|apply Hq]]]].
  vm_compute in E. injection E as <-. vm_compute. intuition congruence.
Defined.
