(* ===== verification/Race.v ===== *)
(** * Reading between the writes of doMsgBuf (src/client.go)

    [doMsgBuf] publishes the new sequence numbers and [bDone] without the lock,
    and only then takes the lock to append to [ready].  A [Read] can run in
    between, as the transition system of [Delivery] allows.  The theorems here
    say exactly when such a [Read] stops the client too early, and which number a
    [Read] reports. *)

From Stdlib Require Import Strings.Byte.
From S2P Require Import Prelude.
From S2P Require Import GoBytes.
From S2P Require Import NetAddr.
From S2P Require Import Codec.
From S2P Require Import MsgCache.
From S2P Require Import Client.
From S2P Require Import ClientLemmas.
From S2P Require Import Delivery.
From S2P Require Import DeliveryProps.

Section Race.
Context {Conn Cache : Type} `{SeqCacheSpec Cache}.
Abbreviation client := (Client Conn Cache).
Implicit Types (c : client).

(** The publishing writes leave [ready] and [Running], and set these. *)
Lemma publish_fields c seq :
  lastSeq (commit_publish c seq) = seqNo c ∧ seqNo (commit_publish c seq) = seq ∧
  ready (commit_publish c seq) = ready c ∧ Running (commit_publish c seq) = Running c ∧
  bDone (commit_publish c seq) = bDone c || endSession c && (seqMax c <=? seq) && (seqEnd c <=? seq).
Proof. by rewrite publish_eq. Qed.

(** C33: reading in the middle of the last delivery.  Let a packet with the last
    [k] messages of the session be processed while [r] is still unread.  A
    [Read] that runs between the publishing writes and the append returns [r],
    and it stops the client exactly when [r] has at least [k] messages.  Then
    the append still happens, but every later [Read] returns nil: the last [k]
    messages are never handed over. *)
Theorem race_loses_last_batch c r l seq
    (Hrun : Running c = true) (Hready : ready c = Some r)
    (Hend : endSession c = true) (Hmax : seqMax c <= seq) (Hlast : seqEnd c <= seq)
    (Hk : seq = seqNo c + len l) (Hrange : 0 <= seqNo c ∧ seqNo c + len r <= max_u64 ∧ seq <= max_u64) :
  ∃ c1, Read_iter (commit_publish c seq) = (ReadMsgs r (seqNo c), c1) ∧
    (Running c1 = false ↔ len l <= len r) ∧
    (Running c1 = false →
       let c2 := commit_append c1 (Some l) in
       ready c2 = Some l ∧ Read_iter c2 = (ReadEnd, c2)).
Proof.
  destruct (publish_fields c seq) as (E1 & E2 & E3 & E4 & E5).
  rewrite Hend, (proj2 (Z.leb_le _ _) Hmax), (proj2 (Z.leb_le _ _) Hlast), orb_true_r in E5.
  unfold Read_iter at 1. rewrite E4, Hrun. unfold Read_body, Read_take, Read_test. cbn [bDone lastSeq seqNo update].
  rewrite E1, E2, E3, E5, Hready. change (slen (Some r)) with (len r). cbn [andb].
  pose proof (len_nonneg r). rewrite u64_small by (unfold max_u64 in *; lia).
  eexists. split; [reflexivity|].
  destruct (seq <=? seqNo c + len r) eqn:E; zbool.
  - split; [split; [lia|done]|]. intros _. cbv zeta. unfold commit_append. cbn [ready update]. done.
  - cbn [Running update]. rewrite E4, Hrun. split; [split; [done|lia]|done].
Qed.
End Race.

(** The number [Read] reports.  Along a session the messages [Read] returns
    are consecutive and end just before the next expected one; the number
    reported with them is never below the number of the first of them.  It is
    above it when several packets have been processed since the last [Read]: it
    is then the number at which the last of them started. *)
Lemma Read_numbering {Conn Cache : Type} `{SeqCacheSpec Cache}
    (stream : Z → Message) start fin nextSeq (cn : Conn) ip port srvs now ovl (s : sys Conn Cache) r
    (Hsession : 0 <= start <= fin) (Hfin : fin < 2 ^ 63)
    (Hstart : start = if nextSeq =? 0 then 1 else nextSeq)
    (Hreach : reachable (genuine stream fin) ovl (newClientState cn nextSeq ip port srvs now) s)
    (Hpend : pend s = None) (Hrun : Running (cl s) = true) (Hready : ready (cl s) = Some r) :
  let first := seqNo (cl s) - len r in
  (∃ c', Read_iter (cl s) = (ReadMsgs r (lastSeq (cl s)), c')) ∧
  r = segment stream first (len r) ∧ first <= lastSeq (cl s) ∧
  ∀ l seq, ∃ c', Read_iter (commit_append (commit_publish (cl s) seq) (Some l)) = (ReadMsgs (r ++ l) (first + len r), c').
Proof.
  pose proof (inv_reachable stream start fin Hsession Hfin false ovl cn ip port srvs now nextSeq s Hstart Hreach) as Hinv.
  unfold sys_inv in Hinv. rewrite Hpend in Hinv.
  cbv zeta. pose proof (inv_range _ _ _ _ _ _ _ _ _ Hinv) as Hrg. split; [|split; [|split]].
  - unfold Read_iter, Read_body, Read_take, Read_test. rewrite Hrun, Hready. by eexists.
  - pose proof (inv_log _ _ _ _ _ _ _ _ _ Hinv) as Hlog. rewrite Hready in Hlog. cbn in Hlog.
    rewrite app_nil_r, app_assoc in Hlog. set (o := out s ++ held (rd s)) in *.
    pose proof (f_equal len Hlog) as Hl. rewrite len_app, len_segment in Hl by lia.
    pose proof (len_nonneg o).
    apply (f_equal (drop (length o))) in Hlog. rewrite drop_app_length in Hlog.
    replace (length o) with (Z.to_nat (len o)) in Hlog by (unfold len; lia).
    rewrite drop_segment in Hlog by (pose proof (len_nonneg r); lia). rewrite Hlog at 1. f_equal; lia.
  - destruct (inv_last _ _ _ _ _ _ _ _ _ Hinv r Hready) as [_ Hle]. specialize (Hle eq_refl). lia.
  - intros l seq. replace (seqNo (cl s) - len r + len r) with (seqNo (cl s)) by lia.
    rewrite append_eq, publish_eq. unfold Read_iter, Read_body, Read_take, Read_test. cbn [Running ready lastSeq update].
    rewrite Hrun, Hready. by eexists.
Qed.

(** ** Witnesses *)

#[local] Existing Instance ex_memory.

(** Two messages unread, the end of the session at 4 known, message 3 arrives. *)
Definition ex_late : Client unit msgCache :=
  ex_client0 <| endSession := true |> <| seqEnd := 4 |> <| seqMax := 4 |> <| seqNo := 3 |>
    <| lastSeq := 1 |> <| ready := Some [ex_stream 1; ex_stream 2] |>.

Lemma race_loses_last_batch_witness :
  ∃ c1, Read_iter (commit_publish ex_late 4) = (ReadMsgs [ex_stream 1; ex_stream 2] 3, c1) ∧
    (Running c1 = false ↔ 1 <= 2).
Proof.
  destruct (race_loses_last_batch ex_late [ex_stream 1; ex_stream 2] [ex_stream 3] 4) as (c1 & E & Hiff & _);
    [reflexivity|reflexivity|reflexivity|vm_compute; congruence|vm_compute; congruence|reflexivity
    |vm_compute; intuition congruence|].
  exists c1. split; [exact E|exact Hiff].
Defined.

Lemma Read_numbering_witness :
  [ex_stream 1; ex_stream 2] = segment ex_stream (seqNo ex_c5 - 2) 2.
Proof.
  apply (Read_numbering ex_stream 1 3 0 tt [] 5858 [] 100 true (mkSys ex_c5 [] []) [ex_stream 1; ex_stream 2]);
    [lia|lia|reflexivity|apply (ex_run5 _ _ ex_genuine_data ex_genuine_eos)|reflexivity|vm_compute; reflexivity|vm_compute; reflexivity].
Defined.
