(* ===== verification/RawUdp.v ===== *)
(** * Raw frames (src/socket.go, src/zsockif.go, src/rsocket.go)

    The frame a [zsockIf] writes into a transmit slot: Ethernet, IPv4 and UDP
    headers built in place ([buildIP], [buildUDP], [buildRawUDP]) and the
    payload after them ([copyFx]), and the multicast hardware address.  The
    checksum routine belongs to a package outside the repository and is a
    parameter. *)

From Stdlib Require Import Strings.Byte.
From S2P Require Import Prelude.
From S2P Require Import GoBytes.

(** ** In-place stores *)

(** A store of the octets [data] at offset [off]: the assignment of a field
    through an [unsafe] struct pointer to the buffer.  A store beyond the end
    of the slice is outside the language's guarantees; here it is a panic. *)
Definition poke (off : Z) (data : list byte) (buff : list byte) : outcome (list byte) :=
  with_slice off (off + len data) buff (λ _, Ret data).

(** A 16-bit store of [htons(v)]: most significant octet first on any host;
    [C.ushort] wraps. *)
Definition htons_at (off v : Z) (buff : list byte) : outcome (list byte) :=
  poke off (be_put 2 (u16 v)) buff.

(** ** Building the headers *)

(** [buildIP] of src/socket.go, with the fields of [ipHeader] in turn. *)
Definition buildIP (buff : list byte) (udpLen : Z) (src dst : list byte) : outcome (list byte) :=
  buff ← poke 0 [x45] buff;
  buff ← poke 1 [x00] buff;
  buff ← htons_at 2 (udpLen + 28) buff;
  buff ← poke 4 [x00; x00] buff;
  buff ← htons_at 6 0x4000 buff;
  buff ← poke 8 [x02] buff;
  buff ← poke 9 [x11] buff;
  buff ← poke 10 [x00; x00] buff;
  buff ← with_slice 12 16 buff (λ b, Ret (go_copy b src));
  with_slice 16 20 buff (λ b, Ret (go_copy b dst)).

(** [buildIPv4]: the same header by the C function [buildIP], which clears the
    header and stores the fields that are not zero ([memcpy] of four octets). *)
Definition buildIPv4 (buff : list byte) (udpLen : Z) (src dst : list byte) : outcome (list byte) :=
  _ ← idx buff 0;
  _ ← idx src 0;
  _ ← idx dst 0;
  buff ← poke 0 (replicate 20 x00) buff;
  buff ← poke 0 [x45] buff;
  buff ← htons_at 2 (i32 udpLen + 28) buff;
  buff ← htons_at 6 0x4000 buff;
  buff ← poke 8 [x02] buff;
  buff ← poke 9 [x11] buff;
  s ← slice 0 4 src;
  d ← slice 0 4 dst;
  buff ← poke 12 s buff;
  poke 16 d buff.

Definition buildUDP (buff : list byte) (dstPort dataLen : Z) : outcome (list byte) :=
  buff ← htons_at 0 (dstPort + 1) buff;
  buff ← htons_at 2 dstPort buff;
  buff ← htons_at 4 (dataLen + 8) buff;
  poke 6 [x00; x00] buff.

(** [zsockIf], as far as frames depend on it. *)
Record ZAddr : Type := mkZAddr {
  za_dst : list byte;
  za_src : list byte;
  za_dstIP : list byte;
  za_srcIP : list byte;
  za_port : Z
}.

(** [GetMulticastHWAddr] on the result of [To4]. *)
Definition GetMulticastHWAddr (ip4 : option (list byte)) : outcome (option (list byte)) :=
  match ip4 with
  | None => Ret None
  | Some a =>
      b1 ← idx a 1;
      b2 ← idx a 2;
      b3 ← idx a 3;
      Ret (Some [x01; x00; x5e; z2b (Z.land (b2z b1) 0x7f); b2; b3])
  end.

Section Build.
(** [nettypes.IPv4_P.CalculateChecksum]. *)
Context (CalculateChecksum : list byte → Z).

Definition buildRawUDP (buff : list byte) (udpLen port : Z) (src dst : list byte)
    : outcome (list byte) :=
  buff ← set_idx buff 12 x08;
  buff ← set_idx buff 13 x00;
  buff ← with_slice 14 (len buff) buff (λ b, buildIP b udpLen src dst);
  ip ← slice 14 (len buff) buff;
  let ckSum := CalculateChecksum ip in
  buff ← set_idx buff 24 (z2b (Z.shiftr ckSum 8));
  buff ← set_idx buff 25 (z2b (Z.land ckSum 0xff));
  with_slice 34 (len buff) buff (λ b, buildUDP b port udpLen).

(** [zsockIf.copyFx]: the buffer afterwards and the length it returns. *)
Definition copyFx (c : ZAddr) (dst src : list byte) (l : Z) : outcome (list byte * Z) :=
  let l := if l <=? 0 then len src else l in
  let dst := go_copy dst (za_dst c) in
  dst ← with_slice 6 (len dst) dst (λ b, Ret (go_copy b (za_src c)));
  dst ← buildRawUDP dst l (za_port c) (za_srcIP c) (za_dstIP c);
  dst ← with_slice 42 (len dst) dst (λ b, Ret (go_copy b src));
  Ret (dst, u16 (l + 28 + 14)).
End Build.

(** ** Specification *)

(** The Internet checksum (RFC 1071) over 16-bit words. *)
Fixpoint words16 (l : list byte) : list Z :=
  match l with
  | a :: b :: l' => (256 * b2z a + b2z b) :: words16 l'
  | [a] => [256 * b2z a]
  | [] => []
  end.

Definition zsum : list Z → Z := foldr Z.add 0.

(** Fold the carries of a sum of at most 65535 words back in. *)
Definition fold16 (s : Z) : Z :=
  let s := s mod 65536 + s / 65536 in s mod 65536 + s / 65536.

(** The checksum of a header whose checksum field is zero, and the receiver's
    test of a header. *)
Definition inet_checksum (h : list byte) : Z := 65535 - fold16 (zsum (words16 h)).
Definition checksum_ok (h : list byte) : Prop := fold16 (zsum (words16 h)) = 65535.

(** The IPv4 header of a datagram with [n] octets of UDP payload. *)
Definition ip_header (n ck : Z) (src dst : list byte) : list byte :=
  [x45; x00] ++ be_put 2 (n + 28) ++ [x00; x00; x40; x00; x02; x11] ++ be_put 2 ck ++ src ++ dst.

Definition udp_header (port n : Z) : list byte :=
  be_put 2 (port + 1) ++ be_put 2 port ++ be_put 2 (n + 8) ++ [x00; x00].

Definition ip_ck (n : Z) (src dst : list byte) : Z := inet_checksum (ip_header n 0 src dst).

Definition raw_frame (c : ZAddr) (n : Z) (payload : list byte) : list byte :=
  za_dst c ++ za_src c ++ [x08; x00] ++
  ip_header n (ip_ck n (za_srcIP c) (za_dstIP c)) (za_srcIP c) (za_dstIP c) ++
  udp_header (za_port c) n ++ payload.

Definition wf_addr (c : ZAddr) : Prop :=
  length (za_dst c) = 6%nat ∧ length (za_src c) = 6%nat ∧
  length (za_dstIP c) = 4%nat ∧ length (za_srcIP c) = 4%nat.

(** ** Lemmas *)

Lemma length_words16 l : length (words16 l) = Nat.div2 (S (length l)).
Proof.
  induction l as [l IH] using (well_founded_induction (well_founded_ltof _ (@length byte))).
  destruct l as [|a [|b l]]; [done|done|]. cbn [words16 length]. rewrite IH; [done|].
  unfold ltof. cbn. lia.
Qed.

(** Adding the checksum to a sum of words makes it fold to all ones. *)
Lemma fold16_complement s : 0 <= s < 65536 * 65535 → fold16 (s + (65535 - fold16 s)) = 65535.
Proof. unfold fold16. intros Hs. cbv zeta. Z.to_euclidean_division_equations. lia. Qed.

Lemma poke_app l1 l2 l3 data off : off = len l1 → len data = len l2 →
  poke off data (l1 ++ l2 ++ l3) = Ret (l1 ++ data ++ l3).
Proof. intros -> E. unfold poke. apply with_slice_app; [done|lia|done]. Qed.

(** Run a store into a buffer given octet by octet. *)
Ltac split_at buff off k :=
  let n := eval vm_compute in (Z.to_nat off) in
  let l1 := eval cbn [take] in (take n buff) in
  let r := eval cbn [drop] in (drop n buff) in
  let l2 := eval cbn [take] in (take k r) in
  let l3 := eval cbn [drop] in (drop k r) in
  change buff with (l1 ++ l2 ++ l3).

Ltac store :=
  match goal with
  | |- context [poke ?off ?data ?buff] =>
      let k := eval cbn in (length data) in
      split_at buff off k; rewrite poke_app by reflexivity
  | |- context [with_slice ?lo ?hi ?buff (λ b, Ret (go_copy b ?src))] =>
      let k := eval vm_compute in (Z.to_nat (hi - lo)) in
      split_at buff lo k;
      rewrite (with_slice_app _ _ _ src) by (done || (f_equal; by apply go_copy_same))
  end; cbn [app mbind outcome_mbind].

Lemma be_put_2 v : be_put 2 v = [z2b (Z.shiftr v 8); z2b v].
Proof. cbn. by rewrite Z.shiftr_0_r. Qed.

Lemma be_put_u16 v : be_put 2 (u16 v) = be_put 2 v.
Proof. apply (be_put_mod 2). Qed.

(** Name the [k] octets of [h]. *)
Ltac octet h := destruct h as [|? h]; [done|].
Tactic Notation "octets" integer(k) ident(h) := do k (octet h); destruct h; [|done].

Lemma buildIP_spec h rest n src dst : length h = 20%nat → length src = 4%nat → length dst = 4%nat →
  buildIP (h ++ rest) n src dst = Ret (ip_header n 0 src dst ++ rest).
Proof.
  intros Hh Hs Hd. octets 20 h. clear Hh.
  unfold buildIP, htons_at. rewrite !be_put_u16, !be_put_2. cbn [app].
  octets 4 src. octets 4 dst. do 10 store. unfold ip_header. by rewrite !be_put_2.
Qed.

(** The C version writes the same header. *)
Lemma buildIPv4_spec h rest n src dst : length h = 20%nat → length src = 4%nat → length dst = 4%nat →
  buildIPv4 (h ++ rest) n src dst = Ret (ip_header n 0 src dst ++ rest).
Proof.
  intros Hh Hs Hd. octets 20 h. clear Hh. octets 4 src. octets 4 dst.
  unfold buildIPv4, htons_at. replace (u16 (i32 n + 28)) with (u16 (n + 28)) by word.
  rewrite !be_put_u16, !be_put_2. cbn [app replicate].
  do 3 (change (idx (?x :: _) 0) with (Ret x); cbn [mbind outcome_mbind]).
  change (slice 0 4 [?a; ?b; ?c; ?d]) with (Ret [a; b; c; d]).
  do 8 store. unfold ip_header. by rewrite !be_put_2.
Qed.

Lemma buildUDP_spec h rest port n : length h = 8%nat →
  buildUDP (h ++ rest) port n = Ret (udp_header port n ++ rest).
Proof.
  intros Hh. octets 8 h. clear Hh.
  unfold buildUDP, htons_at. rewrite !be_put_u16, !be_put_2. cbn [app].
  do 4 store. unfold udp_header. by rewrite !be_put_2.
Qed.

Lemma length_ip_header n ck src dst : length src = 4%nat → length dst = 4%nat →
  length (ip_header n ck src dst) = 20%nat.
Proof. intros Hs Hd. unfold ip_header. rewrite !length_app, Hs, Hd, !length_be_put. done. Qed.

Lemma length_udp_header port n : length (udp_header port n) = 8%nat.
Proof. unfold udp_header. by rewrite !length_app, !length_be_put. Qed.

Lemma z2b_low v : z2b (Z.land v 0xff) = z2b v.
Proof. unfold z2b. do 3 f_equal. unfold u8. change 255 with (Z.ones 8). rewrite Z.land_ones by lia. apply Z.mod_mod. lia. Qed.

(** The header before and after its checksum field. *)
Definition ip_front (n : Z) : list byte :=
  [x45; x00] ++ be_put 2 (n + 28) ++ [x00; x00; x40; x00; x02; x11].

Lemma ip_header_split n ck src dst : ip_header n ck src dst = ip_front n ++ be_put 2 ck ++ src ++ dst.
Proof. unfold ip_header, ip_front. by rewrite <- !app_assoc. Qed.

Lemma length_ip_front n : length (ip_front n) = 10%nat.
Proof. unfold ip_front. by rewrite !length_app, length_be_put. Qed.

(** With a zero checksum field the header is what the checksum is taken of. *)
Lemma ip_header_zeroed n src dst :
  take 10 (ip_header n 0 src dst) ++ [x00; x00] ++ drop 12 (ip_header n 0 src dst) = ip_header n 0 src dst.
Proof. unfold ip_header. by rewrite !be_put_2. Qed.

Section Frames.
Context (CalculateChecksum : list byte → Z).

(** The documented behaviour of the checksum routine: on a packet that starts
    with a header of five words it is the header's Internet checksum, computed
    as if the checksum field (octets 10 and 11) were zero. *)
Definition checksum_law : Prop := ∀ h rest, length h = 20%nat → h !! 0%nat = Some x45 →
  CalculateChecksum (h ++ rest) = inet_checksum (take 10 h ++ [x00; x00] ++ drop 12 h).

Context (Hck : checksum_law).

Lemma buildRawUDP_spec e et h u rest n port src dst :
  length e = 12%nat → length et = 2%nat → length h = 20%nat → length u = 8%nat →
  length src = 4%nat → length dst = 4%nat →
  buildRawUDP CalculateChecksum (e ++ et ++ h ++ u ++ rest) n port src dst =
    Ret (e ++ [x08; x00] ++ ip_header n (ip_ck n src dst) src dst ++ udp_header port n ++ rest).
Proof.
  intros He Het Hh Hu Hs Hd. unfold buildRawUDP.
  assert (len e = 12) as Hle by (unfold len; lia).
  octets 2 et. cbn [app].
  rewrite set_idx_middle by done. cbn [mbind outcome_mbind].
  change (e ++ x08 :: b0 :: h ++ u ++ rest) with (e ++ [x08] ++ b0 :: h ++ u ++ rest).
  rewrite app_assoc, set_idx_middle by (rewrite len_app, Hle; done). cbn [mbind outcome_mbind].
  rewrite <- (app_assoc e). cbn [app].
  replace (e ++ x08 :: x00 :: h ++ u ++ rest) with ((e ++ [x08; x00]) ++ (h ++ u ++ rest) ++ [])
    by (by rewrite app_nil_r, <- app_assoc).
  rewrite (with_slice_app _ _ _ (ip_header n 0 src dst ++ u ++ rest)) by
    (rewrite ?buildIP_spec by done; autorewrite with golen; rewrite ?Hle; (done || unfold len; lia)).
  cbn [mbind outcome_mbind].
  rewrite slice_app by (autorewrite with golen; rewrite ?Hle; (done || unfold len; lia)).
  cbn [mbind outcome_mbind]. rewrite Hck by (done || by apply length_ip_header).
  rewrite ip_header_zeroed. fold (ip_ck n src dst). set (ck := ip_ck n src dst).
  rewrite !ip_header_split. change (be_put 2 0) with [x00; x00].
  pose proof (length_ip_front n) as Hfr.
  replace ((e ++ [x08; x00]) ++ ((ip_front n ++ [x00; x00] ++ src ++ dst) ++ u ++ rest) ++ [])
    with ((e ++ [x08; x00] ++ ip_front n) ++ x00 :: x00 :: src ++ dst ++ u ++ rest)
    by (rewrite app_nil_r, <- !app_assoc; done).
  rewrite set_idx_middle by (autorewrite with golen; rewrite Hle; unfold len; lia).
  cbn [mbind outcome_mbind].
  replace ((e ++ [x08; x00] ++ ip_front n) ++ z2b (Z.shiftr ck 8) :: x00 :: src ++ dst ++ u ++ rest)
    with ((e ++ [x08; x00] ++ ip_front n ++ [z2b (Z.shiftr ck 8)]) ++ x00 :: src ++ dst ++ u ++ rest)
    by (rewrite <- !app_assoc; done).
  rewrite set_idx_middle by (autorewrite with golen; rewrite Hle; unfold len; lia).
  cbn [mbind outcome_mbind]. rewrite z2b_low.
  replace ((e ++ [x08; x00] ++ ip_front n ++ [z2b (Z.shiftr ck 8)]) ++ z2b ck :: src ++ dst ++ u ++ rest)
    with ((e ++ [x08; x00] ++ ip_front n ++ be_put 2 ck ++ src ++ dst) ++ (u ++ rest) ++ [])
    by (rewrite be_put_2, app_nil_r, <- !app_assoc; done).
  rewrite (with_slice_app _ _ _ (udp_header port n ++ rest)) by
    (rewrite ?buildUDP_spec by done; autorewrite with golen; rewrite ?Hle; (done || unfold len; lia)).
  f_equal. rewrite app_nil_r, <- !app_assoc. done.
Qed.

(** The 42 octets [copyFx] writes before the payload. *)
Definition frame_head (c : ZAddr) (n : Z) : list byte :=
  za_dst c ++ za_src c ++ [x08; x00] ++
  ip_header n (ip_ck n (za_srcIP c) (za_dstIP c)) (za_srcIP c) (za_dstIP c) ++
  udp_header (za_port c) n.

Lemma length_frame_head c n : wf_addr c → length (frame_head c n) = 42%nat.
Proof.
  intros (H1 & H2 & H3 & H4). unfold frame_head.
  rewrite !length_app, length_ip_header, length_udp_header by done. cbn. lia.
Qed.

Lemma frame_split (dst : list byte) : 42 <= len dst →
  ∃ a b et h u rest, dst = a ++ b ++ et ++ h ++ u ++ rest ∧ length a = 6%nat ∧ length b = 6%nat ∧
    length et = 2%nat ∧ length h = 20%nat ∧ length u = 8%nat ∧ rest = drop 42 dst.
Proof.
  unfold len. intros Hl.
  set (d1 := drop 6 dst). set (d2 := drop 6 d1). set (d3 := drop 2 d2). set (d4 := drop 20 d3).
  exists (take 6 dst), (take 6 d1), (take 2 d2), (take 20 d3), (take 8 d4), (drop 8 d4).
  unfold d4, d3, d2, d1. rewrite !take_drop, !length_take, !length_drop, !drop_drop.
  split_and!; lia || done.
Qed.

(** [copyFx] into a slot of at least 42 octets: the headers, and as much of the
    payload as the slot holds. *)
Lemma copyFx_spec c dst src l : wf_addr c → 42 <= len dst →
  let n := if l <=? 0 then len src else l in
  copyFx CalculateChecksum c dst src l =
    Ret (frame_head c n ++ go_copy (drop 42 dst) src, u16 (n + 42)).
Proof.
  intros (H1 & H2 & H3 & H4) Hl n. unfold copyFx. fold n.
  destruct (frame_split dst Hl) as (a & b & et & h & u & rest & -> & Ha & Hb & Het & Hh & Hu & <-).
  rewrite go_copy_short by lia.
  replace (za_dst c ++ b ++ et ++ h ++ u ++ rest)
    with (za_dst c ++ (b ++ et ++ h ++ u ++ rest) ++ []) by (by rewrite app_nil_r).
  rewrite (with_slice_app _ _ _ (za_src c ++ et ++ h ++ u ++ rest)) by
    (rewrite ?go_copy_short by lia; autorewrite with golen; (done || unfold len; lia)).
  cbn [mbind outcome_mbind]. rewrite app_nil_r, (app_assoc (za_dst c)).
  rewrite (buildRawUDP_spec _ et h u rest) by (done || (rewrite length_app; lia)). cbn [mbind outcome_mbind].
  replace ((za_dst c ++ za_src c) ++ [x08; x00] ++
     ip_header n (ip_ck n (za_srcIP c) (za_dstIP c)) (za_srcIP c) (za_dstIP c) ++
     udp_header (za_port c) n ++ rest) with (frame_head c n ++ rest ++ [])
    by (unfold frame_head; rewrite app_nil_r, <- !app_assoc; done).
  assert (len (frame_head c n) = 42) as Hfh by (unfold len; rewrite length_frame_head; done).
  rewrite (with_slice_app _ _ _ (go_copy rest src)) by
    (rewrite ?len_app, ?len_nil, ?Hfh; (done || lia)).
  cbn [mbind outcome_mbind]. rewrite app_nil_r.
  by replace (n + 28 + 14) with (n + 42) by lia.
Qed.
End Frames.

Lemma inet_sum_bound l : 0 <= zsum (words16 l) <= 65535 * Z.of_nat (length (words16 l)).
Proof.
  induction l as [l IH] using (well_founded_induction (well_founded_ltof _ (@length byte))).
  destruct l as [|a [|b l]]; [done|pose proof (b2z_range a); cbn; lia|].
  pose proof (b2z_range a). pose proof (b2z_range b).
  specialize (IH l ltac:(unfold ltof; cbn; lia)).
  change (words16 (a :: b :: l)) with ((256 * b2z a + b2z b) :: words16 l).
  cbn [length]. change (zsum (?x :: ?r)) with (x + zsum r). lia.
Qed.

(** A header that carries its checksum passes the receiver's test. *)
Lemma ip_header_ok n src dst : length src = 4%nat → length dst = 4%nat →
  checksum_ok (ip_header n (ip_ck n src dst) src dst).
Proof.
  intros Hs Hd. unfold checksum_ok.
  assert (0 <= ip_ck n src dst < 65536 ∧ zsum (words16 (ip_header n (ip_ck n src dst) src dst))
    = zsum (words16 (ip_header n 0 src dst)) + ip_ck n src dst) as [Hr ->].
  2: { unfold ip_ck, inet_checksum. apply fold16_complement.
       pose proof (inet_sum_bound (ip_header n 0 src dst)) as Hb.
       rewrite length_words16, length_ip_header in Hb by done. cbn [Nat.div2] in Hb. lia. }
  assert (0 <= ip_ck n src dst < 65536) as Hr.
  { pose proof (inet_sum_bound (ip_header n 0 src dst)) as Hb.
    rewrite length_words16, length_ip_header in Hb by done. cbn [Nat.div2] in Hb.
    unfold ip_ck, inet_checksum, fold16. cbv zeta. Z.to_euclidean_division_equations. lia. }
  split; [done|]. generalize dependent (ip_ck n src dst). intros ck Hr.
  octets 4 src. octets 4 dst. unfold ip_header. rewrite !be_put_2. cbn [app words16 zsum foldr].
  rewrite !b2z_z2b, !Z.shiftr_div_pow2 by lia. change (2 ^ 8) with 256.
  change (u8 (0 `div` 256)) with 0. change (u8 0) with 0.
  assert (256 * u8 (ck / 256) + u8 ck = ck) as Hu by word. lia.
Qed.

(** ** Properties *)

(** C29: the transmitted frame.  Into a slot that holds it, [copyFx] writes
    exactly the Ethernet, IPv4 and UDP headers of the connection followed by the
    payload, leaves the rest of the slot alone and returns the frame's length.
    The IPv4 header passes the receiver's checksum test and its length fields
    are those of the payload. *)
Theorem copyFx_frame CalculateChecksum c dst payload
    (Hck : checksum_law CalculateChecksum) (Hc : wf_addr c)
    (Hroom : 42 + len payload <= len dst) (Hsize : 42 + len payload < 65536)
    (Hne : 0 < len payload) :
  let n := len payload in
  copyFx CalculateChecksum c dst payload n =
    Ret (raw_frame c n payload ++ drop (Z.to_nat (42 + n)) dst, 42 + n) ∧
  checksum_ok (take 20 (drop 14 (raw_frame c n payload))) ∧
  be_get (take 2 (drop 16 (raw_frame c n payload))) = n + 28 ∧
  be_get (take 2 (drop 38 (raw_frame c n payload))) = n + 8.
Proof.
  cbv zeta. set (n := len payload) in *.
  assert (raw_frame c n payload = frame_head c n ++ payload) as Hraw
    by (unfold raw_frame, frame_head; rewrite <- !app_assoc; done).
  split.
  - rewrite copyFx_spec by (done || lia). cbv zeta. rewrite (proj2 (Z.leb_gt n 0)) by lia.
    rewrite u16_small by lia. do 2 f_equal; [|lia]. rewrite Hraw, <- app_assoc. f_equal.
    assert (drop 42 dst = take (length payload) (drop 42 dst) ++ drop (Z.to_nat (42 + n)) dst) as ->.
    { replace (Z.to_nat (42 + n)) with (42 + length payload)%nat by (unfold n, len; lia).
      by rewrite <- drop_drop, take_drop. }
    apply go_copy_short. rewrite length_take, length_drop. unfold n, len in *. lia.
  - destruct Hc as (H1 & H2 & H3 & H4). destruct c as [d s di si port]; cbn in H1, H2, H3, H4.
    octets 6 d. octets 6 s. pose proof (ip_header_ok n si di H4 H3) as Hok.
    octets 4 di. octets 4 si. unfold raw_frame. cbn [za_dst za_src za_dstIP za_srcIP za_port].
    set (ck := ip_ck _ _ _) in *. unfold ip_header, udp_header in *. rewrite !be_put_2 in *.
    split; [exact Hok|]. cbn [app drop take].
    rewrite <- !be_put_2, !be_get_put. change (2 ^ (8 * Z.of_nat 2)) with 65536.
    rewrite !Z.mod_small by lia. done.
Qed.

(** A payload that does not fit is cut without an error.  [copyFx] never
    fails on a slot of at least 42 octets; when the payload is too long for it,
    the frame holds only the part that fits while the length returned, and the
    length fields of the headers, are those of the whole payload. *)
Lemma copyFx_truncates CalculateChecksum c dst payload
    (Hck : checksum_law CalculateChecksum) (Hc : wf_addr c)
    (Hslot : 42 <= len dst) (Hlong : len dst < 42 + len payload) (Hsize : 42 + len payload < 65536) :
  copyFx CalculateChecksum c dst payload (len payload) =
    Ret (raw_frame c (len payload) (take (Z.to_nat (len dst - 42)) payload), 42 + len payload).
Proof.
  rewrite copyFx_spec by done. cbv zeta. rewrite (proj2 (Z.leb_gt (len payload) 0)) by lia.
  rewrite u16_small by lia. do 2 f_equal; [|lia].
  unfold raw_frame, frame_head. rewrite <- !app_assoc. do 5 f_equal.
  unfold go_copy. rewrite length_drop. unfold len in *.
  rewrite (drop_ge (drop 42 dst)) by (rewrite length_drop; lia). rewrite app_nil_r. f_equal. lia.
Qed.

(** Multicast hardware addresses.  The address is the group prefix
    01:00:5e followed by the low 23 bits of the IPv4 group address. *)
Lemma multicast_hwaddr a b c d :
  ∃ hw, GetMulticastHWAddr (Some [a; b; c; d]) = Ret (Some hw) ∧ length hw = 6%nat ∧
    be_get hw = 0x01005e000000 + be_get [a; b; c; d] mod 2 ^ 23.
Proof.
  eexists. split; [reflexivity|]. split; [done|].
  change [x01; x00; x5e; z2b (Z.land (b2z b) 127); c; d]
    with ([x01; x00; x5e] ++ [z2b (Z.land (b2z b) 127)] ++ [c] ++ [d]).
  change [a; b; c; d] with ([] ++ [a] ++ [b] ++ [c] ++ [d]).
  rewrite !app_assoc, !be_get_snoc, b2z_z2b. change 127 with (Z.ones 7).
  rewrite Z.land_ones by lia. change (be_get []) with 0. change (be_get [x01; x00; x5e]) with 65630.
  pose proof (b2z_range a). pose proof (b2z_range b). pose proof (b2z_range c). pose proof (b2z_range d).
  unfold u8. change (2 ^ 7) with 128. change (2 ^ 23) with 8388608.
  Z.to_euclidean_division_equations. lia.
Qed.

(** ** Witnesses *)

(** A checksum routine that meets the law. *)
Definition ex_checksum (b : list byte) : Z :=
  inet_checksum (take 10 (take 20 b) ++ [x00; x00] ++ drop 12 (take 20 b)).

Lemma ex_checksum_law : checksum_law ex_checksum.
Proof. intros h rest Hl _. unfold ex_checksum. by rewrite take_app_length' by done. Qed.

Definition ex_zaddr : ZAddr :=
  mkZAddr [x01; x00; x5e; x40; xa8; x01] [x02; x00; x00; x00; x00; x07]
    [xef; xc0; xa8; x01] [xc0; xa8; x00; x01] 5858.

Lemma copyFx_frame_witness :
  copyFx ex_checksum ex_zaddr (replicate 64 x00) [x41; x42] 2 =
    Ret (raw_frame ex_zaddr 2 [x41; x42] ++ replicate 20 x00, 44) ∧
  checksum_ok (take 20 (drop 14 (raw_frame ex_zaddr 2 [x41; x42]))).
Proof.
  destruct (copyFx_frame ex_checksum ex_zaddr (replicate 64 x00) [x41; x42] ex_checksum_law)
    as (H1 & H2 & _); [done|vm_compute; congruence..|split; [exact H1|exact H2]].
Defined.

Lemma copyFx_truncates_witness :
  copyFx ex_checksum ex_zaddr (replicate 44 x00) [x41; x42; x43] 3 =
    Ret (raw_frame ex_zaddr 3 [x41; x42], 45).
Proof.
  apply (copyFx_truncates ex_checksum ex_zaddr (replicate 44 x00) [x41; x42; x43] ex_checksum_law);
    vm_compute; intuition congruence.
Defined.
