(* ===== verification/WinSock.v ===== *)
(** * Wrappers of system calls on Windows (src/winsock.go)

    The same wrappers over Winsock: a socket is an unsigned word, integer options
    are passed as eight octets, buffer lengths are C integers, [Close] also
    calls [WSACleanup], and [Sendto] has no case for nil.  The functions that
    build frames are a second copy of those of src/socket.go.

    [psim] says that a program on Windows does what the program on Unix does:
    the same calls in the same order up to these representations, and the same
    results for the same replies. *)

From Stdlib Require Import Strings.Byte.
From S2P Require Import Prelude.
From S2P Require Import GoBytes.
From S2P Require Import NetAddr.
From S2P Require Import Codec.
From S2P Require Import Sys.
From S2P Require Import UnixSock.
From S2P Require Import UnixSockProps.
From S2P Require Import RawUdp.

(** ** The wrappers *)

(** [C.SOCKET(fd)] *)
Definition SOCKET (fd : Z) : Z := u64 fd.

(** The octets passed with a length of type [C.int]. *)
Definition cint_data (p : list byte) : list byte := take (Z.to_nat (i32 (len p))) p.

Module Win.

Definition Sleep (interv : Z) (clock : list Z) : option (list Z) :=
  match clock with
  | [] => None
  | t0 :: clock' => Sleep_loop t0 interv clock'
  end.

Definition GetsockoptInt (fd : Z) (l : level) (o : optname) : prog (Z * option error) :=
  r ← sys (sys_getsockopt (SOCKET fd) l o 8);
  let value := i64 (le_get (go_copy (replicate 8 x00) (r_data r))) in
  Done (value, errno_if (negb (r_ret r =? 0)) r).

Definition SetsockoptInt (fd : Z) (l : level) (o : optname) (val : Z) : prog (option error) :=
  r ← sys (sys_setsockopt (SOCKET fd) l o (le_put 8 val));
  Done (errno_if (negb (r_ret r =? 0)) r).

(** [int(C.socket(...))] of an unsigned word. *)
Definition Socket (domain typ proto : Z) : prog (Z * option error) :=
  r ← sys (sys_socket (i32 domain) (i32 typ) (i32 proto));
  let fd := i64 (u64 (r_ret r)) in
  Done (fd, errno_if (fd <? 0) r).

Definition Close (fd : Z) : prog (option error) :=
  r ← sys (sys_closesocket (SOCKET fd));
  let err := errno_if (r_ret r <? 0) r in
  _ ← sys sys_WSACleanup;
  Done err.

Definition LocalAddr (fd : Z) : prog (option SockaddrInet4) :=
  r ← sys (sys_getsockname (SOCKET fd));
  if r_ret r <? 0 then Done None else Done (Some (from_sockaddr (r_addr r))).

Definition Bind (fd : Z) (laddr : SockaddrInet4) : prog (option error) :=
  r ← sys (sys_bind (SOCKET fd) (Sin (newSockaddrIn (sa_Port laddr) (sa_Addr laddr))));
  Done (errno_if (r_ret r <? 0) r).

Definition Recvfrom `{Errnos} (fd : Z) (p : list byte) (flags : Z)
    : prog (Z * SockaddrInet4 * option error * list byte) :=
  _ ← pure (idx p 0);
  r ← sys (sys_recvfrom (SOCKET fd) (i32 (len p)) (i32 flags));
  let n := if r_ret r <? 0 then 0 else r_ret r in
  Done (n, from_sockaddr (r_addr r), io_errno r, go_copy p (r_data r)).

Definition Sendto `{Errnos} (fd : Z) (p : option (list byte)) (flags : Z) (to : option SockaddrInet4)
    : prog (Z * option error) :=
  a ← pure (match to with Some a => Ret a | None => Panic end);
  let b := default [] p in
  _ ← pure (idx b 0);
  r ← sys (sys_sendto (SOCKET fd) (Some (cint_data b)) (i32 flags)
             (Some (newSockaddrIn (sa_Port a) (sa_Addr a))));
  Done (r_ret r, io_errno r).

Definition ReserveRecvBuf (fd : Z) : prog unit :=
  let bLen := 4 * 1024 * 1024 in
  _ ← GetsockoptInt fd SOL_SOCKET SO_RCVBUF;
  _ ← SetsockoptInt fd SOL_SOCKET SO_RCVBUF bLen;
  _ ← GetsockoptInt fd SOL_SOCKET SO_RCVBUF;
  Done tt.

Definition ReserveSendBuf (fd : Z) : prog unit :=
  let bLen := 2 * 1024 * 1024 in
  _ ← GetsockoptInt fd SOL_SOCKET SO_SNDBUF;
  _ ← SetsockoptInt fd SOL_SOCKET SO_SNDBUF bLen;
  _ ← GetsockoptInt fd SOL_SOCKET SO_SNDBUF;
  Done tt.

Section Multicast.
Context (ParseIP : gostring → list byte).

Definition getIfAddr (ifn : option Interface) : prog (list byte * option error) :=
  match ifn with
  | None => Done (IPv4zero, None)
  | Some i =>
      r ← sys (net_Addrs (ifi_Index i));
      match r_err r with
      | Some e => Done (IPv4zero, Some e)
      | None =>
          match r_strs r with
          | [] => Done (IPv4zero, None)
          | a :: _ =>
              adr ← pure (idx (Split x2f a) 0);
              if bool_decide (ParseIP adr = []) then Done (IPv4zero, Some errNoIP)
              else Done (ParseIP adr, None)
          end
      end
  end.

Definition JoinMulticast (fd : Z) (maddr : list byte) (ifn : option Interface) : prog (option error) :=
  let group := octets4 maddr in
  iface ← (match ifn with
           | Some _ =>
               '(adr, err) ← getIfAddr ifn;
               match err with
               | None => Done (octets4 (default [] (To4 adr)))
               | Some _ => Done (octets4 [])
               end
           | None =>
               r ← sys (os_Getenv LADDR);
               let adr := ParseIP (r_data r) in
               if bool_decide (adr = []) then Done (octets4 []) else Done (octets4 (default [] (To4 adr)))
           end);
  r ← sys (sys_setsockopt (SOCKET fd) IPPROTO_IP IP_ADD_MEMBERSHIP (group ++ iface));
  Done (errno_if (negb (r_ret r =? 0)) r).

Definition SetMulticastInterface (fd : Z) (ifn : option Interface) : prog (option error) :=
  match ifn with
  | None => Done None
  | Some _ =>
      '(ifAddr, err) ← getIfAddr ifn;
      match err with
      | Some e => Done (Some e)
      | None =>
          r ← sys (sys_setsockopt (SOCKET fd) IPPROTO_IP IP_MULTICAST_IF (octets4 (default [] (To4 ifAddr))));
          Done (errno_if (negb (r_ret r =? 0)) r)
      end
  end.
End Multicast.

Definition ExitMulticast (fd : Z) (maddr : list byte) : prog unit :=
  _ ← sys (sys_setsockopt (SOCKET fd) IPPROTO_IP IP_DROP_MEMBERSHIP
    (octets4 (default [] (To4 maddr)) ++ replicate 4 x00));
  Done tt.

Definition SetMulticastTTL (fd ttl : Z) : prog (option error) :=
  SetsockoptInt fd IPPROTO_IP IP_MULTICAST_TTL ttl.

Definition SetMulticastLoop (fd : Z) (bLoop : bool) : prog (option error) :=
  SetsockoptInt fd IPPROTO_IP IP_MULTICAST_LOOP (if bLoop then 1 else 0).

Definition SetBroadcast (fd : Z) (bLoop : bool) : prog (option error) :=
  SetsockoptInt fd SOL_SOCKET SO_BROADCAST (if bLoop then 1 else 0).

(** *** Frames *)

Definition buildIP (buff : list byte) (udpLen : Z) (src dst : list byte) : outcome (list byte) :=
  buff ← poke 0 [x45] buff;
  buff ← poke 1 [x00] buff;
  buff ← htons_at 2 (udpLen + 28) buff;
  buff ← poke 4 [x00; x00] buff;
  buff ← htons_at 6 0x4000 buff;
  buff ← poke 8 [x02] buff;
  buff ← poke 9 [x11] buff;
  buff ← poke 10 [x00; x00] buff;
  buff ← with_slice 12 16 buff (λ b, Ret (go_copy b src));
  with_slice 16 20 buff (λ b, Ret (go_copy b dst)).

Definition buildUDP (buff : list byte) (dstPort dataLen : Z) : outcome (list byte) :=
  buff ← htons_at 0 (dstPort + 1) buff;
  buff ← htons_at 2 dstPort buff;
  buff ← htons_at 4 (dataLen + 8) buff;
  poke 6 [x00; x00] buff.

Definition buildRawUDP (CalculateChecksum : list byte → Z) (buff : list byte) (udpLen port : Z)
    (src dst : list byte) : outcome (list byte) :=
  buff ← set_idx buff 12 x08;
  buff ← set_idx buff 13 x00;
  buff ← with_slice 14 (len buff) buff (λ b, buildIP b udpLen src dst);
  ip ← slice 14 (len buff) buff;
  let ckSum := CalculateChecksum ip in
  buff ← set_idx buff 24 (z2b (Z.shiftr ckSum 8));
  buff ← set_idx buff 25 (z2b (Z.land ckSum 0xff));
  with_slice 34 (len buff) buff (λ b, buildUDP b port udpLen).
End Win.

(** ** Simulation of a Unix program by a Windows program *)

(** The Windows form of a call: the socket as an unsigned word, options with
    the same first octets, [closesocket] for [close]. *)
Inductive win_call : call → call → Prop :=
| win_socket d t p : win_call (sys_socket d t p) (sys_socket d t p)
| win_close fd : win_call (sys_close fd) (sys_closesocket (SOCKET fd))
| win_bind fd a : win_call (sys_bind fd a) (sys_bind (SOCKET fd) a)
| win_getsockname fd : win_call (sys_getsockname fd) (sys_getsockname (SOCKET fd))
| win_setsockopt fd l o v v' : v `prefix_of` v' →
    win_call (sys_setsockopt fd l o v) (sys_setsockopt (SOCKET fd) l o v')
| win_getsockopt fd l o n : win_call (sys_getsockopt fd l o n) (sys_getsockopt (SOCKET fd) l o n)
| win_recvfrom fd n f : win_call (sys_recvfrom fd n f) (sys_recvfrom (SOCKET fd) n f)
| win_sendto fd d f a : win_call (sys_sendto fd d f a) (sys_sendto (SOCKET fd) d f a)
| win_Getenv s : win_call (os_Getenv s) (os_Getenv s)
| win_Addrs i : win_call (net_Addrs i) (net_Addrs i).

(** The result of a call is a C integer. *)
Definition c_int (z : Z) : Prop := -2147483648 <= z < 2147483648.

(** Step by step: related calls, and [WSACleanup] whenever Windows likes; the
    common result satisfies [P]. *)
Inductive psim_to {A} (P : A → Prop) : prog A → prog A → Prop :=
| psim_done a : P a → psim_to P (Done a) (Done a)
| psim_crash : psim_to P Crash Crash
| psim_call c c' k k' :
    win_call c c' → (∀ r, c_int (r_ret r) → psim_to P (k r) (k' r)) →
    psim_to P (Invoke c k) (Invoke c' k')
| psim_cleanup p k' : (∀ r, psim_to P p (k' r)) → psim_to P p (Invoke sys_WSACleanup k').

Abbreviation psim := (psim_to (λ _, True)).

#[export] Hint Constructors win_call psim_to : go.

Lemma psim_bind {A B} (P : A → Prop) (Q : B → Prop) (p q : prog A) (f g : A → prog B) :
  psim_to P p q → (∀ a, P a → psim_to Q (f a) (g a)) → psim_to Q (p ≫= f) (q ≫= g).
Proof.
  intros Hpq Hfg. induction Hpq; cbn; eauto with go.
Qed.

Lemma psim_bind_sys {B} (Q : B → Prop) c c' (f g : reply → prog B) :
  win_call c c' → (∀ r, c_int (r_ret r) → psim_to Q (f r) (g r)) → psim_to Q (sys c ≫= f) (sys c' ≫= g).
Proof. intros Hc Hk. by apply psim_call. Qed.

Lemma psim_pure {A} (m : outcome A) : psim (pure m) (pure m).
Proof. destruct m; cbn; auto with go. Qed.

#[export] Hint Resolve psim_bind_sys psim_pure : go.

Lemma c_int_i32 z : c_int z → i32 z = z.
Proof. unfold c_int. apply i32_small. Qed.

Lemma take_prefix_of {A} n (l : list A) : take n l `prefix_of` l.
Proof. exists (drop n l). by rewrite take_drop. Qed.

#[export] Hint Resolve take_prefix_of : go.

(** Relate two wrappers, call by call. *)
Ltac psim_step :=
  match goal with
  | |- psim_to _ (Done _) (Done _) => by apply psim_done
  | |- psim_to _ Crash Crash => apply psim_crash
  | |- psim_to _ (sys _ ≫= _) (sys _ ≫= _) => apply psim_bind_sys; [by eauto with go|intros ? ?]
  | |- psim_to _ (if ?b then _ else _) _ => destruct b
  | |- psim_to _ (match ?x with _ => _ end) _ => destruct x
  end.

Section Wrappers.
Context `{Errnos} (ParseIP : gostring → list byte).
Context (fd : Z) (Hfd : c_int fd).

Lemma GetsockoptInt_psim l o : psim (UnixSock.GetsockoptInt fd l o) (Win.GetsockoptInt fd l o).
Proof. unfold UnixSock.GetsockoptInt, Win.GetsockoptInt. rewrite c_int_i32 by done. by repeat psim_step. Qed.

Lemma SetsockoptInt_psim l o v : psim (UnixSock.SetsockoptInt fd l o v) (Win.SetsockoptInt fd l o v).
Proof. unfold UnixSock.SetsockoptInt, Win.SetsockoptInt. rewrite c_int_i32 by done. by repeat psim_step. Qed.

Lemma Socket_psim d t p :
  psim_to (λ '(s, _), c_int s) (UnixSock.Socket d t p) (Win.Socket d t p).
Proof.
  unfold UnixSock.Socket, Win.Socket. psim_step. unfold c_int in *.
  replace (i64 (u64 (r_ret r))) with (r_ret r) by word. by apply psim_done.
Qed.

Lemma Close_psim : psim (UnixSock.Close fd) (Win.Close fd).
Proof.
  unfold UnixSock.Close, Win.Close. rewrite c_int_i32 by done. psim_step.
  apply psim_cleanup. intros ?. by apply psim_done.
Qed.

Lemma LocalAddr_psim : psim (UnixSock.LocalAddr fd) (Win.LocalAddr fd).
Proof. unfold UnixSock.LocalAddr, Win.LocalAddr. rewrite c_int_i32 by done. by repeat psim_step. Qed.

Lemma Bind_psim a : psim (UnixSock.Bind fd a) (Win.Bind fd a).
Proof. unfold UnixSock.Bind, Win.Bind. rewrite c_int_i32 by done. by repeat psim_step. Qed.

Lemma Recvfrom_psim p flags : len p < 2147483648 →
  psim (UnixSock.Recvfrom fd p flags) (Win.Recvfrom fd p flags).
Proof.
  intros Hp. unfold UnixSock.Recvfrom, Win.Recvfrom. rewrite c_int_i32 by done.
  rewrite (i32_small (len p)) by (pose proof (len_nonneg p); lia).
  eapply psim_bind; [apply psim_pure|]. intros ? _. by repeat psim_step.
Qed.

Lemma Sendto_psim b flags a : len b < 2147483648 →
  psim (UnixSock.Sendto fd (Some b) flags (Some a)) (Win.Sendto fd (Some b) flags (Some a)).
Proof.
  intros Hb. unfold UnixSock.Sendto, Win.Sendto. rewrite c_int_i32 by done.
  cbn [pure]. change (Done ?a ≫= ?f) with (f a). cbv beta zeta. cbn [default from_option id].
  assert (cint_data b = b) as ->.
  { unfold cint_data. rewrite (i32_small (len b)) by (pose proof (len_nonneg b); lia).
    apply take_ge. unfold len. lia. }
  destruct b as [|x b]; [apply psim_crash|].
  change (idx (x :: b) 0) with (Ret x). cbn [pure]. change (Done ?a ≫= ?f) with (f a). cbv beta.
  by repeat psim_step.
Qed.

Lemma getIfAddr_psim ifn : psim (UnixSock.getIfAddr ParseIP ifn) (Win.getIfAddr ParseIP ifn).
Proof.
  unfold UnixSock.getIfAddr, Win.getIfAddr. destruct ifn as [i|]; [|by apply psim_done].
  psim_step. destruct (r_err r); [by apply psim_done|]. destruct (r_strs r); [by apply psim_done|].
  eapply psim_bind; [apply psim_pure|]. intros a _. by destruct (bool_decide _); apply psim_done.
Qed.

Lemma ReserveRecvBuf_psim : psim (UnixSock.ReserveRecvBuf fd) (Win.ReserveRecvBuf fd).
Proof.
  unfold UnixSock.ReserveRecvBuf, Win.ReserveRecvBuf.
  repeat (eapply psim_bind; [by auto using GetsockoptInt_psim, SetsockoptInt_psim|intros ? _]).
  by apply psim_done.
Qed.

Lemma ReserveSendBuf_psim : psim (UnixSock.ReserveSendBuf fd) (Win.ReserveSendBuf fd).
Proof.
  unfold UnixSock.ReserveSendBuf, Win.ReserveSendBuf.
  repeat (eapply psim_bind; [by auto using GetsockoptInt_psim, SetsockoptInt_psim|intros ? _]).
  by apply psim_done.
Qed.

Lemma JoinMulticast_psim maddr ifn :
  psim (UnixSock.JoinMulticast ParseIP fd maddr ifn) (Win.JoinMulticast ParseIP fd maddr ifn).
Proof.
  unfold UnixSock.JoinMulticast, Win.JoinMulticast, join_interface. rewrite c_int_i32 by done.
  eapply (psim_bind (λ _, True)); [|intros ? _; by repeat psim_step].
  destruct ifn as [i|].
  - eapply psim_bind; [apply getIfAddr_psim|]. intros [adr [e|]] _; by apply psim_done.
  - psim_step. by destruct (bool_decide _); apply psim_done.
Qed.

Lemma SetMulticastInterface_psim ifn :
  psim (UnixSock.SetMulticastInterface ParseIP fd ifn) (Win.SetMulticastInterface ParseIP fd ifn).
Proof.
  unfold UnixSock.SetMulticastInterface, Win.SetMulticastInterface. rewrite c_int_i32 by done.
  destruct ifn as [i|]; [|by apply psim_done]. eapply psim_bind; [apply getIfAddr_psim|].
  intros [adr [e|]] _; by repeat psim_step.
Qed.

Lemma SetMulticastLoop_psim b : psim (UnixSock.SetMulticastLoop fd b) (Win.SetMulticastLoop fd b).
Proof. by apply SetsockoptInt_psim. Qed.
End Wrappers.

(** ** What the simulation means

    Every run of the Unix program is matched by a run of the Windows program,
    and every run of the Windows program by one of the Unix program: the same
    replies apart from those of [WSACleanup], related calls, the same result. *)

(** A run: replies in, calls and result out. *)
Inductive runs {A} : prog A → trace → outcome A → Prop :=
| runs_done a : runs (Done a) [] (Ret a)
| runs_crash : runs Crash [] Panic
| runs_call c k r h o : c_int (r_ret r) → runs (k r) h o → runs (Invoke c k) ((c, r) :: h) o.

Definition is_cleanup (e : call * reply) : bool :=
  match e.1 with sys_WSACleanup => true | _ => false end.

Definition win_event (e e' : call * reply) : Prop := win_call e.1 e'.1 ∧ e.2 = e'.2.

Lemma psim_runs {A} (P : A → Prop) (p q : prog A) h o : psim_to P p q → runs p h o →
  ∃ h', runs q h' o ∧ Forall2 win_event h (filter (λ e, is_cleanup e = false) h').
Proof.
  intros Hs. revert h. induction Hs as [a _| |c c' k k' Hc _ IH|p k' _ IH]; intros h Hr.
  - inversion Hr; subst. exists []. split; [apply runs_done|done].
  - inversion Hr; subst. exists []. split; [apply runs_crash|done].
  - inversion Hr as [| |? ? r h1 ? Hint Hk]; subst. destruct (IH r Hint h1 Hk) as (h' & Hr' & Hf).
    exists ((c', r) :: h'). split; [by apply runs_call|].
    rewrite filter_cons_True by (by destruct Hc). by constructor.
  - destruct (IH (ret_reply 0) h Hr) as (h' & Hr' & Hf).
    exists ((sys_WSACleanup, ret_reply 0) :: h'). split; [by apply runs_call|].
    rewrite filter_cons_False; [done|]. cbn. done.
Qed.

Lemma psim_runs_back {A} (P : A → Prop) (p q : prog A) h' o : psim_to P p q → runs q h' o →
  ∃ h, runs p h o ∧ Forall2 win_event h (filter (λ e, is_cleanup e = false) h').
Proof.
  intros Hs. revert h'. induction Hs as [a _| |c c' k k' Hc _ IH|p k' _ IH]; intros h' Hr.
  - inversion Hr; subst. exists []. split; [apply runs_done|done].
  - inversion Hr; subst. exists []. split; [apply runs_crash|done].
  - inversion Hr as [| |? ? r h1 ? Hint Hk]; subst. destruct (IH r Hint h1 Hk) as (h & Hr' & Hf).
    exists ((c, r) :: h). split; [by apply runs_call|].
    rewrite filter_cons_True by (by destruct Hc). by constructor.
  - inversion Hr as [| |? ? r h1 ? Hint Hk]; subst. destruct (IH r h1 Hk) as (h & Hr' & Hf).
    exists h. split; [done|]. by rewrite filter_cons_False.
Qed.

Lemma exec_runs {A} (p : prog A) E h : (∀ h c, c_int (r_ret (E h c))) →
  ∃ h', exec E p h = ((exec E p h).1, h ++ h') ∧ runs p h' (exec E p h).1.
Proof.
  intros HE. revert h. induction p as [a| |c k IH]; intros h; cbn [exec].
  - exists []. rewrite app_nil_r. split; [done|apply runs_done].
  - exists []. rewrite app_nil_r. split; [done|apply runs_crash].
  - destruct (IH (E h c) (h ++ [(c, E h c)])) as (h' & -> & Hr). exists ((c, E h c) :: h').
    cbn [fst] in *. split; [by rewrite <- app_assoc|]. by apply runs_call.
Qed.
