(* ===== verification/Mcast.v ===== *)
(** * Multicast interfaces (src/mcast.go)

    What the parts of the program expect of each other around a multicast
    socket, as classes:

    - [SockApi]: the wrappers of system calls an interface is written against;
      src/socket.go and src/winsock.go are its two implementations;
    - [McastConn]: the Go interface the client is written against;
    - [Lifecycle] with [LifecycleSpec]: opening and closing, with the contract
      that every interface keeps.

    Also the registry of interfaces ([NewIf], [registerIf]). *)

From Stdlib Require Import Strings.Byte.
From S2P Require Import Prelude.
From S2P Require Import GoBytes.
From S2P Require Import NetAddr.
From S2P Require Import Codec.
From S2P Require Import Sys.
From S2P Require Import UnixSock.
From S2P Require Import WinSock.

(** ** The wrappers *)

Class SockApi := {
  api_Socket : Z → Z → Z → prog (Z * option error);
  api_Close : Z → prog (option error);
  api_Bind : Z → SockaddrInet4 → prog (option error);
  api_LocalAddr : Z → prog (option SockaddrInet4);
  api_Recvfrom : Z → list byte → Z → prog (Z * SockaddrInet4 * option error * list byte);
  api_Sendto : Z → option (list byte) → Z → option SockaddrInet4 → prog (Z * option error);
  api_SetsockoptInt : Z → level → optname → Z → prog (option error);
  api_ReserveRecvBuf : Z → prog unit;
  api_ReserveSendBuf : Z → prog unit;
  api_JoinMulticast : Z → list byte → option Interface → prog (option error);
  api_SetMulticastInterface : Z → option Interface → prog (option error);
  api_SetMulticastLoop : Z → bool → prog (option error)
}.

Definition unix_api `{Errnos} (ParseIP : gostring → list byte) : SockApi := {|
  api_Socket := UnixSock.Socket;
  api_Close := UnixSock.Close;
  api_Bind := UnixSock.Bind;
  api_LocalAddr := UnixSock.LocalAddr;
  api_Recvfrom := UnixSock.Recvfrom;
  api_Sendto := UnixSock.Sendto;
  api_SetsockoptInt := UnixSock.SetsockoptInt;
  api_ReserveRecvBuf := UnixSock.ReserveRecvBuf;
  api_ReserveSendBuf := UnixSock.ReserveSendBuf;
  api_JoinMulticast := UnixSock.JoinMulticast ParseIP;
  api_SetMulticastInterface := UnixSock.SetMulticastInterface ParseIP;
  api_SetMulticastLoop := UnixSock.SetMulticastLoop
|}.

Definition win_api `{Errnos} (ParseIP : gostring → list byte) : SockApi := {|
  api_Socket := Win.Socket;
  api_Close := Win.Close;
  api_Bind := Win.Bind;
  api_LocalAddr := Win.LocalAddr;
  api_Recvfrom := Win.Recvfrom;
  api_Sendto := Win.Sendto;
  api_SetsockoptInt := Win.SetsockoptInt;
  api_ReserveRecvBuf := Win.ReserveRecvBuf;
  api_ReserveSendBuf := Win.ReserveSendBuf;
  api_JoinMulticast := Win.JoinMulticast ParseIP;
  api_SetMulticastInterface := Win.SetMulticastInterface ParseIP;
  api_SetMulticastLoop := Win.SetMulticastLoop
|}.

(** A socket that is returned without an error is a file descriptor, and opening
    a socket does not panic. *)
Class SockApiSpec `{SockApi} : Prop := {
  api_Socket_fd d t p : wlp (api_Socket d t p) (λ '(fd, err), err = None → 0 <= fd);
  api_Socket_safe d t p : crashfree (api_Socket d t p);
  api_Close_safe fd : crashfree (api_Close fd);
  api_Bind_safe fd a : crashfree (api_Bind fd a);
  api_LocalAddr_safe fd : crashfree (api_LocalAddr fd);
  api_SetsockoptInt_safe fd l o v : crashfree (api_SetsockoptInt fd l o v);
  api_ReserveRecvBuf_safe fd : crashfree (api_ReserveRecvBuf fd);
  api_ReserveSendBuf_safe fd : crashfree (api_ReserveSendBuf fd);
  api_JoinMulticast_safe fd a ifn : crashfree (api_JoinMulticast fd a ifn);
  api_SetMulticastInterface_safe fd ifn : crashfree (api_SetMulticastInterface fd ifn);
  api_SetMulticastLoop_safe fd b : crashfree (api_SetMulticastLoop fd b)
}.
#[export] Hint Resolve api_Socket_safe api_Close_safe api_Bind_safe api_LocalAddr_safe
  api_SetsockoptInt_safe api_ReserveRecvBuf_safe api_ReserveSendBuf_safe api_JoinMulticast_safe
  api_SetMulticastInterface_safe api_SetMulticastLoop_safe : go.

(** [strings.Split] gives at least one part. *)
Lemma Split_head_safe sep s : crashfree (pure (idx (Split sep s) 0)).
Proof. pose proof (Split_ne sep s). by destruct (Split sep s). Qed.

Lemma unix_getIfAddr_safe ParseIP ifn : crashfree (UnixSock.getIfAddr ParseIP ifn).
Proof. unfold UnixSock.getIfAddr. crashfree_tac. apply Split_head_safe. Qed.

Lemma win_getIfAddr_safe ParseIP ifn : crashfree (Win.getIfAddr ParseIP ifn).
Proof. unfold Win.getIfAddr. crashfree_tac. apply Split_head_safe. Qed.

#[export] Hint Resolve Split_head_safe unix_getIfAddr_safe win_getIfAddr_safe : go.

(** The wrappers without code between their calls. *)
Ltac straight := solve [repeat intro; exact I].

Lemma unix_api_spec `{Errnos} ParseIP : @SockApiSpec (unix_api ParseIP).
Proof.
  split; intros; try straight.
  - intros r. cbn. unfold errno_if. by destruct (_ <? 0) eqn:E; zbool.
  - intros r. cbn. by destruct (_ <? 0).
  - change (crashfree (UnixSock.JoinMulticast ParseIP fd a ifn)).
    unfold UnixSock.JoinMulticast, join_interface. crashfree_tac.
  - change (crashfree (UnixSock.SetMulticastInterface ParseIP fd ifn)).
    unfold UnixSock.SetMulticastInterface. crashfree_tac.
Qed.

Lemma win_api_spec `{Errnos} ParseIP : @SockApiSpec (win_api ParseIP).
Proof.
  split; intros; try straight.
  - intros r. cbn. unfold errno_if. by destruct (_ <? 0) eqn:E; zbool.
  - intros r. cbn. by destruct (_ <? 0).
  - change (crashfree (Win.JoinMulticast ParseIP fd a ifn)). unfold Win.JoinMulticast. crashfree_tac.
  - change (crashfree (Win.SetMulticastInterface ParseIP fd ifn)). unfold Win.SetMulticastInterface. crashfree_tac.
Qed.

(** ** The interface of a connection *)

Definition maxBatch : Z := 32.
Definition HasMmsg : Z := 1.
Definition HasRingBuffer : Z := 2.

(** [McastConn], as far as the client reads from it ([Listen] of the ring is
    modelled with the ring).  The results of [Recv] are the count, the sender,
    the error, the buffer and the connection afterwards. *)
Class McastConn (C : Type) := {
  mc_Enabled : C → Z → bool;
  mc_Recv : C → list byte → prog (Z * option UDPAddr * option error * list byte * C);
  mc_MRecv : C → prog (list Packet * option UDPAddr * option error * C);
  mc_Send : C → option (list byte) → prog (Z * option error * C);
  mc_MSend : C → list Packet → prog (Z * option error * C)
}.

(** [net.UDPAddr] of a [SockaddrInet4]: [net.IPv4] of its octets. *)
Definition udp_of (a : SockaddrInet4) : UDPAddr := mkUDPAddr (v4InV6Prefix ++ sa_Addr a) (sa_Port a).

(** ** Opening and closing *)

Class Lifecycle (C : Type) := {
  lc_opened : C → bool;
  lc_reading : C → bool;
  lc_Open : C → list byte → Z → option Interface → prog (option error * C);
  lc_OpenSend : C → list byte → Z → bool → option Interface → prog (option error * C);
  lc_Close : C → prog (option error * C)
}.

Class LifecycleSpec (C : Type) `{Lifecycle C} := {
  lc_open_opened c ip port ifn : lc_opened c = true →
    lc_Open c ip port ifn = Done (Some errOpened, c);
  lc_opensend_opened c ip port bLoop ifn : lc_opened c = true →
    lc_OpenSend c ip port bLoop ifn = Done (Some errOpened, c);
  lc_close_closed c : lc_opened c = false → lc_Close c = Done (Some errClosed, c);
  lc_close_opened c : lc_opened c = true →
    wlp (lc_Close c) (λ '(_, c'), lc_opened c' = false ∧ lc_reading c' = lc_reading c);
  lc_open_closed c ip port ifn : lc_opened c = false →
    wlp (lc_Open c ip port ifn) (λ '(e, c'), e = None → lc_opened c' = true ∧ lc_reading c' = true);
  lc_opensend_closed c ip port bLoop ifn : lc_opened c = false →
    wlp (lc_OpenSend c ip port bLoop ifn) (λ '(e, c'), e = None → lc_opened c' = true ∧ lc_reading c' = false)
}.

(** Any sequence of calls, and what a user may rely on: an abstract machine
    that is closed, receives or sends.  After an opening that failed it may be
    in any state. *)
Inductive lc_op : Type :=
| OpOpen (ip : list byte) (port : Z) (ifn : option Interface)
| OpOpenSend (ip : list byte) (port : Z) (bLoop : bool) (ifn : option Interface)
| OpClose.

Inductive lc_state : Type := LcClosed | LcReading | LcSending.

Inductive lc_step : lc_op → lc_state → option error → lc_state → Prop :=
| lc_step_open ip port ifn : lc_step (OpOpen ip port ifn) LcClosed None LcReading
| lc_step_opensend ip port b ifn : lc_step (OpOpenSend ip port b ifn) LcClosed None LcSending
| lc_step_open_fails ip port ifn e s : lc_step (OpOpen ip port ifn) LcClosed (Some e) s
| lc_step_opensend_fails ip port b ifn e s : lc_step (OpOpenSend ip port b ifn) LcClosed (Some e) s
| lc_step_reopen ip port ifn s : s ≠ LcClosed → lc_step (OpOpen ip port ifn) s (Some errOpened) s
| lc_step_reopensend ip port b ifn s : s ≠ LcClosed → lc_step (OpOpenSend ip port b ifn) s (Some errOpened) s
| lc_step_close e s : s ≠ LcClosed → lc_step OpClose s e LcClosed
| lc_step_reclose : lc_step OpClose LcClosed (Some errClosed) LcClosed.

Inductive lc_steps : list lc_op → lc_state → list (option error) → lc_state → Prop :=
| lc_steps_nil s : lc_steps [] s [] s
| lc_steps_cons o os s e s' es s'' :
    lc_step o s e s' → lc_steps os s' es s'' → lc_steps (o :: os) s (e :: es) s''.

Section Lifecycles.
Context {C : Type} `{LifecycleSpec C}.

Definition lc_do (o : lc_op) (c : C) : prog (option error * C) :=
  match o with
  | OpOpen ip port ifn => lc_Open c ip port ifn
  | OpOpenSend ip port b ifn => lc_OpenSend c ip port b ifn
  | OpClose => lc_Close c
  end.

Fixpoint lc_run (os : list lc_op) (c : C) : prog (list (option error) * C) :=
  match os with
  | [] => Done ([], c)
  | o :: os' =>
      '(e, c) ← lc_do o c;
      '(es, c) ← lc_run os' c;
      Done (e :: es, c)
  end.

Definition lc_abs (c : C) : lc_state :=
  if lc_opened c then (if lc_reading c then LcReading else LcSending) else LcClosed.

Lemma lc_do_refines o c : wlp (lc_do o c) (λ '(e, c'), lc_step o (lc_abs c) e (lc_abs c')).
Proof.
  destruct (lc_opened c) eqn:Eo.
  - assert (lc_abs c ≠ LcClosed) as Hne by (unfold lc_abs; rewrite Eo; by destruct (lc_reading c)).
    destruct o as [ip port ifn|ip port b ifn|]; cbn [lc_do].
    + rewrite lc_open_opened by done. by apply lc_step_reopen.
    + rewrite lc_opensend_opened by done. by apply lc_step_reopensend.
    + eapply wlp_mono; [|by apply lc_close_opened]. intros [e c'] [Hc _].
      unfold lc_abs at 2. rewrite Hc. by apply lc_step_close.
  - assert (lc_abs c = LcClosed) as -> by (unfold lc_abs; by rewrite Eo).
    destruct o as [ip port ifn|ip port b ifn|]; cbn [lc_do].
    + eapply wlp_mono; [|by apply lc_open_closed]. intros [[e|] c'] Hc; [apply lc_step_open_fails|].
      destruct (Hc eq_refl) as [H1 H2]. unfold lc_abs. rewrite H1, H2. apply lc_step_open.
    + eapply wlp_mono; [|by apply lc_opensend_closed]. intros [[e|] c'] Hc; [apply lc_step_opensend_fails|].
      destruct (Hc eq_refl) as [H1 H2]. unfold lc_abs. rewrite H1, H2. apply lc_step_opensend.
    + rewrite lc_close_closed by done. cbn. unfold lc_abs. rewrite Eo. apply lc_step_reclose.
Qed.

Lemma lc_run_refines os c : wlp (lc_run os c) (λ '(es, c'), lc_steps os (lc_abs c) es (lc_abs c')).
Proof.
  revert c. induction os as [|o os IH]; intros c; cbn [lc_run]; [apply lc_steps_nil|].
  apply wlp_bind. eapply wlp_mono; [|apply lc_do_refines]. intros [e c1] H1. cbn beta iota.
  apply wlp_bind. eapply wlp_mono; [|apply IH]. intros [es c2] H2. by eapply lc_steps_cons.
Qed.
End Lifecycles.

(** Interfaces whose opening and closing never panic. *)
Class LifecycleSafe (C : Type) `{Lifecycle C} : Prop := {
  lc_Open_safe c ip port ifn : crashfree (lc_Open c ip port ifn);
  lc_OpenSend_safe c ip port b ifn : crashfree (lc_OpenSend c ip port b ifn);
  lc_Close_safe c : crashfree (lc_Close c)
}.
#[export] Hint Resolve lc_Open_safe lc_OpenSend_safe lc_Close_safe : go.

Lemma lc_run_safe {C} `{LifecycleSafe C} os (c : C) : crashfree (lc_run os c).
Proof. revert c. induction os as [|o os IH]; intros c; cbn [lc_run]; crashfree_tac. destruct o; cbn; auto with go. Qed.

(** ** The registry *)

(** The constructor functions that can be registered. *)
Inductive ifFuncType : Type := newNetIf | newSockIf | newZSockIf.

#[export] Instance byte_countable : Countable byte.
Proof.
  apply (inj_countable' (λ b : byte, Byte.to_N b) (λ n, default x00 (Byte.of_N n))).
  intros b. by rewrite Byte.of_to_N.
Defined.

Abbreviation ifFuncMap := (gmap gostring ifFuncType).

Definition registerIf (m : ifFuncMap) (ifName : gostring) (funcPtr : ifFuncType) : ifFuncMap :=
  <[ifName := funcPtr]> m.

Definition str_net : gostring := [x6e; x65; x74].
Definition str_sock : gostring := [x73; x6f; x63; x6b].
Definition str_socket : gostring := str_sock ++ [x65; x74].
Definition str_zsock : gostring := x7a :: str_sock.
Definition str_zsocket : gostring := x7a :: str_socket.

Definition NewIf (m : ifFuncMap) (netMode : gostring) : ifFuncType :=
  if bool_decide (netMode = str_net) then newNetIf
  else match m !! netMode with
       | Some funcPtr => funcPtr
       | None => newNetIf
       end.

(** The registrations of the [init] functions: src/sockif.go everywhere,
    src/zsockif.go on Linux. *)
Definition init_sockif (m : ifFuncMap) : ifFuncMap :=
  registerIf (registerIf m str_sock newSockIf) str_socket newSockIf.
Definition init_zsockif (m : ifFuncMap) : ifFuncMap :=
  registerIf (registerIf m str_zsock newZSockIf) str_zsocket newZSockIf.

(** The names that select an interface, for registrations in either order. *)
Lemma NewIf_linux mode :
  NewIf (init_zsockif (init_sockif ∅)) mode =
    (if bool_decide (mode = str_sock ∨ mode = str_socket) then newSockIf
     else if bool_decide (mode = str_zsock ∨ mode = str_zsocket) then newZSockIf else newNetIf) ∧
  NewIf (init_sockif (init_zsockif ∅)) mode = NewIf (init_zsockif (init_sockif ∅)) mode.
Proof.
  assert (Forall (λ n, n ≠ mode) [str_net; str_sock; str_socket; str_zsock; str_zsocket] ∨
    mode ∈ [str_net; str_sock; str_socket; str_zsock; str_zsocket]) as [Hn|Hin].
  { destruct (decide (mode ∈ [str_net; str_sock; str_socket; str_zsock; str_zsocket])) as [|Hn]; [by right|left].
    apply Forall_forall. intros n Hn' <-. done. }
  - repeat (apply Forall_cons in Hn as [? Hn]). unfold NewIf, init_zsockif, init_sockif, registerIf.
    rewrite !lookup_insert_ne, lookup_empty by done.
    by rewrite !bool_decide_eq_false_2 by (intros Hor; destruct_or? Hor; congruence).
  - rewrite !elem_of_cons, elem_of_nil in Hin. destruct Hin as [->|[->|[->|[->|[->|[]]]]]]; done.
Qed.
