(* ===== verification/ClientOpen.v ===== *)
(** * Opening and closing a client (src/client.go)

    [NewClient] and [Close] over any interface ([Lifecycle]).  The client holds a
    pointer to its interface; the state behind the pointer is kept beside the
    client.  [net.ParseIP], [net.InterfaceByName] and [to.Int] are parameters. *)

From Stdlib Require Import Strings.Byte.
From S2P Require Import Prelude.
From S2P Require Import GoBytes.
From S2P Require Import NetAddr.
From S2P Require Import Codec.
From S2P Require Import Sys.
From S2P Require Import Mcast.
From S2P Require Import MsgCache.
From S2P Require Import Client.
From S2P Require Import ClientLemmas.
From S2P Require Import Delivery.

(** ** Options *)

Record Option : Type := mkOption {
  Srvs : list gostring;
  IfName : gostring;
  NextSeq : Z
}.

Section Open.
Context {C Cache : Type} `{Lifecycle C} `{SeqCache Cache}.
Context (ParseIP : gostring → list byte) (InterfaceByName : gostring → option Interface).
Context (toInt : gostring → Z).
Abbreviation client := (Client unit Cache).

(** The request server of an entry [host[:port]] of [Srvs]. *)
Definition parse_srv (port : Z) (daddr : gostring) : outcome UDPAddr :=
  let ss := Split x3a daddr in
  host ← idx ss 0;
  if len ss =? 1 then Ret (mkUDPAddr (ParseIP host) port)
  else
    p ← idx ss 1;
    Ret (mkUDPAddr (ParseIP host) (toInt p)).

Fixpoint parse_srvs (port : Z) (srvs : list gostring) : outcome (list UDPAddr) :=
  match srvs with
  | [] => Ret []
  | d :: srvs' => a ← parse_srv port d; r ← parse_srvs port srvs'; Ret (a :: r)
  end.

(** [NewClient] at time [now], up to the start of the goroutines. *)
Definition NewClient (udpAddr : gostring) (port : Z) (opt : Option) (cn : C) (now : Z)
    : prog ((error + client) * C) :=
  let ip := ParseIP udpAddr in
  let ip := if IsMulticast ip then ip else IPv4 xe0 x00 x00 x01 in
  let ifn := if bool_decide (IfName opt = []) then None else InterfaceByName (IfName opt) in
  '(err, cn) ← lc_Open cn ip port ifn;
  match err with
  | Some e => Done (inl e, cn)
  | None =>
      srvs ← pure (parse_srvs port (Srvs opt));
      Done (inr (newClientState tt (NextSeq opt) ip port srvs now), cn)
  end.

(** [Close]. *)
Definition Close (c : client) (cn : C) : prog (option error * client * C) :=
  match conn c with
  | None => Done (Some errClosed, c, cn)
  | Some _ =>
      '(err, cn) ← lc_Close cn;
      let c := c <| conn := None |> in
      let c := match connReq c with Some _ => c <| connReq := None |> | None => c end in
      Done (err, c, cn)
  end.
End Open.

(** ** Lemmas *)

Section OpenLemmas.
Context (ParseIP : gostring → list byte) (toInt : gostring → Z).

Lemma parse_srv_returns port d : returns (parse_srv ParseIP toInt port d).
Proof.
  unfold parse_srv. pose proof (Split_ne x3a d) as Hne. destruct (Split x3a d) as [|h [|p ps]]; [done|..].
  - by eexists.
  - unfold idx. cbn [Z.leb Z.compare Z.to_nat lookup list_lookup mbind outcome_mbind].
    autorewrite with golen. zcase; by eexists.
Qed.

Lemma parse_srvs_returns port l : ∃ r, parse_srvs ParseIP toInt port l = Ret r ∧ length r = length l.
Proof.
  induction l as [|d l (r & IH & Hl)]; [by exists []|]. cbn [parse_srvs].
  destruct (parse_srv_returns port d) as [a ->]. cbn. rewrite IH. cbn. eexists. split; [done|]. cbn. lia.
Qed.
End OpenLemmas.

(** ** Properties *)

(** Opening a client.  [NewClient] opens the interface on a multicast group
    whatever address is given (224.0.0.1 when it is not one), and does what
    opening it does: it fails exactly with the error of opening, and panics when
    opening does.  The client it returns is in the initial state of the
    delivery theorems: it expects message [NextSeq] (1 when that is 0), has one
    request server per entry, and has received nothing. *)
Lemma NewClient_opens {C Cache : Type} `{Lifecycle C} `{SeqCache Cache}
    (ParseIP : gostring → list byte) (InterfaceByName : gostring → option Interface) (toInt : gostring → Z)
    udpAddr port opt (cn : C) now E h :
  ∃ ip ifn srvs, IsMulticast ip = true ∧ (IsMulticast (ParseIP udpAddr) = true → ip = ParseIP udpAddr) ∧
    (IfName opt = [] → ifn = None) ∧ length srvs = length (Srvs opt) ∧
    exec E (NewClient (Cache := Cache) ParseIP InterfaceByName toInt udpAddr port opt cn now) h =
      match exec E (lc_Open cn ip port ifn) h with
      | (Ret (Some e, cn'), h') => (Ret (inl e, cn'), h')
      | (Ret (None, cn'), h') => (Ret (inr (newClientState tt (NextSeq opt) ip port srvs now), cn'), h')
      | (Panic, h') => (Panic, h')
      | (Diverge, h') => (Diverge, h')
      end.
Proof.
  destruct (parse_srvs_returns ParseIP toInt port (Srvs opt)) as (srvs & Es & Hl).
  exists (if IsMulticast (ParseIP udpAddr) then ParseIP udpAddr else IPv4 xe0 x00 x00 x01),
    (if bool_decide (IfName opt = []) then None else InterfaceByName (IfName opt)), srvs.
  split; [by destruct (IsMulticast (ParseIP udpAddr)) eqn:E1|].
  split; [by intros ->|]. split; [by intros ->|]. split; [done|].
  unfold NewClient. rewrite exec_bind. destruct (exec E (lc_Open _ _ _ _) h) as [[[[e|] cn']| |] h']; try done.
  rewrite Es. done.
Qed.

(** Request servers.  An entry [host:port] gives the server at that port, an
    entry without a port the server at the client's own port. *)
Lemma parse_srv_ports ParseIP toInt port host p
    (Hh : x3a ∉ host) (Hp : x3a ∉ p) :
  parse_srv ParseIP toInt port host = Ret (mkUDPAddr (ParseIP host) port) ∧
  parse_srv ParseIP toInt port (host ++ x3a :: p) = Ret (mkUDPAddr (ParseIP host) (toInt p)).
Proof. unfold parse_srv. by rewrite Split_one, Split_two by done. Qed.

(** Closing.  The first [Close] closes the connection and forgets it and the
    request socket; any further [Close] returns [errClosed] and changes nothing. *)
Lemma Close_once {C Cache : Type} `{Lifecycle C} `{SeqCache Cache} (c : Client unit Cache) (cn : C) :
  conn c = Some tt →
  wlp (Close c cn) (λ '(_, c', cn'), conn c' = None ∧ connReq c' = None ∧
    c' = c <| conn := None |> <| connReq := None |> ∧ Close c' cn' = Done (Some errClosed, c', cn')).
Proof.
  intros Hcn. unfold Close at 1. rewrite Hcn. apply wlp_bind, wlp_true. intros [err cn']. cbn [connReq update].
  destruct c as [ip port req k]; cbn in *. by destruct req.
Qed.
