(* ===== verification/NetIf.v ===== *)
(** * The interface over package net (src/mcast.go)

    [netIf]: a [net.UDPConn] for receiving or sending.  A connection is a
    handle; methods called on the nil connection are passed on as such. *)

From Stdlib Require Import Strings.Byte.
From S2P Require Import Prelude.
From S2P Require Import GoBytes.
From S2P Require Import NetAddr.
From S2P Require Import Codec.
From S2P Require Import Sys.
From S2P Require Import UnixSock.
From S2P Require Import Mcast.

Record netIf : Type := mkNetIf {
  nf_bRead : bool;
  nf_conn : option Z;
  nf_adr : UDPAddr
}.
#[export] Instance netIf_eta : Eta netIf := λ c, mkNetIf (nf_bRead c) (nf_conn c) (nf_adr c).

(** [newNetIf]: the zero struct. *)
Definition newNetIf : netIf := mkNetIf false None (mkUDPAddr [] 0).

Definition Enabled (c : netIf) (opts : Z) : bool := false.

Definition Close (c : netIf) : prog (option error * netIf) :=
  match nf_conn c with
  | None => Done (Some errClosed, c)
  | Some k =>
      r ← sys (net_Close k);
      Done (r_err r, c <| nf_conn := None |>)
  end.

(** [c.conn.File()] and [Fd]: -1 when there is no file. *)
Definition conn_fd (k : Z) : prog Z :=
  r ← sys (net_File k);
  Done (match r_err r with None => r_ret r | Some _ => -1 end).

Section Api.
Context `{SockApi}.

Definition Open (c : netIf) (ip : list byte) (port : Z) (ifn : option Interface)
    : prog (option error * netIf) :=
  match nf_conn c with
  | Some _ => Done (Some errOpened, c)
  | None =>
      r ← sys (net_ListenUDP (mkUDPAddr IPv4zero port));
      match r_err r with
      | Some e => Done (Some e, c <| nf_conn := None |>)
      | None =>
          let k := r_ret r in
          let c := c <| nf_conn := Some k |> <| nf_bRead := true |> <| nf_adr := mkUDPAddr ip port |> in
          fd ← conn_fd k;
          _ ← (if 0 <=? fd then api_ReserveRecvBuf fd else Done tt);
          _ ← api_JoinMulticast fd (default [] (To4 ip)) ifn;
          Done (None, c)
      end
  end.

Definition OpenSend (c : netIf) (ip : list byte) (port : Z) (bLoop : bool) (ifn : option Interface)
    : prog (option error * netIf) :=
  match nf_conn c with
  | Some _ => Done (Some errOpened, c)
  | None =>
      let lport := if bLoop then 0 else port in
      r ← sys (net_ListenUDP (mkUDPAddr IPv4zero lport));
      match r_err r with
      | Some e => Done (Some e, c <| nf_conn := None |>)
      | None =>
          let k := r_ret r in
          let c := c <| nf_conn := Some k |> <| nf_bRead := false |> <| nf_adr := mkUDPAddr ip port |> in
          fd ← conn_fd k;
          _ ← (if 0 <=? fd then api_ReserveSendBuf fd else Done tt);
          _ ← api_SetMulticastInterface fd ifn;
          _ ← (if bLoop then api_SetMulticastLoop fd true else Done None);
          Done (None, c)
      end
  end.
End Api.

Definition Send (c : netIf) (buff : option (list byte)) : prog (Z * option error * netIf) :=
  if nf_bRead c then Done (0, Some errModeRW, c)
  else
    r ← sys (net_WriteToUDP (nf_conn c) buff (nf_adr c));
    Done (r_ret r, r_err r, c).

(** [ReadFromUDP] stores the datagram in the buffer. *)
Definition Recv (c : netIf) (buff : list byte)
    : prog (Z * option UDPAddr * option error * list byte * netIf) :=
  if negb (nf_bRead c) then Done (0, None, Some errModeRW, buff, c)
  else
    r ← sys (net_ReadFromUDP (nf_conn c) (len buff));
    Done (r_ret r, r_udp r, r_err r, go_copy buff (r_data r), c).

Definition MSend (c : netIf) (buffs : list Packet) : prog (Z * option error * netIf) :=
  Done (0, Some errNotSupport, c).

Definition MRecv (c : netIf) : prog (list Packet * option UDPAddr * option error * netIf) :=
  Done ([], None, Some errNotSupport, c).

#[export] Instance netIf_conn : McastConn netIf := {|
  mc_Enabled := Enabled;
  mc_Recv := Recv;
  mc_MRecv := MRecv;
  mc_Send := Send;
  mc_MSend := MSend
|}.

#[export] Instance netIf_lifecycle `{SockApi} : Lifecycle netIf := {|
  lc_opened := λ c, bool_decide (is_Some (nf_conn c));
  lc_reading := nf_bRead;
  lc_Open := Open;
  lc_OpenSend := OpenSend;
  lc_Close := Close
|}.

#[export] Instance netIf_lifecycle_spec `{SockApi} : LifecycleSpec netIf.
Proof.
  split; cbn; unfold Open, OpenSend, Close.
  - intros c ip port ifn Ho. apply bool_decide_eq_true in Ho as [k ->]. done.
  - intros c ip port b ifn Ho. apply bool_decide_eq_true in Ho as [k ->]. done.
  - intros c Ho. apply bool_decide_eq_false, eq_None_not_Some in Ho. by rewrite Ho.
  - intros c Ho. apply bool_decide_eq_true in Ho as [k ->]. done.
  - intros c ip port ifn Ho. apply bool_decide_eq_false, eq_None_not_Some in Ho. rewrite Ho.
    apply wlp_bind. intros r. cbn [wlp]. destruct (r_err r); [done|].
    repeat (apply wlp_bind, wlp_true; intros ?). done.
  - intros c ip port b ifn Ho. apply bool_decide_eq_false, eq_None_not_Some in Ho. rewrite Ho.
    apply wlp_bind. intros r. cbn [wlp]. destruct (r_err r); [done|].
    repeat (apply wlp_bind, wlp_true; intros ?). done.
Qed.

#[export] Instance netIf_lifecycle_safe `{SockApiSpec} : LifecycleSafe netIf.
Proof. split; intros; cbn; unfold Open, OpenSend, Close, conn_fd; crashfree_tac. Qed.
