(* ===== verification/SockIf.v ===== *)
(** * The socket interface (src/sockif.go, src/sockif_linux.go, src/sockif_notlnx.go)

    [sockIf]: a UDP socket used through the wrappers of system calls ([SockApi]),
    with batches ([Recvmmsg], [Sendmmsg]) on Linux. *)

From Stdlib Require Import Strings.Byte.
From S2P Require Import Prelude.
From S2P Require Import GoBytes.
From S2P Require Import NetAddr.
From S2P Require Import Codec.
From S2P Require Import Sys.
From S2P Require Import UnixSock.
From S2P Require Import Mcast.

Record sockIf : Type := mkSockIf {
  si_dst : SockaddrInet4;
  si_fd : Z;
  si_bRead : bool;
  si_buffs : list Packet
}.
#[export] Instance sockIf_eta : Eta sockIf := λ c,
  mkSockIf (si_dst c) (si_fd c) (si_bRead c) (si_buffs c).

Definition zero_addr : list byte := [x00; x00; x00; x00].

Definition newSockIf : sockIf :=
  mkSockIf (mkSockaddrInet4 0 zero_addr) (-1) false (replicate (Z.to_nat maxBatch) []).

(** [copy(c.dst.Addr[:], ip.To4())] and [c.dst.Port = port]. *)
Definition set_dst (c : sockIf) (ip : list byte) (port : Z) : sockIf :=
  c <| si_dst := mkSockaddrInet4 port (go_copy (sa_Addr (si_dst c)) (default [] (To4 ip))) |>.

Section Api.
Context `{SockApi}.

Definition Close (c : sockIf) : prog (option error * sockIf) :=
  if si_fd c <? 0 then Done (Some errClosed, c)
  else
    err ← api_Close (si_fd c);
    Done (err, c <| si_fd := -1 |>).

Definition Open (c : sockIf) (ip : list byte) (port : Z) (ifn : option Interface)
    : prog (option error * sockIf) :=
  if 0 <=? si_fd c then Done (Some errOpened, c)
  else
    let c := set_dst c ip port in
    '(fd, err) ← api_Socket AF_INET SOCK_DGRAM 0;
    let c := c <| si_fd := fd |> in
    match err with
    | Some e => Done (Some e, c)
    | None =>
        _ ← api_ReserveRecvBuf fd;
        _ ← api_SetsockoptInt fd SOL_SOCKET SO_REUSEADDR 1;
        err ← api_Bind fd (mkSockaddrInet4 port zero_addr);
        match err with
        | Some e =>
            _ ← api_Close fd;
            Done (Some e, c)
        | None =>
            let c := c <| si_bRead := true |> in
            _ ← api_JoinMulticast fd (sa_Addr (si_dst c)) ifn;
            Done (None, c <| si_buffs := replicate (Z.to_nat maxBatch) (replicate (Z.to_nat 2048) x00) |>)
        end
    end.

(** The error of setting the loopback option is returned, the one of setting
    the interface only logged. *)
Definition OpenSend (c : sockIf) (ip : list byte) (port : Z) (bLoop : bool) (ifn : option Interface)
    : prog (option error * sockIf) :=
  if 0 <=? si_fd c then Done (Some errOpened, c)
  else
    let c := set_dst c ip port in
    '(fd, err) ← api_Socket AF_INET SOCK_DGRAM 0;
    let c := c <| si_fd := fd |> in
    match err with
    | Some e => Done (Some e, c)
    | None =>
        _ ← api_SetsockoptInt fd SOL_SOCKET SO_REUSEADDR 1;
        let lport := if bLoop then 0 else port in
        err ← api_Bind fd (mkSockaddrInet4 lport zero_addr);
        match err with
        | Some e =>
            _ ← api_Close fd;
            Done (Some e, c)
        | None =>
            let c := c <| si_bRead := false |> in
            _ ← api_LocalAddr fd;
            _ ← api_ReserveSendBuf fd;
            _ ← api_SetMulticastInterface fd ifn;
            err ← (if bLoop then api_SetMulticastLoop fd true else Done None);
            Done (err, c)
        end
    end.

Definition Recv (c : sockIf) (buff : list byte)
    : prog (Z * option UDPAddr * option error * list byte * sockIf) :=
  if negb (si_bRead c) then Done (0, None, Some errModeRW, buff, c)
  else
    '(n, remoteAddr, err, buff) ← api_Recvfrom (si_fd c) buff 0;
    match err with
    | Some e => Done (0, None, Some e, buff, c)
    | None => Done (n, Some (udp_of remoteAddr), None, buff, c)
    end.

Definition Send (c : sockIf) (buff : option (list byte)) : prog (Z * option error * sockIf) :=
  if si_bRead c then Done (0, Some errModeRW, c)
  else
    '(n, err) ← api_Sendto (si_fd c) buff 0 (Some (si_dst c));
    Done (n, err, c).

(** ** Batches on Linux *)

Definition Enabled (c : sockIf) (opts : Z) : bool := negb (Z.land opts HasMmsg =? 0).

Definition MSend (c : sockIf) (buffs : list Packet) : prog (Z * option error * sockIf) :=
  if si_bRead c then Done (0, Some errModeRW, c)
  else
    '(n, err) ← Sendmmsg (si_fd c) buffs (si_dst c);
    Done (n, err, c).

(** [MRecv]: the slices handed out share the octets of [c.buffs], which the
    next call overwrites. *)
Definition MRecv `{Errnos} (c : sockIf)
    : prog (list Packet * option UDPAddr * option error * sockIf) :=
  if negb (si_bRead c) then Done ([], None, Some errModeRW, c)
  else
    let bufs := go_copy (replicate (Z.to_nat maxBatch) []) (si_buffs c) in
    '(n, remoteAddr, err, bufs, mem) ← Recvmmsg (si_fd c) bufs 0;
    let c := c <| si_buffs := mem |> in
    match err with
    | Some e => Done ([], None, Some e, c)
    | None =>
        if n =? 0 then Done ([], None, None, c)
        else
          bufs ← pure (slice 0 n bufs);
          Done (bufs, Some (udp_of remoteAddr), None, c)
    end.

End Api.

(** ** Elsewhere *)

Module NotLinux.

Definition Enabled (c : sockIf) (opts : Z) : bool := false.

Definition MSend (c : sockIf) (buffs : list Packet) : prog (Z * option error * sockIf) :=
  if si_bRead c then Done (0, Some errModeRW, c) else Done (0, Some errNotSupport, c).

Definition MRecv (c : sockIf) : prog (list Packet * option UDPAddr * option error * sockIf) :=
  if negb (si_bRead c) then Done ([], None, Some errModeRW, c)
  else Done ([], None, Some errNotSupport, c).
End NotLinux.

Definition sockIf_linux `{SockApi} `{Errnos} : McastConn sockIf := {|
  mc_Enabled := Enabled;
  mc_Recv := Recv;
  mc_MRecv := MRecv;
  mc_Send := Send;
  mc_MSend := MSend
|}.

Definition sockIf_notlnx `{SockApi} : McastConn sockIf := {|
  mc_Enabled := NotLinux.Enabled;
  mc_Recv := Recv;
  mc_MRecv := NotLinux.MRecv;
  mc_Send := Send;
  mc_MSend := NotLinux.MSend
|}.

#[export] Instance sockIf_lifecycle `{SockApi} : Lifecycle sockIf := {|
  lc_opened := λ c, 0 <=? si_fd c;
  lc_reading := si_bRead;
  lc_Open := Open;
  lc_OpenSend := OpenSend;
  lc_Close := Close
|}.

#[export] Instance sockIf_lifecycle_spec `{SockApiSpec} : LifecycleSpec sockIf.
Proof.
  split; cbn; unfold Open, OpenSend, Close.
  - intros c ip port ifn ->. done.
  - intros c ip port b ifn ->. done.
  - intros c Ho. zbool. by rewrite (proj2 (Z.ltb_lt _ _)).
  - intros c Ho. zbool. rewrite (proj2 (Z.ltb_ge _ _)) by done. apply wlp_bind, wlp_true. done.
  - intros c ip port ifn ->. apply wlp_bind. eapply wlp_mono; [|apply api_Socket_fd].
    intros [fd [e|]] Hfd; [done|]. specialize (Hfd eq_refl). do 2 (apply wlp_bind, wlp_true; intros ?).
    apply wlp_bind, wlp_true. intros [e|]; apply wlp_bind, wlp_true; intros ?; [done|].
    cbn. intros _. split; [by apply Z.leb_le|done].
  - intros c ip port b ifn ->. apply wlp_bind. eapply wlp_mono; [|apply api_Socket_fd].
    intros [fd [e|]] Hfd; [done|]. specialize (Hfd eq_refl). apply wlp_bind, wlp_true. intros ?.
    apply wlp_bind, wlp_true. intros [e|]; [by apply wlp_bind, wlp_true|].
    repeat (apply wlp_bind, wlp_true; intros ?). cbn. intros _. split; [by apply Z.leb_le|done].
Qed.

#[export] Instance sockIf_lifecycle_safe `{SockApiSpec} : LifecycleSafe sockIf.
Proof. split; intros; cbn; unfold Open, OpenSend, Close; crashfree_tac. Qed.
