(* ===== verification/McastProps.v ===== *)
(** * Properties of the multicast interfaces

    The contract of opening and closing, what opening a socket interface asks of
    the system on each path, batches of datagrams, and the equivalence of the
    interface on Windows with the one on Unix. *)

From Stdlib Require Import Strings.Byte.
From S2P Require Import Prelude.
From S2P Require Import GoBytes.
From S2P Require Import NetAddr.
From S2P Require Import Codec.
From S2P Require Import Sys.
From S2P Require Import UnixSock.
From S2P Require Import UnixSockProps.
From S2P Require Import WinSock.
From S2P Require Import Mcast.
From S2P Require Import NetIf.
From S2P Require Import SockIf.

(** ** Opening and closing *)

Lemma lc_run_exec {C} `{LifecycleSpec C} `{!LifecycleSafe C} os (c : C) E : lc_opened c = false →
  ∃ es c' h, exec E (lc_run os c) [] = (Ret (es, c'), h) ∧ lc_steps os LcClosed es (lc_abs c').
Proof.
  intros Ho. destruct (crashfree_exec (lc_run os c) E [] (lc_run_safe os c)) as ([es c'] & h & He).
  exists es, c', h. split; [done|].
  assert (lc_abs c = LcClosed) as <- by (unfold lc_abs; by rewrite Ho).
  exact (wlp_exec _ _ _ _ _ _ (lc_run_refines os c) He).
Qed.

(** C16: the contract of opening and closing.  Whatever the system answers, any
    sequence of [Open], [OpenSend] and [Close] on a new [netIf] or [sockIf], over
    the wrappers of Unix or of Windows, runs through without a panic and
    answers as an abstract machine does: opening a closed interface makes it
    receive or send when it succeeds, opening it again is refused with
    [errOpened], closing an open one closes it, closing a closed one is refused
    with [errClosed]. *)
Theorem lifecycle_contract `{Errnos} ParseIP os E :
  (∃ es c h, exec E (@lc_run _ (@netIf_lifecycle (unix_api ParseIP)) os NetIf.newNetIf) [] = (Ret (es, c), h) ∧
     lc_steps os LcClosed es (@lc_abs _ (@netIf_lifecycle (unix_api ParseIP)) c)) ∧
  (∃ es c h, exec E (@lc_run _ (@netIf_lifecycle (win_api ParseIP)) os NetIf.newNetIf) [] = (Ret (es, c), h) ∧
     lc_steps os LcClosed es (@lc_abs _ (@netIf_lifecycle (win_api ParseIP)) c)) ∧
  (∃ es c h, exec E (@lc_run _ (@sockIf_lifecycle (unix_api ParseIP)) os SockIf.newSockIf) [] = (Ret (es, c), h) ∧
     lc_steps os LcClosed es (@lc_abs _ (@sockIf_lifecycle (unix_api ParseIP)) c)) ∧
  (∃ es c h, exec E (@lc_run _ (@sockIf_lifecycle (win_api ParseIP)) os SockIf.newSockIf) [] = (Ret (es, c), h) ∧
     lc_steps os LcClosed es (@lc_abs _ (@sockIf_lifecycle (win_api ParseIP)) c)).
Proof.
  pose proof (unix_api_spec ParseIP). pose proof (win_api_spec ParseIP).
  split_and!; by apply lc_run_exec.
Qed.

(** ** The socket interface on Unix *)

Section Unix.
Context `{Errnos} (ParseIP : gostring → list byte).
#[local] Instance the_api : SockApi := unix_api ParseIP.

(** The calls of [Open] between [socket] and [bind]. *)
Definition open_prep (fd : Z) : list call :=
  [sys_getsockopt fd SOL_SOCKET SO_RCVBUF 8;
   sys_setsockopt fd SOL_SOCKET SO_RCVBUF (take 4 (le_put 8 4194304));
   sys_getsockopt fd SOL_SOCKET SO_RCVBUF 8;
   sys_setsockopt fd SOL_SOCKET SO_REUSEADDR (take 4 (le_put 8 1))].

Definition bind_call (fd port : Z) : call := sys_bind fd (Sin (newSockaddrIn port zero_addr)).

(** The call that finds the interface to join on. *)
Definition iface_call (ifn : option Interface) : call :=
  match ifn with Some i => net_Addrs (ifi_Index i) | None => os_Getenv LADDR end.

(** The interface after a successful [Open]. *)
Definition opened_reading (c : sockIf) (fd : Z) : sockIf :=
  c <| si_fd := fd |> <| si_bRead := true |>
    <| si_buffs := replicate (Z.to_nat maxBatch) (replicate (Z.to_nat 2048) x00) |>.

(** What [Open] may have done, from its calls and its replies. *)
Inductive open_outcome (c : sockIf) (ip : list byte) (port : Z) (ifn : option Interface)
  : trace → option error → sockIf → Prop :=
| open_no_socket r : r_ret r < 0 →
    open_outcome c ip port ifn [(sys_socket AF_INET SOCK_DGRAM 0, r)] (Some (Errno (r_errno r)))
      ((set_dst c ip port) <| si_fd := r_ret r |>)
| open_no_bind r h rb rc : 0 <= r_ret r → r_ret rb < 0 →
    calls h = open_prep (i32 (r_ret r)) →
    open_outcome c ip port ifn
      ((sys_socket AF_INET SOCK_DGRAM 0, r) :: h ++
       [(bind_call (i32 (r_ret r)) port, rb); (sys_close (i32 (r_ret r)), rc)])
      (Some (Errno (r_errno rb))) ((set_dst c ip port) <| si_fd := r_ret r |>)
| open_ok r h rb rq rj : 0 <= r_ret r → 0 <= r_ret rb →
    calls h = open_prep (i32 (r_ret r)) →
    open_outcome c ip port ifn
      ((sys_socket AF_INET SOCK_DGRAM 0, r) :: h ++
       [(bind_call (i32 (r_ret r)) port, rb); (iface_call ifn, rq);
        (sys_setsockopt (i32 (r_ret r)) IPPROTO_IP IP_ADD_MEMBERSHIP
           (octets4 (sa_Addr (si_dst (set_dst c ip port))) ++ iface_of ParseIP ifn rq), rj)])
      None (opened_reading (set_dst c ip port) (r_ret r)).

Lemma Open_wp c ip port ifn law : si_fd c < 0 →
  wp law (SockIf.Open c ip port ifn) [] (λ '(e, c') h, open_outcome c ip port ifn h e c').
Proof.
  intros Hfd. unfold SockIf.Open. rewrite (proj2 (Z.leb_gt 0 (si_fd c))) by done. cbv zeta.
  cbn [api_Socket the_api unix_api]. unfold UnixSock.Socket. cbn -[UnixSock.JoinMulticast errno_if].
  intros r _. unfold errno_if at 1. destruct (r_ret r <? 0) eqn:Er; zbool; cbn -[UnixSock.JoinMulticast errno_if].
  { by apply open_no_socket. }
  intros r1 _ r2 _ r3 _ r4 _ rb _. unfold errno_if at 1.
  destruct (r_ret rb <? 0) eqn:Eb; zbool; cbn -[UnixSock.JoinMulticast errno_if].
  { intros rc _. by apply (open_no_bind c ip port ifn r
      [(_, r1); (_, r2); (_, r3); (_, r4)] rb rc). }
  apply wp_bind, JoinMulticast_spec. intros rq rj. cbn -[octets4 iface_of].
  by apply (open_ok c ip port ifn r [(_, r1); (_, r2); (_, r3); (_, r4)] rb rq rj).
Qed.

(** A system in which sockets get the descriptor [fd] and [bind] fails. *)
Definition bind_fails (fd : Z) : trace → call → reply → Prop := λ _ c r,
  match c with
  | sys_socket _ _ _ => r_ret r = fd
  | sys_bind _ _ => r_ret r < 0
  | _ => True
  end.

(** A failed [bind] leaves the closed descriptor in the interface. *)
Lemma Open_bind_fails c ip port ifn fd : si_fd c < 0 → 0 <= fd < 2147483648 →
  wp (bind_fails fd) (SockIf.Open c ip port ifn) [] (λ '(e, c') h, e ≠ None ∧ si_fd c' = fd ∧
    calls h = sys_socket AF_INET SOCK_DGRAM 0 :: open_prep fd ++ [bind_call fd port; sys_close fd]).
Proof.
  intros Hc Hfd.
  eapply wp_mono; [|apply (wp_lawful _ (λ ev, bind_fails fd [] ev.1 ev.2)); [done|done|by apply Open_wp]].
  intros [e c'] h [Ho Hl].
  destruct Ho as [r Hr|r h rb rc Hr Hb Hh|r h rb rq rj Hr Hb Hh]; apply Forall_cons in Hl as [Hs Hl]; cbn in Hs.
  - lia.
  - split; [done|]. split; [done|].
    rewrite Hs, i32_small in * by lia. unfold calls in *. by rewrite fmap_cons, fmap_app, Hh.
  - apply Forall_app in Hl as [_ Hl]. apply Forall_cons in Hl as [Hl _]. cbn in Hl. lia.
Qed.

(** After that, [Open] is refused, and [Close] closes the number again. *)
Lemma reopen_reclose c ip port ifn fd : 0 <= fd < 2147483648 → si_fd c = fd →
  SockIf.Open c ip port ifn = Done (Some errOpened, c) ∧
  SockIf.Close c = (r ← sys (sys_close fd); Done (errno_if (r_ret r <? 0) r, c <| si_fd := -1 |>)).
Proof.
  intros Hfd Hc. unfold SockIf.Open, SockIf.Close. rewrite Hc.
  rewrite (proj2 (Z.leb_le 0 fd)), (proj2 (Z.ltb_ge fd 0)) by lia. split; [done|].
  cbn [api_Close the_api unix_api]. unfold UnixSock.Close. by rewrite i32_small by lia.
Qed.

(** ** Batches *)

(** The receive buffers: 32 of 2048 octets. *)
Definition bufs_ok (c : sockIf) : Prop :=
  length (si_buffs c) = 32%nat ∧ Forall (λ b, length b = Z.to_nat 2048) (si_buffs c).

Lemma bufs_ok_opened c fd : bufs_ok (opened_reading c fd).
Proof. split; [done|]. apply Forall_replicate. apply length_replicate. Qed.

Lemma store_msgs_lengths bufs msgs n : Forall (λ b, length b = n) bufs →
  Forall (λ b, length b = n) (store_msgs bufs msgs).
Proof.
  intros Hb. revert msgs. induction Hb as [|b bufs Hb Hbs IH]; intros [|m msgs]; cbn; auto.
  constructor; [by rewrite length_go_copy|apply IH].
Qed.

Lemma MRecv_wp c h : si_bRead c = true → bufs_ok c →
  wp kernel_recvmmsg (SockIf.MRecv c) h (λ '(bufs, from, err, c') h',
    bufs_ok c' ∧ si_fd c' = si_fd c ∧ si_bRead c' = true ∧
    ∃ r, h' = h ++ [(sys_recvmmsg (i32 (si_fd c)) (replicate 32 2048), r)] ∧
      if r_ret r <? 0 then bufs = [] ∧ from = None ∧ err = io_errno r
      else bufs = r_msgs r ∧ (length bufs <= 32)%nat ∧ Forall (λ m, len m <= 2048) bufs ∧ err = None ∧
        from = if bool_decide (bufs = []) then None else Some (udp_of (from_sockaddr (r_addr r)))).
Proof.
  intros Hr [Hn Hl]. unfold SockIf.MRecv. rewrite Hr. cbn [negb]. cbv zeta.
  rewrite go_copy_same by (by rewrite length_replicate, Hn).
  assert (map len (take 64 (si_buffs c)) = replicate 32 2048) as Hsz.
  { rewrite take_ge by lia. apply list_eq_same_length with 32%nat; [done|by rewrite length_map|].
    intros i x y Hi Hx Hy. rewrite lookup_replicate_2 in Hy by done. simplify_eq.
    rewrite list_lookup_fmap in Hx. apply fmap_Some in Hx as (b & Hb & ->).
    rewrite Forall_lookup in Hl. unfold len. rewrite (Hl i b Hb). done. }
  apply wp_bind, Recvmmsg_spec.
  { apply Forall_take. eapply Forall_impl; [exact Hl|]. intros b Hb ->. done. }
  intros r. rewrite Hsz. split.
  - intros Hneg. destruct (io_errno r) as [e|] eqn:Ee; cbn -[Z.ltb];
      (split; [done|]; split; [done|]; split; [done|]; exists r; by rewrite (proj2 (Z.ltb_lt _ _))).
  - intros Hm H64 Hle Hfit. pose proof (len_nonneg (r_msgs r)).
    assert (Forall (λ m, len m <= 2048) (r_msgs r)) as Hsmall.
    { apply Forall_lookup. intros k m Hk. destruct (lookup_lt_is_Some_2 (si_buffs c) k) as [b Hb].
      { apply lookup_lt_Some in Hk. lia. }
      specialize (Hfit k m b Hk Hb). rewrite Forall_lookup in Hl. unfold len in *. rewrite (Hl k b Hb) in Hfit. lia. }
    assert (bufs_ok (c <| si_buffs := store_msgs (si_buffs c) (r_msgs r) |>)) as Hok.
    { split; cbn; [by rewrite length_store_msgs|by apply store_msgs_lengths]. }
    destruct (r_ret r =? 0) eqn:E0; zbool; cbn -[slice Z.ltb Z.eqb].
    + split; [done|]. split; [done|]. split; [done|]. exists r. split; [done|].
      rewrite (proj2 (Z.ltb_ge _ _)), (len_zero (r_msgs r)) by lia. cbn. split_and!; done || lia || constructor.
    + rewrite <- Hm. rewrite (slice_app [] (r_msgs r) (drop (length (r_msgs r)) (si_buffs c)) 0) by done.
      cbn -[Z.ltb Z.eqb]. split; [done|]. split; [done|]. split; [done|]. exists r. split; [done|].
      rewrite (proj2 (Z.ltb_ge _ _)), bool_decide_eq_false_2 by (lia || (intros E; apply E0; by rewrite <- Hm, E)).
      split_and!; done || lia.
Qed.
End Unix.

(** ** Windows and Unix *)

(** A user of the interface: any sequence of calls that both platforms have. *)
Inductive sock_op : Type :=
| SOpen (ip : list byte) (port : Z) (ifn : option Interface)
| SOpenSend (ip : list byte) (port : Z) (bLoop : bool) (ifn : option Interface)
| SClose
| SRecv (buff : list byte)
| SSend (buff : list byte).

(** What a call returns: the count, the sender, the error, the buffer. *)
Abbreviation sock_res := (Z * option UDPAddr * option error * list byte)%type.

Definition sock_do (api : SockApi) (o : sock_op) (c : sockIf) : prog (sock_res * sockIf) :=
  match o with
  | SOpen ip port ifn => '(e, c) ← SockIf.Open c ip port ifn; Done (0, None, e, [], c)
  | SOpenSend ip port b ifn => '(e, c) ← SockIf.OpenSend c ip port b ifn; Done (0, None, e, [], c)
  | SClose => '(e, c) ← SockIf.Close c; Done (0, None, e, [], c)
  | SRecv buff => SockIf.Recv c buff
  | SSend buff => '(n, e, c) ← SockIf.Send c (Some buff); Done (n, None, e, buff, c)
  end.

Fixpoint sock_run (api : SockApi) (os : list sock_op) (c : sockIf) : prog (list sock_res * sockIf) :=
  match os with
  | [] => Done ([], c)
  | o :: os' =>
      '(r, c) ← sock_do api o c;
      '(rs, c) ← sock_run api os' c;
      Done (r :: rs, c)
  end.

(** Buffers whose length is a C integer. *)
Definition op_ok (o : sock_op) : Prop :=
  match o with
  | SRecv b | SSend b => len b < 2147483648
  | _ => True
  end.

Section Windows.
Context `{Errnos} (ParseIP : gostring → list byte).
Abbreviation fd_ok := (λ '(_, c), c_int (si_fd c)).

Lemma Open_psim c ip port ifn : c_int (si_fd c) →
  psim_to fd_ok (@SockIf.Open (unix_api ParseIP) c ip port ifn) (@SockIf.Open (win_api ParseIP) c ip port ifn).
Proof.
  intros Hc. unfold SockIf.Open. destruct (0 <=? si_fd c); [by apply psim_done|]. cbv zeta.
  eapply psim_bind; [apply Socket_psim|]. intros [fd [e|]] Hfd; [by apply psim_done|].
  eapply psim_bind; [by apply ReserveRecvBuf_psim|]. intros ? _.
  eapply psim_bind; [by apply SetsockoptInt_psim|]. intros ? _.
  eapply psim_bind; [by apply Bind_psim|]. intros [e|] _.
  - eapply psim_bind; [by apply Close_psim|]. intros ? _. by apply psim_done.
  - eapply psim_bind; [by apply JoinMulticast_psim|]. intros ? _. by apply psim_done.
Qed.

Lemma OpenSend_psim c ip port b ifn : c_int (si_fd c) →
  psim_to fd_ok (@SockIf.OpenSend (unix_api ParseIP) c ip port b ifn)
    (@SockIf.OpenSend (win_api ParseIP) c ip port b ifn).
Proof.
  intros Hc. unfold SockIf.OpenSend. destruct (0 <=? si_fd c); [by apply psim_done|]. cbv zeta.
  eapply psim_bind; [apply Socket_psim|]. intros [fd [e|]] Hfd; [by apply psim_done|].
  eapply psim_bind; [by apply SetsockoptInt_psim|]. intros ? _.
  eapply psim_bind; [by apply Bind_psim|]. intros [e|] _.
  - eapply psim_bind; [by apply Close_psim|]. intros ? _. by apply psim_done.
  - eapply psim_bind; [by apply LocalAddr_psim|]. intros ? _.
    eapply psim_bind; [by apply ReserveSendBuf_psim|]. intros ? _.
    eapply psim_bind; [by apply SetMulticastInterface_psim|]. intros ? _.
    eapply (psim_bind (λ _, True)); [destruct b; [by apply SetMulticastLoop_psim|by apply psim_done]|].
    intros ? _. by apply psim_done.
Qed.

Lemma Close_if_psim c : c_int (si_fd c) →
  psim_to fd_ok (@SockIf.Close (unix_api ParseIP) c) (@SockIf.Close (win_api ParseIP) c).
Proof.
  intros Hc. unfold SockIf.Close. destruct (si_fd c <? 0); [by apply psim_done|].
  eapply psim_bind; [by apply Close_psim|]. intros ? _. by apply psim_done.
Qed.

Lemma sock_do_psim o c : c_int (si_fd c) → op_ok o →
  psim_to fd_ok (sock_do (unix_api ParseIP) o c) (sock_do (win_api ParseIP) o c).
Proof.
  intros Hc Ho. destruct o as [ip port ifn|ip port b ifn| |buff|buff]; cbn [sock_do op_ok] in *.
  - eapply psim_bind; [by apply Open_psim|]. intros [e c'] Hc'. by apply psim_done.
  - eapply psim_bind; [by apply OpenSend_psim|]. intros [e c'] Hc'. by apply psim_done.
  - eapply psim_bind; [by apply Close_if_psim|]. intros [e c'] Hc'. by apply psim_done.
  - unfold SockIf.Recv. destruct (negb (si_bRead c)); [by apply psim_done|].
    eapply psim_bind; [by apply Recvfrom_psim|]. intros [[[n a] [e|]] bf] _; by apply psim_done.
  - unfold SockIf.Send. destruct (si_bRead c); [by apply psim_done|].
    eapply (psim_bind fd_ok); [|intros [[n e] c'] Hc'; by apply psim_done].
    eapply psim_bind; [by apply Sendto_psim|]. intros [n e] _. by apply psim_done.
Qed.

Lemma sock_run_psim os c : c_int (si_fd c) → Forall op_ok os →
  psim_to fd_ok (sock_run (unix_api ParseIP) os c) (sock_run (win_api ParseIP) os c).
Proof.
  intros Hc Hos. revert c Hc. induction Hos as [|o os Ho _ IH]; intros c Hc; cbn [sock_run]; [by apply psim_done|].
  eapply psim_bind; [by apply sock_do_psim|]. intros [r c1] H1.
  eapply psim_bind; [by apply IH|]. intros [rs c2] H2. by apply psim_done.
Qed.
End Windows.

(** The direction of an interface.  A receiving interface refuses to send and
    a sending one to receive, with [errModeRW], without any system call and
    without a change. *)
Lemma wrong_direction_refused `{Errnos} ParseIP (n : netIf) (c : sockIf) buff b bs :
  (nf_bRead n = true → NetIf.Send n b = Done (0, Some errModeRW, n)) ∧
  (nf_bRead n = false → NetIf.Recv n buff = Done (0, None, Some errModeRW, buff, n)) ∧
  (si_bRead c = true →
     @SockIf.Send (unix_api ParseIP) c b = Done (0, Some errModeRW, c) ∧
     @SockIf.Send (win_api ParseIP) c b = Done (0, Some errModeRW, c) ∧
     SockIf.MSend c bs = Done (0, Some errModeRW, c) ∧ NotLinux.MSend c bs = Done (0, Some errModeRW, c)) ∧
  (si_bRead c = false →
     @SockIf.Recv (unix_api ParseIP) c buff = Done (0, None, Some errModeRW, buff, c) ∧
     @SockIf.Recv (win_api ParseIP) c buff = Done (0, None, Some errModeRW, buff, c) ∧
     SockIf.MRecv c = Done ([], None, Some errModeRW, c) ∧ NotLinux.MRecv c = Done ([], None, Some errModeRW, c)).
Proof.
  unfold NetIf.Send, NetIf.Recv, SockIf.Send, SockIf.Recv, SockIf.MSend, SockIf.MRecv, NotLinux.MSend, NotLinux.MRecv.
  split_and!; intros ->; done.
Qed.

(** ** Properties *)


(** Opening the socket interface.  On a closed interface [Open] takes one of
    three paths, whatever the system answers: no socket, and nothing else
    happens; no [bind], and the socket is closed again; or the socket is bound,
    joined to the group on the interface found, and has its 32 buffers.  All
    calls are on the socket just made. *)
Lemma sockIf_open_paths `{Errnos} ParseIP c ip port ifn E (Hc : si_fd c < 0) :
  ∃ e c' h, exec E (@SockIf.Open (unix_api ParseIP) c ip port ifn) [] = (Ret (e, c'), h) ∧
    open_outcome ParseIP c ip port ifn h e c'.
Proof.
  destruct (wp_exec any_reply (@SockIf.Open (unix_api ParseIP) c ip port ifn) E [] _
    (λ _ _, I) (Open_wp ParseIP c ip port ifn any_reply Hc)) as ([e c'] & h & He & Ho). by exists e, c', h.
Qed.

(** C38: a failed [bind].  The socket is closed but its number stays in the
    interface: the error is returned, a second [Open] is refused with
    [errOpened], and [Close] closes the number a second time, although it may
    belong to another file by then. *)
Theorem bind_failure_closes_twice `{Errnos} ParseIP c ip port ifn fd E
    (Hc : si_fd c < 0) (Hfd : 0 <= fd < 2147483648) (HE : ∀ h c, bind_fails fd h c (E h c)) :
  ∃ e c' h, exec E (@SockIf.Open (unix_api ParseIP) c ip port ifn) [] = (Ret (Some e, c'), h) ∧
    calls h = sys_socket AF_INET SOCK_DGRAM 0 :: open_prep fd ++ [bind_call fd port; sys_close fd] ∧
    @SockIf.Open (unix_api ParseIP) c' ip port ifn = Done (Some errOpened, c') ∧
    ∃ e' h', exec E (@SockIf.Close (unix_api ParseIP) c') h = (Ret (e', c' <| si_fd := -1 |>), h') ∧
      calls h' = calls h ++ [sys_close fd].
Proof.
  destruct (wp_exec _ _ E [] _ HE (Open_bind_fails ParseIP c ip port ifn fd Hc Hfd))
    as ([[e|] c'] & h & He & Hne & Hf & Hcalls); [|done].
  destruct (reopen_reclose ParseIP c' ip port ifn fd Hfd Hf) as [Ho Hcl].
  exists e, c', h. split; [done|]. split; [done|]. split; [done|].
  unfold the_api in Hcl. rewrite Hcl. eexists _, _. split; [reflexivity|]. unfold calls. by rewrite fmap_app.
Qed.

(** C31: receiving a batch.  On an interface opened for receiving, over a kernel
    that keeps its word about [recvmmsg], [MRecv] makes one call for 32 datagrams
    of 2048 octets and returns exactly the datagrams stored, in order, with the
    sender of the first; a call that would block gives an empty batch and no
    error; the buffers keep their sizes. *)
Theorem MRecv_batch `{Errnos} c h E
    (Hr : si_bRead c = true) (Hb : bufs_ok c) (HE : ∀ h c, kernel_recvmmsg h c (E h c)) :
  ∃ bufs from err c' r,
    exec E (SockIf.MRecv c) h =
      (Ret (bufs, from, err, c'), h ++ [(sys_recvmmsg (i32 (si_fd c)) (replicate 32 2048), r)]) ∧
    bufs_ok c' ∧ si_bRead c' = true ∧ si_fd c' = si_fd c ∧
    if r_ret r <? 0 then bufs = [] ∧ from = None ∧ err = io_errno r ∧ (would_block r = true → err = None)
    else bufs = r_msgs r ∧ (length bufs <= 32)%nat ∧ Forall (λ m, len m <= 2048) bufs ∧ err = None ∧
      from = if bool_decide (bufs = []) then None else Some (udp_of (from_sockaddr (r_addr r))).
Proof.
  destruct (wp_exec _ (SockIf.MRecv c) E h _ HE (MRecv_wp c h Hr Hb))
    as ([[[bufs from] err] c'] & h' & He & Hok & Hfd & Hrd & r & -> & Hif).
  exists bufs, from, err, c', r. split; [done|]. split; [done|]. split; [done|]. split; [done|].
  destruct (r_ret r <? 0) eqn:E'; [|done]. destruct Hif as (-> & -> & ->). split_and!; try done.
  intros Hw. unfold io_errno. by rewrite Hw, andb_false_r.
Qed.

(** ** Witnesses *)

#[local] Instance linux_errnos : Errnos := {| EAGAIN := 11; EWOULDBLOCK := 11 |}.

(** A system in which every call succeeds with 3. *)
Definition ex_env : env := λ _ _, ret_reply 3.

Definition ex_ops : list sock_op := [SOpenSend [xe0; x00; x00; x01] 5858 true None; SSend [x41]; SClose].


Lemma sockIf_open_paths_witness :
  ∃ e c' h, exec ex_env (@SockIf.Open (unix_api id) SockIf.newSockIf [xe0; x00; x00; x01] 5858 None) [] = (Ret (e, c'), h).
Proof.
  destruct (sockIf_open_paths id SockIf.newSockIf [xe0; x00; x00; x01] 5858 None ex_env) as (e & c' & h & H & _);
    [reflexivity|]. exists e, c', h. exact H.
Defined.

(** The port is taken: [bind] answers EADDRINUSE. *)
Definition ex_bind_env : env := λ _ c,
  match c with
  | sys_socket _ _ _ => ret_reply 3
  | sys_bind _ _ => err_reply 98
  | _ => ret_reply 0
  end.

Lemma bind_failure_closes_twice_witness :
  ∃ e c' h, exec ex_bind_env (@SockIf.Open (unix_api id) SockIf.newSockIf [xe0; x00; x00; x01] 5858 None) [] = (Ret (Some e, c'), h) ∧
    @SockIf.Open (unix_api id) c' [xe0; x00; x00; x01] 5858 None = Done (Some errOpened, c').
Proof.
  destruct (bind_failure_closes_twice id SockIf.newSockIf [xe0; x00; x00; x01] 5858 None 3 ex_bind_env)
    as (e & c' & h & H1 & _ & H2 & _); [reflexivity|lia|intros h c; destruct c; cbn; done|].
  exists e, c', h. split; [exact H1|exact H2].
Defined.

(** A kernel with one datagram for every call. *)
Definition ex_mmsg_env : env := λ _ c,
  match c with
  | sys_recvmmsg _ (n :: _) => if 2 <=? n then mkReply 1 0 [] None [[x41; x42]] None [] None else err_reply 11
  | _ => err_reply 11
  end.

Lemma ex_mmsg_law h c : kernel_recvmmsg h c (ex_mmsg_env h c).
Proof.
  destruct c; try exact I. cbn. destruct sizes as [|n sizes]; [left; cbn; lia|].
  destruct (2 <=? n) eqn:E; [right|left; cbn; lia]. zbool. cbn. split; [done|]. split; [lia|].
  intros [|i] m k Hm Hk; [|done]. simplify_eq/=. done.
Qed.

Lemma MRecv_batch_witness :
  ∃ bufs from err c' r, exec ex_mmsg_env (SockIf.MRecv (opened_reading SockIf.newSockIf 3)) [] =
    (Ret (bufs, from, err, c'), [(sys_recvmmsg (i32 3) (replicate 32 2048), r)]).
Proof.
  destruct (MRecv_batch (opened_reading SockIf.newSockIf 3) [] ex_mmsg_env) as (bufs & from & err & c' & r & H & _);
    [reflexivity|exact (bufs_ok_opened _ _)|exact ex_mmsg_law|].
  exists bufs, from, err, c', r. exact H.
Defined.
