(* ===== verification/Receiver.v ===== *)
(** * The receive loop of the client (src/client.go)

    [doMsgLoop] over an interface without a ring: a turn waits for a datagram
    ([Recv]) or a batch ([MRecv]) and hands every datagram to [gotBuff].  The
    client holds a pointer to its interface; the state behind the pointer is
    kept beside the client.

    [McastRecvSpec] is what the client needs of an interface: a datagram of the
    network arrives in a buffer of 2048 octets, cut when it is longer.  The loop together
    with the other goroutines is a transition system ([rstep]): between two
    datagrams of a batch the worker, the ticker and the application may run.
    It refines the transition system of [Delivery], so the theorems on the
    client hold over every interface that keeps the contract; the interfaces
    netIf and sockIf do. *)

From Stdlib Require Import Strings.Byte.
From S2P Require Import Prelude.
From S2P Require Import GoBytes.
From S2P Require Import NetAddr.
From S2P Require Import Codec.
From S2P Require Import Sys.
From S2P Require Import UnixSock.
From S2P Require Import UnixSockProps.
From S2P Require Import Mcast.
From S2P Require Import NetIf.
From S2P Require Import SockIf.
From S2P Require Import McastProps.
From S2P Require Import MsgCache.
From S2P Require Import Client.
From S2P Require Import ClientLemmas.
From S2P Require Import Delivery.

(** ** The loop *)

(** A buffer with the length of the datagram in it. *)
Abbreviation dgram := (list byte * Z)%type.

Definition dgram_data (d : dgram) : list byte := take (Z.to_nat d.2) d.1.

Section Loop.
Context {C K Cache : Type} `{McastConn C} `{SeqCache Cache}.
Abbreviation client := (Client K Cache).

(** One datagram; the sender may be nil, and is dereferenced when it becomes the
    request server. *)
Definition on_datagram (c : client) (d : dgram) (rAddr : option UDPAddr) (now : Z) : outcome client :=
  match rAddr with
  | Some a => onPacket c d.1 d.2 a now
  | None =>
      '(err, c) ← gotBuff c d.1 d.2 now;
      match err with
      | Some _ => Ret (if negb (lastLogTime c =? now) then c <| lastLogTime := now |> else c)
      | None => if len (reqSrv c) =? 0 then Panic else Ret c
      end
  end.

Fixpoint on_datagrams (c : client) (ds : list dgram) (rAddr : option UDPAddr) (now : Z) : outcome client :=
  match ds with
  | [] => Ret c
  | d :: ds' => c ← on_datagram c d rAddr now; on_datagrams c ds' rAddr now
  end.

(** The receiving call of a turn: the error, the datagrams, their sender, the
    buffer and the interface afterwards. *)
Definition recv_call (bMmsg : bool) (cn : C) (buff : list byte)
    : prog (option error * list dgram * option UDPAddr * list byte * C) :=
  if bMmsg then
    '(bufs, remoteAddr, err, cn) ← mc_MRecv cn;
    Done (err, map (λ b, (b, len b)) bufs, remoteAddr, buff, cn)
  else
    '(n, remoteAddr, err, buff, cn) ← mc_Recv cn buff;
    Done (err, [(buff, n)], remoteAddr, buff, cn).

(** What a failed call leaves: only the batch branch keeps the time of its log
    line. *)
Definition recv_failed (bMmsg : bool) (c : client) (now : Z) : client :=
  if bMmsg && negb (lastLogTime c =? now) then c <| lastLogTime := now |> else c.

(** One turn of [doMsgLoop]; a method of the nil interface panics. *)
Definition doMsgLoop_turn (bMmsg : bool) (c : client) (cn : C) (buff : list byte) (now : Z)
    : prog (client * C * list byte) :=
  _ ← pure (match conn c with Some _ => Ret tt | None => Panic end);
  '(err, ds, remoteAddr, buff, cn) ← recv_call bMmsg cn buff;
  match err with
  | Some _ => Done (recv_failed bMmsg c now, cn, buff)
  | None =>
      c ← pure (on_datagrams c ds remoteAddr now);
      Done (c, cn, buff)
  end.

(** [doMsgLoop] without a ring for as many turns as [nows] has times; the loop
    ends when [Running] is false. *)
Fixpoint doMsgLoop_turns (bMmsg : bool) (nows : list Z) (c : client) (cn : C) (buff : list byte)
    : prog (client * C * list byte) :=
  match nows with
  | [] => Done (c, cn, buff)
  | now :: nows' =>
      if Running c then
        '(c, cn, buff) ← doMsgLoop_turn bMmsg c cn buff now;
        doMsgLoop_turns bMmsg nows' c cn buff
      else Done (c, cn, buff)
  end.

Definition doMsgLoop (nows : list Z) (c : client) (cn : C) : prog (client * C * list byte) :=
  doMsgLoop_turns (mc_Enabled cn HasMmsg) nows c cn (replicate (Z.to_nat 2048) x00).
End Loop.

(** ** What the client needs of an interface *)

Section Contract.
Context {C : Type} `{McastConn C}.

(** What a buffer of [size] octets gets of a datagram of the network [D]: the
    kernel drops what does not fit. *)
Definition cut_to (size : Z) (D : list byte → Prop) (b : list byte) : Prop :=
  ∃ d, D d ∧ b = take (Z.to_nat size) d.

(** A datagram of the network [D] in a buffer, or an empty read. *)
Definition dgram_ok (D : list byte → Prop) (d : dgram) : Prop :=
  0 <= d.2 <= len d.1 ∧ d.2 < 65536 ∧ (d.2 = 0 ∨ cut_to 2048 D (dgram_data d)).

(** Over a system that keeps [rc_law], an interface in a good state returns from
    a receive into buffers of 2048 octets with datagrams of the network, as far
    as they fit, or an error, and stays in a good state. *)
Class McastRecvSpec (D : list byte → Prop) := {
  rc_ok : C → Prop;
  rc_mode : bool;
  rc_law : trace → call → reply → Prop;
  rc_enabled cn : rc_ok cn → mc_Enabled cn HasMmsg = rc_mode ∧ mc_Enabled cn HasRingBuffer = false;
  rc_recv cn buff : rc_ok cn → len buff = 2048 →
    wp rc_law (recv_call rc_mode cn buff) [] (λ '(err, ds, ra, buff', cn') _,
      rc_ok cn' ∧ len buff' = len buff ∧
      (err = None → Forall (dgram_ok D) ds ∧ (ds ≠ [] → is_Some ra)))
}.
End Contract.
Arguments McastRecvSpec C {_} D.

(** ** The receiver among the other goroutines *)

Section System.
Context {C K Cache : Type} `{McastConn C} `{SeqCacheSpec Cache} (D : list byte → Prop) (ovl : bool).
Context `{!McastRecvSpec C D}.
Abbreviation client := (Client K Cache).

(** The system of [Delivery], the interface, the buffer, and the datagrams of
    the current turn that are still to be handled. *)
Record rstate : Type := mkRstate {
  rs_sys : sys K Cache;
  rs_conn : C;
  rs_buff : list byte;
  rs_todo : list dgram;
  rs_from : option UDPAddr
}.

Inductive rstep : rstate → rstate → Prop :=
| rstep_recv s cn buff ra0 E ds ra buff' cn' h :
    (∀ h c, rc_law h c (E h c)) →
    exec E (recv_call (mc_Enabled cn HasMmsg) cn buff) [] = (Ret (None, ds, ra, buff', cn'), h) →
    rstep (mkRstate s cn buff [] ra0) (mkRstate s cn' buff' ds ra)
| rstep_failed s cn buff ra0 E e ds ra buff' cn' h now :
    (∀ h c, rc_law h c (E h c)) →
    exec E (recv_call (mc_Enabled cn HasMmsg) cn buff) [] = (Ret (Some e, ds, ra, buff', cn'), h) →
    rstep (mkRstate s cn buff [] ra0)
      (mkRstate (s <| cl := recv_failed (mc_Enabled cn HasMmsg) (cl s) now |>) cn' buff' [] ra)
| rstep_datagram s cn buff d ds ra now c' :
    len (ch (cl s)) < chanCap → on_datagram (cl s) d ra now = Ret c' →
    rstep (mkRstate s cn buff (d :: ds) ra) (mkRstate (s <| cl := c' |>) cn buff ds ra)
| rstep_other l s s' cn buff ds ra :
    step (λ _ _, False) ovl l s s' → rstep (mkRstate s cn buff ds ra) (mkRstate s' cn buff ds ra).

Inductive rreach (c0 : client) (cn0 : C) : rstate → Prop :=
| rreach_init : rreach c0 cn0 (mkRstate (sys_init c0) cn0 (replicate (Z.to_nat 2048) x00) [] None)
| rreach_step r r' : rreach c0 cn0 r → rstep r r' → rreach c0 cn0 r'.

Lemma rreach_steps c0 cn0 s s' cn buff ds ra : rreach c0 cn0 (mkRstate s cn buff ds ra) →
  steps (λ _ _, False) ovl s s' → rreach c0 cn0 (mkRstate s' cn buff ds ra).
Proof.
  intros Hr Hst. induction Hst as [|s1 s2 s3 [l Hst] _ IH]; [done|]. apply IH.
  eapply rreach_step; [exact Hr|]. by eapply rstep_other.
Qed.

(** The receiver between two steps. *)
Definition rgood (r : rstate) : Prop :=
  rc_ok (rs_conn r) ∧ len (rs_buff r) = 2048 ∧ Forall (dgram_ok D) (rs_todo r) ∧
  (rs_todo r ≠ [] → is_Some (rs_from r)).

Lemma recv_call_good cn buff E o h : rc_ok cn → len buff = 2048 → (∀ h c, rc_law h c (E h c)) →
  exec E (recv_call (mc_Enabled cn HasMmsg) cn buff) [] = (o, h) →
  ∃ err ds ra buff' cn', o = Ret (err, ds, ra, buff', cn') ∧ rc_ok cn' ∧ len buff' = 2048 ∧
    (err = None → Forall (dgram_ok D) ds ∧ (ds ≠ [] → is_Some ra)).
Proof.
  intros Hok Hb HE He. destruct (rc_enabled cn Hok) as [Hm _]. rewrite Hm in He.
  destruct (wp_exec _ _ E [] _ HE (rc_recv cn buff Hok Hb))
    as ([[[[err ds] ra] buff'] cn'] & h' & He' & Hok' & Hl' & Hds).
  rewrite He in He'. injection He' as -> _. exists err, ds, ra, buff', cn'. by rewrite Hl'.
Qed.

Lemma rstep_good r r' : rgood r → rstep r r' → rgood r'.
Proof.
  intros (Hok & Hb & Hd & Hf) Hst.
  destruct Hst as [s cn buff ra0 E ds ra buff' cn' h HE He|s cn buff ra0 E e ds ra buff' cn' h now HE He
    |s cn buff d ds ra now c' _ _|l s s' cn buff ds ra _]; unfold rgood in *; cbn [rs_conn rs_buff rs_todo rs_from] in *.
  - destruct (recv_call_good cn buff E _ _ Hok Hb HE He) as (? & ? & ? & ? & ? & [= <- <- <- <- <-] & ? & ? & Hds).
    by destruct (Hds eq_refl).
  - destruct (recv_call_good cn buff E _ _ Hok Hb HE He) as (? & ? & ? & ? & ? & [= <- <- <- <- <-] & ? & ? & _). done.
  - apply Forall_cons in Hd as [_ Hd]. split_and!; try done. intros _. by apply Hf.
  - done.
Qed.

(** A step of the receiver is a step of the client's transition system, or does
    not touch it. *)
Lemma rstep_refines (allowed : client → list byte → Prop) r r' :
  (∀ c, allowed c []) → (∀ c b, cut_to 2048 D b → allowed c b) → rgood r → rstep r r' →
  rs_sys r' = rs_sys r ∨ ∃ l, step allowed ovl l (rs_sys r) (rs_sys r').
Proof.
  intros Hnil HD (Hok & Hb & Hd & Hf) Hst.
  destruct Hst as [s cn buff ra0 E ds ra buff' cn' h HE He|s cn buff ra0 E e ds ra buff' cn' h now HE He
    |s cn buff d ds ra now c' Hroom Hd'|l s s' cn buff ds ra Hst]; cbn [rs_conn rs_buff rs_todo rs_from rs_sys] in *.
  - by left.
  - unfold recv_failed. destruct (_ && _); [right; eexists; apply step_log|left; by destruct s].
  - right. destruct (Hf ltac:(done)) as [a ->]. apply Forall_cons in Hd as [(Hn & Hs & Hdat) _]. cbn in Hd'.
    eexists. eapply step_packet; [done|exact Hn|done| |exact Hd'].
    destruct Hdat as [E|Hdat]; [rewrite E; apply Hnil|by apply HD].
  - right. exists l. eapply step_mono; [|done]. done.
Qed.

Lemma rreach_refines (allowed : client → list byte → Prop) c0 cn0 r :
  (∀ c, allowed c []) → (∀ c b, cut_to 2048 D b → allowed c b) → rc_ok cn0 → rreach c0 cn0 r →
  rgood r ∧ reachable allowed ovl c0 (rs_sys r).
Proof.
  intros Hnil HD Hok Hr. induction Hr as [|r r' _ [Hg Hre] Hst].
  - split; [|apply reach_init]. split; [done|]. split; [done|]. split; [constructor|done].
  - split; [by eapply rstep_good|].
    destruct (rstep_refines allowed r r' Hnil HD Hg Hst) as [->|[l Hs]]; [done|by eapply reach_step].
Qed.
End System.
