(* ===== verification/ReceiverProps.v ===== *)
(** * Delivery over the multicast interfaces

    The interfaces netIf and sockIf keep the contract of the client
    ([McastRecvSpec]), and what follows for the client over any interface that
    does: in-order delivery, no panics, what becomes of a datagram longer than the
    buffers, and what a closed interface does to the receive loop. *)

From Stdlib Require Import Strings.Byte.
From S2P Require Import Prelude.
From S2P Require Import GoBytes.
From S2P Require Import NetAddr.
From S2P Require Import Codec.
From S2P Require Import Sys.
From S2P Require Import UnixSock.
From S2P Require Import UnixSockProps.
From S2P Require Import WinSock.
From S2P Require Import Mcast.
From S2P Require Import NetIf.
From S2P Require Import SockIf.
From S2P Require Import McastProps.
From S2P Require Import MsgCache.
From S2P Require Import Client.
From S2P Require Import ClientLemmas.
From S2P Require Import Delivery.
From S2P Require Import DeliveryProps.
From S2P Require Import RequestProps.
From S2P Require Import Recovery.
From S2P Require Import ClientOpen.
From S2P Require Import Receiver.

(** ** The interfaces keep the contract *)

Section Interfaces.
Context (D : list byte → Prop).

Lemma dgram_ok_stored buff (d : list byte) : len buff = 2048 → D d →
  let m := take (Z.to_nat 2048) d in dgram_ok D (go_copy buff m, len m).
Proof.
  intros Hb Hd m. assert (len m <= len buff) as Hl by (unfold m, len in *; rewrite length_take; lia).
  pose proof (len_nonneg m). unfold dgram_ok, dgram_data. cbn [fst snd].
  pose proof (slice_stored buff m Hl) as Hs.
  rewrite slice_Ret in Hs by (unfold len in *; rewrite ?length_go_copy; lia).
  injection Hs as Hs. rewrite drop_0, Z.sub_0_r in Hs. rewrite Hs.
  split; [|split; [lia|right; by exists d]]. unfold len in *. rewrite length_go_copy. lia.
Qed.

(** What package net promises of [ReadFromUDP]: the start of a datagram, as much
    as fits. *)
Definition net_law : trace → call → reply → Prop := λ _ c r,
  match c with
  | net_ReadFromUDP _ size =>
      r_err r = None → r_ret r = len (r_data r) ∧ is_Some (r_udp r) ∧ cut_to size D (r_data r)
  | _ => True
  end.

#[export] Program Instance netIf_recv : McastRecvSpec netIf D := {|
  rc_ok := λ c, nf_bRead c = true;
  rc_mode := false;
  rc_law := net_law
|}.
Next Obligation. done. Qed.
Next Obligation.
  intros cn buff Hr Hb. cbn [recv_call mc_Recv netIf_conn]. unfold NetIf.Recv. rewrite Hr.
  cbn -[go_copy len]. intros r Hlaw. split; [done|]. split; [unfold len; by rewrite length_go_copy|].
  intros He. destruct (Hlaw He) as (Hn & Hu & d & Hd & Ed). rewrite Hn, Ed, Hb. split; [|done].
  apply Forall_singleton. by apply dgram_ok_stored.
Qed.

(** What the kernel promises of [recvfrom]: an error, or the start of a datagram,
    as much as fits. *)
Definition recvfrom_law : trace → call → reply → Prop := λ _ c r,
  match c with
  | sys_recvfrom _ size _ =>
      r_ret r < 0 ∧ r_data r = [] ∨ r_ret r = len (r_data r) ∧ cut_to size D (r_data r)
  | _ => True
  end.

(** What both wrappers make of it. *)
Lemma Recvfrom_api `{Errnos} ParseIP fd buff : len buff = 2048 →
  Forall (λ api : SockApi, wp recvfrom_law (api_Recvfrom fd buff 0) [] (λ '(n, a, err, buff') _,
    len buff' = len buff ∧ (err = None → dgram_ok D (buff', n)))) [unix_api ParseIP; win_api ParseIP].
Proof.
  intros Hb. destruct buff as [|x buff]; [change (len (@nil byte)) with 0 in Hb; lia|].
  apply Forall_cons; split; [|apply Forall_singleton];
    cbn [api_Recvfrom unix_api win_api]; unfold UnixSock.Recvfrom, Win.Recvfrom;
    change (idx (x :: buff) 0) with (Ret x); set (b := x :: buff) in *;
    cbn -[go_copy len]; intros r Hlaw; (split; [unfold len; by rewrite length_go_copy|]); intros _.
  - destruct Hlaw as [[Hneg Hd]|(Hn & d & Hd & Ed)].
    + rewrite (proj2 (Z.ltb_lt _ _)) by done. unfold dgram_ok. cbn [fst snd].
      pose proof (len_nonneg (go_copy b (r_data r))). split_and!; [lia..|by left].
    + rewrite (proj2 (Z.ltb_ge _ _)), Hn by (pose proof (len_nonneg (r_data r)); lia).
      rewrite Ed, Hb. by apply dgram_ok_stored.
  - rewrite i32_small in Hlaw by lia. destruct Hlaw as [[Hneg Hd]|(Hn & d & Hd & Ed)].
    + rewrite (proj2 (Z.ltb_lt _ _)) by done. unfold dgram_ok. cbn [fst snd].
      pose proof (len_nonneg (go_copy b (r_data r))). split_and!; [lia..|by left].
    + rewrite (proj2 (Z.ltb_ge _ _)), Hn by (pose proof (len_nonneg (r_data r)); lia).
      rewrite Ed, Hb. by apply dgram_ok_stored.
Qed.

Section SockIf.
Context `{Errnos} (ParseIP : gostring → list byte).

(** [sockIf] without batches, over either platform's wrappers. *)
Lemma sockIf_Recv_ok (api : SockApi) cn buff : api ∈ [unix_api ParseIP; win_api ParseIP] →
  si_bRead cn = true → len buff = 2048 →
  wp recvfrom_law (@recv_call _ (@sockIf_notlnx api) false cn buff) [] (λ '(err, ds, ra, buff', cn') _,
    si_bRead cn' = true ∧ len buff' = len buff ∧
    (err = None → Forall (dgram_ok D) ds ∧ (ds ≠ [] → is_Some ra))).
Proof.
  intros Hapi Hr Hb. cbn [recv_call mc_Recv sockIf_notlnx]. unfold SockIf.Recv. rewrite Hr. cbn [negb].
  apply wp_bind, wp_bind. pose proof (Recvfrom_api ParseIP (si_fd cn) buff Hb) as Ha.
  rewrite Forall_forall in Ha. eapply wp_mono; [|by apply Ha].
  intros [[[n a] [e|]] buff'] h' [Hl Hd]; cbn -[len].
  - done.
  - split; [done|]. split; [done|]. intros _. split; [|done]. apply Forall_singleton. by apply Hd.
Qed.

#[export] Program Instance sockIf_unix_recv : @McastRecvSpec sockIf (@sockIf_notlnx (unix_api ParseIP)) D := {|
  rc_ok := λ c, si_bRead c = true;
  rc_mode := false;
  rc_law := recvfrom_law
|}.
Next Obligation. done. Qed.
Next Obligation. intros cn buff Hr Hb. apply sockIf_Recv_ok; [rewrite !elem_of_cons; auto|done|done]. Qed.

#[export] Program Instance sockIf_win_recv : @McastRecvSpec sockIf (@sockIf_notlnx (win_api ParseIP)) D := {|
  rc_ok := λ c, si_bRead c = true;
  rc_mode := false;
  rc_law := recvfrom_law
|}.
Next Obligation. done. Qed.
Next Obligation. intros cn buff Hr Hb. apply sockIf_Recv_ok; [rewrite !elem_of_cons; auto|done|done]. Qed.

(** [sockIf] with batches: every buffer gets the start of a datagram, as much as
    fits. *)
Definition cut_batch (sizes : list Z) (msgs : list (list byte)) : Prop :=
  ∀ i m n, msgs !! i = Some m → sizes !! i = Some n → cut_to n D m.

Definition mmsg_law : trace → call → reply → Prop := λ h c r,
  kernel_recvmmsg h c r ∧ match c with sys_recvmmsg _ sizes => cut_batch sizes (r_msgs r) | _ => True end.

Lemma dgrams_ok_batch msgs : cut_batch (replicate 32 2048) msgs → (length msgs <= 32)%nat →
  Forall (λ m : list byte, len m < 65536) msgs → Forall (dgram_ok D) (map (λ b, (b, len b)) msgs).
Proof.
  intros Hd Hlen Hl. apply Forall_map. apply Forall_lookup. intros i m Hm. rewrite Forall_lookup in Hl.
  unfold dgram_ok, dgram_data. cbn [fst snd]. pose proof (len_nonneg m). specialize (Hl i m Hm).
  replace (take (Z.to_nat (len m)) m) with m by (unfold len; by rewrite Nat2Z.id, firstn_all).
  split; [lia|]. split; [lia|]. right. apply (Hd i m 2048 Hm). apply lookup_replicate_2.
  apply lookup_lt_Some in Hm. lia.
Qed.

#[export] Program Instance sockIf_linux_recv : @McastRecvSpec sockIf (@sockIf_linux (unix_api ParseIP) _) D := {|
  rc_ok := λ c, si_bRead c = true ∧ bufs_ok c;
  rc_mode := true;
  rc_law := mmsg_law
|}.
Next Obligation. done. Qed.
Next Obligation.
  intros cn buff [Hr Hok] Hb. cbn [recv_call mc_MRecv sockIf_linux]. apply wp_bind.
  eapply wp_mono; [|apply (wp_lawful _ (λ ev, match ev.1 with sys_recvmmsg _ sizes => cut_batch sizes (r_msgs ev.2) | _ => True end));
    [by intros ? ? ? []|constructor|]].
  2: { eapply wp_law; [|by apply MRecv_wp]. by intros ? ? ? []. }
  intros [[[bufs from] err] c'] h' [(Hok' & Hfd & Hrd & r & -> & Hif) HD]. cbn.
  split; [done|]. split; [done|]. intros ->. apply Forall_cons in HD as [HD _]. cbn in HD.
  destruct (r_ret r <? 0) eqn:E; zbool; [destruct Hif as (-> & -> & _); split; [constructor|done]|].
  destruct Hif as (-> & Hlen & Hsm & _ & ->). split.
  - apply dgrams_ok_batch; [done|done|]. eapply Forall_impl; [exact Hsm|]. intros m Hm. cbv beta in *. lia.
  - intros Hne. rewrite bool_decide_eq_false_2; [done|]. intros E'. apply Hne. by rewrite E'.
Qed.
End SockIf.
End Interfaces.

(** ** The client over an interface *)

Lemma genuine_nil {Conn Cache} stream fin (c : Client Conn Cache) : genuine stream fin c [].
Proof. intros h Hh. by vm_compute in Hh. Qed.

(** The datagrams of a turn are handled without a panic. *)
Lemma on_datagram_returns {Conn Cache} `{SeqCacheSpec Cache} D (c : Client Conn Cache) d ra now :
  Delivery.safe c → dgram_ok D d → is_Some ra → returns (on_datagram c d ra now).
Proof.
  intros Hs (Hn & Hsm & _) [a ->]. cbn [on_datagram].
  destruct (onPacket_spec c d.1 d.2 a now Hs Hn Hsm) as (c' & E & _). by exists c'.
Qed.

(** ** Properties *)

(** The datagrams of a session that fit the buffers of the receive loop. *)
Definition fitting (stream : Z → Message) fin sess (d : list byte) : Prop :=
  sends stream fin sess d ∧ len d <= 2048.

(** They arrive whole. *)
Lemma cut_fitting stream fin sess b : cut_to 2048 (fitting stream fin sess) b → sends stream fin sess b.
Proof. intros (d & [Hd Hl] & ->). rewrite take_ge by (unfold len in Hl; lia). done. Qed.


(** C32: a datagram longer than the buffers.  The encoder makes a datagram of the
    next [k] messages that is longer than 2048 octets, and the first [j] of them
    end exactly at octet 2048.  The kernel delivers these octets only; the header
    still counts [k] messages.  The client accepts the packet: it hands over the
    [j] messages, then an empty message in place of each of the others, and the
    next expected number is after all [k] (and the cached run after them), so
    that the messages cut off are never asked for. *)
Theorem long_datagram_misread {Conn Cache : Type} `{SeqCacheSpec Cache} (c : Client Conn Cache)
    (stream : Z → Message) sess s k fin (j : nat) ra now tt
    (Hsafe : Delivery.safe c) (Hch : ch c = []) (Hses : session c = [] ∨ session c = sess) (Hseq : seqNo c = s)
    (Hsess : wf_session sess) (Hmsgs : ∀ z, wf_message (stream z))
    (Hrange : s + k <= fin ∧ fin < 2 ^ 63) (Hk : k < maxMessages) (Hj : 0 < Z.of_nat j < k)
    (Hlong : 2048 < len (head_bytes (mkHeader sess s k) ++ wire (segment stream s k)) < 65536)
    (Hcut : 20 + len (wire (segment stream s (Z.of_nat j))) = 2048) :
  let d := head_bytes (mkHeader sess s k) ++ wire (segment stream s k) in
  sends stream fin sess d ∧
  ∃ c1 c2 run, onPacket c (take (Z.to_nat 2048) d) 2048 ra now = Ret c1 ∧
    requestLoop_msg c1 tt now None None = Ret (None, c2) ∧
    ready c2 = Some (default [] (ready c) ++
      segment stream s (Z.of_nat j) ++ replicate (Z.to_nat (k - Z.of_nat j)) zeroMessage ++ run) ∧
    seqNo c2 = u64 (s + k + len run).
Proof.
  pose proof Hsafe as ((Hok & Hsq & Hws) & _). unfold maxMessages in Hk. cbv zeta.
  set (ms := segment stream s k) in *. set (ms1 := segment stream s (Z.of_nat j)) in *.
  set (h := mkHeader sess s k) in *.
  assert (len ms = k) as Hlms by (apply len_segment; lia).
  assert (len ms1 = Z.of_nat j) as Hlms1 by (apply len_segment; lia).
  assert (wf_header h) as Hwh by (split; [done|]; unfold h, max_u64; cbn; lia).
  rewrite len_app, len_head_bytes in Hlong. unfold headSize in Hlong. split.
  { pose proof (Marshal_spec (wire ms) ms) as Hm. cbv zeta in Hm. rewrite fits_all in Hm by lia.
    rewrite firstn_all, skipn_all, app_nil_r in Hm.
    replace (wire ms) with (take (Z.to_nat (len (wire ms))) (wire ms)) by (unfold len; by rewrite Nat2Z.id, firstn_all).
    apply (sends_data stream fin sess s ms (wire ms) (length ms)); [lia|unfold len in *; lia..|by rewrite Hlms|lia|exact Hm|].
    rewrite EncodeHead_spec by (vm_compute; congruence). change (drop 20 (replicate 20 x00)) with (@nil byte).
    rewrite app_nil_r. unfold h. do 4 f_equal. exact Hlms. }
  assert (take (Z.to_nat 2048) (head_bytes h ++ wire ms) = head_bytes h ++ wire ms1) as ->.
  { replace ms with (ms1 ++ segment stream (s + Z.of_nat j) (k - Z.of_nat j)).
    - rewrite wire_app, app_assoc. apply take_app_length'. rewrite length_app, length_head_bytes. unfold len in Hcut. lia.
    - unfold ms, ms1. rewrite <- segment_app by lia. f_equal. lia. }
  assert (wire ms1 ≠ []) as Hne by (intros E; rewrite E in Hcut; by vm_compute in Hcut).
  assert (len (head_bytes h ++ wire ms1) = 2048) as Hl by (rewrite len_app, len_head_bytes; unfold headSize; lia).
  assert (packet_of h (wire ms1) = mkMsgBuf s k (wire ms1)) as Hpk
    by (unfold packet_of; rewrite decide_True by (unfold h; cbn; lia); done).
  destruct (onPacket_queues sess c ra now h (wire ms1)) as (c1 & Hon & Hc1 & _ & _ & Hn1 & _ & _ & Hk1 & Hr1);
    [done|done|done| |done|lia|].
  { split; [right; unfold h, maxMessages; cbn; lia|]. split; [done|by right; right]. }
  rewrite Hl in Hon. rewrite Hpk in Hc1. set (l := ms1 ++ replicate (Z.to_nat (k - Z.of_nat j)) zeroMessage).
  assert (Unmarshal (wire ms1) k = Ret (Some l, None)) as Hun.
  { rewrite Unmarshal_wire; [by rewrite Hlms1|by apply segment_wf|lia|lia|unfold go_fuel; lia]. }
  assert (client_ok (c1 <| ch := [] |>)) as Hok1.
  { destruct (onPacket_spec c (head_bytes h ++ wire ms1) 2048 ra now Hsafe) as (c1' & E & Hs1 & _); [lia|lia|].
    rewrite Hon in E. injection E as <-. apply Hs1. }
  destruct (doMsgBuf_next (c1 <| ch := [] |>) (mkMsgBuf s k (wire ms1)) tt l) as (run & _ & _ & Hdo);
    [done|split; unfold max_u64; cbn; lia|split; cbn; lia|done|cbn; lia|cbn; lia|unfold max_u64; cbn; lia|].
  eexists c1, _, run. split; [exact Hon|]. unfold requestLoop_msg. rewrite Hc1, Hdo. cbn [mbind outcome_mbind].
  split; [done|]. rewrite append_eq, publish_eq. cbn [ready seqNo mb_msgCnt update]. rewrite Hr1, Hn1, Hseq.
  split; [unfold l; by rewrite <- app_assoc|done].
Qed.

(** C39: closing a running client.  [Close] forgets the interface but leaves the
    client running, and the next turn of its receive loop calls a method of the
    nil interface: it panics. *)
Theorem close_crashes_receiver {C Cache : Type} `{McastConn C} `{Lifecycle C} `{SeqCache Cache}
    (c c' : Client unit Cache) (cn cn' : C) E h h' err now nows
    (Hrun : Running c = true) (Hconn : conn c = Some tt)
    (Hclose : exec E (ClientOpen.Close c cn) h = (Ret (err, c', cn'), h')) :
  Running c' = true ∧ doMsgLoop (now :: nows) c' cn' = Crash.
Proof.
  destruct (wlp_exec _ _ _ _ _ _ (ClientOpen.Close_once c cn Hconn) Hclose) as (Hc & _ & Ec & _).
  assert (Running c' = true) as Hr by (by rewrite Ec). split; [done|].
  unfold doMsgLoop. cbn [doMsgLoop_turns]. rewrite Hr. unfold doMsgLoop_turn. by rewrite Hc.
Qed.

(** ** Witnesses *)

#[local] Existing Instance linux_errnos.
#[local] Instance ex_linux : McastConn sockIf := @sockIf_linux (unix_api id) _.

#[local] Existing Instance ex_memory.

(** A kernel that has the first datagram of a session for every call. *)
Definition ex_recv_env : env := λ _ c,
  match c with
  | sys_recvmmsg _ (n :: _) => if 23 <=? n then mkReply 1 0 [] None [ex_dgram 1] None [] None else err_reply 11
  | _ => err_reply 11
  end.

Abbreviation ex_net := (fitting ex_stream 3 ex_sess).

Lemma ex_net_dgram s : s = 1 ∨ s = 2 → ex_net (ex_dgram s).
Proof. intros Hs. split; [by apply ex_sends_data|]. by destruct Hs as [-> | ->]; vm_compute. Qed.

Lemma ex_recv_law h c : mmsg_law ex_net h c (ex_recv_env h c).
Proof.
  destruct c; try (split; exact I).
  destruct sizes as [|n sizes]; [split; [left; cbn; lia|done]|].
  unfold mmsg_law, kernel_recvmmsg. cbn [ex_recv_env]. destruct (23 <=? n) eqn:E; zbool.
  - split.
    + right. cbn [r_msgs r_ret]. split; [done|]. split; [cbn; lia|].
      intros [|i] m k Hm Hk; [|done]. injection Hm as <-. injection Hk as <-. exact E.
    + intros [|i] m k Hm Hk; [|done]. injection Hm as <-. injection Hk as <-.
      exists (ex_dgram 1). split; [apply ex_net_dgram; by left|]. by rewrite take_ge by (cbn; lia).
  - split; [left; cbn; lia|done].
Qed.

Definition ex_conn : sockIf := opened_reading SockIf.newSockIf 3.

#[local] Instance ex_linux_recv : McastRecvSpec sockIf ex_net := sockIf_linux_recv ex_net id.

Lemma ex_conn_ok : rc_ok ex_conn.
Proof. split; [reflexivity|apply bufs_ok_opened]. Qed.

(** The datagram is received through a socket interface, processed and read. *)
Lemma ex_received : ∃ r : @rstate sockIf unit msgCache,
  rreach ex_net true ex_client0 ex_conn r ∧ out (rs_sys r) = [ex_stream 1].
Proof.
  destruct (exec ex_recv_env (recv_call (mc_Enabled ex_conn HasMmsg) ex_conn (replicate (Z.to_nat 2048) x00)) [])
    as [o h] eqn:He.
  assert (∃ ra buff' cn' c1 c2 c3, o = Ret (None, [(ex_dgram 1, 23)], Some ra, buff', cn') ∧
    onPacket ex_client0 (ex_dgram 1) 23 ra 100 = Ret c1 ∧ ch c1 ≠ [] ∧
    requestLoop_msg c1 0 101 None None = Ret (None, c2) ∧ Read_iter c2 = (ReadMsgs [ex_stream 1] 1, c3))
    as (ra & buff' & cn' & c1 & c2 & c3 & -> & H1 & H2 & H3 & H4).
  { vm_compute in He. injection He as <- _. do 6 eexists. split; [reflexivity|].
    split; [vm_compute; reflexivity|]. split; [vm_compute; congruence|]. split; [vm_compute; reflexivity|vm_compute; reflexivity]. }
  exists (mkRstate (mkSys c3 [ex_stream 1] []) cn' buff' [] (Some ra)). split; [|reflexivity].
  apply (rreach_steps _ _ _ _ (mkSys c2 [] [])); [|by apply (steps_read _ _ c2 [] [] (ReadMsgs [ex_stream 1] 1))].
  apply (rreach_steps _ _ _ _ (mkSys c1 [] [])); [|by apply (steps_msg _ _ c1 [] [] 0 101 None None None)].
  eapply rreach_step; [eapply rreach_step; [apply rreach_init|]; eapply rstep_recv; [exact ex_recv_law|exact He]|].
  by apply (rstep_datagram _ _ (sys_init ex_client0) cn' buff' (ex_dgram 1, 23) [] (Some ra) 100 c1).
Qed.


(** Three messages of 1012 octets: the first two fill the buffer. *)
Definition ex_big (z : Z) : Message := mkMessage (replicate 1012 (z2b z)).

Lemma long_datagram_misread_witness :
  let d := head_bytes (mkHeader ex_sess 1 3) ++ wire (segment ex_big 1 3) in
  len d = 3062 ∧ sends ex_big 4 ex_sess d ∧
  ∃ c1 c2 run, onPacket ex_client0 (take (Z.to_nat 2048) d) 2048 ex_addr 100 = Ret c1 ∧
    requestLoop_msg c1 0 100 None None = Ret (None, c2) ∧
    ready c2 = Some ([ex_big 1; ex_big 2] ++ [mkMessage []] ++ run).
Proof.
  split; [vm_compute; reflexivity|].
  destruct (long_datagram_misread ex_client0 ex_big ex_sess 1 3 4 2 ex_addr 100 0) as (Hs & c1 & c2 & run & H1 & H2 & H3 & _);
    [apply (safe_init tt 0 [] 5858 [] 100); unfold max_u64; lia|reflexivity|left; reflexivity|reflexivity
    |right; vm_compute; intuition congruence|intros z; vm_compute; congruence|lia|vm_compute; reflexivity|lia
    |vm_compute; intuition congruence|vm_compute; reflexivity|].
  split; [exact Hs|]. exists c1, c2, run. split; [exact H1|]. split; [exact H2|exact H3].
Defined.

Lemma close_crashes_receiver_witness : ∃ c',
  exec (λ _ _, ret_reply 0) (@ClientOpen.Close _ _ (@sockIf_lifecycle (unix_api id)) ex_client0 ex_conn) [] =
    (Ret (None, c', ex_conn <| si_fd := -1 |>), [(sys_close 3, ret_reply 0)]) ∧
  Running c' = true ∧ doMsgLoop [7] c' (ex_conn <| si_fd := -1 |>) = Crash.
Proof.
  eexists. split; [vm_compute; reflexivity|].
  apply (@close_crashes_receiver _ _ _ (@sockIf_lifecycle (unix_api id)) _ ex_client0 _ ex_conn _ (λ _ _, ret_reply 0) []
    [(sys_close 3, ret_reply 0)] None 7 []); vm_compute; reflexivity.
Defined.
