(* ===== verification/Bpf.v ===== *)
(** * The packet filter (src/rsocket.go)

    [setBPF] patches the destination port into a classic BPF program and
    attaches it to the receiving socket.  The program is the table of
    src/rsocket.go; [bpf_run] is the semantics of the instructions it uses.  The
    theorems say which frames the kernel lets through. *)

From Stdlib Require Import Strings.Byte.
From S2P Require Import Prelude.
From S2P Require Import GoBytes.
From S2P Require Import Codec.
From S2P Require Import RawUdp.

(** [struct sock_filter] *)
Record insn : Type := mkInsn { i_code : Z; i_jt : nat; i_jf : nat; i_k : Z }.

(** The table [filter]; entries 5 and 13 hold the port. *)
Definition filter_init : list insn :=
  [mkInsn 0x28 0 0 0x0000000c;
   mkInsn 0x15 0 4 0x000086dd;
   mkInsn 0x30 0 0 0x00000014;
   mkInsn 0x15 0 11 0x00000011;
   mkInsn 0x28 0 0 0x00000038;
   mkInsn 0x15 8 9 0x000016e2;
   mkInsn 0x15 0 8 0x00000800;
   mkInsn 0x30 0 0 0x00000017;
   mkInsn 0x15 0 6 0x00000011;
   mkInsn 0x28 0 0 0x00000014;
   mkInsn 0x45 4 0 0x00001fff;
   mkInsn 0xb1 0 0 0x0000000e;
   mkInsn 0x48 0 0 0x00000010;
   mkInsn 0x15 0 1 0x000016e2;
   mkInsn 0x06 0 0 0x00040000;
   mkInsn 0x06 0 0 0x00000000].

Definition set_k (fl : list insn) (i : Z) (k : Z) : outcome (list insn) :=
  f ← idx fl i;
  set_idx fl i (mkInsn (i_code f) (i_jt f) (i_jf f) k).

(** [setBPF]: the table afterwards and the error; [ret] is the result of
    [setsockopt] and [errno] its error number. *)
Definition setBPF (fl : list insn) (port ret errno : Z) : outcome (list insn * option error) :=
  f5 ← idx fl 5;
  f13 ← idx fl 13;
  fl ← (if (i_k f5 =? port) && (i_k f13 =? port) then Ret fl
        else fl ← set_k fl 5 (u32 port); set_k fl 13 (u32 port));
  Ret (fl, if negb (ret =? 0) then Some (Errno errno) else None).

(** ** Classic BPF *)

(** Loads at an offset of the packet; [None] beyond its end. *)
Definition bpf_byte (pkt : list byte) (k : Z) : option Z :=
  if k <? 0 then None else b2z <$> pkt !! Z.to_nat k.

Definition bpf_half (pkt : list byte) (k : Z) : option Z :=
  a ← bpf_byte pkt k;
  b ← bpf_byte pkt (k + 1);
  Some (256 * a + b).

(** Run the program from its first instruction with accumulator [A] and index
    register [X]; the result is the number of octets to keep.  A load beyond the
    packet rejects it.  Jumps skip forward, so the recursion is bounded by the
    length of the program ([fuel]); [None] is a program that runs off its end. *)
Fixpoint bpf_run (fuel : nat) (prog : list insn) (pkt : list byte) (A X : Z) : option Z :=
  match fuel, prog with
  | S fuel, i :: rest =>
      let load o := match o with Some v => bpf_run fuel rest pkt v X | None => Some 0 end in
      let jump (b : bool) := bpf_run fuel (drop (if b then i_jt i else i_jf i) rest) pkt A X in
      if i_code i =? 0x28 then load (bpf_half pkt (i_k i))
      else if i_code i =? 0x30 then load (bpf_byte pkt (i_k i))
      else if i_code i =? 0x48 then load (bpf_half pkt (X + i_k i))
      else if i_code i =? 0xb1 then
        match bpf_byte pkt (i_k i) with
        | Some v => bpf_run fuel rest pkt A (4 * Z.land v 0xf)
        | None => Some 0
        end
      else if i_code i =? 0x15 then jump (A =? i_k i)
      else if i_code i =? 0x45 then jump (negb (Z.land A (i_k i) =? 0))
      else if i_code i =? 0x06 then Some (i_k i)
      else None
  | _, _ => None
  end.

Definition bpf (prog : list insn) (pkt : list byte) : option Z := bpf_run (length prog) prog pkt 0 0.

(** ** Specification *)

Definition opt_is (o : option Z) (v : Z) : bool := bool_decide (o = Some v).

(** A UDP datagram to [port] in an Ethernet frame: over IPv6 with no extension
    header, or over IPv4 in a first or only fragment, past the header's options. *)
Definition wanted (port : Z) (pkt : list byte) : bool :=
  if opt_is (bpf_half pkt 12) 0x86dd
  then opt_is (bpf_byte pkt 20) 17 && opt_is (bpf_half pkt 56) port
  else
    opt_is (bpf_half pkt 12) 0x800 && opt_is (bpf_byte pkt 23) 17 &&
    match bpf_half pkt 20, bpf_byte pkt 14 with
    | Some frag, Some ihl =>
        (Z.land frag 0x1fff =? 0) && opt_is (bpf_half pkt (4 * Z.land ihl 0xf + 16)) port
    | _, _ => false
    end.

(** The table with the port in place. *)
Definition filter_for (port : Z) : list insn :=
  take 5 filter_init ++ [mkInsn 0x15 8 9 port] ++ take 7 (drop 6 filter_init) ++
  [mkInsn 0x15 0 1 port] ++ drop 14 filter_init.

(** ** Lemmas *)

Lemma setBPF_filter p0 port ret errno : 0 <= port < 65536 →
  setBPF (filter_for p0) port ret errno =
    Ret (filter_for port, if negb (ret =? 0) then Some (Errno errno) else None).
Proof.
  intros Hp. unfold setBPF. change (idx (filter_for p0) 5) with (Ret (mkInsn 0x15 8 9 p0)).
  change (idx (filter_for p0) 13) with (Ret (mkInsn 0x15 0 1 p0)). cbn [mbind outcome_mbind i_k].
  destruct (p0 =? port) eqn:E; zbool; cbn [andb mbind outcome_mbind]; [by subst|].
  change (set_k (filter_for p0) 5 ?x) with (Ret (take 5 filter_init ++ [mkInsn 0x15 8 9 x] ++ drop 6 (filter_for p0))).
  cbn [mbind outcome_mbind].
  change (set_k (take 5 filter_init ++ [mkInsn 0x15 8 9 ?x] ++ drop 6 (filter_for p0)) 13 ?x) with (Ret (filter_for x)).
  unfold u32. by rewrite Z.mod_small by lia.
Qed.

(** One instruction at a time. *)
Section Steps.
Context (fuel : nat) (jt jf : nat) (k : Z) (rest : list insn) (pkt : list byte) (A X : Z).

Definition loaded (o : option Z) : option Z :=
  match o with Some v => bpf_run fuel rest pkt v X | None => Some 0 end.

Lemma run_ldh : bpf_run (S fuel) (mkInsn 0x28 jt jf k :: rest) pkt A X = loaded (bpf_half pkt k).
Proof. reflexivity. Qed.
Lemma run_ldb : bpf_run (S fuel) (mkInsn 0x30 jt jf k :: rest) pkt A X = loaded (bpf_byte pkt k).
Proof. reflexivity. Qed.
Lemma run_ldi : bpf_run (S fuel) (mkInsn 0x48 jt jf k :: rest) pkt A X = loaded (bpf_half pkt (X + k)).
Proof. reflexivity. Qed.
Lemma run_ldx : bpf_run (S fuel) (mkInsn 0xb1 jt jf k :: rest) pkt A X =
  match bpf_byte pkt k with Some v => bpf_run fuel rest pkt A (4 * Z.land v 0xf) | None => Some 0 end.
Proof. reflexivity. Qed.
Lemma run_jeq : bpf_run (S fuel) (mkInsn 0x15 jt jf k :: rest) pkt A X =
  if A =? k then bpf_run fuel (drop jt rest) pkt A X else bpf_run fuel (drop jf rest) pkt A X.
Proof. cbn -[Z.eqb]. by destruct (A =? k). Qed.
Lemma run_jset : bpf_run (S fuel) (mkInsn 0x45 jt jf k :: rest) pkt A X =
  if Z.land A k =? 0 then bpf_run fuel (drop jf rest) pkt A X else bpf_run fuel (drop jt rest) pkt A X.
Proof. cbn -[Z.eqb Z.land]. by destruct (Z.land A k =? 0). Qed.
Lemma run_ret : bpf_run (S fuel) (mkInsn 0x06 jt jf k :: rest) pkt A X = Some k.
Proof. reflexivity. Qed.
End Steps.

Lemma opt_is_Some v w : opt_is (Some v) w = (v =? w).
Proof. unfold opt_is. case_bool_decide as H; symmetry; [apply Z.eqb_eq|apply Z.eqb_neq]; congruence. Qed.

Ltac bpf_step :=
  first [rewrite run_ldh | rewrite run_ldb | rewrite run_ldi | rewrite run_ldx | rewrite run_jeq
        | rewrite run_jset | rewrite run_ret];
  unfold loaded; cbn [drop].

Lemma bpf_filter port pkt : bpf (filter_for port) pkt = Some (if wanted port pkt then 0x40000 else 0).
Proof.
  unfold bpf, wanted.
  change (length (filter_for port)) with 16%nat. unfold filter_for, filter_init. cbn [take drop app].
  bpf_step. destruct (bpf_half pkt 12) as [et|]; [rewrite !opt_is_Some|done].
  bpf_step. destruct (et =? 0x86dd) eqn:E6.
  - bpf_step. destruct (bpf_byte pkt 20) as [nh|]; [rewrite opt_is_Some|done].
    bpf_step. destruct (nh =? 17) eqn:E7; cbn [andb]; [|by bpf_step].
    bpf_step. destruct (bpf_half pkt 56) as [dp|]; [rewrite opt_is_Some|done].
    bpf_step. destruct (dp =? port); by bpf_step.
  - bpf_step. destruct (et =? 0x800) eqn:E4; cbn [andb]; [|by bpf_step].
    bpf_step. destruct (bpf_byte pkt 23) as [pr|]; [rewrite opt_is_Some|done].
    bpf_step. destruct (pr =? 17) eqn:E7; cbn [andb]; [|by bpf_step].
    bpf_step. destruct (bpf_half pkt 20) as [fr|]; [|done].
    bpf_step. destruct (Z.land fr 8191 =? 0); cbn [andb].
    + bpf_step. destruct (bpf_byte pkt 14) as [ihl|]; [|done].
      bpf_step. destruct (bpf_half pkt _) as [dp|]; [rewrite opt_is_Some|done].
      bpf_step. destruct (dp =? port); by bpf_step.
    + bpf_step. by destruct (bpf_byte pkt 14).
Qed.

(** ** Properties *)

(** C30: the attached filter.  Whatever port the table held before, after
    [setBPF] for a port the program terminates on every frame, keeps the frame
    when it is a UDP datagram to that port (over IPv6, or over IPv4 in an
    unfragmented or first fragment, with the header length taken into account)
    and drops everything else, frames too short to tell included. *)
Theorem setBPF_exact p0 port ret errno pkt (Hport : 0 <= port < 65536) :
  ∃ fl e, setBPF (filter_for p0) port ret errno = Ret (fl, e) ∧ (e = None ↔ ret = 0) ∧
    bpf fl pkt = Some (if wanted port pkt then 0x40000 else 0).
Proof.
  rewrite setBPF_filter by done. eexists _, _. split; [done|]. split; [|apply bpf_filter].
  destruct (ret =? 0) eqn:E; zbool; cbn; (split; [intros|]; done).
Qed.

(** An IPv4 frame to UDP port 5000 whose datagram is a first fragment, and the
    same with another fragment offset. *)
Definition ex_fragment (off : byte) : list byte :=
  replicate 12 x00 ++ [x08; x00; x45; x00; x00; x00; x00; x00; x20; off; x40; x11] ++ replicate 12 x00 ++ [x13; x88].

(** The first fragment is kept and the other one dropped. *)
Lemma setBPF_exact_witness :
  ∃ fl, setBPF filter_init 5000 0 0 = Ret (fl, None) ∧
    bpf fl (ex_fragment x00) = Some 0x40000 ∧ bpf fl (ex_fragment x01) = Some 0.
Proof.
  destruct (setBPF_exact 0x16e2 5000 0 0 (ex_fragment x00)) as (fl & e & E & He & H0); [lia|].
  destruct (setBPF_exact 0x16e2 5000 0 0 (ex_fragment x01)) as (fl1 & e1 & E1 & _ & H1); [lia|].
  rewrite E in E1. injection E1 as <- <-. rewrite (proj2 He eq_refl) in E.
  exists fl. split; [exact E|]. split; [exact H0|exact H1].
Defined.

(** The filter and the sender agree.  The filter for a port keeps a frame
    that [copyFx] builds exactly when the sender's port is that port. *)
Lemma filter_own_frames port c n payload
    (Hc : wf_addr c) (Hcp : 0 <= za_port c < 65536) :
  bpf (filter_for port) (raw_frame c n payload) = Some (if za_port c =? port then 0x40000 else 0).
Proof.
  rewrite bpf_filter. destruct Hc as (H1 & H2 & H3 & H4). destruct c as [d s di si p].
  cbn in H1, H2, H3, H4, Hcp. octets 6 d. octets 6 s. octets 4 di. octets 4 si.
  unfold raw_frame, ip_header, udp_header. cbn [za_dst za_src za_dstIP za_srcIP za_port].
  rewrite !be_put_2. unfold wanted.
  assert (256 * b2z (z2b (Z.shiftr p 8)) + b2z (z2b p) = p) as Hp.
  { rewrite !b2z_z2b, Z.shiftr_div_pow2 by lia. change (2 ^ 8) with 256. word. }
  cbn [app]. set (F := _ :: _).
  assert (bpf_half F 12 = Some 0x800) as -> by reflexivity.
  assert (bpf_byte F 23 = Some 17) as -> by reflexivity.
  assert (bpf_half F 20 = Some 0x4000) as -> by reflexivity.
  assert (bpf_byte F 14 = Some 0x45) as -> by reflexivity.
  change (4 * Z.land 69 15 + 16) with 36.
  assert (bpf_half F 36 = Some (256 * b2z (z2b (Z.shiftr p 8)) + b2z (z2b p))) as -> by reflexivity.
  rewrite !opt_is_Some, Hp. done.
Qed.

Lemma filter_own_frames_witness :
  bpf (filter_for 5858) (raw_frame ex_zaddr 1 [x41]) = Some (if 5858 =? 5858 then 0x40000 else 0).
Proof. apply (filter_own_frames 5858 ex_zaddr 1 [x41]); vm_compute; intuition congruence. Defined.
