(* ===== verification/ZRing.v ===== *)
(** * The transmit ring (src/zsocket.go)

    [ZSocket] shares a ring of frames with the kernel.  The program fills a
    frame ([CopyToBuffer], [WriteToBuffer]) and hands the filled frames over
    ([FlushFrames]); the kernel sends them and gives them back through the
    status word of each frame.  The model keeps the octets of every frame, with
    the header [struct tpacket_hdr] at its start as the 64-bit Linux ABI lays
    it out; the kernel's writes, the errors of system calls and the other
    goroutines are arguments of the operations. *)

From Stdlib Require Import Strings.Byte.
From S2P Require Import Prelude.
From S2P Require Import GoBytes.

(** ** Little-endian fields of a header *)

Definition hdr_get (off w : nat) (raw : list byte) : Z := le_get (take w (drop off raw)).
Definition hdr_set (off w : nat) (v : Z) (raw : list byte) : list byte :=
  take off raw ++ le_put w v ++ drop (off + w) raw.

Section Fields.
Context (raw : list byte) (off w : nat) (v : Z).
Context (Hin : (off + w <= length raw)%nat).

Lemma length_hdr_set : length (hdr_set off w v raw) = length raw.
Proof. unfold hdr_set. rewrite !length_app, length_take, length_drop, length_le_put. lia. Qed.

Lemma hdr_get_set : hdr_get off w (hdr_set off w v raw) = v mod 2 ^ (8 * Z.of_nat w).
Proof.
  unfold hdr_get, hdr_set. rewrite drop_app_length' by (rewrite length_take; lia).
  rewrite take_app_length' by (by rewrite length_le_put). apply le_get_put.
Qed.

Lemma drop_hdr_set k : (off + w <= k)%nat → drop k (hdr_set off w v raw) = drop k raw.
Proof.
  intros Hk. unfold hdr_set. rewrite app_assoc, drop_app_ge
    by (rewrite length_app, length_take, length_le_put; lia).
  rewrite length_app, length_take, length_le_put, drop_drop. f_equal. lia.
Qed.

Lemma take_hdr_set k : (k <= off)%nat → take k (hdr_set off w v raw) = take k raw.
Proof.
  intros Hk. unfold hdr_set. rewrite take_app_le by (rewrite length_take; lia).
  rewrite take_take. f_equal. lia.
Qed.

Lemma hdr_get_set_after o' w' : (off + w <= o')%nat → hdr_get o' w' (hdr_set off w v raw) = hdr_get o' w' raw.
Proof. intros. unfold hdr_get. by rewrite drop_hdr_set. Qed.

Lemma hdr_get_set_before o' w' : (o' + w' <= off)%nat → hdr_get o' w' (hdr_set off w v raw) = hdr_get o' w' raw.
Proof.
  intros. unfold hdr_get. by rewrite !take_drop_commute, take_hdr_set by lia.
Qed.
End Fields.

(** ** Frames *)

(** Values of [tp_status] (linux/if_packet.h). *)
Definition TP_STATUS_KERNEL : Z := 0.
Definition TP_STATUS_USER : Z := 1.
Definition TP_STATUS_SEND_REQUEST : Z := 1.
Definition TP_STATUS_SENDING : Z := 2.
Definition TP_STATUS_WRONG_FORMAT : Z := 4.

Definition TPACKET_ALIGNMENT : Z := 16.

(** [sizeof(struct tpacket_hdr)]. *)
Definition sizeof_tpacket_hdr : Z := 32.

Definition tpAlign (x : Z) : Z :=
  i64 (Z.land (u64 (u64 x + TPACKET_ALIGNMENT - 1)) (Z.lnot (TPACKET_ALIGNMENT - 1))).

(** [_TX_START]: the packet starts after the aligned header. *)
Definition TX_START : Z := tpAlign sizeof_tpacket_hdr.

(** The struct [ringFrame]; its [txStart] is [raw[TX_START:]]. *)
Record ringFrame : Type := mkRingFrame { raw : list byte; mb : Z }.
#[export] Instance ringFrame_eta : Eta ringFrame := λ f, mkRingFrame (raw f) (mb f).

Definition tp_status (f : ringFrame) : Z := hdr_get 0 8 (raw f).
Definition tpLen (f : ringFrame) : Z := u16 (hdr_get 8 4 (raw f)).
Definition tpSnapLen (f : ringFrame) : Z := u16 (hdr_get 12 4 (raw f)).
Definition macStart (f : ringFrame) : Z := u16 (hdr_get 16 2 (raw f)).
Definition set_status (v : Z) (f : ringFrame) : ringFrame := f <| raw := hdr_set 0 8 v (raw f) |>.
Definition setTpLen (v : Z) (f : ringFrame) : ringFrame := f <| raw := hdr_set 8 4 v (raw f) |>.
Definition setTpSnapLen (v : Z) (f : ringFrame) : ringFrame := f <| raw := hdr_set 12 4 v (raw f) |>.

(** [atomic.CompareAndSwapUint32(&rf.mb, 0, 1)]. *)
Definition cas_mb (f : ringFrame) : bool * ringFrame :=
  if mb f =? 0 then (true, f <| mb := 1 |>) else (false, f).

Definition rxReady (f : ringFrame) : bool * ringFrame :=
  if Z.land (tp_status f) TP_STATUS_USER =? TP_STATUS_USER then cas_mb f else (false, f).
Definition rxSet (f : ringFrame) : ringFrame := (set_status TP_STATUS_KERNEL f) <| mb := 0 |>.

Definition txWrongFormat (f : ringFrame) : bool :=
  Z.land (tp_status f) TP_STATUS_WRONG_FORMAT =? TP_STATUS_WRONG_FORMAT.
Definition txReady (f : ringFrame) : bool :=
  Z.land (tp_status f) (Z.lor TP_STATUS_SEND_REQUEST TP_STATUS_SENDING) =? 0.
Definition txMBReady (f : ringFrame) : bool * ringFrame := cas_mb f.
Definition txSet (f : ringFrame) : ringFrame := set_status TP_STATUS_SEND_REQUEST f.
Definition txSetMB (f : ringFrame) : ringFrame := f <| mb := 0 |>.

(** ** The socket *)

(** The errors of src/zsocket.go: its messages, [txIndexError], and errors of
    system calls. *)
Inductive zerror : Type :=
| zTooLong
| zTxDisabled
| zRxDisabled
| zListening
| zFull
| zBadFrameSize
| zBadTotalFrames
| txIndexError (i : Z)
| zErrno (e : Z).

(** The fields of [ZSocket] that the transmit side uses, with the package's
    counters [nPacketSent] and [nPacketWrong]. *)
Record ZSocket : Type := mkZSocket {
  stats_Polls : Z;
  nPackets : Z;
  nDrops : Z;
  frameNum : Z;
  txEnabled : bool;
  txLossDisabled : bool;
  txFrameSize : Z;
  txIndex : Z;
  txWritten : Z;
  txWrittenIndex : Z;
  txFrames : list ringFrame;
  nPacketSent : Z;
  nPacketWrong : Z
}.
#[export] Instance ZSocket_eta : Eta ZSocket := λ z,
  mkZSocket (stats_Polls z) (nPackets z) (nDrops z) (frameNum z) (txEnabled z) (txLossDisabled z)
    (txFrameSize z) (txIndex z) (txWritten z) (txWrittenIndex z) (txFrames z) (nPacketSent z)
    (nPacketWrong z).

(** A call of [Poll]: what the kernel did to the frames meanwhile, and the
    error. *)
Record poll_event : Type := mkPollEvent {
  pe_mem : list ringFrame → list ringFrame;
  pe_err : option zerror
}.

(** [(i + 1) % n] on [int32]; [n = 0] panics. *)
Definition next_index (n i : Z) : outcome Z :=
  if n =? 0 then Panic else Ret (Z.rem (i32 (i + 1)) n).

(** [for !tx.txReady() { Poll }]; when no poll is left the call never returns. *)
Fixpoint wait_ready (zs : ZSocket) (i : Z) (evs : list poll_event)
    : outcome (option zerror * ZSocket) :=
  tx ← idx (txFrames zs) i;
  if txReady tx then Ret (None, zs)
  else
    match evs with
    | [] => Diverge
    | ev :: evs' =>
        let zs := zs <| stats_Polls := i64 (stats_Polls zs + 1) |> in
        let zs := zs <| txFrames := pe_mem ev (txFrames zs) |> in
        match pe_err ev with
        | Some e => Ret (Some e, zs)
        | None => wait_ready zs i evs'
        end
    end.

(** [for !tx.txMBReady() { runtime.Gosched() }]; [ys] is what the other
    goroutines do at each turn. *)
Fixpoint wait_mb (zs : ZSocket) (i : Z) (ys : list (ZSocket → ZSocket)) : outcome ZSocket :=
  tx ← idx (txFrames zs) i;
  let '(ok, tx') := txMBReady tx in
  if ok : bool then
    fs ← set_idx (txFrames zs) i tx';
    Ret (zs <| txFrames := fs |>)
  else
    match ys with
    | [] => Diverge
    | y :: ys' => wait_mb (y zs) i ys'
    end.

(** [getFreeTx]: the index of the frame, or the error. *)
Definition getFreeTx (zs : ZSocket) (evs : list poll_event) (ys : list (ZSocket → ZSocket))
    : outcome ((zerror + Z) * ZSocket) :=
  if txWritten zs =? frameNum zs then Ret (inl zFull, zs)
  else
    let i := txIndex zs in
    nxt ← next_index (frameNum zs) i;
    let zs := zs <| txIndex := nxt |> in
    '(err, zs) ← wait_ready zs i evs;
    match err with
    | Some e => Ret (inl e, zs)
    | None => zs ← wait_mb zs i ys; Ret (inr i, zs)
    end.

(** The type of the functions that fill a frame: destination, source and length
    to the destination afterwards and the length written. *)
Definition copier : Type := list byte → list byte → Z → outcome (list byte * Z).

(** The package's [copyFx]. *)
Definition copyFx : copier := λ dst src l, Ret (go_copy dst src, u16 l).

(** [CopyToBuffer]: the frame's index and the error. *)
Definition CopyToBuffer (zs : ZSocket) (buf : list byte) (l : Z) (fx : copier)
    (evs : list poll_event) (ys : list (ZSocket → ZSocket))
    : outcome (Z * option zerror * ZSocket) :=
  if negb (txEnabled zs) then Ret (-1, Some zTxDisabled, zs)
  else
    '(r, zs) ← getFreeTx zs evs ys;
    match r with
    | inl e => Ret (-1, Some e, zs)
    | inr i =>
        tx ← idx (txFrames zs) i;
        txStart ← slice TX_START (len (raw tx)) (raw tx);
        '(txStart, cL) ← fx txStart buf l;
        let tx := tx <| raw := take (Z.to_nat TX_START) (raw tx) ++ txStart |> in
        let tx := setTpSnapLen cL (setTpLen cL tx) in
        fs ← set_idx (txFrames zs) i tx;
        let zs := zs <| txFrames := fs |> in
        let zs := zs <| nPacketSent := i64 (nPacketSent zs + 1) |> in
        let zs := zs <| txWritten := i32 (txWritten zs + 1) |> in
        let zs := if txWritten zs =? 1 then zs <| txWrittenIndex := i |> else zs in
        Ret (i, None, zs)
    end.

Definition WriteToBuffer (zs : ZSocket) (buf : list byte) (l : Z)
    (evs : list poll_event) (ys : list (ZSocket → ZSocket))
    : outcome (Z * option zerror * ZSocket) :=
  if txFrameSize zs <? l then Ret (-1, Some zTooLong, zs)
  else if l <=? 0 then CopyToBuffer zs buf (u16 (len buf)) copyFx evs ys
  else
    buf ← slice 0 l buf;
    CopyToBuffer zs buf l copyFx evs ys.

(** [updateSocketStats]: [None] is a failed [getsockopt], [Some (p, d)] the
    kernel's counters since the last call. *)
Definition updateSocketStats (zs : ZSocket) (st : option (Z * Z)) : ZSocket :=
  match st with
  | None => zs
  | Some (p, d) => zs <| nPackets := u64 (nPackets zs + p) |> <| nDrops := u64 (nDrops zs + d) |>
  end.

(** The first loop of [FlushFrames]: hand [w] frames from [t] on to the kernel. *)
Fixpoint flush_set (n : Z) (fs : list ringFrame) (t : Z) (w : nat) : outcome (list ringFrame) :=
  match w with
  | O => Ret fs
  | S w' =>
      tx ← idx fs t;
      fs ← set_idx fs t (txSet tx);
      t ← next_index n t;
      flush_set n fs t w'
  end.

(** Its second loop: collect the errors, count the frames sent, release. *)
Fixpoint flush_release (zs : ZSocket) (t : Z) (w : nat) (flushed : Z) (errs : list zerror)
    : outcome (Z * list zerror * ZSocket) :=
  match w with
  | O => Ret (flushed, errs, zs)
  | S w' =>
      tx ← idx (txFrames zs) t;
      let bad := txLossDisabled zs && txWrongFormat tx in
      let zs := if bad then zs <| nPacketWrong := i64 (nPacketWrong zs + 1) |> else zs in
      let errs := if bad then errs ++ [txIndexError t] else errs in
      let flushed := if bad then flushed else u64 (flushed + 1) in
      fs ← set_idx (txFrames zs) t (txSetMB tx);
      t ← next_index (frameNum zs) t;
      flush_release (zs <| txFrames := fs |>) t w' flushed errs
  end.

(** [FlushFrames]: [send] is what the kernel does to the frames in [Sendto] and
    [serr] its error; frames flushed, error, per-frame errors. *)
Definition FlushFrames (zs : ZSocket) (send : list ringFrame → list ringFrame)
    (serr : option zerror) (st : option (Z * Z))
    : outcome (Z * option zerror * list zerror * ZSocket) :=
  if negb (txEnabled zs) then Ret (0, Some zTxDisabled, [], zs)
  else
    let index := txWrittenIndex zs in
    if index =? -1 then Ret (0, None, [], zs)
    else
      let zs := zs <| txWrittenIndex := -1 |> in
      let written := txWritten zs in
      let zs := zs <| txWritten := 0 |> in
      fs ← flush_set (frameNum zs) (txFrames zs) index (Z.to_nat written);
      let zs := zs <| txFrames := send fs |> in
      match serr with
      | Some e => Ret (0, Some e, [], zs)
      | None =>
          let zs := updateSocketStats zs st in
          '(flushed, errs, zs) ← flush_release zs index (Z.to_nat written) 0 [];
          Ret (flushed, None, errs, zs)
      end.

(** ** Specification *)

(** The packet in a frame. *)
Definition frame_data (f : ringFrame) : list byte :=
  take (Z.to_nat (tpLen f)) (drop (Z.to_nat TX_START) (raw f)).

Definition noFrame : ringFrame := mkRingFrame [] 0.
Definition slot (fs : list ringFrame) (i : Z) : ringFrame := default noFrame (fs !! Z.to_nat i).

(** How many frames after frame [i] have been taken; the frames written and not
    yet flushed are the [txWritten] youngest. *)
Definition age (zs : ZSocket) (i : Z) : Z := (txIndex zs - 1 - i) mod frameNum zs.
Definition in_window (zs : ZSocket) (i : Z) : bool := age zs i <? txWritten zs.

(** The frame with the [k]-th packet written since the last flush. *)
Definition window_at (zs : ZSocket) (k : Z) : Z := (txIndex zs - txWritten zs + k) mod frameNum zs.

(** The abstraction of the ring: the queue of packets not yet flushed. *)
Definition pending_in (zs : ZSocket) (fs : list ringFrame) : list (list byte) :=
  map (λ k, frame_data (slot fs (window_at zs k))) (seqZ 0 (txWritten zs)).
Definition pending (zs : ZSocket) : list (list byte) := pending_in zs (txFrames zs).

Definition frame_ok (size : Z) (f : ringFrame) : Prop := len (raw f) = TX_START + size.

(** The invariant of the transmit side between operations. *)
Record tx_ok (zs : ZSocket) : Prop := {
  tk_num : 0 < frameNum zs < 2147483648;
  tk_len : len (txFrames zs) = frameNum zs;
  tk_size : 0 <= txFrameSize zs < 65536;
  tk_frames : Forall (frame_ok (txFrameSize zs)) (txFrames zs);
  tk_index : 0 <= txIndex zs < frameNum zs;
  tk_written : 0 <= txWritten zs <= frameNum zs;
  tk_first : txWrittenIndex zs = if txWritten zs =? 0 then -1 else window_at zs 0;
  tk_mb i f : 0 <= i → txFrames zs !! Z.to_nat i = Some f → mb f = if in_window zs i then 1 else 0;
  tk_ready i f : 0 <= i → txFrames zs !! Z.to_nat i = Some f → in_window zs i = true → txReady f = true
}.

(** What the kernel may do to the frames: nothing to the frames it does not own
    (their status is neither SEND_REQUEST nor SENDING), nothing to the word
    [mb], which is not in the shared memory, and it never resizes a frame. *)
Definition kernel_ok (fs fs' : list ringFrame) : Prop :=
  Forall2 (λ f f', mb f' = mb f ∧ len (raw f') = len (raw f) ∧ (txReady f = true → f' = f)) fs fs'.

(** The frame [i] becomes free within the polls [evs], none of which fails. *)
Fixpoint becomes_ready (fs : list ringFrame) (i : Z) (evs : list poll_event) : bool :=
  txReady (slot fs i) ||
  match evs with
  | [] => false
  | ev :: evs' => bool_decide (pe_err ev = None) && becomes_ready (pe_mem ev fs) i evs'
  end.
#[export] Instance zerror_eq_dec : EqDecision zerror.
Proof. solve_decision. Defined.

(** ** Index arithmetic *)

Lemma mod_once n a : 0 < n → - n <= a < n → a mod n = if a <? 0 then a + n else a.
Proof. intros Hn Ha. zcase; [rewrite <- (Z.mod_add a 1), Z.mul_1_l by lia|]; apply Z.mod_small; lia. Qed.

Lemma next_index_ok n t : 0 <= t < n → n < 2147483648 →
  next_index n t = Ret (if t + 1 =? n then 0 else t + 1).
Proof.
  intros Ht Hn. unfold next_index. zcase. rewrite i32_small by lia. f_equal.
  zcase; [subst n; apply Z.rem_same; lia|apply Z.rem_small; lia].
Qed.

(** Expand every [a mod n] with [a] within one turn of the ring. *)
Ltac ring_mod := rewrite ?mod_once by lia; repeat zcase; try lia.

Lemma slot_lookup fs i : 0 <= i < len fs → fs !! Z.to_nat i = Some (slot fs i).
Proof.
  intros Hi. unfold slot. destruct (lookup_lt_is_Some_2 fs (Z.to_nat i)) as [f ->]; [unfold len in *; lia|done].
Qed.

Lemma idx_slot fs i : 0 <= i < len fs → idx fs i = Ret (slot fs i).
Proof. intros. apply idx_lookup; [lia|by apply slot_lookup]. Qed.

Lemma set_idx_ok {A} (l : list A) i x : 0 <= i < len l → set_idx l i x = Ret (<[Z.to_nat i := x]> l).
Proof. intros. unfold set_idx. by rewrite (proj2 (Z.leb_le 0 i)), (proj2 (Z.ltb_lt i (len l))) by lia. Qed.

(** ** The loops of FlushFrames *)

(** Frame [i] is one of the [w] frames from [t] on. *)
Definition in_run (n t w i : Z) : bool := (i - t) mod n <? w.

Lemma in_run_step n t w i : 0 <= t < n → 0 <= i < n → 0 <= w → w + 1 <= n →
  in_run n t (w + 1) i = (i =? t) || in_run n (if t + 1 =? n then 0 else t + 1) w i.
Proof.
  intros Ht Hi Hw Hn. unfold in_run.
  destruct (i =? t) eqn:E; zbool; cbn [orb].
  - subst. rewrite Z.sub_diag, Z.mod_0_l by lia. apply Z.ltb_lt. lia.
  - rewrite !mod_once by (destruct (t + 1 =? n) eqn:?; zbool; lia).
    destruct (t + 1 =? n) eqn:?; zbool; repeat (zcase; zbool);
      (destruct (_ <? w + 1) eqn:?, (_ <? w) eqn:?; zbool; done || lia).
Qed.

Lemma in_run_self n t w : 0 <= t < n → w + 1 <= n →
  in_run n (if t + 1 =? n then 0 else t + 1) w t = false.
Proof.
  intros Ht Hn. unfold in_run. apply Z.ltb_ge.
  destruct (t + 1 =? n) eqn:E; zbool; rewrite mod_once by lia; zcase.
Qed.

Lemma next_mod n i : 0 <= i < n → (if i + 1 =? n then 0 else i + 1) = (i + 1) mod n.
Proof. intros Hi. zcase; [subst n; symmetry; apply Z.mod_same; lia|symmetry; apply Z.mod_small; lia]. Qed.

Lemma run_offset n i k : 0 <= k < n → ((i + k) mod n - i) mod n = k.
Proof. intros Hk. rewrite Zminus_mod_idemp_l. rewrite <- (Z.mod_small k n) at 2 by lia. f_equal. lia. Qed.

Lemma run_position n i j : 0 <= j < n → (i + (j - i) mod n) mod n = j.
Proof. intros Hj. rewrite Zplus_mod_idemp_r. rewrite <- (Z.mod_small j n) at 2 by lia. f_equal. lia. Qed.

Lemma in_run_at n i m k : 0 <= k < n → in_run n i m ((i + k) mod n) = (k <? m).
Proof. intros Hk. unfold in_run. by rewrite run_offset. Qed.

Lemma in_run_push n i m j : 0 <= j < n → 0 <= m < n →
  in_run n i (m + 1) j = (j =? (i + m) mod n) || in_run n i m j.
Proof.
  intros Hj Hm. unfold in_run. pose proof (Z.mod_pos_bound (j - i) n ltac:(lia)) as Hb.
  destruct (j =? (i + m) mod n) eqn:E; zbool; cbn [orb].
  - subst. rewrite run_offset by lia. apply Z.ltb_lt. lia.
  - assert ((j - i) mod n ≠ m) as Hne by (intros <-; apply E; by rewrite run_position).
    destruct (_ <? m + 1) eqn:E1, (_ <? m) eqn:E2; zbool; done || lia.
Qed.

Lemma in_run_app n i m1 m2 j : 0 < n → 0 <= m1 → 0 <= m2 → m1 + m2 <= n →
  in_run n i (m1 + m2) j = in_run n i m1 j || in_run n ((i + m1) mod n) m2 j.
Proof.
  intros Hn H1 H2 Hm. unfold in_run. rewrite Zminus_mod_idemp_r.
  replace (j - (i + m1)) with (j - i - m1) by lia. rewrite <- (Zminus_mod_idemp_l (j - i)).
  pose proof (Z.mod_pos_bound (j - i) n Hn) as Hb. rewrite (mod_once n ((j - i) mod n - m1)) by lia.
  destruct ((j - i) mod n <? m1) eqn:E1, ((j - i) mod n - m1 <? 0) eqn:E2,
    ((j - i) mod n <? m1 + m2) eqn:E3; zbool; cbn [orb]; try (done || lia);
    (symmetry; (apply Z.ltb_lt || apply Z.ltb_ge); lia) || (symmetry; apply Z.ltb_ge; lia).
Qed.

(** The contents of the [m] places of a ring from [i] on, oldest first. *)
Definition run_of {A} (n i m : Z) (g : Z → A) : list A := map (λ k, g ((i + k) mod n)) (seqZ 0 m).

Lemma run_of_push {A} n i m (g : Z → A) : 0 <= m → run_of n i (m + 1) g = run_of n i m g ++ [g ((i + m) mod n)].
Proof.
  intros Hm. unfold run_of. by rewrite seqZ_app, map_app by lia.
Qed.

Lemma run_of_app {A} n i m1 m2 (g : Z → A) : 0 <= m1 → 0 <= m2 →
  run_of n i (m1 + m2) g = run_of n i m1 g ++ run_of n ((i + m1) mod n) m2 g.
Proof.
  intros H1 H2. unfold run_of. rewrite seqZ_app, map_app by lia. f_equal.
  replace (seqZ (0 + m1) m2) with (Z.add m1 <$> seqZ 0 m2) by (rewrite fmap_add_seqZ; f_equal; lia).
  rewrite map_map. apply map_ext. intros k. rewrite Zplus_mod_idemp_l. do 2 f_equal. lia.
Qed.

Lemma run_of_mod {A} n i m (g : Z → A) : run_of n (i mod n) m g = run_of n i m g.
Proof. apply map_ext. intros k. by rewrite Zplus_mod_idemp_l. Qed.

Lemma run_of_pop {A} n i m (g : Z → A) : 0 <= i < n → 0 < m → run_of n i m g = g i :: run_of n ((i + 1) mod n) (m - 1) g.
Proof.
  intros Hi Hm. replace m with (1 + (m - 1)) at 1 by lia. rewrite run_of_app by lia.
  unfold run_of at 1. change (seqZ 0 1) with [0]. cbn [map]. by rewrite Z.add_0_r, Z.mod_small by lia.
Qed.

Lemma run_of_ext {A} n i m (g g' : Z → A) : 0 < n → m <= n →
  (∀ j, 0 <= j < n → in_run n i m j = true → g j = g' j) → run_of n i m g = run_of n i m g'.
Proof.
  intros Hn Hm Hg. apply map_ext_in. intros k Hk. apply list_elem_of_In, elem_of_seqZ in Hk.
  apply Hg; [apply Z.mod_pos_bound; lia|]. rewrite in_run_at by lia. apply Z.ltb_lt. lia.
Qed.

(** What a sweep of [g] over the run of [w] frames from [t] on does. *)
Definition swept (g : ringFrame → ringFrame) (n t w : Z) (fs fs' : list ringFrame) : Prop :=
  len fs' = len fs ∧
  ∀ i, 0 <= i < len fs → slot fs' i = if in_run n t w i then g (slot fs i) else slot fs i.

Lemma slot_insert fs t i x : 0 <= t < len fs → 0 <= i < len fs →
  slot (<[Z.to_nat t := x]> fs) i = if i =? t then x else slot fs i.
Proof.
  intros Ht Hi. unfold slot. destruct (i =? t) eqn:E; zbool.
  - subst. rewrite list_lookup_insert_eq by (unfold len in *; lia). done.
  - rewrite list_lookup_insert_ne by lia. done.
Qed.

Lemma len_insert {A} (l : list A) k x : len (<[k := x]> l) = len l.
Proof. unfold len. by rewrite length_insert. Qed.

Lemma swept_nil g n t fs : 0 < n → swept g n t 0 fs fs.
Proof.
  intros Hn. split; [done|]. intros i Hi. unfold in_run. destruct (_ <? 0) eqn:E; zbool; [|done].
  pose proof (Z.mod_pos_bound (i - t) n). lia.
Qed.

Lemma swept_step g n t w fs fs' : 0 <= t < n → len fs = n → 0 <= w → w + 1 <= n →
  swept g n (if t + 1 =? n then 0 else t + 1) w (<[Z.to_nat t := g (slot fs t)]> fs) fs' →
  swept g n t (w + 1) fs fs'.
Proof.
  intros Ht Hl Hw Hn [Hlen Hs]. rewrite len_insert in Hlen, Hs. split; [done|].
  intros i Hi. rewrite Hs by done. rewrite slot_insert by lia.
  rewrite in_run_step by lia. destruct (i =? t) eqn:E; zbool; cbn [orb]; [|done].
  subst. by rewrite in_run_self by lia.
Qed.

Lemma flush_set_spec n w : ∀ fs t, len fs = n → 0 <= t < n → n < 2147483648 → Z.of_nat w <= n →
  ∃ fs', flush_set n fs t w = Ret fs' ∧ swept txSet n t (Z.of_nat w) fs fs'.
Proof.
  induction w as [|w IH]; intros fs t Hl Ht Hn Hw.
  { exists fs. split; [done|apply swept_nil; lia]. }
  cbn [flush_set]. rewrite idx_slot by lia. cbn [mbind outcome_mbind].
  rewrite set_idx_ok by lia. cbn [mbind outcome_mbind]. rewrite next_index_ok by lia.
  cbn [mbind outcome_mbind].
  destruct (IH (<[Z.to_nat t := txSet (slot fs t)]> fs) (if t + 1 =? n then 0 else t + 1)) as (fs' & E & Hs);
    [by rewrite len_insert|zcase|lia|lia|].
  exists fs'. split; [done|]. replace (Z.of_nat (S w)) with (Z.of_nat w + 1) by lia.
  by apply swept_step; [lia..|].
Qed.

(** The second loop changes only frames and the count of bad frames. *)
Lemma flush_release_spec w : ∀ zs t flushed errs,
  len (txFrames zs) = frameNum zs → 0 <= t < frameNum zs → frameNum zs < 2147483648 →
  Z.of_nat w <= frameNum zs → 0 <= flushed → flushed + Z.of_nat w < 2147483648 →
  ∃ fs bad flushed' errs', flush_release zs t w flushed errs =
      Ret (flushed', errs', zs <| nPacketWrong := bad |> <| txFrames := fs |>) ∧
    swept txSetMB (frameNum zs) t (Z.of_nat w) (txFrames zs) fs ∧
    flushed' + len errs' = flushed + len errs + Z.of_nat w.
Proof.
  induction w as [|w IH]; intros zs t flushed errs Hl Ht Hn Hw Hf Hf'.
  { exists (txFrames zs), (nPacketWrong zs), flushed, errs. split; [by destruct zs|].
    split; [apply swept_nil; lia|lia]. }
  cbn [flush_release]. rewrite idx_slot by lia. cbn [mbind outcome_mbind].
  set (bad := txLossDisabled zs && txWrongFormat (slot (txFrames zs) t)).
  set (zs1 := if bad then _ else zs).
  assert (txFrames zs1 = txFrames zs ∧ frameNum zs1 = frameNum zs) as [E1 E2] by (unfold zs1; by destruct bad).
  rewrite E1, E2. rewrite set_idx_ok by lia. cbn [mbind outcome_mbind]. rewrite next_index_ok by lia.
  cbn [mbind outcome_mbind]. set (zs2 := zs1 <| txFrames := _ |>).
  assert (txFrames zs2 = <[Z.to_nat t := txSetMB (slot (txFrames zs) t)]> (txFrames zs) ∧
    frameNum zs2 = frameNum zs) as [E3 E4] by done.
  destruct (IH zs2 (if t + 1 =? frameNum zs then 0 else t + 1)
    (if bad then flushed else u64 (flushed + 1)) (if bad then errs ++ [txIndexError t] else errs))
    as (fs & nb & fl & er & E & Hs & Hsum).
  { by rewrite E3, E4, len_insert. }
  { rewrite E4. zcase. }
  { by rewrite E4. }
  { rewrite E4. lia. }
  { destruct bad; [lia|apply u64_range]. }
  { destruct bad; [lia|]. rewrite u64_small by (unfold max_u64; lia). lia. }
  exists fs, nb, fl, er. split; [rewrite E; unfold zs2, zs1; by destruct bad|].
  replace (Z.of_nat (S w)) with (Z.of_nat w + 1) by lia. split.
  - rewrite E3, E4 in Hs. by apply swept_step; [lia..|].
  - rewrite Hsum. destruct bad; [autorewrite with golen; lia|].
    rewrite u64_small by (unfold max_u64; lia). lia.
Qed.

(** ** Windows *)

Lemma window_at_range zs k : 0 < frameNum zs → 0 <= window_at zs k < frameNum zs.
Proof. intros. by apply Z.mod_pos_bound. Qed.

Lemma age_window_at zs k : tx_ok zs → 0 <= k < txWritten zs →
  age zs (window_at zs k) = txWritten zs - 1 - k.
Proof.
  intros Hok Hk. destruct (tk_num _ Hok), (tk_index _ Hok), (tk_written _ Hok).
  unfold age, window_at. rewrite (mod_once _ (txIndex zs - txWritten zs + k)) by lia.
  zcase; rewrite mod_once by lia; zcase.
Qed.

Lemma in_window_at zs k : tx_ok zs → 0 <= k < txWritten zs → in_window zs (window_at zs k) = true.
Proof. intros Hok Hk. unfold in_window. rewrite age_window_at by done. apply Z.ltb_lt. lia. Qed.

Lemma in_window_run zs i : tx_ok zs → 0 <= i < frameNum zs → 0 < txWritten zs →
  in_run (frameNum zs) (window_at zs 0) (txWritten zs) i = in_window zs i.
Proof.
  intros Hok Hi Hw. destruct (tk_num _ Hok), (tk_index _ Hok), (tk_written _ Hok).
  unfold in_run, in_window, age, window_at. rewrite Z.add_0_r.
  rewrite (mod_once _ (txIndex zs - txWritten zs)), (mod_once _ (txIndex zs - 1 - i)) by lia.
  destruct (txIndex zs - txWritten zs <? 0) eqn:E1, (txIndex zs - 1 - i <? 0) eqn:E2; zbool;
    rewrite mod_once by lia;
    match goal with |- context [if ?b then _ else _] => destruct b eqn:E3 end; zbool;
    (destruct (_ <? _) eqn:E4; symmetry; [apply Z.ltb_lt|apply Z.ltb_ge]; zbool; lia).
Qed.

(** The slot to be written next is outside the window unless the ring is full. *)
Lemma index_free zs : tx_ok zs → txWritten zs < frameNum zs → in_window zs (txIndex zs) = false.
Proof.
  intros Hok Hw. destruct (tk_num _ Hok), (tk_index _ Hok).
  unfold in_window, age. apply Z.ltb_ge. rewrite mod_once by lia. zcase.
Qed.

(** ** The kernel's writes *)

Lemma kernel_ok_refl fs : kernel_ok fs fs.
Proof. induction fs; constructor; done. Qed.

Lemma kernel_ok_trans fs1 fs2 fs3 : kernel_ok fs1 fs2 → kernel_ok fs2 fs3 → kernel_ok fs1 fs3.
Proof.
  intros H12. revert fs3. induction H12 as [|f1 f2 l1 l2 (E1 & E2 & E3) H12 IH]; intros fs3 H23;
    apply Forall2_cons_inv_l in H23 || apply Forall2_nil_inv_l in H23 as ->; [constructor|].
  destruct H23 as (f3 & l3 & (E4 & E5 & E6) & H23 & ->). constructor; [|by apply IH].
  split; [congruence|]. split; [congruence|]. intros Hr. pose proof (E3 Hr) as ->. by apply E6.
Qed.

Lemma kernel_ok_len fs fs' : kernel_ok fs fs' → len fs' = len fs.
Proof. intros H. apply Forall2_length in H. unfold len. lia. Qed.

Lemma kernel_ok_slot fs fs' i : kernel_ok fs fs' → 0 <= i < len fs →
  mb (slot fs' i) = mb (slot fs i) ∧ len (raw (slot fs' i)) = len (raw (slot fs i)) ∧
  (txReady (slot fs i) = true → slot fs' i = slot fs i).
Proof.
  intros H Hi. pose proof (kernel_ok_len _ _ H) as Hl.
  exact (Forall2_lookup_lr _ _ _ _ _ _ H (slot_lookup fs i Hi) (slot_lookup fs' i ltac:(lia))).
Qed.

Lemma wait_ready_spec evs : ∀ zs i, 0 <= i < len (txFrames zs) →
  Forall (λ ev, ∀ fs, kernel_ok fs (pe_mem ev fs)) evs → becomes_ready (txFrames zs) i evs = true →
  ∃ p fs, wait_ready zs i evs = Ret (None, zs <| stats_Polls := p |> <| txFrames := fs |>) ∧
    kernel_ok (txFrames zs) fs ∧ txReady (slot fs i) = true.
Proof.
  induction evs as [|ev evs IH]; intros zs i Hi Hk Hb; cbn [wait_ready becomes_ready] in *;
    rewrite idx_slot by done; cbn [mbind outcome_mbind];
    destruct (txReady (slot (txFrames zs) i)) eqn:Hr.
  - exists (stats_Polls zs), (txFrames zs). split; [by destruct zs|]. split; [apply kernel_ok_refl|done].
  - done.
  - exists (stats_Polls zs), (txFrames zs). split; [by destruct zs|]. split; [apply kernel_ok_refl|done].
  - cbn [orb] in Hb. apply andb_true_iff in Hb as [He Hb]. apply bool_decide_eq_true in He. rewrite He.
    apply Forall_cons in Hk as [Hk1 Hk]. cbn [stats_Polls txFrames update].
    set (zs1 := (zs <| stats_Polls := _ |>) <| txFrames := _ |>).
    destruct (IH zs1 i) as (p & fs & E & Hkf & Hrf);
      [cbn; by rewrite (kernel_ok_len _ _ (Hk1 (txFrames zs)))|done|done|].
    exists p, fs. split; [exact E|]. split; [|done]. by eapply kernel_ok_trans; [apply Hk1|].
Qed.

Lemma wait_mb_free zs i ys : 0 <= i < len (txFrames zs) → mb (slot (txFrames zs) i) = 0 →
  wait_mb zs i ys =
    Ret (zs <| txFrames := <[Z.to_nat i := (slot (txFrames zs) i) <| mb := 1 |>]> (txFrames zs) |>).
Proof.
  intros Hi Hm. destruct ys; cbn [wait_mb]; rewrite idx_slot by done; cbn [mbind outcome_mbind];
    unfold txMBReady, cas_mb; rewrite Hm; cbn [Z.eqb]; rewrite set_idx_ok by done; done.
Qed.

(** ** CopyToBuffer *)

(** The frame [CopyToBuffer] leaves: packet area [dst], lengths [cL]. *)
Definition filled (f : ringFrame) (dst : list byte) (cL : Z) : ringFrame :=
  setTpSnapLen cL (setTpLen cL (f <| raw := take (Z.to_nat TX_START) (raw f) ++ dst |>)).

Section Filled.
Context (f : ringFrame) (dst : list byte) (cL size : Z).
Context (Hf : frame_ok size f) (Hsize : 0 <= size) (Hdst : len dst = size) (HcL : 0 <= cL < 65536).

Lemma filled_parts : length (take 32 (raw f)) = 32%nat.
Proof. unfold frame_ok, len in *. change TX_START with 32 in *. rewrite length_take. lia. Qed.

Lemma filled_ok : frame_ok size (filled f dst cL).
Proof.
  pose proof filled_parts as Hp. unfold frame_ok, filled, len in *. cbn [raw setTpSnapLen setTpLen update].
  change (Z.to_nat TX_START) with 32%nat. change TX_START with 32 in *.
  rewrite !length_hdr_set by (rewrite ?length_hdr_set; rewrite ?length_app; lia).
  rewrite length_app. lia.
Qed.

Lemma filled_ready : txReady (filled f dst cL) = txReady f.
Proof.
  pose proof filled_parts as Hp. unfold txReady, tp_status, filled. cbn [raw setTpSnapLen setTpLen update].
  change (Z.to_nat TX_START) with 32%nat.
  rewrite !hdr_get_set_before by (rewrite ?length_hdr_set; rewrite ?length_app; lia).
  unfold hdr_get. rewrite !drop_0, take_app_le, take_take by lia. done.
Qed.

Lemma filled_data : frame_data (filled f dst cL) = take (Z.to_nat cL) dst.
Proof.
  pose proof filled_parts as Hp. unfold frame_data, tpLen, filled. cbn [raw setTpSnapLen setTpLen update].
  change (Z.to_nat TX_START) with 32%nat.
  rewrite hdr_get_set_before by (rewrite ?length_hdr_set; rewrite ?length_app; lia).
  rewrite hdr_get_set by (rewrite length_app; lia).
  rewrite !drop_hdr_set by (rewrite ?length_hdr_set; rewrite ?length_app; lia).
  rewrite drop_app_length' by done. change (2 ^ (8 * Z.of_nat 4)) with 4294967296.
  by rewrite Z.mod_small, u16_small by lia.
Qed.
End Filled.

(** What the copy functions do: fill the slot in place and return a 16-bit
    length. *)
Definition fills (fx : copier) (buf : list byte) (l : Z) (dst dst' : list byte) (n : Z) : Prop :=
  fx dst buf l = Ret (dst', n) ∧ len dst' = len dst ∧ 0 <= n < 65536.

(** The copy function puts packet [p] in any slot of the ring. *)
Definition puts (fx : copier) (buf : list byte) (l size : Z) (p : list byte) : Prop :=
  ∀ dst, len dst = size → ∃ dst' n, fills fx buf l dst dst' n ∧ take (Z.to_nat n) dst' = p.

(** [CopyToBuffer] once the waiting for the frame is over, with frames [fs]. *)
Lemma CopyToBuffer_slot zs buf l fx evs ys p fs :
  let i := txIndex zs in
  let nxt := if i + 1 =? frameNum zs then 0 else i + 1 in
  txEnabled zs = true → 0 <= txWritten zs < frameNum zs → 0 <= i < frameNum zs → frameNum zs < 2147483648 →
  0 <= txFrameSize zs → len fs = frameNum zs → mb (slot fs i) = 0 → frame_ok (txFrameSize zs) (slot fs i) →
  wait_ready (zs <| txIndex := nxt |>) i evs =
    Ret (None, zs <| txIndex := nxt |> <| stats_Polls := p |> <| txFrames := fs |>) →
  (∀ dst, len dst = txFrameSize zs → ∃ dst' n, fills fx buf l dst dst' n) →
  ∃ dst dst' n s, fills fx buf l dst dst' n ∧ len dst = txFrameSize zs ∧
    CopyToBuffer zs buf l fx evs ys = Ret (i, None,
      zs <| txIndex := nxt |> <| stats_Polls := p |>
         <| txFrames := <[Z.to_nat i := filled ((slot fs i) <| mb := 1 |>) dst' n]> fs |>
         <| nPacketSent := s |> <| txWritten := txWritten zs + 1 |>
         <| txWrittenIndex := if txWritten zs =? 0 then i else txWrittenIndex zs |>).
Proof.
  intros i nxt Hen Hw Hi Hn Hsz Hlf Hm0 Hfo E Hfx. unfold frame_ok in Hfo.
  unfold CopyToBuffer. rewrite Hen. cbn [negb]. unfold getFreeTx.
  rewrite (proj2 (Z.eqb_neq (txWritten zs) (frameNum zs))) by lia. rewrite next_index_ok by (unfold i in *; lia).
  cbn [mbind outcome_mbind]. fold i. fold nxt. rewrite E. cbn [mbind outcome_mbind].
  rewrite wait_mb_free by (cbn [txFrames update]; (done || lia)).
  cbn [mbind outcome_mbind txFrames update].
  rewrite idx_slot by (rewrite len_insert; lia). cbn [mbind outcome_mbind].
  rewrite slot_insert, Z.eqb_refl by lia. cbn [raw update].
  rewrite (slice_Ret TX_START) by (change TX_START with 32 in *; lia). cbn [mbind outcome_mbind].
  set (dst := take _ (drop _ (raw (slot fs i)))).
  assert (len dst = txFrameSize zs) as Hd.
  { unfold dst, len in *. rewrite length_take, length_drop. change TX_START with 32 in *. lia. }
  destruct (Hfx dst Hd) as (dst' & n & Hfill). pose proof Hfill as (Efx & _). rewrite Efx.
  cbn [mbind outcome_mbind].
  rewrite set_idx_ok by (rewrite len_insert; lia). cbn [mbind outcome_mbind].
  cbn [txWritten nPacketSent update]. rewrite list_insert_insert_eq, (i32_small (txWritten zs + 1)) by lia.
  exists dst, dst', n, (i64 (nPacketSent zs + 1)). do 2 (split; [done|]).
  destruct (txWritten zs =? 0) eqn:E0; zbool.
  - rewrite (proj2 (Z.eqb_eq _ _)) by lia. done.
  - rewrite (proj2 (Z.eqb_neq _ _)) by lia. by destruct zs.
Qed.

Lemma CopyToBuffer_from zs buf l fx evs ys p fs :
  tx_ok zs → txEnabled zs = true → txWritten zs < frameNum zs →
  let i := txIndex zs in
  let nxt := if i + 1 =? frameNum zs then 0 else i + 1 in
  wait_ready (zs <| txIndex := nxt |>) i evs =
    Ret (None, zs <| txIndex := nxt |> <| stats_Polls := p |> <| txFrames := fs |>) →
  kernel_ok (txFrames zs) fs →
  (∀ dst, len dst = txFrameSize zs → ∃ dst' n, fills fx buf l dst dst' n) →
  ∃ dst dst' n s, fills fx buf l dst dst' n ∧ len dst = txFrameSize zs ∧
    CopyToBuffer zs buf l fx evs ys = Ret (i, None,
      zs <| txIndex := nxt |> <| stats_Polls := p |>
         <| txFrames := <[Z.to_nat i := filled ((slot fs i) <| mb := 1 |>) dst' n]> fs |>
         <| nPacketSent := s |> <| txWritten := txWritten zs + 1 |>
         <| txWrittenIndex := if txWritten zs =? 0 then i else txWrittenIndex zs |>).
Proof.
  intros Hok Hen Hw i nxt E Hk Hfx. pose proof (tk_len _ Hok) as Hlen. pose proof (tk_index _ Hok) as Hi.
  destruct (kernel_ok_slot _ _ i Hk ltac:(unfold i; lia)) as (Hmb & Hraw & _).
  pose proof (slot_lookup (txFrames zs) i ltac:(unfold i; lia)) as Hlook.
  apply (CopyToBuffer_slot zs buf l fx evs ys p fs); try done; try apply Hok.
  - pose proof (tk_written _ Hok). lia.
  - by rewrite (kernel_ok_len _ _ Hk).
  - change (mb (slot fs i) = 0). rewrite Hmb, (tk_mb _ Hok i _ ltac:(unfold i; lia) Hlook). unfold i. by rewrite index_free.
  - unfold frame_ok. fold i. rewrite Hraw. pose proof (tk_frames _ Hok) as HF. rewrite Forall_lookup in HF. by apply (HF (Z.to_nat i)).
Qed.

Lemma CopyToBuffer_run zs buf l fx evs ys :
  tx_ok zs → txEnabled zs = true → txWritten zs < frameNum zs →
  Forall (λ ev, ∀ fs, kernel_ok fs (pe_mem ev fs)) evs →
  becomes_ready (txFrames zs) (txIndex zs) evs = true →
  (∀ dst, len dst = txFrameSize zs → ∃ dst' n, fills fx buf l dst dst' n) →
  let i := txIndex zs in
  ∃ fs dst dst' n p s, fills fx buf l dst dst' n ∧ len dst = txFrameSize zs ∧
    kernel_ok (txFrames zs) fs ∧ txReady (slot fs i) = true ∧
    CopyToBuffer zs buf l fx evs ys = Ret (i, None,
      zs <| txIndex := if i + 1 =? frameNum zs then 0 else i + 1 |> <| stats_Polls := p |>
         <| txFrames := <[Z.to_nat i := filled ((slot fs i) <| mb := 1 |>) dst' n]> fs |>
         <| nPacketSent := s |> <| txWritten := txWritten zs + 1 |>
         <| txWrittenIndex := if txWritten zs =? 0 then i else txWrittenIndex zs |>).
Proof.
  intros Hok Hen Hw Hev Hbr Hfx i. pose proof (tk_index _ Hok). pose proof (tk_len _ Hok) as Hlen.
  set (nxt := if i + 1 =? frameNum zs then 0 else i + 1).
  destruct (wait_ready_spec evs (zs <| txIndex := nxt |>) i) as (p & fs & E & Hk & Hr);
    [cbn [txFrames update]; unfold i; lia|done|done|]. cbn [txFrames update] in Hk.
  destruct (CopyToBuffer_from zs buf l fx evs ys p fs Hok Hen Hw E Hk Hfx) as (dst & dst' & n & s & Hf & Hd & Hc).
  by exists fs, dst, dst', n, p, s.
Qed.

Section Enqueue.
Context (zs zs' : ZSocket) (fs : list ringFrame) (f' : ringFrame).
Context (Hok : tx_ok zs) (Hroom : txWritten zs < frameNum zs) (Hk : kernel_ok (txFrames zs) fs).
Context (Hf : frame_ok (txFrameSize zs) f') (Hmb : mb f' = 1) (Hready : txReady f' = true).
Context (Enum : frameNum zs' = frameNum zs) (Esize : txFrameSize zs' = txFrameSize zs).
Context (Eidx : txIndex zs' = if txIndex zs + 1 =? frameNum zs then 0 else txIndex zs + 1).
Context (Ewr : txWritten zs' = txWritten zs + 1).
Context (Ewi : txWrittenIndex zs' = if txWritten zs =? 0 then txIndex zs else txWrittenIndex zs).
Context (Efs : txFrames zs' = <[Z.to_nat (txIndex zs) := f']> fs).

Lemma enqueue_window k : 0 <= k <= txWritten zs → window_at zs' k = window_at zs k.
Proof.
  intros Hk0. destruct (tk_num _ Hok), (tk_index _ Hok), (tk_written _ Hok).
  unfold window_at. rewrite Enum, Eidx, Ewr.
  destruct (_ =? _) eqn:E; zbool; [|f_equal; lia].
  rewrite <- (Z.mod_add _ 1) by lia. f_equal. lia.
Qed.

Lemma enqueue_in_window i : 0 <= i < frameNum zs →
  in_window zs' i = (i =? txIndex zs) || in_window zs i.
Proof.
  intros Hi. destruct (tk_num _ Hok), (tk_index _ Hok), (tk_written _ Hok).
  unfold in_window, age. rewrite Enum, Eidx, Ewr.
  destruct (i =? txIndex zs) eqn:E; zbool; cbn [orb].
  - subst. apply Z.ltb_lt. destruct (_ =? _) eqn:E1; zbool; rewrite mod_once by lia; zcase.
  - destruct (_ =? frameNum zs) eqn:E1; zbool; rewrite !mod_once by lia;
      destruct (_ - 1 - i <? 0) eqn:E2, (txIndex zs - 1 - i <? 0) eqn:E3; zbool;
      (destruct (_ <? txWritten zs + 1) eqn:E4, (_ <? txWritten zs) eqn:E5; zbool; done || lia).
Qed.

Lemma enqueue_slot i : 0 <= i < frameNum zs →
  slot (txFrames zs') i = if i =? txIndex zs then f' else slot fs i.
Proof.
  intros Hi. pose proof (tk_len _ Hok). pose proof (tk_index _ Hok).
  pose proof (kernel_ok_len _ _ Hk). rewrite Efs. apply slot_insert; lia.
Qed.

Lemma enqueue_ok : tx_ok zs'.
Proof.
  destruct (tk_num _ Hok), (tk_index _ Hok), (tk_written _ Hok), (tk_size _ Hok).
  pose proof (tk_len _ Hok) as Hl. pose proof (kernel_ok_len _ _ Hk) as Hlf.
  assert (len (txFrames zs') = frameNum zs) as Hl' by (rewrite Efs, len_insert; lia).
  assert (∀ i f, 0 <= i → txFrames zs' !! Z.to_nat i = Some f →
    0 <= i < frameNum zs ∧ f = if i =? txIndex zs then f' else slot fs i) as Hget.
  { intros i f Hi Hg. pose proof (lookup_lt_Some _ _ _ Hg) as Hlt.
    assert (0 <= i < frameNum zs) as Hr by (unfold len in Hl'; lia). split; [done|].
    rewrite <- enqueue_slot by done. unfold slot. by rewrite Hg. }
  constructor; rewrite ?Enum, ?Esize; try done.
  - apply Forall_lookup. intros j f Hj.
    destruct (Hget (Z.of_nat j) f) as [Hr ->]; [lia|by rewrite Nat2Z.id|]. zcase; [done|].
    destruct (kernel_ok_slot _ _ (Z.of_nat j) Hk ltac:(lia)) as (_ & Hraw & _). unfold frame_ok. rewrite Hraw.
    pose proof (tk_frames _ Hok) as HF. rewrite Forall_lookup in HF. apply (HF (Z.to_nat (Z.of_nat j))).
    apply slot_lookup. lia.
  - rewrite Eidx. zcase.
  - lia.
  - rewrite Ewi, Ewr. rewrite (proj2 (Z.eqb_neq (txWritten zs + 1) 0)) by lia.
    rewrite enqueue_window by lia. rewrite (tk_first _ Hok). destruct (txWritten zs =? 0) eqn:E; zbool; [|done].
    unfold window_at. rewrite E, Z.sub_0_r, Z.add_0_r. symmetry. apply Z.mod_small. lia.
  - intros i f Hi Hg. destruct (Hget i f Hi Hg) as [Hr ->]. rewrite enqueue_in_window by done.
    destruct (i =? txIndex zs); cbn [orb]; [done|].
    destruct (kernel_ok_slot _ _ i Hk ltac:(lia)) as (-> & _).
    apply (tk_mb _ Hok); [done|]. apply slot_lookup. lia.
  - intros i f Hi Hg. destruct (Hget i f Hi Hg) as [Hr ->]. rewrite enqueue_in_window by done.
    destruct (i =? txIndex zs); cbn [orb]; [done|]. intros Hin.
    pose proof (tk_ready _ Hok i _ Hi (slot_lookup (txFrames zs) i ltac:(lia)) Hin) as Hrd.
    destruct (kernel_ok_slot _ _ i Hk ltac:(lia)) as (_ & _ & Hsame). by rewrite Hsame.
Qed.

Lemma enqueue_pending : pending zs' = pending zs ++ [frame_data f'].
Proof.
  destruct (tk_num _ Hok), (tk_index _ Hok), (tk_written _ Hok). pose proof (tk_len _ Hok) as Hl.
  unfold pending, pending_in. rewrite Ewr, seqZ_app by lia. rewrite map_app. f_equal.
  - apply map_ext_in. intros k Hin. apply list_elem_of_In, elem_of_seqZ in Hin.
    rewrite enqueue_window by lia. pose proof (window_at_range zs k ltac:(lia)) as Hr.
    rewrite enqueue_slot by done.
    pose proof (in_window_at zs k Hok ltac:(lia)) as Hw. pose proof (index_free zs Hok Hroom) as Hno.
    rewrite (proj2 (Z.eqb_neq _ _)) by congruence.
    pose proof (tk_ready _ Hok (window_at zs k) _ ltac:(lia) (slot_lookup (txFrames zs) (window_at zs k) ltac:(lia)) Hw) as Hrd.
    destruct (kernel_ok_slot _ _ (window_at zs k) Hk ltac:(lia)) as (_ & _ & Hsame). by rewrite Hsame.
  - rewrite Z.add_0_l. assert (seqZ (txWritten zs) 1 = [txWritten zs]) as ->
      by (unfold seqZ; cbn; f_equal; lia). cbn [map].
    rewrite enqueue_window by lia. unfold window_at.
    replace (txIndex zs - txWritten zs + txWritten zs) with (txIndex zs) by lia.
    rewrite Z.mod_small by lia. by rewrite enqueue_slot, Z.eqb_refl by lia.
Qed.
End Enqueue.
