(* ===== verification/ZRingProps.v ===== *)
(** * Properties of the transmit ring

    [CopyToBuffer] and [FlushFrames] implement a queue: a packet copied is
    appended to the packets not yet flushed, a flush hands exactly those to the
    kernel, in order, and empties the queue.  Then the error paths: after a failed
    flush the ring has only the frames outside it left ([wrun], [wedged]), and
    after a failed poll the packets are misplaced. *)

From Stdlib Require Import Strings.Byte.
From S2P Require Import Prelude.
From S2P Require Import GoBytes.
From S2P Require Import RawUdp.
From S2P Require Import ZRing.

(** ** Handing frames over *)

Section SetFrame.
Context (v : Z) (f : ringFrame) (Hf : TX_START <= len (raw f)).

Lemma set_status_data : frame_data (set_status v f) = frame_data f.
Proof.
  change TX_START with 32 in Hf. unfold len in Hf. unfold frame_data, tpLen, set_status. cbn [raw update].
  change (Z.to_nat TX_START) with 32%nat.
  by rewrite drop_hdr_set, hdr_get_set_after by lia.
Qed.

Lemma set_status_status : 0 <= v < 2 ^ 64 → tp_status (set_status v f) = v.
Proof.
  intros Hv. change TX_START with 32 in Hf. unfold len in Hf. unfold tp_status, set_status. cbn [raw update].
  rewrite hdr_get_set by lia. by apply Z.mod_small.
Qed.

Lemma set_status_len : len (raw (set_status v f)) = len (raw f).
Proof.
  change TX_START with 32 in Hf. unfold set_status, len in *. cbn [raw update].
  by rewrite length_hdr_set by lia.
Qed.
End SetFrame.

Lemma slots_ext fs fs' : len fs = len fs' → (∀ i, 0 <= i < len fs → slot fs i = slot fs' i) → fs = fs'.
Proof.
  intros Hl Hs. apply list_eq. intros i.
  destruct (decide (i < length fs)%nat) as [Hi|Hi].
  - assert (0 <= Z.of_nat i < len fs) as Hz by (unfold len; lia).
    pose proof (slot_lookup fs _ Hz) as E1. pose proof (slot_lookup fs' (Z.of_nat i) ltac:(lia)) as E2.
    rewrite Nat2Z.id in E1, E2. by rewrite E1, E2, Hs.
  - unfold len in Hl. rewrite !lookup_ge_None_2 by lia. done.
Qed.

Lemma slot_map g fs i : 0 <= i < len fs → slot (map g fs) i = g (slot fs i).
Proof.
  intros Hi. unfold slot. rewrite list_lookup_fmap. unfold len in Hi.
  destruct (lookup_lt_is_Some_2 fs (Z.to_nat i)) as [f ->]; [lia|done].
Qed.

Section Flush.
Context (zs : ZSocket) (Hok : tx_ok zs) (Hsome : 0 < txWritten zs).

(** The frames as the kernel gets them. *)
Definition handed (fs : list ringFrame) : Prop :=
  len fs = frameNum zs ∧ ∀ i, 0 <= i < frameNum zs →
    slot fs i = if in_window zs i then txSet (slot (txFrames zs) i) else slot (txFrames zs) i.

Lemma slot_frame_ok i : 0 <= i < frameNum zs → frame_ok (txFrameSize zs) (slot (txFrames zs) i).
Proof.
  intros Hi. pose proof (tk_frames _ Hok) as HF. rewrite Forall_lookup in HF.
  apply (HF (Z.to_nat i)), slot_lookup. by rewrite (tk_len _ Hok).
Qed.

Lemma slot_room i : 0 <= i < frameNum zs → TX_START <= len (raw (slot (txFrames zs) i)).
Proof. intros Hi. pose proof (tk_size _ Hok). rewrite (slot_frame_ok i Hi). lia. Qed.

Lemma flush_hands : ∃ fs, flush_set (frameNum zs) (txFrames zs) (txWrittenIndex zs) (Z.to_nat (txWritten zs)) = Ret fs ∧
  handed fs.
Proof.
  pose proof (tk_num _ Hok). pose proof (tk_written _ Hok). pose proof (tk_len _ Hok) as Hl.
  rewrite (tk_first _ Hok), (proj2 (Z.eqb_neq _ _)) by lia.
  destruct (flush_set_spec (frameNum zs) (Z.to_nat (txWritten zs)) (txFrames zs) (window_at zs 0))
    as (fs & -> & Hl' & Hs); [done|by apply window_at_range; lia|lia|lia|].
  exists fs. split; [done|]. split; [lia|]. intros i Hi. rewrite Hs by lia.
  rewrite Z2Nat.id by lia. by rewrite in_window_run.
Qed.

Lemma handed_pending fs : handed fs → pending_in zs fs = pending zs.
Proof.
  intros [_ Hs]. unfold pending, pending_in. apply map_ext_in. intros k Hin.
  apply list_elem_of_In, elem_of_seqZ in Hin. pose proof (tk_num _ Hok).
  pose proof (window_at_range zs k ltac:(lia)) as Hr. rewrite Hs by done.
  rewrite in_window_at by (done || lia). apply set_status_data. by apply slot_room.
Qed.

Lemma handed_mb fs i : handed fs → 0 <= i < frameNum zs → mb (slot fs i) = if in_window zs i then 1 else 0.
Proof.
  intros [_ Hs] Hi. rewrite Hs by done. pose proof (tk_len _ Hok).
  rewrite <- (tk_mb _ Hok i (slot (txFrames zs) i)) by (lia || (apply slot_lookup; lia)).
  by destruct (in_window zs i).
Qed.

Lemma handed_len fs i : handed fs → 0 <= i < frameNum zs →
  len (raw (slot fs i)) = TX_START + txFrameSize zs.
Proof.
  intros [_ Hs] Hi. rewrite Hs by done. pose proof (slot_frame_ok i Hi) as Hf. unfold frame_ok in Hf.
  destruct (in_window zs i); [|done]. unfold txSet. rewrite set_status_len; [done|by apply slot_room].
Qed.
End Flush.

(** With nothing written and every frame released, the invariant is that of an
    empty queue. *)
Lemma released_ok zs zs' fs fs' : tx_ok zs → handed zs fs → kernel_ok fs fs' →
  frameNum zs' = frameNum zs → txFrameSize zs' = txFrameSize zs → txIndex zs' = txIndex zs →
  txWritten zs' = 0 → txWrittenIndex zs' = -1 → txFrames zs' = map txSetMB fs' → tx_ok zs'.
Proof.
  intros Hok Hh Hk En Es Ei Ew Ewi Ef. pose proof (kernel_ok_len _ _ Hk) as Hl. pose proof (proj1 Hh) as Hl0.
  assert (∀ i, in_window zs' i = false) as Hno.
  { intros i. unfold in_window, age. rewrite Ew, En. apply Z.ltb_ge.
    apply Z.mod_pos_bound. apply (tk_num _ Hok). }
  assert (len (txFrames zs') = frameNum zs) as Hlz by (rewrite Ef; unfold len in *; rewrite length_map; lia).
  constructor; rewrite ?En, ?Es, ?Ei, ?Ew, ?Ewi; try apply Hok; try done.
  - apply Forall_lookup. intros j f Hj. pose proof (lookup_lt_Some _ _ _ Hj) as Hjl.
    assert (0 <= Z.of_nat j < frameNum zs) as Hz by (unfold len in Hlz; lia).
    assert (f = txSetMB (slot fs' (Z.of_nat j))) as ->.
    { rewrite <- slot_map by lia. unfold slot. rewrite <- Ef, Nat2Z.id, Hj. done. }
    unfold frame_ok. destruct (kernel_ok_slot _ _ (Z.of_nat j) Hk ltac:(lia)) as (_ & Hr & _).
    change (raw (txSetMB ?x)) with (raw x). rewrite Hr. by eapply handed_len.
  - pose proof (tk_num _ Hok). lia.
  - intros i f Hi Hg. rewrite Hno. pose proof (lookup_lt_Some _ _ _ Hg) as Hjl.
    assert (0 <= i < frameNum zs) as Hz by (unfold len in Hlz; lia).
    rewrite Ef in Hg. apply list_lookup_fmap_Some in Hg as (g & -> & _). done.
  - intros i f Hi _ Hin. by rewrite Hno in Hin.
Qed.

(** ** The ring is a queue *)

(** What a copy leaves alone: the sizes of the ring, and frames that are free. *)
Definition grown (zs zs' : ZSocket) : Prop :=
  frameNum zs' = frameNum zs ∧ txFrameSize zs' = txFrameSize zs ∧ txEnabled zs' = txEnabled zs ∧
  txWritten zs' = txWritten zs + 1 ∧
  ∀ i, 0 <= i < frameNum zs → txReady (slot (txFrames zs) i) = true →
    txReady (slot (txFrames zs') i) = true.

Lemma CopyToBuffer_queue zs buf l fx evs ys
    (Hok : tx_ok zs) (Hen : txEnabled zs = true) (Hroom : txWritten zs < frameNum zs)
    (Hker : Forall (λ ev, ∀ fs, kernel_ok fs (pe_mem ev fs)) evs)
    (Hfree : becomes_ready (txFrames zs) (txIndex zs) evs = true)
    (Hfx : ∀ dst, len dst = txFrameSize zs → ∃ dst' n, fills fx buf l dst dst' n) :
  ∃ zs' dst dst' n, CopyToBuffer zs buf l fx evs ys = Ret (txIndex zs, None, zs') ∧
    fills fx buf l dst dst' n ∧ len dst = txFrameSize zs ∧
    tx_ok zs' ∧ pending zs' = pending zs ++ [take (Z.to_nat n) dst'] ∧ grown zs zs'.
Proof.
  destruct (CopyToBuffer_run zs buf l fx evs ys) as (fs & dst & dst' & n & p & s & Hfill & Hd & Hk & Hr & E);
    [done..|].
  eexists _, dst, dst', n. split; [exact E|]. split; [done|]. split; [done|].
  destruct Hfill as (_ & Hd' & Hn). pose proof (tk_index _ Hok) as Hidx. pose proof (tk_len _ Hok) as Hl.
  set (g := (slot fs (txIndex zs)) <| mb := 1 |>).
  assert (frame_ok (txFrameSize zs) g) as Hg.
  { destruct (kernel_ok_slot _ _ (txIndex zs) Hk ltac:(lia)) as (_ & Hraw & _).
    pose proof (slot_frame_ok zs Hok (txIndex zs) Hidx) as Hf. unfold frame_ok in *. cbn [raw g update]. by rewrite Hraw. }
  pose proof (tk_size _ Hok) as Hsz.
  assert (txReady (filled g dst' n) = true) as Hfr.
  { by rewrite (filled_ready g dst' n (txFrameSize zs)) by (done || lia). }
  split; [|split].
  - apply (enqueue_ok zs _ fs (filled g dst' n)); try done. apply filled_ok; (done || lia).
  - rewrite <- (filled_data g dst' n (txFrameSize zs)) by (done || lia).
    by apply (enqueue_pending zs _ fs).
  - do 4 (split; [done|]). intros j Hj Hrj. cbn [txFrames update].
    pose proof (kernel_ok_len _ _ Hk) as Hlf. rewrite slot_insert by lia. zcase; [done|].
    destruct (kernel_ok_slot _ _ j Hk ltac:(lia)) as (_ & _ & Hsame). by rewrite Hsame.
Qed.

(** What a flush leaves alone. *)
Definition emptied (zs zs' : ZSocket) : Prop :=
  frameNum zs' = frameNum zs ∧ txIndex zs' = txIndex zs ∧ txWritten zs' = 0.

(** [FlushFrames] on the [w] frames from [a] on. *)
Lemma flush_run zs a w : txEnabled zs = true → txWrittenIndex zs = a → txWritten zs = w →
  0 <= a < frameNum zs → 0 < w <= frameNum zs → frameNum zs < 2147483648 → len (txFrames zs) = frameNum zs →
  ∃ fs, flush_set (frameNum zs) (txFrames zs) (txWrittenIndex zs) (Z.to_nat (txWritten zs)) = Ret fs ∧
    swept txSet (frameNum zs) a w (txFrames zs) fs ∧
    ∀ send st, len (send fs) = len fs →
      ∃ flushed errs zs', FlushFrames zs send None st = Ret (flushed, None, errs, zs') ∧
        swept txSetMB (frameNum zs) a w (send fs) (txFrames zs') ∧ flushed + len errs = w ∧
        txFrameSize zs' = txFrameSize zs ∧ txEnabled zs' = true ∧ txWrittenIndex zs' = -1 ∧ emptied zs zs'.
Proof.
  intros Hen Ha Hw Har Hwr Hn Hl. rewrite Ha, Hw.
  destruct (flush_set_spec (frameNum zs) (Z.to_nat w) (txFrames zs) a) as (fs & E & Hsw); [done|done|lia|lia|].
  rewrite Z2Nat.id in Hsw by lia. exists fs. split; [done|]. split; [done|]. intros send st Hls.
  pose proof (proj1 Hsw) as Hlf. unfold FlushFrames. rewrite Hen. cbn [negb]. rewrite Ha.
  rewrite (proj2 (Z.eqb_neq a (-1))) by lia. cbn [txFrames frameNum txWritten update]. rewrite Hw, E. cbn [mbind outcome_mbind].
  set (zs1 := updateSocketStats _ st).
  assert (txFrames zs1 = send fs ∧ frameNum zs1 = frameNum zs ∧ txFrameSize zs1 = txFrameSize zs ∧ txEnabled zs1 = true ∧
    txIndex zs1 = txIndex zs ∧ txWritten zs1 = 0 ∧ txWrittenIndex zs1 = -1)
    as (E1 & E2 & E3 & Een & E4 & E5 & E6) by (unfold zs1; by destruct st as [[p d]|]).
  destruct (flush_release_spec (Z.to_nat w) zs1 a 0 []) as (fs' & bad & fl & errs & Erel & Hsw' & Hsum);
    rewrite ?E1, ?E2; [lia..|].
  rewrite Erel. cbn [mbind outcome_mbind]. eexists fl, errs, _. split; [reflexivity|].
  rewrite E1, E2, Z2Nat.id in Hsw' by lia. rewrite Z2Nat.id in Hsum by lia. change (len (@nil zerror)) with 0 in Hsum.
  cbn [txFrames update]. split; [done|]. split; [lia|]. by split_and!.
Qed.

Lemma FlushFrames_queue zs (Hok : tx_ok zs) (Hen : txEnabled zs = true) (Hsome : 0 < txWritten zs) :
  ∃ fs, handed zs fs ∧
    ∀ send st, kernel_ok fs (send fs) →
      ∃ flushed errs zs', FlushFrames zs send None st = Ret (flushed, None, errs, zs') ∧
        txFrames zs' = map txSetMB (send fs) ∧ flushed + len errs = txWritten zs ∧
        tx_ok zs' ∧ pending zs' = [] ∧ emptied zs zs'.
Proof.
  pose proof (tk_num _ Hok) as Hn. pose proof (tk_written _ Hok) as Hw. pose proof (tk_len _ Hok) as Hlen.
  assert (txWrittenIndex zs = window_at zs 0) as Hwi by (rewrite (tk_first _ Hok); by rewrite (proj2 (Z.eqb_neq _ _)) by lia).
  destruct (flush_run zs (window_at zs 0) (txWritten zs)) as (fs & E & _ & Hrun);
    [done|done|done|apply window_at_range; lia|lia|lia|done|].
  destruct (flush_hands zs Hok Hsome) as (fs0 & E0 & Hh). rewrite E in E0. injection E0 as <-.
  exists fs. split; [done|]. intros send st Hk. pose proof (kernel_ok_len _ _ Hk) as Hl. pose proof (proj1 Hh) as Hlf.
  destruct (Hrun send st Hl) as (fl & errs & zs' & Ef & [Hl' Hsw] & Hsum & Es & _ & Ewi & En & Ei & Ew).
  assert (txFrames zs' = map txSetMB (send fs)) as Hfs'.
  { apply slots_ext; [unfold len in *; rewrite length_map; lia|].
    intros i Hi. rewrite slot_map, Hsw, in_window_run by (done || lia).
    destruct (in_window zs i) eqn:Ein; [done|].
    destruct (kernel_ok_slot _ _ i Hk ltac:(lia)) as (Hmb & _).
    rewrite (handed_mb zs Hok fs i Hh) , Ein in Hmb by lia.
    unfold txSetMB. destruct (slot (send fs) i) as [r m]. cbn in Hmb. by subst m. }
  exists fl, errs, zs'. do 3 (split; [done|]). split; [by apply (released_ok zs _ fs (send fs))|].
  split; [|done]. unfold pending, pending_in. by rewrite Ew.
Qed.

(** Flushing sends the queue.  The frames [FlushFrames] gives to the kernel
    are marked SEND_REQUEST exactly when they hold a packet waiting for the
    flush, these packets are the queue in order, and the other frames are
    untouched.  When the send succeeds, every frame counts as flushed or as an
    error, the queue is empty and the invariant holds again. *)
Lemma FlushFrames_sends zs (Hok : tx_ok zs) (Hen : txEnabled zs = true) (Hsome : 0 < txWritten zs) :
  ∃ fs, pending_in zs fs = pending zs ∧ len fs = frameNum zs ∧
    (∀ i, 0 <= i < frameNum zs →
       if in_window zs i then tp_status (slot fs i) = TP_STATUS_SEND_REQUEST
       else slot fs i = slot (txFrames zs) i) ∧
    ∀ send st, kernel_ok fs (send fs) →
      ∃ flushed errs zs', FlushFrames zs send None st = Ret (flushed, None, errs, zs') ∧
        txFrames zs' = map txSetMB (send fs) ∧ flushed + len errs = txWritten zs ∧
        tx_ok zs' ∧ pending zs' = [].
Proof.
  destruct (FlushFrames_queue zs Hok Hen Hsome) as (fs & Hh & Hsend). exists fs.
  pose proof Hh as [Hlf Hs]. split; [by apply handed_pending|]. split; [done|]. split;
    [|intros send st Hk; destruct (Hsend send st Hk) as (fl & er & zs' & ? & ? & ? & ? & ? & _); by exists fl, er, zs'].
  intros i Hi. rewrite Hs by done. destruct (in_window zs i); [|done].
  apply set_status_status; [by apply (slot_room zs)|done].
Qed.

(** ** Errors *)

(** Polls that do not fail, around a kernel that keeps to the protocol. *)
Definition quiet (evs : list poll_event) : Prop :=
  Forall (λ ev, pe_err ev = None ∧ ∀ fs, kernel_ok fs (pe_mem ev fs)) evs.

(** Waiting returns only when the frame is free, and the kernel is all that
    touches the frames meanwhile. *)
Lemma wait_ready_quiet evs : ∀ zs i, 0 <= i < len (txFrames zs) → quiet evs →
  wait_ready zs i evs = Diverge ∨
  ∃ p fs, wait_ready zs i evs = Ret (None, zs <| stats_Polls := p |> <| txFrames := fs |>) ∧ kernel_ok (txFrames zs) fs.
Proof.
  induction evs as [|ev evs IH]; intros zs i Hi Hq; cbn [wait_ready]; rewrite idx_slot by done;
    cbn [mbind outcome_mbind]; destruct (txReady (slot (txFrames zs) i)).
  - right. exists (stats_Polls zs), (txFrames zs). split; [by destruct zs|apply kernel_ok_refl].
  - by left.
  - right. exists (stats_Polls zs), (txFrames zs). split; [by destruct zs|apply kernel_ok_refl].
  - apply Forall_cons in Hq as [[-> Hk] Hq]. cbn [txFrames stats_Polls update].
    set (zs1 := (zs <| stats_Polls := _ |>) <| txFrames := _ |>).
    destruct (IH zs1 i) as [E|(p & fs & E & Hkf)]; [cbn; by rewrite (kernel_ok_len _ _ (Hk (txFrames zs)))|done|by left|].
    right. exists p, fs. split; [exact E|]. by eapply kernel_ok_trans; [apply Hk|].
Qed.

(** A copy by the only goroutine, whatever its copy function: it hangs on a
    frame whose word [mb] is set, and the frame it takes is the next one. *)
Section QuietCopy.
Context (zs : ZSocket) (buf : list byte) (l : Z) (fx : copier) (evs : list poll_event) (Hev : quiet evs).
Context (Hl : len (txFrames zs) = frameNum zs) (Hn : frameNum zs < 2147483648).
Context (Hi : 0 <= txIndex zs < frameNum zs) (Hw : 0 <= txWritten zs).
Context (Hen : txEnabled zs = true) (Hroom : txWritten zs < frameNum zs).

Lemma copy_blocked : mb (slot (txFrames zs) (txIndex zs)) ≠ 0 → CopyToBuffer zs buf l fx evs [] = Diverge.
Proof.
  intros Hm. unfold CopyToBuffer. rewrite Hen. cbn [negb]. unfold getFreeTx.
  rewrite (proj2 (Z.eqb_neq (txWritten zs) (frameNum zs))), next_index_ok by lia. cbn [mbind outcome_mbind].
  destruct (wait_ready_quiet evs (zs <| txIndex := if txIndex zs + 1 =? frameNum zs then 0 else txIndex zs + 1 |>) (txIndex zs))
    as [-> |(p & fs & -> & Hk)]; [cbn [txFrames update]; lia|done|done|].
  cbn [mbind outcome_mbind wait_mb txFrames update] in *. pose proof (kernel_ok_len _ _ Hk) as Hlf.
  rewrite idx_slot by lia. cbn [mbind outcome_mbind]. unfold txMBReady, cas_mb.
  destruct (kernel_ok_slot _ _ (txIndex zs) Hk ltac:(lia)) as (-> & _). by rewrite (proj2 (Z.eqb_neq _ 0)).
Qed.

Lemma copy_taken i err zs' : CopyToBuffer zs buf l fx evs [] = Ret (i, err, zs') →
  err = None ∧ txEnabled zs' = true ∧ frameNum zs' = frameNum zs ∧ len (txFrames zs') = frameNum zs ∧
  txIndex zs' = (txIndex zs + 1) mod frameNum zs ∧ txWritten zs' = txWritten zs + 1 ∧
  txWrittenIndex zs' = (if txWritten zs =? 0 then txIndex zs else txWrittenIndex zs) ∧
  ∀ j, 0 <= j < frameNum zs → mb (slot (txFrames zs) j) = 1 → mb (slot (txFrames zs') j) = 1.
Proof.
  intros E. destruct (decide (mb (slot (txFrames zs) (txIndex zs)) = 0)) as [Hm|Hm]; [|by rewrite copy_blocked in E].
  unfold CopyToBuffer in E. rewrite Hen in E. cbn [negb] in E. unfold getFreeTx in E.
  rewrite (proj2 (Z.eqb_neq (txWritten zs) (frameNum zs))), next_index_ok in E by lia. cbn [mbind outcome_mbind] in E.
  destruct (wait_ready_quiet evs (zs <| txIndex := if txIndex zs + 1 =? frameNum zs then 0 else txIndex zs + 1 |>) (txIndex zs))
    as [Ew|(p & fs & Ew & Hk)]; [cbn [txFrames update]; lia|done|by rewrite Ew in E|]. rewrite Ew in E.
  cbn [mbind outcome_mbind txFrames update] in *. pose proof (kernel_ok_len _ _ Hk) as Hlf.
  destruct (kernel_ok_slot _ _ (txIndex zs) Hk ltac:(lia)) as (Hmb & _).
  rewrite wait_mb_free in E by (cbn [txFrames update]; lia). cbn [mbind outcome_mbind txFrames update] in E.
  rewrite idx_slot, slot_insert, Z.eqb_refl in E by (rewrite ?len_insert; lia). cbn [mbind outcome_mbind] in E.
  inv_bind E. inv_bind E. destruct a0 as [dst cL].
  rewrite set_idx_ok in E by (rewrite len_insert; lia). cbn [mbind outcome_mbind txWritten update] in E.
  rewrite i32_small in E by lia. set (f := setTpSnapLen _ _) in E. assert (mb f = 1) as Hf by done.
  rewrite list_insert_insert_eq in E. injection E as <- <- <-. set (z := if _ =? 1 then _ else _).
  assert (txEnabled z = true ∧ frameNum z = frameNum zs ∧ txFrames z = <[Z.to_nat (txIndex zs) := f]> fs ∧
    txIndex z = (if txIndex zs + 1 =? frameNum zs then 0 else txIndex zs + 1) ∧ txWritten z = txWritten zs + 1 ∧
    txWrittenIndex z = if txWritten zs + 1 =? 1 then txIndex zs else txWrittenIndex zs)
    as (-> & -> & -> & -> & -> & ->) by (unfold z; destruct (_ =? 1); done).
  rewrite len_insert, next_mod by lia. split_and!; try done; try lia.
  - destruct (txWritten zs + 1 =? 1) eqn:E1, (txWritten zs =? 0) eqn:E0; zbool; done || lia.
  - intros j Hj Hone. rewrite slot_insert by lia. destruct (j =? txIndex zs); [done|].
    by destruct (kernel_ok_slot _ _ j Hk ltac:(lia)) as (-> & _).
Qed.
End QuietCopy.

(** What the only goroutine and the kernel do to a ring from [zs0] on, as long as
    no poll fails: copies, with the number of those that returned without an
    error, flushes, and the kernel. *)
Inductive wrun (zs0 : ZSocket) : Z → ZSocket → Prop :=
| wrun_init : wrun zs0 0 zs0
| wrun_copy k zs buf l fx evs i err zs' :
    wrun zs0 k zs → quiet evs → CopyToBuffer zs buf l fx evs [] = Ret (i, err, zs') →
    wrun zs0 (if err is Some _ then k else k + 1) zs'
| wrun_flush k zs send serr st n err errs zs' :
    wrun zs0 k zs → (∀ fs, kernel_ok fs (send fs)) → FlushFrames zs send serr st = Ret (n, err, errs, zs') →
    wrun zs0 k zs'
| wrun_kernel k zs fs : wrun zs0 k zs → kernel_ok (txFrames zs) fs → wrun zs0 k (zs <| txFrames := fs |>).

Lemma in_run_disjoint n a w c m j : 0 < n → 0 <= w <= c → 0 <= m → c + m <= n →
  in_run n a w j = true → in_run n ((a + c) mod n) m j = false.
Proof.
  intros Hn Hw Hm Hc. unfold in_run. intros Hin%Z.ltb_lt. apply Z.ltb_ge. rewrite Zminus_mod_idemp_r.
  replace (j - (a + c)) with (j - a - c) by lia. rewrite <- (Zminus_mod_idemp_l (j - a)).
  pose proof (Z.mod_pos_bound (j - a) n Hn). rewrite mod_once by lia. zcase.
Qed.

(** The ring after [k] copies, when the [w] frames before the place where it
    started, those from [a] on, are locked. *)
Section Locked.
Context (n a w : Z) (Hw : 0 < w <= n) (Hn : n < 2147483648).

Record wedged (k : Z) (zs : ZSocket) : Prop := {
  wd_enabled : txEnabled zs = true;
  wd_num : frameNum zs = n;
  wd_len : len (txFrames zs) = n;
  wd_count : 0 <= k <= n - w;
  wd_index : txIndex zs = (a + (w + k)) mod n;
  wd_written : 0 <= txWritten zs <= k;
  wd_first : txWrittenIndex zs = if txWritten zs =? 0 then -1 else (a + (w + k - txWritten zs)) mod n;
  wd_locked j : 0 <= j < n → in_run n a w j = true → mb (slot (txFrames zs) j) = 1
}.

Lemma wedged_index k zs : wedged k zs → 0 <= txIndex zs < frameNum zs.
Proof. intros H. rewrite (wd_index _ _ H), (wd_num _ _ H). apply Z.mod_pos_bound. lia. Qed.

(** All frames that were free are taken: the next copy hangs. *)
Lemma wedged_stuck zs buf l fx evs : wedged (n - w) zs → quiet evs → CopyToBuffer zs buf l fx evs [] = Diverge.
Proof.
  intros H Hq. pose proof (wedged_index _ _ H) as Hi. pose proof (wd_written _ _ H).
  pose proof (wd_num _ _ H) as En. apply copy_blocked; rewrite ?En, ?(wd_len _ _ H); rewrite ?En in Hi; try done; try lia; try apply H.
  rewrite (wd_locked _ _ H); [lia|lia|]. rewrite (wd_index _ _ H).
  replace (a + (w + (n - w))) with (a + 0 + 1 * n) by lia. rewrite Z.mod_add, in_run_at by lia. apply Z.ltb_lt. lia.
Qed.

Lemma wedged_kernel k zs fs : wedged k zs → kernel_ok (txFrames zs) fs → wedged k (zs <| txFrames := fs |>).
Proof.
  intros [] Hk. constructor; cbn [txEnabled frameNum txFrames txIndex txWritten txWrittenIndex update]; try done.
  - by rewrite (kernel_ok_len _ _ Hk).
  - intros j Hj Hin. destruct (kernel_ok_slot _ _ j Hk ltac:(lia)) as (-> & _). auto.
Qed.

Lemma wedged_copy k zs buf l fx evs i err zs' : wedged k zs → quiet evs →
  CopyToBuffer zs buf l fx evs [] = Ret (i, err, zs') → err = None ∧ wedged (k + 1) zs'.
Proof.
  intros H Hq E. pose proof (wedged_index _ _ H) as Hi. pose proof H as [Hen En Hl Hk Hx Hwr Hf Hlk].
  destruct (decide (k = n - w)) as [-> |Hne]; [by rewrite (wedged_stuck _ _ _ _ _ H Hq) in E|].
  apply copy_taken in E as (-> & Hen' & En' & Hl' & Hx' & Hw' & Hwi' & Hm'); [|done|lia|lia|done|lia|done|lia].
  split; [done|]. rewrite En in *. constructor; try done; try lia.
  - rewrite Hx', Hx, Zplus_mod_idemp_l. f_equal. lia.
  - rewrite Hwi', Hw', (proj2 (Z.eqb_neq (txWritten zs + 1) 0)), Hf, Hx by lia.
    destruct (txWritten zs =? 0) eqn:E0; zbool; [rewrite E0|]; f_equal; lia.
  - intros j Hj Hin. auto.
Qed.

Lemma wedged_flush k zs send serr st m err errs zs' : wedged k zs → (∀ fs, kernel_ok fs (send fs)) →
  FlushFrames zs send serr st = Ret (m, err, errs, zs') → wedged k zs'.
Proof.
  intros H Hk E. pose proof H as [Hen En Hl Hkr Hx Hwr Hf Hlk].
  destruct (txWritten zs =? 0) eqn:E0; zbool.
  { unfold FlushFrames in E. rewrite Hen, Hf in E. cbn in E. by injection E as <- <- <- <-. }
  pose proof (Z.mod_pos_bound (a + (w + k - txWritten zs)) n ltac:(lia)) as Ha.
  set (s := (a + (w + k - txWritten zs)) mod n) in *.
  assert (∀ j, 0 <= j < n → in_run n a w j = true → in_run n s (txWritten zs) j = false) as Hdis
    by (intros j _; apply in_run_disjoint; lia).
  destruct (flush_run zs s (txWritten zs)) as (fs & Es & [Hlf Hsw] & Hrun); [done|done|done|lia|lia|lia|lia|].
  assert (∀ j, 0 <= j < n → in_run n a w j = true → mb (slot (send fs) j) = 1) as Hm.
  { intros j Hj Hin. destruct (kernel_ok_slot _ _ j (Hk fs) ltac:(lia)) as (-> & _).
    rewrite Hsw, En, Hdis by (done || lia). auto. }
  pose proof (kernel_ok_len _ _ (Hk fs)) as Hls. destruct serr as [e|].
  - unfold FlushFrames in E. rewrite Hen, Hf in E. cbn [negb] in E.
    rewrite (proj2 (Z.eqb_neq s (-1))) in E by lia. cbn [txFrames frameNum txWritten update] in E.
    rewrite Hf in Es. rewrite Es in E. cbn [mbind outcome_mbind] in E. injection E as <- <- <- <-.
    constructor; cbn [txEnabled frameNum txFrames txIndex txWritten txWrittenIndex update]; done || lia.
  - destruct (Hrun send st Hls) as (fl & er & z & Ef & [Hlz Hsz] & _ & _ & Henz & Hwi & Hnum & Hidx & Hwz).
    rewrite Ef in E. injection E as <- <- <- <-.
    constructor; rewrite ?Hnum, ?Hidx, ?Hwz, ?Hwi; try done; try lia.
    + intros j Hj Hin. rewrite Hsz, En, Hdis by (done || lia). auto.
Qed.

Lemma wedged_run zs0 k zs : wedged 0 zs0 → wrun zs0 k zs → wedged k zs.
Proof.
  intros H0 Hr. induction Hr as [|k zs buf l fx evs i err zs' _ IH Hq E|k zs send serr st m err errs zs' _ IH Hk E|k zs fs _ IH Hk].
  - done.
  - by destruct (wedged_copy _ _ _ _ _ _ _ _ _ IH Hq E) as [-> ?].
  - by eapply wedged_flush.
  - by apply wedged_kernel.
Qed.
End Locked.

(** C34: a failed flush wedges the ring.  When [Sendto] fails, [FlushFrames]
    returns the error with the queue emptied but the words [mb] of its frames
    still set, and nothing clears them: whatever the only goroutine and the
    kernel do from there, flushes that succeed included, as long as no poll
    fails at most as many copies succeed, ever, as there were frames outside the
    failed flush; and when that many have, every further copy hangs. *)
Theorem flush_error_wedges zs e send st
    (Hok : tx_ok zs) (Hen : txEnabled zs = true) (Hsome : 0 < txWritten zs)
    (Hker : ∀ fs, kernel_ok fs (send fs)) :
  ∃ zs', FlushFrames zs send (Some e) st = Ret (0, Some e, [], zs') ∧
    pending zs' = [] ∧ txWrittenIndex zs' = -1 ∧
    (∀ i, 0 <= i < frameNum zs → in_window zs i = true → mb (slot (txFrames zs') i) = 1) ∧
    ∀ k z, wrun zs' k z →
      k <= frameNum zs - txWritten zs ∧
      (k = frameNum zs - txWritten zs → ∀ buf l fx evs, quiet evs → CopyToBuffer z buf l fx evs [] = Diverge).
Proof.
  destruct (flush_hands zs Hok Hsome) as (fs & E & Hh). pose proof (tk_num _ Hok) as Hn.
  pose proof (window_at_range zs 0 ltac:(lia)) as Hr. pose proof (tk_index _ Hok) as Hidx. pose proof (tk_written _ Hok) as Hwr.
  assert (txWrittenIndex zs = window_at zs 0) as Hwi.
  { rewrite (tk_first _ Hok). by rewrite (proj2 (Z.eqb_neq _ _)) by lia. }
  unfold FlushFrames. rewrite Hen. cbn [negb]. rewrite (proj2 (Z.eqb_neq (txWrittenIndex zs) (-1))) by lia.
  cbn [txFrames frameNum txWritten update]. rewrite E. cbn [mbind outcome_mbind].
  eexists. split; [reflexivity|]. split; [done|]. split; [done|]. cbn [txFrames update].
  assert (∀ i, 0 <= i < frameNum zs → in_window zs i = true → mb (slot (send fs) i) = 1) as Hmb.
  { intros i Hi Hin. destruct (kernel_ok_slot _ _ i (Hker fs) ltac:(rewrite (proj1 Hh); lia)) as (-> & _).
    by rewrite (handed_mb zs Hok fs i Hh Hi), Hin. }
  split; [done|]. intros k z Hrun.
  eapply (wedged_run (frameNum zs) (window_at zs 0) (txWritten zs)) in Hrun; [|lia|lia|].
  - split; [apply (wd_count _ _ _ _ _ Hrun)|]. intros -> buf l fx evs Hq.
    by apply (wedged_stuck (frameNum zs) (window_at zs 0) (txWritten zs) ltac:(lia) ltac:(lia)).
  - constructor; cbn [txEnabled frameNum txFrames txIndex txWritten txWrittenIndex update]; try done; try lia.
    + by rewrite (kernel_ok_len _ _ (Hker fs)), (proj1 Hh).
    + unfold window_at. rewrite Zplus_mod_idemp_l. rewrite <- (Z.mod_small (txIndex zs) (frameNum zs)) at 1 by lia.
      f_equal. lia.
    + intros j Hj Hin. apply Hmb; [done|]. by rewrite <- in_window_run.
Qed.

(** A copy into a frame that is free. *)
Lemma copy_ready zs buf l fx p ys :
  let i := txIndex zs in
  txEnabled zs = true → 0 <= txWritten zs < frameNum zs → 0 <= i < frameNum zs → frameNum zs < 2147483648 →
  0 <= txFrameSize zs → len (txFrames zs) = frameNum zs → mb (slot (txFrames zs) i) = 0 →
  frame_ok (txFrameSize zs) (slot (txFrames zs) i) → txReady (slot (txFrames zs) i) = true →
  puts fx buf l (txFrameSize zs) p →
  ∃ f' zs', CopyToBuffer zs buf l fx [] ys = Ret (i, None, zs') ∧ txFrames zs' = <[Z.to_nat i := f']> (txFrames zs) ∧
    frame_data f' = p ∧ txReady f' = true ∧ mb f' = 1 ∧ txEnabled zs' = true ∧ frameNum zs' = frameNum zs ∧
    txWritten zs' = txWritten zs + 1 ∧ txWrittenIndex zs' = (if txWritten zs =? 0 then i else txWrittenIndex zs).
Proof.
  intros i Hen Hw Hi Hn Hsz Hl Hmb Hfo Hrd Hputs.
  destruct (CopyToBuffer_slot zs buf l fx [] ys (stats_Polls zs) (txFrames zs)) as (dst & dst' & n & sn & Hfill & Hd & E);
    [done..| | |].
  - cbn [wait_ready txFrames update]. rewrite idx_slot by (fold i; lia). cbn [mbind outcome_mbind]. fold i.
    rewrite Hrd. by destruct zs.
  - intros d Hd. destruct (Hputs d Hd) as (d' & m & ? & _). by exists d', m.
  - destruct (Hputs dst Hd) as (d2 & n2 & (F2 & _) & Hp). destruct Hfill as (F1 & Hd' & Hnr).
    rewrite F1 in F2. injection F2 as <- <-. eexists _, _. split; [exact E|]. split; [done|]. fold i.
    rewrite (filled_data _ dst' n (txFrameSize zs)), (filled_ready _ dst' n (txFrameSize zs)) by (done || lia). done.
Qed.

(** A poll that fails: the frame is skipped. *)
Lemma copy_poll_error zs buf l fx ev e ys : tx_ok zs → txEnabled zs = true → txWritten zs < frameNum zs →
  txReady (slot (txFrames zs) (txIndex zs)) = false → pe_err ev = Some e →
  ∃ q, CopyToBuffer zs buf l fx [ev] ys = Ret (-1, Some e,
    zs <| txIndex := (txIndex zs + 1) mod frameNum zs |> <| stats_Polls := q |> <| txFrames := pe_mem ev (txFrames zs) |>).
Proof.
  intros Hok Hen Hw Hb He. destruct (tk_num _ Hok), (tk_index _ Hok). pose proof (tk_len _ Hok) as Hl.
  unfold CopyToBuffer. rewrite Hen. cbn [negb]. unfold getFreeTx.
  rewrite (proj2 (Z.eqb_neq (txWritten zs) (frameNum zs))) by lia. rewrite next_index_ok, next_mod by lia.
  cbn [mbind outcome_mbind wait_ready txFrames update]. rewrite (idx_slot (txFrames zs)) by lia. cbn [mbind outcome_mbind].
  rewrite Hb, He. by eexists.
Qed.

(** The frame after the window, and the one after it. *)
Lemma after_window zs : tx_ok zs → 0 < txWritten zs → txWritten zs + 1 < frameNum zs →
  let a := window_at zs 0 in
  let j := (txIndex zs + 1) mod frameNum zs in
  txWrittenIndex zs = a ∧ 0 <= a < frameNum zs ∧ txIndex zs = (a + txWritten zs) mod frameNum zs ∧
  j = (a + (txWritten zs + 1)) mod frameNum zs ∧ 0 <= j < frameNum zs ∧ mb (slot (txFrames zs) j) = 0.
Proof.
  intros Hok Hw Hr a j. pose proof (tk_num _ Hok) as Hn. pose proof (tk_index _ Hok) as Hi.
  assert (txIndex zs = (a + txWritten zs) mod frameNum zs) as Hia.
  { unfold a, window_at. rewrite Z.add_0_r, Zplus_mod_idemp_l. symmetry.
    replace (txIndex zs - txWritten zs + txWritten zs) with (txIndex zs) by lia. apply Z.mod_small. lia. }
  assert (j = (a + (txWritten zs + 1)) mod frameNum zs) as Hja
    by (unfold j; rewrite Hia, Zplus_mod_idemp_l; f_equal; lia).
  assert (0 <= j < frameNum zs) as Hj by (apply Z.mod_pos_bound; lia).
  split; [rewrite (tk_first _ Hok); by rewrite (proj2 (Z.eqb_neq _ _)) by lia|].
  split; [apply window_at_range; lia|]. do 3 (split; [done|]).
  rewrite (tk_mb _ Hok j (slot (txFrames zs) j)); [|lia|apply slot_lookup; rewrite (tk_len _ Hok); lia].
  rewrite <- in_window_run by (done || lia). fold a. rewrite Hja, in_run_at by lia.
  by rewrite (proj2 (Z.ltb_ge (txWritten zs + 1) (txWritten zs))) by lia.
Qed.

(** C35: a failed poll misplaces packets.  Packets are waiting for a flush, the next
    frame is still with the kernel, and the poll for it fails (a signal
    interrupts it, say).  [CopyToBuffer] returns the error, but the frame stays
    skipped.  The next copy succeeds with packet [p] in the frame after it; the
    following flush hands the skipped frame with its old contents over to be
    sent, and not the frame with [p], which stays locked in the ring: [p] is
    reported as sent and never is. *)
Theorem poll_error_misplaces zs buf l fx p ev e ys
    (Hok : tx_ok zs) (Hen : txEnabled zs = true) (Hsome : 0 < txWritten zs) (Hroom : txWritten zs + 1 < frameNum zs)
    (Hbusy : txReady (slot (txFrames zs) (txIndex zs)) = false) (Herr : pe_err ev = Some e)
    (Hker : kernel_ok (txFrames zs) (pe_mem ev (txFrames zs)))
    (Hnext : txReady (slot (txFrames zs) ((txIndex zs + 1) mod frameNum zs)) = true)
    (Hputs : puts fx buf l (txFrameSize zs) p) :
  let i := txIndex zs in
  let j := (i + 1) mod frameNum zs in
  ∃ zs1 zs2 fs, CopyToBuffer zs buf l fx [ev] ys = Ret (-1, Some e, zs1) ∧
    CopyToBuffer zs1 buf l fx [] ys = Ret (j, None, zs2) ∧ frame_data (slot (txFrames zs2) j) = p ∧
    flush_set (frameNum zs2) (txFrames zs2) (txWrittenIndex zs2) (Z.to_nat (txWritten zs2)) = Ret fs ∧
    tp_status (slot fs i) = TP_STATUS_SEND_REQUEST ∧ txReady (slot fs j) = true ∧
    ∀ send st, kernel_ok fs (send fs) →
      ∃ flushed errs zs3, FlushFrames zs2 send None st = Ret (flushed, None, errs, zs3) ∧
        flushed + len errs = txWritten zs + 1 ∧ txWritten zs3 = 0 ∧
        frame_data (slot (txFrames zs3) j) = p ∧ mb (slot (txFrames zs3) j) = 1.
Proof.
  intros i j. destruct (copy_poll_error zs buf l fx ev e ys) as (q & E1); [done|done|lia|done|done|].
  pose proof (tk_num _ Hok) as Hn. pose proof (tk_index _ Hok) as Hi. pose proof (tk_len _ Hok) as Hl.
  pose proof (tk_size _ Hok) as Hsz. pose proof (kernel_ok_len _ _ Hker) as Hlg.
  destruct (after_window zs Hok Hsome Hroom) as (Hwi & Har & Hia & Hja & Hj & Hmbj). fold i in Hia. fold i j in Hja, Hj, Hmbj.
  destruct (kernel_ok_slot _ _ j Hker ltac:(lia)) as (_ & _ & Hsj). specialize (Hsj Hnext).
  pose proof (slot_frame_ok zs Hok j Hj) as Hfj. fold i j in E1, Hnext. rewrite <- Hsj in Hfj, Hmbj, Hnext.
  set (zs1 := ((zs <| txIndex := j |>) <| stats_Polls := q |>) <| txFrames := _ |>) in E1.
  destruct (copy_ready zs1 buf l fx p ys) as (f' & zs2 & E2 & Ef & Hp & Hrd & Hmb & Ee & En & Ew & Ewi);
    [done|cbn; lia|done|cbn; lia|cbn; lia|cbn; lia|done..|].
  cbn [zs1 frameNum txFrames txIndex txWritten txWrittenIndex update] in *.
  rewrite (proj2 (Z.eqb_neq (txWritten zs) 0)) in Ewi by lia.
  assert (∀ k, 0 <= k < frameNum zs → slot (txFrames zs2) k = if k =? j then f' else slot (pe_mem ev (txFrames zs)) k) as Hs
    by (intros k Hk; rewrite Ef; apply slot_insert; lia).
  destruct (flush_run zs2 (window_at zs 0) (txWritten zs + 1)) as (fs & E3 & [Hl3 Hsw] & Hrun);
    [done|congruence|done|by rewrite En|by rewrite En; lia|rewrite En; lia|rewrite Ef, len_insert, En; lia|].
  rewrite En in *. assert (len (txFrames zs2) = frameNum zs) as Hl2 by (rewrite Ef, len_insert; lia). rewrite Hl2 in *.
  assert (in_run (frameNum zs) (window_at zs 0) (txWritten zs + 1) i = true) as Hri
    by (rewrite Hia, in_run_at by lia; apply Z.ltb_lt; lia).
  assert (in_run (frameNum zs) (window_at zs 0) (txWritten zs + 1) j = false) as Hrj
    by (rewrite Hja, in_run_at by lia; apply Z.ltb_ge; lia).
  assert (slot fs j = f') as Hfs by (by rewrite Hsw, Hrj, Hs, Z.eqb_refl by done).
  exists zs1, zs2, fs. split; [done|]. split; [done|]. rewrite Hs, Z.eqb_refl by done.
  split; [done|]. split; [by rewrite En|]. split.
  - rewrite Hsw, Hri by done. apply set_status_status; [|done]. rewrite Hs by done. zcase; [congruence|].
    destruct (kernel_ok_slot _ _ i Hker ltac:(unfold i; lia)) as (_ & -> & _). by apply slot_room.
  - rewrite Hfs. split; [done|]. intros send st Hk. destruct (Hrun send st) as (fl & er & zs3 & E4 & [_ Hsw4] & Hsum & _ & _ & _ & _ & _ & Ew4);
      [by apply kernel_ok_len|]. exists fl, er, zs3. split; [done|]. split; [done|]. split; [done|].
    pose proof (kernel_ok_len _ _ Hk) as Hlk. destruct (kernel_ok_slot _ _ j Hk ltac:(lia)) as (_ & _ & Hsame).
    rewrite Hsw4, Hrj by lia. rewrite Hsame by (by rewrite Hfs). by rewrite Hfs.
Qed.

(** Refused copies change nothing.  On a disabled ring, a full ring, or (for
    [WriteToBuffer]) a length beyond the frame size, the call returns its error
    and the socket is unchanged. *)
Lemma tx_refused zs buf l fx evs ys :
  (txEnabled zs = false → CopyToBuffer zs buf l fx evs ys = Ret (-1, Some zTxDisabled, zs)) ∧
  (txEnabled zs = true → txWritten zs = frameNum zs →
     CopyToBuffer zs buf l fx evs ys = Ret (-1, Some zFull, zs)) ∧
  (txFrameSize zs < l → WriteToBuffer zs buf l evs ys = Ret (-1, Some zTooLong, zs)).
Proof.
  unfold CopyToBuffer, WriteToBuffer, getFreeTx. split_and!.
  - by intros ->.
  - intros -> ->. by rewrite Z.eqb_refl.
  - intros Hl. by rewrite (proj2 (Z.ltb_lt _ _)) by lia.
Qed.

Lemma copyFx_fills buf l dst : 0 <= l < 65536 → fills ZRing.copyFx buf l dst (go_copy dst buf) l.
Proof.
  intros Hl. split; [unfold ZRing.copyFx; by rewrite u16_small|]. split; [|done].
  unfold len. by rewrite length_go_copy.
Qed.

(** What is left of [buf] in a slot of the frame size. *)
Lemma copied_data (dst buf : list byte) l : 0 <= l → l <= len buf ∨ len dst <= len buf →
  take (Z.to_nat l) (go_copy dst buf) = take (Z.to_nat (Z.min l (len dst))) buf.
Proof.
  intros Hl Hor. unfold go_copy, len in *. rewrite take_app, take_take, length_take.
  destruct (decide (Z.to_nat l <= length buf)%nat).
  - replace (Z.to_nat l - length dst `min` length buf)%nat with (Z.to_nat l - length dst)%nat by lia.
    destruct (decide (length dst <= length buf)%nat).
    + rewrite (drop_ge dst) by lia. rewrite take_nil, app_nil_r. f_equal. lia.
    + replace (Z.to_nat l - length dst)%nat with 0%nat by lia. rewrite take_0, app_nil_r. f_equal. lia.
  - rewrite (drop_ge dst), take_nil, app_nil_r by lia. f_equal. lia.
Qed.

(** Writing a raw frame.  [WriteToBuffer] with a length that the slot and the
    buffer hold enqueues exactly the first [l] octets of the buffer; with length
    0 it enqueues the whole buffer, but the size check is skipped and a buffer
    longer than the slot is cut to the slot without an error. *)
Lemma WriteToBuffer_enqueues zs buf l evs ys
    (Hok : tx_ok zs) (Hen : txEnabled zs = true) (Hroom : txWritten zs < frameNum zs)
    (Hker : Forall (λ ev, ∀ fs, kernel_ok fs (pe_mem ev fs)) evs)
    (Hfree : becomes_ready (txFrames zs) (txIndex zs) evs = true)
    (Hl : 0 <= l <= txFrameSize zs) (Hlb : l <= len buf) (Hbuf : len buf < 65536) :
  ∃ zs', WriteToBuffer zs buf l evs ys = Ret (txIndex zs, None, zs') ∧ tx_ok zs' ∧
    pending zs' = pending zs ++
      [take (Z.to_nat (if l =? 0 then Z.min (len buf) (txFrameSize zs) else l)) buf].
Proof.
  unfold WriteToBuffer. rewrite (proj2 (Z.ltb_ge (txFrameSize zs) l)) by lia.
  destruct (l <=? 0) eqn:E0; zbool.
  - assert (l = 0) as -> by lia. cbn [Z.eqb]. rewrite u16_small by (pose proof (len_nonneg buf); lia).
    destruct (CopyToBuffer_queue zs buf (len buf) ZRing.copyFx evs ys) as (zs' & dst & dst' & n & E & Hfl & Hd & Hok' & Hp & _);
      [done..| |].
    { intros dst _. eexists _, _. apply copyFx_fills. pose proof (len_nonneg buf). lia. }
    exists zs'. split; [done|]. split; [done|]. rewrite Hp. do 2 f_equal.
    destruct Hfl as (Efx & _ & _). unfold ZRing.copyFx in Efx. injection Efx as <- <-.
    rewrite u16_small by (pose proof (len_nonneg buf); lia).
    rewrite copied_data by (pose proof (len_nonneg buf); lia). by rewrite Hd.
  - rewrite (proj2 (Z.eqb_neq l 0)) by lia. rewrite (slice_Ret 0 l) by lia. cbn [mbind outcome_mbind].
    rewrite Z.sub_0_r, drop_0. set (buf' := take (Z.to_nat l) buf).
    assert (len buf' = l) as Hlb' by (unfold buf', len in *; rewrite length_take; lia).
    destruct (CopyToBuffer_queue zs buf' l ZRing.copyFx evs ys) as (zs' & dst & dst' & n & E & Hfl & Hd & Hok' & Hp & _);
      [done..| |].
    { intros dst _. eexists _, _. apply copyFx_fills. lia. }
    exists zs'. split; [done|]. split; [done|]. rewrite Hp. do 2 f_equal.
    destruct Hfl as (Efx & _ & _). unfold ZRing.copyFx in Efx. injection Efx as <- <-.
    rewrite u16_small by lia. rewrite copied_data by lia.
    unfold buf'. rewrite take_take. f_equal. lia.
Qed.

(** ** Witnesses *)

(** A ring of two frames of 64 octets each. *)
Definition ex_ring : ZSocket :=
  mkZSocket 0 0 0 2 true true 64 0 0 (-1) (replicate 2 (mkRingFrame (replicate 96 x00) 0)) 0 0.

Lemma ex_ring_ok : tx_ok ex_ring.
Proof.
  assert (∀ i f, txFrames ex_ring !! i = Some f → f = mkRingFrame (replicate 96 x00) 0) as Hf.
  { intros i f E. by apply lookup_replicate in E as [-> _]. }
  assert (∀ i, in_window ex_ring i = false) as Hno.
  { intros i. unfold in_window, age. cbn [txWritten ex_ring]. apply Z.ltb_ge. by apply Z.mod_pos_bound. }
  constructor; try (vm_compute; intuition congruence).
  - by repeat constructor.
  - intros i f _ E. apply Hf in E as ->. by rewrite Hno.
  - intros i f _ _ Hin. by rewrite Hno in Hin.
Qed.

Lemma ex_copy : ∃ zs', CopyToBuffer ex_ring [x41; x42] 2 ZRing.copyFx [] [] = Ret (0, None, zs') ∧
  tx_ok zs' ∧ pending zs' = [[x41; x42]] ∧ txEnabled zs' = true ∧ 0 < txWritten zs'.
Proof.
  destruct (CopyToBuffer_queue ex_ring [x41; x42] 2 ZRing.copyFx [] []) as (zs' & dst & dst' & n & E & _ & _ & Hok & _);
    [exact ex_ring_ok|done|done|constructor|vm_compute; reflexivity| |].
  { intros dst _. eexists _, _. by apply copyFx_fills. }
  exists zs'. split; [exact E|]. split; [exact Hok|]. vm_compute in E. injection E as <-.
  split; [|split]; vm_compute; reflexivity.
Qed.

(** A ring of two frames: a flush of one packet fails, one more packet is copied
    and flushed, and the next copy hangs. *)
Definition copied_ring (r : outcome (Z * option zerror * ZSocket)) : ZSocket :=
  match r with Ret (_, _, zs) => zs | _ => ex_ring end.
Definition flushed_ring (r : outcome (Z * option zerror * list zerror * ZSocket)) : ZSocket :=
  match r with Ret (_, _, _, zs) => zs | _ => ex_ring end.

Definition ex_z1 : ZSocket := copied_ring (CopyToBuffer ex_ring [x41; x42] 2 ZRing.copyFx [] []).
Definition ex_z2 : ZSocket := flushed_ring (FlushFrames ex_z1 id (Some (zErrno 105)) None).
Definition ex_z3 : ZSocket := copied_ring (CopyToBuffer ex_z2 [x43] 1 ZRing.copyFx [] []).
Definition ex_z4 : ZSocket := flushed_ring (FlushFrames ex_z3 id None None).

Lemma flush_error_wedges_witness :
  CopyToBuffer ex_ring [x41; x42] 2 ZRing.copyFx [] [] = Ret (0, None, ex_z1) ∧
  FlushFrames ex_z1 id (Some (zErrno 105)) None = Ret (0, Some (zErrno 105), [], ex_z2) ∧
  CopyToBuffer ex_z2 [x43] 1 ZRing.copyFx [] [] = Ret (1, None, ex_z3) ∧
  FlushFrames ex_z3 id None None = Ret (1, None, [], ex_z4) ∧
  ∀ buf l fx evs, quiet evs → CopyToBuffer ex_z4 buf l fx evs [] = Diverge.
Proof.
  do 4 (split; [vm_compute; reflexivity|]).
  destruct ex_copy as (z1 & E1 & Hok & _ & Hen & Hw).
  assert (z1 = ex_z1) as -> by (unfold ex_z1; rewrite E1; reflexivity).
  destruct (flush_error_wedges ex_z1 (zErrno 105) id None Hok Hen Hw kernel_ok_refl) as (z2 & E2 & _ & _ & _ & Hrun).
  assert (z2 = ex_z2) as -> by (unfold ex_z2; rewrite E2; reflexivity).
  intros buf l fx evs Hq. apply (Hrun 1); [|vm_compute; reflexivity|exact Hq].
  apply (wrun_flush _ 1 ex_z3 id None None 1 None []); [|exact kernel_ok_refl|vm_compute; reflexivity].
  apply (wrun_copy _ 0 ex_z2 [x43] 1 ZRing.copyFx [] 1 None); [apply wrun_init|constructor|vm_compute; reflexivity].
Defined.

(** Three frames: a packet in the first waits for a flush, the second is still
    with the kernel, the third is free. *)
Definition ex_busy : ZSocket :=
  mkZSocket 0 0 0 3 true true 64 1 1 0
    [mkRingFrame (replicate 96 x00) 1; set_status TP_STATUS_SENDING (mkRingFrame (replicate 96 x00) 0);
     mkRingFrame (replicate 96 x00) 0] 0 0.

Lemma ex_busy_ok : tx_ok ex_busy.
Proof.
  assert (∀ i f, 0 <= i → txFrames ex_busy !! Z.to_nat i = Some f → i = 0 ∨ i = 1 ∨ i = 2) as Hi.
  { intros i f Hi E. apply lookup_lt_Some in E. change (length (txFrames ex_busy)) with 3%nat in E. lia. }
  constructor; try (vm_compute; intuition congruence).
  - by repeat constructor.
  - intros i f Hi0 E. destruct (Hi i f Hi0 E) as [-> |[-> | ->]]; vm_compute in E; injection E as <-; vm_compute; reflexivity.
  - intros i f Hi0 E. destruct (Hi i f Hi0 E) as [-> |[-> | ->]]; vm_compute in E; injection E as <-; vm_compute; congruence.
Qed.

Lemma ex_puts : puts ZRing.copyFx [x41; x42] 2 64 [x41; x42].
Proof.
  intros dst Hd. eexists _, _. split; [by apply copyFx_fills|].
  rewrite copied_data; [by rewrite Hd|lia|left; vm_compute; congruence].
Qed.

Lemma poll_error_misplaces_witness :
  ∃ zs1 zs2, CopyToBuffer ex_busy [x41; x42] 2 ZRing.copyFx [mkPollEvent id (Some (zErrno 4))] [] = Ret (-1, Some (zErrno 4), zs1) ∧
    CopyToBuffer zs1 [x41; x42] 2 ZRing.copyFx [] [] = Ret (2, None, zs2).
Proof.
  destruct (poll_error_misplaces ex_busy [x41; x42] 2 ZRing.copyFx [x41; x42] (mkPollEvent id (Some (zErrno 4))) (zErrno 4) [])
    as (zs1 & zs2 & fs & E1 & E2 & _);
    [exact ex_busy_ok|reflexivity|reflexivity|reflexivity|vm_compute; reflexivity|reflexivity|apply kernel_ok_refl
    |vm_compute; reflexivity|exact ex_puts|].
  exists zs1, zs2. split; [exact E1|exact E2].
Defined.
