(* ===== verification/ZTxRun.v ===== *)
(** * The transmit ring and the kernel (src/zsocket.go)

    The program that copies and flushes packets and the kernel that sends them,
    as one transition system.  The kernel keeps the place of the frame it sends
    next and sends the frames whose status is SEND_REQUEST from there on, in
    ring order; a frame it has sent becomes free at any later time (packet(7),
    packet_mmap).  Frames the kernel rejects and failing system calls are
    left out here; the errors of the calls are in [ZRingProps]. *)

From Stdlib Require Import Strings.Byte.
From S2P Require Import Prelude.
From S2P Require Import GoBytes.
From S2P Require Import ZRing.
From S2P Require Import ZRingProps.

(** ** The kernel *)

(** A step of the kernel: the frames and the place of the next one to send,
    before and after, and what goes out on the wire. *)
Inductive kstep : list ringFrame → Z → list ringFrame → Z → list (list byte) → Prop :=
| k_send fs h : tp_status (slot fs h) = TP_STATUS_SEND_REQUEST →
    kstep fs h (<[Z.to_nat h := set_status TP_STATUS_SENDING (slot fs h)]> fs) ((h + 1) mod len fs)
      [frame_data (slot fs h)]
| k_done fs h i : 0 <= i < len fs → tp_status (slot fs i) = TP_STATUS_SENDING →
    kstep fs h (<[Z.to_nat i := set_status TP_STATUS_KERNEL (slot fs i)]> fs) h [].

Inductive krun : list ringFrame → Z → list ringFrame → Z → list (list byte) → Prop :=
| krun_nil fs h : krun fs h fs h []
| krun_cons fs h fs1 h1 w1 fs2 h2 w2 : kstep fs h fs1 h1 w1 → krun fs1 h1 fs2 h2 w2 → krun fs h fs2 h2 (w1 ++ w2).

Definition requested (f : ringFrame) : bool := tp_status f =? TP_STATUS_SEND_REQUEST.

Definition data_at (fs : list ringFrame) (i : Z) : list byte := frame_data (slot fs i).

(** The frames to send are the [r] frames from [h] on. *)
Record kqueue (fs : list ringFrame) (h r : Z) : Prop := {
  kq_head : 0 <= h < len fs;
  kq_r : 0 <= r <= len fs;
  kq_room i : 0 <= i < len fs → TX_START <= len (raw (slot fs i));
  kq_req i : 0 <= i < len fs → requested (slot fs i) = in_run (len fs) h r i
}.

Lemma ready_not_requested f : txReady f = true → requested f = false.
Proof. unfold txReady, requested. intros Hr. zbool. apply Z.eqb_neq. intros E. by rewrite E in Hr. Qed.

Lemma kernel_ok_insert fs i f' : 0 <= i < len fs → mb f' = mb (slot fs i) →
  len (raw f') = len (raw (slot fs i)) → txReady (slot fs i) = false → kernel_ok fs (<[Z.to_nat i := f']> fs).
Proof.
  intros Hi Hm Hl Hr. rewrite <- (list_insert_id fs (Z.to_nat i) (slot fs i)) at 1 by (by apply slot_lookup).
  apply Forall2_insert; [apply kernel_ok_refl|]. rewrite Hr. done.
Qed.

(** Changing the status of a frame that is neither free nor, afterwards, to be
    sent. *)
Lemma kqueue_insert fs h r h' r' i v : kqueue fs h r → 0 <= i < len fs → txReady (slot fs i) = false →
  v = TP_STATUS_SENDING ∨ v = TP_STATUS_KERNEL → 0 <= h' < len fs → 0 <= r' <= len fs →
  (∀ j, 0 <= j < len fs → in_run (len fs) h' r' j = if j =? i then false else in_run (len fs) h r j) →
  let fs' := <[Z.to_nat i := set_status v (slot fs i)]> fs in
  kqueue fs' h' r' ∧ kernel_ok fs fs' ∧
  ∀ g m, run_of (len fs) g m (data_at fs') = run_of (len fs) g m (data_at fs).
Proof.
  intros [Hh Hr Hroom Hreq] Hi Hrd Hv Hh' Hr' Hrun fs'. specialize (Hroom i Hi) as Hri.
  assert (len fs' = len fs) as Hl by apply len_insert.
  assert (∀ j, 0 <= j < len fs → slot fs' j = if j =? i then set_status v (slot fs i) else slot fs j) as Hs
    by (intros j Hj; by apply slot_insert).
  split; [|split].
  - constructor; rewrite ?Hl; try done.
    + intros j Hj. rewrite Hs by done. zcase; [rewrite set_status_len by done; done|by apply Hroom].
    + intros j Hj. rewrite Hs, Hrun by done. zcase; [|by apply Hreq]. unfold requested.
      rewrite set_status_status by (done || (destruct Hv as [-> | ->]; done)). by destruct Hv as [-> | ->].
  - by apply kernel_ok_insert; [| |apply set_status_len|].
  - intros g m. unfold run_of. apply map_ext_in. intros k _. unfold data_at.
    assert (0 <= (g + k) mod len fs < len fs) as Hb by (apply Z.mod_pos_bound; lia).
    rewrite Hs by done. zcase; [|done]. rewrite set_status_data by done. by rewrite E.
Qed.

Lemma status_not_ready f : tp_status f = TP_STATUS_SEND_REQUEST ∨ tp_status f = TP_STATUS_SENDING → txReady f = false.
Proof. unfold txReady. by intros [-> | ->]. Qed.

Lemma kstep_kqueue fs h r fs' h' w : kqueue fs h r → kstep fs h fs' h' w →
  ∃ r', kqueue fs' h' r' ∧ r' <= r ∧ (h' + r') mod len fs = (h + r) mod len fs ∧ kernel_ok fs fs' ∧
    w ++ run_of (len fs) h' r' (data_at fs') = run_of (len fs) h r (data_at fs).
Proof.
  intros Hq Hst. pose proof Hq as [Hh Hr Hroom Hreq]. destruct Hst as [fs h Hs|fs h i Hi Hs].
  - assert (0 < r) as Hpos.
    { specialize (Hreq h Hh). unfold requested in Hreq. rewrite Hs in Hreq. symmetry in Hreq.
      unfold in_run in Hreq. rewrite Z.sub_diag, Z.mod_0_l in Hreq by lia. zbool. lia. }
    exists (r - 1). destruct (kqueue_insert fs h r ((h + 1) mod len fs) (r - 1) h TP_STATUS_SENDING Hq Hh) as (H1 & H2 & H3);
      [by apply status_not_ready; left|by left|apply Z.mod_pos_bound; lia|lia| |].
    { intros j Hj. replace r with (r - 1 + 1) at 2 by lia. rewrite in_run_step, next_mod by lia.
      destruct (j =? h) eqn:E; zbool; [|done]. subst j.
      pose proof (in_run_self (len fs) h (r - 1) Hh ltac:(lia)) as Hself. by rewrite next_mod in Hself. }
    split; [done|]. split; [lia|]. split; [rewrite Zplus_mod_idemp_l; f_equal; lia|]. split; [done|].
    rewrite H3, (run_of_pop _ h r) by lia. done.
  - exists r. destruct (kqueue_insert fs h r h r i TP_STATUS_KERNEL Hq Hi) as (H1 & H2 & H3);
      [by apply status_not_ready; right|by right|done|done| |].
    { intros j Hj. destruct (j =? i) eqn:E; zbool; [|done]. subst j. rewrite <- Hreq by done.
      unfold requested. by rewrite Hs. }
    split; [done|]. split; [lia|]. split; [done|]. split; [done|]. by rewrite H3.
Qed.

Lemma krun_kqueue fs h fs' h' w : krun fs h fs' h' w → ∀ r, kqueue fs h r →
  ∃ r', kqueue fs' h' r' ∧ r' <= r ∧ (h' + r') mod len fs = (h + r) mod len fs ∧ kernel_ok fs fs' ∧
    w ++ run_of (len fs) h' r' (data_at fs') = run_of (len fs) h r (data_at fs).
Proof.
  induction 1 as [fs h|fs h fs1 h1 w1 fs2 h2 w2 Hst _ IH]; intros r Hq.
  - exists r. split; [done|]. split; [lia|]. split; [done|]. split; [apply kernel_ok_refl|done].
  - destruct (kstep_kqueue _ _ _ _ _ _ Hq Hst) as (r1 & Hq1 & Hr1 & Hm1 & Hk1 & Hw1).
    destruct (IH r1 Hq1) as (r2 & Hq2 & Hr2 & Hm2 & Hk2 & Hw2).
    pose proof (kernel_ok_len _ _ Hk1) as Hl. rewrite Hl in *. exists r2. split; [done|]. split; [lia|].
    split; [congruence|]. split; [by eapply kernel_ok_trans|]. by rewrite <- app_assoc, Hw2.
Qed.

(** ** The program *)

(** The polls of [getFreeTx] for frame [i]: the kernel runs during each of them,
    until the frame is free. *)
Inductive polled (i : Z) : list ringFrame → Z → list poll_event → list ringFrame → Z → list (list byte) → Prop :=
| polled_ready fs h : txReady (slot fs i) = true → polled i fs h [] fs h []
| polled_wait fs h ev evs h1 w1 fs' h' w' :
    txReady (slot fs i) = false → pe_err ev = None → krun fs h (pe_mem ev fs) h1 w1 →
    polled i (pe_mem ev fs) h1 evs fs' h' w' → polled i fs h (ev :: evs) fs' h' (w1 ++ w').

(** The socket, the kernel's place in the ring, what went out on the wire and the
    packets the program has copied. *)
Record txrun : Type := mkTx {
  tr_zs : ZSocket;
  tr_head : Z;
  tr_wire : list (list byte);
  tr_copied : list (list byte)
}.

Inductive tstep : txrun → txrun → Prop :=
| t_kernel zs h wire copied fs' h' w : kstep (txFrames zs) h fs' h' w →
    tstep (mkTx zs h wire copied) (mkTx (zs <| txFrames := fs' |>) h' (wire ++ w) copied)
| t_copy zs h wire copied buf l fx p evs ys fs h' w i zs' :
    puts fx buf l (txFrameSize zs) p → polled (txIndex zs) (txFrames zs) h evs fs h' w →
    CopyToBuffer zs buf l fx evs ys = Ret (i, None, zs') →
    tstep (mkTx zs h wire copied) (mkTx zs' h' (wire ++ w) (copied ++ [p]))
| t_refused zs h wire copied buf l fx ys i e zs' :
    CopyToBuffer zs buf l fx [] ys = Ret (i, Some e, zs') →
    tstep (mkTx zs h wire copied) (mkTx zs' h wire copied)
| t_flush zs h wire copied send st flushed errs zs' fs h' w :
    0 < txWritten zs →
    flush_set (frameNum zs) (txFrames zs) (txWrittenIndex zs) (Z.to_nat (txWritten zs)) = Ret fs →
    krun fs h (send fs) h' w → FlushFrames zs send None st = Ret (flushed, None, errs, zs') →
    tstep (mkTx zs h wire copied) (mkTx zs' h' (wire ++ w) copied)
| t_flush_empty zs h wire copied send serr st r zs' :
    txWritten zs = 0 → FlushFrames zs send serr st = Ret (r, zs') →
    tstep (mkTx zs h wire copied) (mkTx zs' h wire copied).

Inductive txreach (zs0 : ZSocket) : txrun → Prop :=
| txreach_init : txreach zs0 (mkTx zs0 (txIndex zs0) [] [])
| txreach_step s s' : txreach zs0 s → tstep s s' → txreach zs0 s'.

(** The frames to send end where the packets not yet flushed begin; together with
    what was sent they are the packets copied. *)
Record tx_inv (s : txrun) (r : Z) : Prop := {
  ti_ok : tx_ok (tr_zs s);
  ti_queue : kqueue (txFrames (tr_zs s)) (tr_head s) r;
  ti_border : (tr_head s + r) mod frameNum (tr_zs s) = window_at (tr_zs s) 0;
  ti_room : r + txWritten (tr_zs s) <= frameNum (tr_zs s);
  ti_order : tr_wire s ++ run_of (frameNum (tr_zs s)) (tr_head s) r (data_at (txFrames (tr_zs s))) ++
    pending (tr_zs s) = tr_copied s
}.

Lemma polled_spec i fs h evs fs' h' w : polled i fs h evs fs' h' w → ∀ r, kqueue fs h r → 0 <= i < len fs →
  ∃ r', kqueue fs' h' r' ∧ r' <= r ∧ (h' + r') mod len fs = (h + r) mod len fs ∧ kernel_ok fs fs' ∧
    w ++ run_of (len fs) h' r' (data_at fs') = run_of (len fs) h r (data_at fs) ∧ txReady (slot fs' i) = true ∧
    ∀ zs, txFrames zs = fs → ∃ p, wait_ready zs i evs = Ret (None, zs <| stats_Polls := p |> <| txFrames := fs' |>).
Proof.
  induction 1 as [fs h Hrd|fs h ev evs h1 w1 fs' h' w' Hrd He Hk _ IH]; intros r Hq Hi.
  - exists r. do 2 (split; [done|]). split; [done|]. split; [apply kernel_ok_refl|]. split; [done|]. split; [done|].
    intros zs <-. exists (stats_Polls zs). cbn [wait_ready]. rewrite idx_slot by done. cbn [mbind outcome_mbind].
    rewrite Hrd. by destruct zs.
  - destruct (krun_kqueue _ _ _ _ _ Hk r Hq) as (r1 & Hq1 & Hr1 & Hm1 & Hk1 & Hw1).
    pose proof (kernel_ok_len _ _ Hk1) as Hl.
    destruct (IH r1 Hq1) as (r2 & Hq2 & Hr2 & Hm2 & Hk2 & Hw2 & Hrd2 & Hwait); [lia|]. rewrite Hl in *.
    exists r2. split; [done|]. split; [lia|]. split; [congruence|]. split; [by eapply kernel_ok_trans|].
    split; [by rewrite <- app_assoc, Hw2|]. split; [done|].
    intros zs <-. cbn [wait_ready]. rewrite idx_slot by done. cbn [mbind outcome_mbind]. rewrite Hrd, He.
    set (zs1 := (zs <| stats_Polls := _ |>) <| txFrames := _ |>).
    destruct (Hwait zs1) as (p & E); [done|]. exists p. exact E.
Qed.

(** ** Preservation *)

(** The kernel's steps between the calls. *)
Lemma kernel_tx_ok zs fs' : tx_ok zs → kernel_ok (txFrames zs) fs' →
  tx_ok (zs <| txFrames := fs' |>) ∧ pending (zs <| txFrames := fs' |>) = pending zs.
Proof.
  intros Hok Hk. pose proof (kernel_ok_len _ _ Hk) as Hl. pose proof (tk_len _ Hok) as Hlen.
  assert (∀ i f, 0 <= i → fs' !! Z.to_nat i = Some f → 0 <= i < frameNum zs ∧ f = slot fs' i) as Hget.
  { intros i f Hi Hg. pose proof (lookup_lt_Some _ _ _ Hg). unfold slot. rewrite Hg. unfold len in *. split; [lia|done]. }
  assert (∀ i, 0 <= i < frameNum zs → in_window zs i = true → slot fs' i = slot (txFrames zs) i) as Hsame.
  { intros i Hi Hin. destruct (kernel_ok_slot _ _ i Hk ltac:(lia)) as (_ & _ & Hs). apply Hs.
    by apply (tk_ready _ Hok i); [lia|apply slot_lookup; lia|]. }
  split.
  - constructor; cbn [frameNum txFrames txFrameSize txIndex txWritten txWrittenIndex update]; try apply Hok.
    + lia.
    + apply Forall_lookup. intros j f Hj. destruct (Hget (Z.of_nat j) f) as [Hr ->]; [lia|by rewrite Nat2Z.id|].
      destruct (kernel_ok_slot _ _ (Z.of_nat j) Hk ltac:(lia)) as (_ & Hraw & _). unfold frame_ok. rewrite Hraw.
      by apply slot_frame_ok.
    + intros i f Hi Hg. destruct (Hget i f Hi Hg) as [Hr ->].
      destruct (kernel_ok_slot _ _ i Hk ltac:(lia)) as (-> & _). apply (tk_mb _ Hok); [done|]. apply slot_lookup. lia.
    + intros i f Hi Hg Hin. destruct (Hget i f Hi Hg) as [Hr ->]. change (in_window zs i = true) in Hin.
      rewrite Hsame by done. apply (tk_ready _ Hok i); [lia|apply slot_lookup; lia|done].
  - unfold pending, pending_in. apply map_ext_in. intros k Hin. apply list_elem_of_In, elem_of_seqZ in Hin.
    cbn [txWritten update] in Hin. change (window_at (zs <| txFrames := fs' |>) k) with (window_at zs k).
    cbn [txFrames update]. rewrite Hsame; [done|apply window_at_range; pose proof (tk_num _ Hok); lia|].
    apply in_window_at; [done|lia].
Qed.

Lemma tx_inv_kernel zs h wire copied fs' h' w r : tx_inv (mkTx zs h wire copied) r →
  kstep (txFrames zs) h fs' h' w → ∃ r', tx_inv (mkTx (zs <| txFrames := fs' |>) h' (wire ++ w) copied) r'.
Proof.
  intros [Hok Hq Hb Hr Ho] Hst. cbn [tr_zs tr_head tr_wire tr_copied] in *. pose proof (tk_len _ Hok) as Hl.
  destruct (kstep_kqueue _ _ _ _ _ _ Hq Hst) as (r' & Hq' & Hle & Hm & Hk & Hw).
  destruct (kernel_tx_ok zs fs' Hok Hk) as [Hok' Hp]. rewrite Hl in *.
  exists r'. constructor; cbn [tr_zs tr_head tr_wire tr_copied frameNum txFrames txWritten update]; try done.
  - by rewrite Hm.
  - lia.
  - rewrite Hp, <- Ho, <- Hw, <- !app_assoc. done.
Qed.

(** A copy succeeds only on an enabled ring with room. *)
Lemma CopyToBuffer_guards zs buf l fx evs ys i zs' : CopyToBuffer zs buf l fx evs ys = Ret (i, None, zs') →
  txEnabled zs = true ∧ txWritten zs ≠ frameNum zs.
Proof.
  unfold CopyToBuffer. destruct (txEnabled zs); [|done]. cbn [negb]. intros E. split; [done|].
  unfold getFreeTx in E. destruct (txWritten zs =? frameNum zs) eqn:Ef; [done|]. by zbool.
Qed.

(** The kernel's place is not overtaken: a free frame to write leaves room. *)
Lemma copy_room zs fs h r : tx_ok zs → kqueue fs h r → len fs = frameNum zs →
  (h + r) mod frameNum zs = window_at zs 0 → r + txWritten zs <= frameNum zs → txWritten zs < frameNum zs →
  txReady (slot fs (txIndex zs)) = true → r + (txWritten zs + 1) <= frameNum zs.
Proof.
  intros Hok [Hh Hr _ Hreq] Hl Hb Hle Hlt Hrd. pose proof (tk_index _ Hok) as Hi.
  destruct (decide (r + txWritten zs = frameNum zs)) as [E|]; [|lia]. exfalso.
  assert (txIndex zs = h) as Hih.
  { unfold window_at in Hb. rewrite Z.add_0_r in Hb. apply (f_equal (λ z, (z + txWritten zs) mod frameNum zs)) in Hb.
    rewrite !Zplus_mod_idemp_l in Hb. replace (txIndex zs - txWritten zs + txWritten zs) with (txIndex zs) in Hb by lia.
    replace (h + r + txWritten zs) with (h + 1 * frameNum zs) in Hb by lia. rewrite Z.mod_add, !Z.mod_small in Hb by lia. done. }
  apply ready_not_requested in Hrd. rewrite Hreq, Hih in Hrd by lia. unfold in_run in Hrd.
  rewrite Z.sub_diag, Z.mod_0_l in Hrd by lia. zbool. lia.
Qed.

(** What a copy does, once the polls have left the frames [fs]. *)
Lemma copy_effect zs buf l fx p evs ys fs po i zs' : tx_ok zs → txEnabled zs = true → txWritten zs < frameNum zs →
  puts fx buf l (txFrameSize zs) p → kernel_ok (txFrames zs) fs → txReady (slot fs (txIndex zs)) = true →
  let nxt := if txIndex zs + 1 =? frameNum zs then 0 else txIndex zs + 1 in
  wait_ready (zs <| txIndex := nxt |>) (txIndex zs) evs =
    Ret (None, zs <| txIndex := nxt |> <| stats_Polls := po |> <| txFrames := fs |>) →
  CopyToBuffer zs buf l fx evs ys = Ret (i, None, zs') →
  ∃ f', txFrames zs' = <[Z.to_nat (txIndex zs) := f']> fs ∧ txReady f' = true ∧ TX_START <= len (raw f') ∧
    tx_ok zs' ∧ pending zs' = pending zs ++ [p] ∧ window_at zs' 0 = window_at zs 0 ∧
    frameNum zs' = frameNum zs ∧ txWritten zs' = txWritten zs + 1.
Proof.
  intros Hok Hen Hlt Hputs Hk Hrd nxt Ew E. pose proof (tk_len _ Hok) as Hl. pose proof (tk_index _ Hok) as Hidx.
  pose proof (tk_size _ Hok) as Hsz. pose proof (tk_written _ Hok) as Hwr.
  destruct (CopyToBuffer_from zs buf l fx evs ys po fs Hok Hen Hlt Ew Hk) as (dst & dst' & n & sn & Hfill & Hd & Ec).
  { intros d Hd. destruct (Hputs d Hd) as (d' & m & ? & _). by exists d', m. }
  rewrite E in Ec. injection Ec as -> ->.
  assert (take (Z.to_nat n) dst' = p) as Hp.
  { destruct (Hputs dst Hd) as (d2 & n2 & (F2 & _) & <-). destruct Hfill as (F1 & _). rewrite F1 in F2. by injection F2 as -> ->. }
  destruct Hfill as (_ & Hd' & Hn). set (g := (slot fs (txIndex zs)) <| mb := 1 |>) in *.
  assert (frame_ok (txFrameSize zs) g) as Hg.
  { destruct (kernel_ok_slot _ _ (txIndex zs) Hk ltac:(lia)) as (_ & Hraw & _).
    pose proof (slot_frame_ok zs Hok (txIndex zs) Hidx) as Hf. unfold frame_ok in *. cbn [raw g update]. by rewrite Hraw. }
  assert (txReady (filled g dst' n) = true) as Hfr by (by rewrite (filled_ready g dst' n (txFrameSize zs)) by (done || lia)).
  assert (frame_ok (txFrameSize zs) (filled g dst' n)) as Hfo by (apply filled_ok; (done || lia)).
  exists (filled g dst' n). split; [done|]. split; [done|]. split; [rewrite Hfo; lia|].
  split; [by apply (enqueue_ok zs _ fs (filled g dst' n))|]. split.
  { rewrite <- Hp, <- (filled_data g dst' n (txFrameSize zs)) by (done || lia). by apply (enqueue_pending zs _ fs). }
  split; [by apply (enqueue_window zs _ Hok); (done || lia)|]. done.
Qed.

(** The same with the polls as the kernel's runs. *)
Lemma copy_polled zs h r buf l fx p evs ys fs h' w i zs' : tx_ok zs → kqueue (txFrames zs) h r →
  puts fx buf l (txFrameSize zs) p → polled (txIndex zs) (txFrames zs) h evs fs h' w →
  CopyToBuffer zs buf l fx evs ys = Ret (i, None, zs') →
  txWritten zs < frameNum zs ∧ len fs = frameNum zs ∧ txReady (slot fs (txIndex zs)) = true ∧
  (∃ r1, kqueue fs h' r1 ∧ r1 <= r ∧ (h' + r1) mod frameNum zs = (h + r) mod frameNum zs ∧
     w ++ run_of (frameNum zs) h' r1 (data_at fs) = run_of (frameNum zs) h r (data_at (txFrames zs))) ∧
  ∃ f', txFrames zs' = <[Z.to_nat (txIndex zs) := f']> fs ∧ txReady f' = true ∧ TX_START <= len (raw f') ∧
    tx_ok zs' ∧ pending zs' = pending zs ++ [p] ∧ window_at zs' 0 = window_at zs 0 ∧
    frameNum zs' = frameNum zs ∧ txWritten zs' = txWritten zs + 1.
Proof.
  intros Hok Hq Hputs Hpoll E. pose proof (tk_len _ Hok) as Hl. pose proof (tk_index _ Hok) as Hidx.
  pose proof (tk_written _ Hok) as Hwr. destruct (CopyToBuffer_guards _ _ _ _ _ _ _ _ E) as [Hen Hnf].
  destruct (polled_spec _ _ _ _ _ _ _ Hpoll r Hq) as (r1 & Hq1 & Hr1 & Hm1 & Hk & Hw & Hrd & Hwait); [lia|].
  pose proof (kernel_ok_len _ _ Hk) as Hlf. rewrite Hl in *.
  destruct (Hwait (zs <| txIndex := if txIndex zs + 1 =? frameNum zs then 0 else txIndex zs + 1 |>)) as (po & Ew); [done|].
  split; [lia|]. split; [done|]. split; [done|]. split; [by exists r1|].
  by apply (copy_effect zs buf l fx p evs ys fs po i zs' Hok Hen ltac:(lia) Hputs Hk Hrd Ew E).
Qed.

Lemma tx_inv_copy zs h wire copied buf l fx p evs ys fs h' w i zs' r : tx_inv (mkTx zs h wire copied) r →
  puts fx buf l (txFrameSize zs) p → polled (txIndex zs) (txFrames zs) h evs fs h' w →
  CopyToBuffer zs buf l fx evs ys = Ret (i, None, zs') →
  ∃ r', tx_inv (mkTx zs' h' (wire ++ w) (copied ++ [p])) r'.
Proof.
  intros [Hok Hq Hb Hr Ho] Hputs Hpoll E. cbn [tr_zs tr_head tr_wire tr_copied] in *. pose proof (tk_index _ Hok) as Hidx.
  destruct (copy_polled zs h r buf l fx p evs ys fs h' w i zs' Hok Hq Hputs Hpoll E)
    as (Hlt & Hlf & Hrd & (r1 & Hq1 & Hr1 & Hm1 & Hw) & f' & Ef & Hfr & Hfl & Hok' & Hp' & Hwin & En & Ewr).
  assert (∀ j, 0 <= j < frameNum zs → slot (txFrames zs') j = if j =? txIndex zs then f' else slot fs j) as Hs
    by (intros j Hj; rewrite Ef; apply slot_insert; lia).
  pose proof Hq1 as [Hh1 Hr1' Hroom1 Hreq1]. rewrite Hlf in *.
  assert (in_run (frameNum zs) h' r1 (txIndex zs) = false) as Hnin by (rewrite <- Hreq1 by done; by apply ready_not_requested).
  assert (len (txFrames zs') = frameNum zs) as Hl' by (rewrite Ef, len_insert; done).
  exists r1. constructor; cbn [tr_zs tr_head tr_wire tr_copied]; rewrite ?En, ?Ewr; try done.
  - constructor; rewrite ?Hl'; try done; intros j Hj; rewrite Hs by done; zcase.
    + by apply Hroom1.
    + subst j. rewrite Hnin. by apply ready_not_requested.
    + by apply Hreq1.
  - by rewrite Hm1, Hb, Hwin.
  - eapply copy_room; [done|exact Hq1|done|by rewrite Hm1|lia|lia|done].
  - rewrite Hp', <- Ho, <- Hw, <- !app_assoc. do 2 f_equal. rewrite !app_assoc. do 2 f_equal.
    apply run_of_ext; [lia|lia|]. intros j Hj Hin. unfold data_at. rewrite Hs by done. zcase; [congruence|done].
Qed.

(** The frames handed to the kernel extend the frames to send. *)
Lemma flush_kqueue zs h r fs : tx_ok zs → kqueue (txFrames zs) h r → 0 < txWritten zs →
  (h + r) mod frameNum zs = window_at zs 0 → r + txWritten zs <= frameNum zs → handed zs fs →
  kqueue fs h (r + txWritten zs) ∧
  run_of (frameNum zs) h (r + txWritten zs) (data_at fs) =
    run_of (frameNum zs) h r (data_at (txFrames zs)) ++ pending zs.
Proof.
  intros Hok [Hh Hr Hroom Hreq] Hw Hb Hle Hh0. pose proof Hh0 as [Hlf Hs].
  pose proof (tk_len _ Hok) as Hl. pose proof (tk_size _ Hok) as Hsz. rewrite Hl in *.
  assert (∀ j, 0 <= j < frameNum zs → in_run (frameNum zs) h r j = true → in_window zs j = false) as Hdis.
  { intros j Hj Hin. destruct (in_window zs j) eqn:Ew; [|done]. rewrite <- Hreq in Hin by done.
    pose proof (tk_ready _ Hok j _ ltac:(lia) (slot_lookup (txFrames zs) j ltac:(lia)) Ew) as Hrd.
    apply ready_not_requested in Hrd. congruence. }
  split.
  - constructor; rewrite ?Hlf; [done|lia| |].
    + intros j Hj. rewrite (handed_len zs Hok fs j Hh0 Hj). lia.
    + intros j Hj. rewrite in_run_app, Hb, in_window_run, Hs by (done || lia).
      destruct (in_window zs j); [|by rewrite orb_false_r, Hreq]. rewrite orb_true_r.
      unfold requested, txSet. rewrite set_status_status; [done|by apply Hroom|done].
  - rewrite run_of_app, Hb by lia. f_equal.
    + apply run_of_ext; [lia|lia|]. intros j Hj Hin. unfold data_at. by rewrite Hs, Hdis by done.
    + rewrite <- (handed_pending zs Hok fs Hh0). unfold window_at. rewrite Z.add_0_r, run_of_mod. done.
Qed.

Lemma tx_inv_flush zs h wire copied send st flushed errs zs' fs h' w r : tx_inv (mkTx zs h wire copied) r →
  0 < txWritten zs →
  flush_set (frameNum zs) (txFrames zs) (txWrittenIndex zs) (Z.to_nat (txWritten zs)) = Ret fs →
  krun fs h (send fs) h' w → FlushFrames zs send None st = Ret (flushed, None, errs, zs') →
  ∃ r', tx_inv (mkTx zs' h' (wire ++ w) copied) r'.
Proof.
  intros [Hok Hq Hb Hr Ho] Hw Hfs Hk E. cbn [tr_zs tr_head tr_wire tr_copied] in *.
  assert (txEnabled zs = true) as Hen by (unfold FlushFrames in E; by destruct (txEnabled zs)).
  destruct (flush_hands zs Hok Hw) as (fs0 & E0 & Hh). rewrite Hfs in E0. injection E0 as <-.
  destruct (flush_kqueue zs h r fs Hok Hq Hw Hb Hr Hh) as [Hq1 Hrun1].
  destruct (krun_kqueue _ _ _ _ _ Hk _ Hq1) as (r' & Hq2 & Hr2 & Hm & Hko & Hw2).
  destruct (FlushFrames_queue zs Hok Hen Hw) as (fs1 & Hh1 & Hsend).
  assert (fs1 = fs) as ->.
  { apply slots_ext; [rewrite (proj1 Hh), (proj1 Hh1); done|]. intros i Hi. rewrite (proj1 Hh1) in Hi.
    by rewrite (proj2 Hh), (proj2 Hh1). }
  destruct (Hsend send st Hko) as (fl & er & zs2 & E2 & Ef & _ & Hok' & Hp & En & Ei & Ewr).
  rewrite E in E2. injection E2 as <- <- <-. pose proof (proj1 Hh) as Hlf. pose proof (kernel_ok_len _ _ Hko) as Hls.
  rewrite Hlf in *.
  assert (∀ j, 0 <= j < frameNum zs → slot (txFrames zs') j = txSetMB (slot (send fs) j)) as Hs
    by (intros j Hj; rewrite Ef; apply slot_map; lia).
  assert (len (txFrames zs') = frameNum zs) as Hl' by (rewrite Ef; unfold len in *; rewrite length_map; lia).
  destruct Hq2 as [Hh2 Hr2' Hroom2 Hreq2]. rewrite Hls in *.
  exists r'. constructor; cbn [tr_zs tr_head tr_wire tr_copied]; rewrite ?En, ?Ewr, ?Hp; try done; try lia.
  - constructor; rewrite ?Hl'; try done; intros j Hj; rewrite Hs by done; [by apply Hroom2|by apply Hreq2].
  - rewrite Hm. unfold window_at. rewrite En, Ei, Ewr.
    replace (h + (r + txWritten zs)) with (h + r + txWritten zs) by lia. rewrite <- (Zplus_mod_idemp_l (h + r)), Hb.
    unfold window_at. rewrite Zplus_mod_idemp_l. f_equal. lia.
  - rewrite app_nil_r, <- Ho, <- app_assoc. f_equal. rewrite <- Hrun1, <- Hw2. f_equal.
    apply run_of_ext; [lia|lia|]. intros j Hj _. unfold data_at. by rewrite Hs.
Qed.

Lemma tx_inv_step s s' r : tx_inv s r → tstep s s' → ∃ r', tx_inv s' r'.
Proof.
  intros Hinv Hst. destruct Hst as [zs h wire copied fs' h' w Hk|zs h wire copied buf l fx p evs ys fs h' w i zs' Hp Hpo E
    |zs h wire copied buf l fx ys i e zs' E|zs h wire copied send st fl er zs' fs h' w Hw Hf Hk E
    |zs h wire copied send serr st res zs' Hw E].
  - by eapply tx_inv_kernel.
  - by eapply tx_inv_copy.
  - assert (zs' = zs) as ->; [|by exists r]. unfold CopyToBuffer in E. destruct (negb _); [by injection E as _ _ <-|].
    inv_bind E. destruct a as [[x|j] z1].
    + injection E as _ _ <-. unfold getFreeTx in Hb. destruct (_ =? _); [by injection Hb|].
      inv_bind Hb. inv_bind Hb. cbn [wait_ready] in Hb1. inv_bind Hb1. destruct (txReady a1); [|done].
      injection Hb1 as <-. by inv_bind Hb.
    + inv_bind E. inv_bind E. inv_bind E. destruct a1 as [d n]. inv_bind E. by destruct (_ =? 1).
  - by eapply tx_inv_flush.
  - assert (zs' = zs) as ->; [|by exists r]. pose proof (tk_first _ (ti_ok _ _ Hinv)) as Hf. cbn [tr_zs] in Hf.
    rewrite Hw in Hf. unfold FlushFrames in E. rewrite Hf in E. by destruct (negb _); injection E as _ <-.
Qed.

Lemma tx_inv_reach zs0 s : tx_ok zs0 → txWritten zs0 = 0 →
  (∀ i, 0 <= i < frameNum zs0 → tp_status (slot (txFrames zs0) i) ≠ TP_STATUS_SEND_REQUEST) →
  txreach zs0 s → ∃ r, tx_inv s r.
Proof.
  intros Hok Hw Hno Hr. induction Hr as [|s s' _ [r IH] Hst]; [|by eapply tx_inv_step].
  pose proof (tk_len _ Hok) as Hl. pose proof (tk_index _ Hok) as Hi. pose proof (tk_size _ Hok) as Hsz.
  exists 0. constructor; cbn [tr_zs tr_head tr_wire tr_copied]; [done| | |lia|].
  - constructor; rewrite ?Hl; [done|lia| |].
    + intros i Hi'. by apply slot_room.
    + intros i Hi'. unfold requested. rewrite (proj2 (Z.eqb_neq _ _)) by (by apply Hno). symmetry.
      apply Z.ltb_ge, Z.mod_pos_bound. lia.
  - unfold window_at. rewrite Hw. f_equal. lia.
  - unfold pending, pending_in. by rewrite Hw.
Qed.

(** ** Properties *)

(** C9: the ring is a queue to the wire.  The program copies and flushes packets,
    the kernel sends the frames handed over at any time, during the polls and
    calls of the program and between them.  As long as no system call fails, what
    went out on the wire, then the packets handed over and not yet sent, then
    the packets not yet flushed, are exactly the packets copied: in order, each
    once, none lost or overwritten.  The next packet to go out is at the kernel's
    place in the ring, and when no frame is left to send and none to flush every
    packet is on the wire. *)
Theorem tx_ring_fifo zs0 s
    (Hok : tx_ok zs0) (Hw : txWritten zs0 = 0)
    (Hno : ∀ i, 0 <= i < frameNum zs0 → tp_status (slot (txFrames zs0) i) ≠ TP_STATUS_SEND_REQUEST)
    (Hreach : txreach zs0 s) :
  ∃ asked, tr_wire s ++ asked ++ pending (tr_zs s) = tr_copied s ∧ tx_ok (tr_zs s) ∧
    let f := slot (txFrames (tr_zs s)) (tr_head s) in
    match asked with
    | [] => ∀ i, 0 <= i < frameNum (tr_zs s) → tp_status (slot (txFrames (tr_zs s)) i) ≠ TP_STATUS_SEND_REQUEST
    | p :: _ => tp_status f = TP_STATUS_SEND_REQUEST ∧ frame_data f = p
    end.
Proof.
  destruct (tx_inv_reach zs0 s Hok Hw Hno Hreach) as (r & [Hok' [Hh Hr _ Hreq] _ _ Ho]).
  pose proof (tk_len _ Hok') as Hl. rewrite Hl in *. eexists. split; [exact Ho|]. split; [done|]. cbv zeta.
  destruct (decide (r = 0)) as [->|Hne].
  - cbn [run_of]. intros i Hi E. specialize (Hreq i Hi). unfold requested in Hreq. rewrite E in Hreq. symmetry in Hreq.
    unfold in_run in Hreq. pose proof (Z.mod_pos_bound (i - tr_head s) (frameNum (tr_zs s)) ltac:(lia)). zbool. lia.
  - rewrite run_of_pop by lia. split; [|done]. apply Z.eqb_eq. change (requested (slot (txFrames (tr_zs s)) (tr_head s)) = true).
    rewrite Hreq by lia. unfold in_run. rewrite Z.sub_diag, Z.mod_0_l by lia. apply Z.ltb_lt. lia.
Qed.

(** ** Witness: a packet is copied into the ring of two frames, flushed and sent. *)

Definition ex_send (fs : list ringFrame) : list ringFrame :=
  <[Z.to_nat 0 := set_status TP_STATUS_SENDING (slot fs 0)]> fs.

Definition ex_tx1 : ZSocket :=
  match CopyToBuffer ex_ring [x41; x42] 2 ZRing.copyFx [] [] with Ret (_, _, zs) => zs | _ => ex_ring end.
Definition ex_handed : list ringFrame :=
  match flush_set 2 (txFrames ex_tx1) 0 1 with Ret fs => fs | _ => [] end.
Definition ex_tx2 : ZSocket :=
  match FlushFrames ex_tx1 ex_send None None with Ret (_, zs) => zs | _ => ex_ring end.

Lemma ex_sent : txreach ex_ring (mkTx ex_tx2 1 [[x41; x42]] [[x41; x42]]).
Proof.
  eapply txreach_step; [eapply txreach_step; [apply txreach_init|]|].
  - apply (t_copy ex_ring 0 [] [] [x41; x42] 2 ZRing.copyFx [x41; x42] [] [] (txFrames ex_ring) 0 [] 0 ex_tx1);
      [exact ex_puts|apply polled_ready; vm_compute; reflexivity|vm_compute; reflexivity].
  - apply (t_flush ex_tx1 0 [] [[x41; x42]] ex_send None 1 [] ex_tx2 ex_handed 1 [[x41; x42]]);
      [vm_compute; reflexivity|vm_compute; reflexivity| |vm_compute; reflexivity].
    assert (frame_data (slot ex_handed 0) = [x41; x42]) as <- by (vm_compute; reflexivity).
    apply (krun_cons _ _ (ex_send ex_handed) 1 [frame_data (slot ex_handed 0)] _ _ []); [|apply krun_nil].
    apply (k_send ex_handed 0). vm_compute. reflexivity.
Qed.

Lemma tx_ring_fifo_witness : tx_ok ex_tx2 ∧ pending ex_tx2 = [].
Proof.
  destruct (tx_ring_fifo ex_ring (mkTx ex_tx2 1 [[x41; x42]] [[x41; x42]]) ex_ring_ok eq_refl) as (asked & E & Hok & _).
  - intros i Hi. assert (i = 0 ∨ i = 1) as [-> | ->] by (cbn in Hi; lia); vm_compute; congruence.
  - exact ex_sent.
  - split; [exact Hok|]. cbn [tr_wire tr_copied tr_zs app] in E. injection E as E.
    by apply app_eq_nil in E as [_ E].
Defined.
