(* ===== verification/ZSend.v ===== *)
(** * Sending through the ring (src/zsockif.go)

    The sending half of [zsockIf]: [Send] and [MSend] copy packets into the
    transmit ring, with their Ethernet, IPv4 and UDP headers, and flush it. *)

From Stdlib Require Import Strings.Byte.
From S2P Require Import Prelude.
From S2P Require Import GoBytes.
From S2P Require Import Codec.
From S2P Require Import RawUdp.
From S2P Require Import ZRing.
From S2P Require Import ZRingProps.

(** The struct [zsockIf], with the transmit side of its socket. *)
Record zsockIf : Type := mkZsockIf {
  zi_zs : option ZSocket;
  zi_addr : ZAddr;
  zi_bRead : bool
}.
#[export] Instance zsockIf_eta : Eta zsockIf := λ c, mkZsockIf (zi_zs c) (zi_addr c) (zi_bRead c).

(** An error of the package or of the ring. *)
Inductive ioerror : Type :=
| IOErr (e : error)
| IORing (e : zerror).

(** What the outside does during a send: the polls and the other goroutines
    while a frame is awaited, and [Sendto] with its error. *)
Record send_env : Type := mkSendEnv {
  se_polls : list poll_event;
  se_sched : list (ZSocket → ZSocket);
  se_send : list ringFrame → list ringFrame;
  se_err : option zerror;
  se_stats : option (Z * Z)
}.

Section Send.
Context (CalculateChecksum : list byte → Z).

(** A call of a method of the nil socket panics. *)
Definition the_socket (c : zsockIf) : outcome ZSocket :=
  match zi_zs c with Some zs => Ret zs | None => Panic end.

Definition copy_packet (c : zsockIf) (buf : list byte) (env : send_env) (zs : ZSocket)
    : outcome (Z * option zerror * ZSocket) :=
  CopyToBuffer zs buf (u16 (len buf)) (RawUdp.copyFx CalculateChecksum (zi_addr c))
    (se_polls env) (se_sched env).

(** [Send]: the count and the error. *)
Definition Send (c : zsockIf) (buff : list byte) (env : send_env)
    : outcome (Z * option ioerror * zsockIf) :=
  if zi_bRead c then Ret (0, Some (IOErr errModeRW), c)
  else
    zs ← the_socket c;
    '(_, err, zs) ← copy_packet c buff env zs;
    match err with
    | Some e => Ret (0, Some (IORing e), c <| zi_zs := Some zs |>)
    | None =>
        '(_, err, _, zs) ← FlushFrames zs (se_send env) (se_err env) (se_stats env);
        let c := c <| zi_zs := Some zs |> in
        match err with
        | Some e => Ret (0, Some (IORing e), c)
        | None => Ret (len buff, None, c)
        end
    end.

(** The loop of [MSend]: copy packets until one is refused. *)
Fixpoint MSend_loop (c : zsockIf) (buffs : list (list byte)) (env : send_env) (n : Z) (zs : ZSocket)
    : outcome (Z * ZSocket) :=
  match buffs with
  | [] => Ret (n, zs)
  | buf :: buffs' =>
      '(_, err, zs) ← copy_packet c buf env zs;
      match err with
      | Some _ => Ret (n, zs)
      | None => MSend_loop c buffs' env (n + 1) zs
      end
  end.

Definition MSend (c : zsockIf) (buffs : list (list byte)) (env : send_env)
    : outcome (Z * option ioerror * zsockIf) :=
  if len buffs =? 0 then Ret (0, None, c)
  else
    zs ← the_socket c;
    '(n, zs) ← MSend_loop c buffs env 0 zs;
    if 0 <? n then
      '(_, err, _, zs) ← FlushFrames zs (se_send env) (se_err env) (se_stats env);
      let c := c <| zi_zs := Some zs |> in
      match err with
      | Some e => Ret (0, Some (IORing e), c)
      | None => Ret (n, None, c)
      end
    else Ret (0, None, c <| zi_zs := Some zs |>).
End Send.

(** ** Lemmas *)

Section Lemmas.
Context (CalculateChecksum : list byte → Z) (Hck : checksum_law CalculateChecksum).
Implicit Types (c : zsockIf) (zs : ZSocket) (env : send_env).

(** The packet fits in a frame behind its headers. *)
Definition packet_fits zs (buf : list byte) : Prop := 0 < len buf ∧ 42 + len buf <= txFrameSize zs.

(** Every frame is free, so that no copy waits. *)
Definition all_ready zs : Prop := ∀ i, 0 <= i < frameNum zs → txReady (slot (txFrames zs) i) = true.

Definition frame_of c (buf : list byte) : list byte := raw_frame (zi_addr c) (len buf) buf.

(** The copy function of the interface puts the frame of a packet in a slot. *)
Lemma frame_puts c buf size : wf_addr (zi_addr c) → 0 < len buf → 42 + len buf <= size → size < 65536 →
  puts (RawUdp.copyFx CalculateChecksum (zi_addr c)) buf (u16 (len buf)) size (frame_of c buf).
Proof.
  intros Hc Hpos Hfit Hsz dst Hd. rewrite (u16_small (len buf)) by lia. eexists _, _. split; [split; [by apply copyFx_spec; (done || lia)|]|].
  - split; [|apply u16_range]. unfold len in *. rewrite length_app, length_frame_head, length_go_copy, length_drop by done. lia.
  - rewrite (proj2 (Z.leb_gt (len buf) 0)), u16_small by lia.
    pose proof (length_frame_head (zi_addr c) (len buf) Hc) as Hl.
    unfold frame_of, raw_frame, frame_head in *. rewrite <- !app_assoc in *.
    rewrite !app_assoc. rewrite !app_assoc in Hl. rewrite take_app. f_equal.
    + apply take_ge. lia.
    + rewrite Hl. unfold go_copy. rewrite take_app_le by (rewrite length_take, length_drop; unfold len in *; lia).
      rewrite take_take, take_ge; [done|]. rewrite length_drop. unfold len in *. lia.
Qed.

(** Copying a packet that fits enqueues its frame. *)
Lemma copy_packet_ok c buf env zs : wf_addr (zi_addr c) → tx_ok zs → txEnabled zs = true →
  txWritten zs < frameNum zs → packet_fits zs buf →
  Forall (λ ev, ∀ fs, kernel_ok fs (pe_mem ev fs)) (se_polls env) →
  becomes_ready (txFrames zs) (txIndex zs) (se_polls env) = true →
  ∃ i zs', copy_packet CalculateChecksum c buf env zs = Ret (i, None, zs') ∧ tx_ok zs' ∧
    pending zs' = pending zs ++ [frame_of c buf] ∧ grown zs zs'.
Proof.
  intros Hc Hok Hen Hroom [Hpos Hfit] Hk Hb. destruct (tk_size _ Hok). unfold copy_packet.
  pose proof (frame_puts c buf (txFrameSize zs) Hc Hpos Hfit ltac:(lia)) as Hputs.
  destruct (CopyToBuffer_queue zs buf (u16 (len buf)) (RawUdp.copyFx CalculateChecksum (zi_addr c))
    (se_polls env) (se_sched env)) as (zs' & dst & dst' & n & E & (Efx & _ & _) & Hd & Hok' & Hp & Hg); [done..| |].
  { intros dst Hd. destruct (Hputs dst Hd) as (d & m & ? & _). by exists d, m. }
  exists (txIndex zs), zs'. split; [done|]. split; [done|]. split; [|done]. rewrite Hp. do 2 f_equal.
  destruct (Hputs dst Hd) as (d & m & (F & _) & <-). rewrite Efx in F. by injection F as -> ->.
Qed.

Lemma ready_now zs evs : tx_ok zs → all_ready zs → becomes_ready (txFrames zs) (txIndex zs) evs = true.
Proof. intros Hok Hr. destruct evs; cbn [becomes_ready]; rewrite Hr by apply Hok; done. Qed.

Lemma MSend_loop_ok c env buffs : wf_addr (zi_addr c) →
  Forall (λ ev, ∀ fs, kernel_ok fs (pe_mem ev fs)) (se_polls env) →
  ∀ n zs, tx_ok zs → txEnabled zs = true → all_ready zs →
  txWritten zs + len buffs <= frameNum zs → Forall (packet_fits zs) buffs →
  ∃ zs', MSend_loop CalculateChecksum c buffs env n zs = Ret (n + len buffs, zs') ∧ tx_ok zs' ∧
    txEnabled zs' = true ∧ txWritten zs' = txWritten zs + len buffs ∧
    pending zs' = pending zs ++ map (frame_of c) buffs.
Proof.
  intros Hc Hk. induction buffs as [|buf buffs IH]; intros n zs Hok Hen Hr Hroom Hfit.
  { exists zs. change (len (@nil (list byte))) with 0. rewrite !Z.add_0_r, app_nil_r. done. }
  rewrite len_cons in Hroom. pose proof (len_nonneg buffs). apply Forall_cons in Hfit as [Hf Hfit].
  cbn [MSend_loop]. destruct (copy_packet_ok c buf env zs) as (i & zs1 & -> & Hok1 & Hp1 & Hg);
    [done..|lia|done|done|by apply ready_now|]. cbn [mbind outcome_mbind].
  destruct Hg as (En & Es & Ee & Ew & Hrd).
  destruct (IH (n + 1) zs1) as (zs' & -> & Hok' & Hen' & Hw' & Hp'); [done|congruence| |lia| |].
  { intros j Hj. rewrite En in Hj. apply Hrd; [done|]. by apply Hr. }
  { eapply Forall_impl; [done|]. intros b [H1 H2]. split; [done|]. by rewrite Es. }
  exists zs'. rewrite len_cons. split; [f_equal; f_equal; lia|]. split; [done|]. split; [done|]. split; [lia|].
  rewrite Hp', Hp1, <- app_assoc. done.
Qed.
End Lemmas.

(** ** Properties *)

(** Sending a datagram.  When the next frame is free (or becomes free) and
    the payload fits, [Send] hands the kernel the waiting packets followed by
    the datagram in its Ethernet, IPv4 and UDP frame, each in a frame marked
    SEND_REQUEST, returns the payload's length, and leaves an empty queue. *)
Lemma Send_transmits CalculateChecksum c buff env zs
    (Hck : checksum_law CalculateChecksum) (Hzs : zi_zs c = Some zs) (Hmode : zi_bRead c = false)
    (Hc : wf_addr (zi_addr c)) (Hok : tx_ok zs) (Hen : txEnabled zs = true)
    (Hroom : txWritten zs < frameNum zs) (Hfit : packet_fits zs buff)
    (Hpolls : Forall (λ ev, ∀ fs, kernel_ok fs (pe_mem ev fs)) (se_polls env))
    (Hfree : becomes_ready (txFrames zs) (txIndex zs) (se_polls env) = true)
    (Hker : ∀ fs, kernel_ok fs (se_send env fs)) (Herr : se_err env = None) :
  ∃ zs1 fs zs', pending zs1 = pending zs ++ [frame_of c buff] ∧ handed zs1 fs ∧
    Send CalculateChecksum c buff env = Ret (len buff, None, c <| zi_zs := Some zs' |>) ∧
    txFrames zs' = map txSetMB (se_send env fs) ∧ tx_ok zs' ∧ pending zs' = [].
Proof.
  destruct (copy_packet_ok CalculateChecksum Hck c buff env zs) as (i & zs1 & E1 & Hok1 & Hp1 & Hg); [done..|].
  destruct Hg as (En & Es & Ee & Ew & _). pose proof (tk_written _ Hok).
  destruct (FlushFrames_queue zs1 Hok1) as (fs & Hh & Hsend); [congruence|lia|].
  destruct (Hsend (se_send env) (se_stats env) (Hker fs)) as (fl & errs & zs' & E2 & Hf & _ & Hok' & Hp' & _).
  exists zs1, fs, zs'. split; [done|]. split; [done|]. split; [|done].
  unfold Send, the_socket. rewrite Hmode, Hzs. cbn [mbind outcome_mbind]. rewrite E1. cbn [mbind outcome_mbind].
  rewrite Herr, E2. done.
Qed.

(** C26: sending a batch.  When all frames of the ring are free and the batch
    fits, [MSend] enqueues the datagrams in order, hands exactly their frames to
    the kernel after whatever was waiting, and returns their number. *)
Theorem MSend_transmits CalculateChecksum c buffs env zs
    (Hck : checksum_law CalculateChecksum) (Hzs : zi_zs c = Some zs)
    (Hc : wf_addr (zi_addr c)) (Hok : tx_ok zs) (Hen : txEnabled zs = true)
    (Hne : 0 < len buffs) (Hroom : txWritten zs + len buffs <= frameNum zs)
    (Hfit : Forall (packet_fits zs) buffs) (Hready : all_ready zs)
    (Hpolls : Forall (λ ev, ∀ fs, kernel_ok fs (pe_mem ev fs)) (se_polls env))
    (Hker : ∀ fs, kernel_ok fs (se_send env fs)) (Herr : se_err env = None) :
  ∃ zs1 fs zs', pending zs1 = pending zs ++ map (frame_of c) buffs ∧ handed zs1 fs ∧
    MSend CalculateChecksum c buffs env = Ret (len buffs, None, c <| zi_zs := Some zs' |>) ∧
    txFrames zs' = map txSetMB (se_send env fs) ∧ tx_ok zs' ∧ pending zs' = [].
Proof.
  destruct (MSend_loop_ok CalculateChecksum Hck c env buffs Hc Hpolls 0 zs) as (zs1 & E1 & Hok1 & Hen1 & Hw1 & Hp1); [done..|].
  pose proof (tk_written _ Hok).
  destruct (FlushFrames_queue zs1 Hok1) as (fs & Hh & Hsend); [done|lia|].
  destruct (Hsend (se_send env) (se_stats env) (Hker fs)) as (fl & errs & zs' & E2 & Hf & _ & Hok' & Hp' & _).
  exists zs1, fs, zs'. split; [done|]. split; [done|]. split; [|done].
  unfold MSend, the_socket. rewrite (proj2 (Z.eqb_neq (len buffs) 0)) by lia. rewrite Hzs.
  cbn [mbind outcome_mbind]. rewrite E1. cbn [mbind outcome_mbind].
  rewrite Z.add_0_l, (proj2 (Z.ltb_lt 0 (len buffs))) by lia. rewrite Herr, E2. done.
Qed.

(** ** Witnesses *)

Definition ex_zif : zsockIf := mkZsockIf (Some ex_ring) ex_zaddr false.
Definition ex_env : send_env := mkSendEnv [] [] id None None.

Lemma MSend_transmits_witness :
  ∃ zs', MSend ex_checksum ex_zif [[x41; x42]; [x43]] ex_env = Ret (2, None, ex_zif <| zi_zs := Some zs' |>).
Proof.
  destruct (MSend_transmits ex_checksum ex_zif [[x41; x42]; [x43]] ex_env ex_ring ex_checksum_law) as (zs1 & fs & zs' & _ & _ & E & _);
    [reflexivity|vm_compute; intuition congruence|exact ex_ring_ok|reflexivity|reflexivity|vm_compute; congruence
    | | |constructor|exact kernel_ok_refl|reflexivity|].
  - repeat constructor; vm_compute; congruence.
  - intros i Hi. cbn in Hi. assert (i = 0 ∨ i = 1) as [-> | ->] by lia; vm_compute; reflexivity.
  - exists zs'. exact E.
Defined.
