(* ===== verification/ZRx.v ===== *)
(** * The receive ring (src/zsocket.go)

    The receiving side of [ZSocket]: blocks of packets (TPACKET_V3,
    [walkBlock], [listenV3]) and single frames (V1, [listenV1]).  A listener is
    an endless loop; its body is one function whose arguments are what [Poll]
    returns.  The calls of the callback are the result, in order. *)

From Stdlib Require Import Strings.Byte.
From S2P Require Import Prelude.
From S2P Require Import GoBytes.
From S2P Require Import ZRing.

(** ** Block and packet headers

    [struct block_desc] and [struct tpacket3_hdr] as Linux lays them out. *)

Definition block_status (bd : list byte) : Z := hdr_get 8 4 bd.
Definition num_pkts (bd : list byte) : Z := hdr_get 12 4 bd.
Definition offset_to_first_pkt (bd : list byte) : Z := hdr_get 16 4 bd.
Definition set_block_status (v : Z) (bd : list byte) : list byte := hdr_set 8 4 v bd.

Definition tp3_next_offset (rf : list byte) : Z := hdr_get 0 4 rf.
Definition tp3_snaplen (rf : list byte) : Z := hdr_get 12 4 rf.
Definition tp3_len (rf : list byte) : Z := hdr_get 16 4 rf.
Definition tp3_mac (rf : list byte) : Z := hdr_get 24 2 rf.

(** A call of the callback: the octets from the packet on, [tpLen], [tpSnapLen]. *)
Abbreviation callback := (list byte * Z * Z)%type.

(** ** Blocks *)

(** The loop of [walkBlock]: index, offset, calls so far. *)
Definition walk_body (bd : list byte) (blockSize : Z) (s : Z * Z * list callback)
    : outcome ((Z * Z * list callback) + list callback) :=
  let '(i, offs, cbs) := s in
  if i <? num_pkts bd then
    _ ← idx bd offs;
    rf ← slice offs (len bd) bd;
    if tp3_len rf =? 0 then Ret (inr cbs)
    else
      f ← slice (tp3_mac rf) (len rf) rf;
      let cbs := cbs ++ [(f, u16 (tp3_len rf), u16 (tp3_snaplen rf))] in
      if tp3_next_offset rf =? 0 then Ret (inr cbs)
      else
        let offs := offs + tp3_next_offset rf in
        if blockSize <=? offs then Ret (inr cbs) else Ret (inl (i + 1, offs, cbs))
  else Ret (inr cbs).

(** [walkBlock]: the calls, and the block afterwards. *)
Definition walkBlock (bd : list byte) (blockSize : Z) : outcome (list callback * list byte) :=
  cbs ← for_loop go_fuel (walk_body bd blockSize) (0, offset_to_first_pkt bd, []);
  Ret (cbs, set_block_status TP_STATUS_KERNEL bd).

(** ** The socket *)

Record RxSocket : Type := mkRxSocket {
  rx_Packets : Z;
  rx_Polls : Z;
  numBlocks : Z;
  blockSize : Z;
  rx_raw : list byte;
  listening : bool;
  rx_version3 : bool;
  rx_frameNum : Z;
  rxEnabled : bool;
  rxFrames : list ringFrame
}.
#[export] Instance RxSocket_eta : Eta RxSocket := λ z,
  mkRxSocket (rx_Packets z) (rx_Polls z) (numBlocks z) (blockSize z) (rx_raw z) (listening z)
    (rx_version3 z) (rx_frameNum z) (rxEnabled z) (rxFrames z).

(** What one turn of a listener does: go on at an index, or return an error;
    and the calls it made. *)
Abbreviation turn := (outcome (RxSocket * (Z + zerror) * list callback)).

(** One turn of [listenV3] at block [bdIndex]; [n] and [e] are the results of
    [Poll].  [Poll] does not write [revents] back, so its test never holds. *)
Definition listenV3_turn (zs : RxSocket) (bdIndex : Z) (n : Z) (e : option zerror) : turn :=
  let offs := bdIndex * blockSize zs in
  bd ← slice offs (offs + blockSize zs) (rx_raw zs);
  if Z.land (block_status bd) TP_STATUS_USER =? 0 then
    let zs := zs <| rx_Polls := i64 (rx_Polls zs + 1) |> in
    if n =? 0 then Ret (zs, inl bdIndex, [])
    else
      match e with
      | Some e => Ret (zs, inr e, [])
      | None => Ret (zs, inl bdIndex, [])
      end
  else
    '(cbs, bd) ← walkBlock bd (blockSize zs);
    raw ← with_slice offs (offs + blockSize zs) (rx_raw zs) (λ _, Ret bd);
    let zs := zs <| rx_raw := raw |> <| rx_Packets := i64 (rx_Packets zs + len cbs) |> in
    if numBlocks zs =? 0 then Panic
    else Ret (zs, inl (Z.rem (bdIndex + 1) (numBlocks zs)), cbs).

(** One turn of [listenV1] at frame [rxIndex]: a frame that is ready, or a poll. *)
Definition listenV1_turn (zs : RxSocket) (rxIndex : Z) (e : option zerror) : turn :=
  rf ← idx (rxFrames zs) rxIndex;
  let '(ok, rf) := rxReady rf in
  if ok : bool then
    f ← slice (macStart rf) (len (raw rf)) (raw rf);
    let cb := (f, tpLen rf, tpSnapLen rf) in
    let zs := zs <| rx_Packets := i64 (rx_Packets zs + 1) |> in
    fs ← set_idx (rxFrames zs) rxIndex (rxSet rf);
    let zs := zs <| rxFrames := fs |> in
    nxt ← next_index (rx_frameNum zs) rxIndex;
    Ret (zs, inl nxt, [cb])
  else
    let zs := zs <| rx_Polls := i64 (rx_Polls zs + 1) |> in
    match e with
    | Some e => Ret (zs, inr e, [])
    | None => Ret (zs, inl rxIndex, [])
    end.

(** A turn of the listener the version asks for; [n] and [e] are the results of
    [Poll]. *)
Definition listen_turn (zs : RxSocket) (i n : Z) (e : option zerror) : turn :=
  if rx_version3 zs then listenV3_turn zs i n e else listenV1_turn zs i e.

(** [Listen] up to its loop: refused, or started at index 0. *)
Definition Listen (zs : RxSocket) : RxSocket * option zerror :=
  if negb (rxEnabled zs) then (zs, Some zRxDisabled)
  else if listening zs then (zs, Some zListening)
  else (zs <| listening := true |>, None).

(** ** Specification of blocks *)

(** The packets a well-formed block holds: [n] headers chained by their next
    offsets from [offs] on, inside the block, with a packet each; the last one
    may end the chain with offset 0. *)
Inductive chain (bd : list byte) (size : Z) : Z → nat → list callback → Prop :=
| chain_nil offs : chain bd size offs 0 []
| chain_cons offs n rf cb cbs :
    0 <= offs < len bd → rf = drop (Z.to_nat offs) bd →
    tp3_len rf ≠ 0 → tp3_mac rf <= len rf →
    cb = (drop (Z.to_nat (tp3_mac rf)) rf, u16 (tp3_len rf), u16 (tp3_snaplen rf)) →
    (n = 0%nat ∨ (tp3_next_offset rf ≠ 0 ∧ offs + tp3_next_offset rf < size)) →
    chain bd size (offs + tp3_next_offset rf) n cbs →
    chain bd size offs (S n) (cb :: cbs).

(** ** Lemmas *)

Lemma hdr_get_range off w l : 0 <= hdr_get off w l < 2 ^ (8 * Z.of_nat w).
Proof.
  unfold hdr_get, le_get. pose proof (be_get_range (rev (take w (drop off l)))) as H.
  split; [lia|]. eapply Z.lt_le_trans; [apply H|]. apply Z.pow_le_mono_r; [lia|].
  unfold len. rewrite length_rev, length_take. lia.
Qed.

Lemma slice_tail {A} lo (l : list A) : 0 <= lo <= len l → slice lo (len l) l = Ret (drop (Z.to_nat lo) l).
Proof.
  intros H. rewrite (slice_Ret lo) by lia. f_equal. apply take_ge. rewrite length_drop. unfold len. lia.
Qed.

Lemma walk_chain bd size cbs n : chain bd size (offset_to_first_pkt bd) n cbs →
  Z.of_nat n = num_pkts bd → walkBlock bd size = Ret (cbs, set_block_status TP_STATUS_KERNEL bd).
Proof.
  intros Hchain Hn. unfold walkBlock.
  destruct (for_loop_spec (walk_body bd size)
    (λ '(i, offs, acc), ∃ k rest, chain bd size offs k rest ∧ i + Z.of_nat k = num_pkts bd ∧ acc ++ rest = cbs)
    (λ r, r = cbs) (λ '(i, _, _), num_pkts bd - i) go_fuel (0, offset_to_first_pkt bd, []))
    as (r & -> & ->); [| | | |done].
  - intros [[i offs] acc] (k & rest & Hc & Hk & Hacc). cbn [walk_body].
    destruct Hc as [offs|offs k rf cb rest Hoffs Hrf Hlen Hmac Hcb Hnext Hc].
    { right. exists acc. rewrite (proj2 (Z.ltb_ge i (num_pkts bd))) by lia. split; [done|]. by rewrite app_nil_r in Hacc. }
    rewrite (proj2 (Z.ltb_lt i (num_pkts bd))) by lia.
    destruct (lookup_lt_is_Some_2 bd (Z.to_nat offs)) as [x Hx]; [unfold len in *; lia|].
    rewrite (idx_lookup bd offs x) by (done || lia). cbn [mbind outcome_mbind].
    rewrite slice_tail by lia. cbn [mbind outcome_mbind]. rewrite <- Hrf.
    rewrite (proj2 (Z.eqb_neq (tp3_len rf) 0)) by done.
    pose proof (hdr_get_range 24 2 rf) as Hm. fold (tp3_mac rf) in Hm.
    rewrite slice_tail by lia. cbn [mbind outcome_mbind]. rewrite <- Hcb.
    assert (tp3_next_offset rf = 0 ∨ size <= offs + tp3_next_offset rf → acc ++ [cb] = cbs) as Hend.
    { intros Hor. destruct Hnext as [->|[Hnz Hlt]]; [|lia]. by inversion Hc; subst. }
    destruct (tp3_next_offset rf =? 0) eqn:E; zbool; [right; eexists; split; [done|]; apply Hend; by left|].
    destruct (size <=? _) eqn:E'; zbool; [right; eexists; split; [done|]; apply Hend; by right|].
    left. eexists. split; [done|]. split; [|lia]. exists k, rest. split; [done|]. split; [lia|].
    by rewrite <- app_assoc.
  - intros [[i offs] acc] (k & rest & _ & Hk & _). lia.
  - by exists n, cbs.
  - pose proof (hdr_get_range 12 4 bd) as Hr. fold (num_pkts bd) in Hr. change (8 * Z.of_nat 4) with 32 in Hr.
    unfold go_fuel. lia.
Qed.

(** ** Single frames *)

(** The call a frame gives rise to. *)
Definition frame_call (f : ringFrame) : callback :=
  (drop (Z.to_nat (macStart f)) (raw f), tpLen f, tpSnapLen f).

Definition rx_frame_ok (f : ringFrame) : Prop :=
  mb f = 0 ∧ sizeof_tpacket_hdr <= len (raw f) ∧ macStart f <= len (raw f).

Definition has_packet (f : ringFrame) : bool := Z.land (tp_status f) TP_STATUS_USER =? TP_STATUS_USER.

(** The listener at frame [i] between two turns: no frame is being read. *)
Record rx_ok (zs : RxSocket) (i : Z) : Prop := {
  rk_num : 0 < rx_frameNum zs < 2147483648;
  rk_len : len (rxFrames zs) = rx_frameNum zs;
  rk_frames : ∀ j, 0 <= j < rx_frameNum zs → rx_frame_ok (slot (rxFrames zs) j);
  rk_index : 0 <= i < rx_frameNum zs
}.

Lemma rxSet_ok f : rx_frame_ok f → rx_frame_ok (rxSet f) ∧ tp_status (rxSet f) = TP_STATUS_KERNEL.
Proof.
  intros (Hm & Hl & Hmac). change sizeof_tpacket_hdr with 32 in Hl. unfold len in *.
  unfold rx_frame_ok, macStart, tp_status, rxSet, set_status in *. cbn [raw mb update].
  change sizeof_tpacket_hdr with 32. unfold len.
  rewrite length_hdr_set, hdr_get_set_after, hdr_get_set by lia. done.
Qed.

Lemma listenV1_turn_ready zs i e : rx_ok zs i → has_packet (slot (rxFrames zs) i) = true →
  ∃ p, listenV1_turn zs i e =
    Ret (zs <| rx_Packets := p |> <| rxFrames := <[Z.to_nat i := rxSet (slot (rxFrames zs) i)]> (rxFrames zs) |>,
         inl (if i + 1 =? rx_frameNum zs then 0 else i + 1), [frame_call (slot (rxFrames zs) i)]).
Proof.
  intros [Hn Hl Hf Hi] Hp. unfold listenV1_turn. rewrite idx_slot by lia. cbn [mbind outcome_mbind].
  destruct (Hf i Hi) as (Hm & Hlen & Hmac). unfold rxReady. unfold has_packet in Hp. rewrite Hp.
  unfold cas_mb. rewrite Hm. cbn [Z.eqb]. set (f := slot (rxFrames zs) i) in *.
  change (macStart f <| mb := 1 |>) with (macStart f). change (raw f <| mb := 1 |>) with (raw f).
  rewrite slice_tail by (pose proof (u16_range (hdr_get 16 2 (raw f))); unfold macStart in *; lia).
  cbn [mbind outcome_mbind rxFrames update]. rewrite set_idx_ok by lia. cbn [mbind outcome_mbind rx_frameNum update].
  rewrite next_index_ok by lia. cbn [mbind outcome_mbind]. by eexists.
Qed.

(** ** Properties *)

(** A block is delivered packet by packet.  On a block whose headers are
    chained as the kernel chains them, [walkBlock] calls the callback once per
    packet, in order, with the octets from the packet on and the packet's two
    lengths, and then gives the block back to the kernel, changing nothing else
    in it. *)
Lemma walkBlock_delivers bd size n cbs
    (Hchain : chain bd size (offset_to_first_pkt bd) n cbs)
    (Hn : Z.of_nat n = num_pkts bd) (Hlen : 12 <= len bd) :
  ∃ bd', walkBlock bd size = Ret (cbs, bd') ∧ len cbs = num_pkts bd ∧
    block_status bd' = TP_STATUS_KERNEL ∧ len bd' = len bd ∧
    take 8 bd' = take 8 bd ∧ drop 12 bd' = drop 12 bd.
Proof.
  eexists. split; [by eapply walk_chain|]. split.
  { rewrite <- Hn. unfold len. f_equal. clear Hn Hlen. generalize dependent (offset_to_first_pkt bd).
    intros offs Hc. induction Hc; cbn; congruence. }
  unfold block_status, set_block_status, len in *.
  rewrite hdr_get_set, length_hdr_set, take_hdr_set, drop_hdr_set by lia. done.
Qed.

(** One turn of the V3 listener.  On a block the kernel has handed over, the
    turn delivers its packets in order, gives the block back (its status word is
    cleared, every other octet of the mapping stays) and goes on to the next
    block, around the ring.  On a block the kernel still owns it only polls, and
    returns only with an error of a poll that did not time out. *)
Lemma listenV3_turn_block zs b n e k cbs
    (Hb : 0 <= b < numBlocks zs) (Hsize : 48 <= blockSize zs)
    (Hmap : len (rx_raw zs) = numBlocks zs * blockSize zs) :
  let offs := b * blockSize zs in
  let bd := take (Z.to_nat (blockSize zs)) (drop (Z.to_nat offs) (rx_raw zs)) in
  (Z.land (block_status bd) TP_STATUS_USER ≠ 0 →
   chain bd (blockSize zs) (offset_to_first_pkt bd) k cbs → Z.of_nat k = num_pkts bd →
   ∃ zs', listenV3_turn zs b n e =
       Ret (zs', inl (if b + 1 =? numBlocks zs then 0 else b + 1), cbs) ∧
     rx_raw zs' = take (Z.to_nat offs) (rx_raw zs) ++ set_block_status TP_STATUS_KERNEL bd ++
       drop (Z.to_nat (offs + blockSize zs)) (rx_raw zs)) ∧
  (Z.land (block_status bd) TP_STATUS_USER = 0 →
   ∃ zs', listenV3_turn zs b n e =
       Ret (zs', match e with
                 | Some e => if n =? 0 then inl b else inr e
                 | None => inl b
                 end, []) ∧
     rx_raw zs' = rx_raw zs).
Proof.
  cbv zeta. unfold listenV3_turn. rewrite (slice_Ret (b * blockSize zs)) by nia.
  replace (b * blockSize zs + blockSize zs - b * blockSize zs) with (blockSize zs) by lia.
  cbn [mbind outcome_mbind]. set (bd := take (Z.to_nat (blockSize zs)) _). split.
  - intros Hu Hc Hk. rewrite (proj2 (Z.eqb_neq _ 0)) by done.
    rewrite (walk_chain _ _ _ _ Hc Hk). cbn [mbind outcome_mbind].
    unfold with_slice. rewrite (slice_Ret (b * blockSize zs)) by nia. cbn [mbind outcome_mbind numBlocks update].
    rewrite (proj2 (Z.eqb_neq (numBlocks zs) 0)) by lia.
    assert (Z.rem (b + 1) (numBlocks zs) = if b + 1 =? numBlocks zs then 0 else b + 1) as ->.
    { zcase; [rewrite E; apply Z.rem_same; lia|apply Z.rem_small; lia]. }
    eexists. split; reflexivity.
  - intros Hu. rewrite (proj2 (Z.eqb_eq _ 0)) by done.
    destruct (n =? 0), e; eexists; (split; [reflexivity|done]).
Qed.

(** One listener.  [Listen] starts only on a socket with a receive ring that
    nobody listens on, and after it has started every further call is refused. *)
Lemma Listen_once zs :
  match Listen zs with
  | (zs', None) => rxEnabled zs = true ∧ listening zs = false ∧
      Listen zs' = (zs', Some zListening)
  | (zs', Some e) => zs' = zs ∧ (e = zRxDisabled ∧ rxEnabled zs = false ∨ e = zListening ∧ listening zs = true)
  end.
Proof.
  unfold Listen. destruct (rxEnabled zs) eqn:E1; cbn [negb]; [|by split; [|left]].
  destruct (listening zs) eqn:E2; [by split; [|right]|]. cbn [rxEnabled listening update]. by rewrite E1.
Qed.

(** ** Witnesses *)

(** A block with one packet of three octets at offset 48, its payload 82 octets
    into the packet area. *)
Definition ex_block : list byte :=
  le_put 4 1 ++ le_put 4 0 ++ le_put 4 1 ++ le_put 4 1 ++ le_put 4 48 ++ replicate 28 x00 ++
  (le_put 4 0 ++ replicate 8 x00 ++ le_put 4 3 ++ le_put 4 3 ++ le_put 4 1 ++ le_put 2 32 ++ replicate 6 x00 ++
   [x41; x42; x43]).

Lemma ex_chain : chain ex_block 83 (offset_to_first_pkt ex_block) 1 [([x41; x42; x43], 3, 3)].
Proof.
  change (offset_to_first_pkt ex_block) with 48.
  apply (chain_cons ex_block 83 48 0 (drop 48 ex_block)); try (vm_compute; intuition congruence).
  constructor.
Qed.
