(* ===== verification/ZRxRun.v ===== *)
(** * The receive ring and the kernel (src/zsocket.go)

    The listener of the ring and the kernel as one transition system, for both
    versions of the ring.  A unit of the ring is a frame (V1) or a block (V3).
    The kernel fills the units in ring order, and only units it owns (packet(7),
    packet_mmap); the listener takes them in ring order and gives them back. *)

From Stdlib Require Import Strings.Byte.
From S2P Require Import Prelude.
From S2P Require Import GoBytes.
From S2P Require Import ZRing.
From S2P Require Import ZRx.

(** ** Blocks of the mapping *)

Definition block (size : Z) (raw : list byte) (j : Z) : list byte :=
  take (Z.to_nat size) (drop (Z.to_nat (j * size)) raw).

Definition put_block (size : Z) (raw : list byte) (j : Z) (bd : list byte) : list byte :=
  take (Z.to_nat (j * size)) raw ++ bd ++ drop (Z.to_nat (j * size + size)) raw.

Section Blocks.
Context (n size : Z) (raw bd : list byte) (j : Z).
Context (Hsize : 0 <= size) (Hraw : len raw = n * size) (Hbd : len bd = size) (Hj : 0 <= j < n).

Lemma length_block : len (block size raw j) = size.
Proof. unfold block, len in *. rewrite length_take, length_drop. nia. Qed.

Lemma length_put_block : len (put_block size raw j bd) = len raw.
Proof. unfold put_block, len in *. rewrite !length_app, length_take, length_drop. nia. Qed.

Lemma block_put i : 0 <= i < n → block size (put_block size raw j bd) i = if i =? j then bd else block size raw i.
Proof.
  intros Hi. unfold len in *.
  assert (length (take (Z.to_nat (j * size)) raw) = Z.to_nat (j * size)) as Ht by (rewrite length_take; nia).
  unfold block, put_block. destruct (Z.lt_total i j) as [Hlt|[->|Hgt]].
  - rewrite (proj2 (Z.eqb_neq i j)) by lia. rewrite drop_app_le by (rewrite Ht; nia).
    rewrite take_app_le by (rewrite length_drop, Ht; nia). rewrite skipn_firstn_comm, take_take. f_equal. nia.
  - rewrite Z.eqb_refl, drop_app_length' by done. apply take_app_length'. lia.
  - rewrite (proj2 (Z.eqb_neq i j)) by lia. rewrite app_assoc, drop_app_ge by (rewrite length_app, Ht; nia).
    rewrite length_app, Ht, drop_drop. do 2 f_equal. nia.
Qed.
End Blocks.

(** ** Units of the ring *)

Definition units (zs : RxSocket) : Z := if rx_version3 zs then numBlocks zs else rx_frameNum zs.

(** The unit belongs to the program. *)
Definition unit_full (zs : RxSocket) (j : Z) : bool :=
  if rx_version3 zs
  then negb (Z.land (block_status (block (blockSize zs) (rx_raw zs) j)) TP_STATUS_USER =? 0)
  else has_packet (slot (rxFrames zs) j).

(** The calls of the callback the unit stands for. *)
Definition unit_calls (zs : RxSocket) (j : Z) : list callback :=
  if rx_version3 zs
  then match walkBlock (block (blockSize zs) (rx_raw zs) j) (blockSize zs) with
       | Ret (cbs, _) => cbs
       | _ => []
       end
  else [frame_call (slot (rxFrames zs) j)].

(** A block the kernel has closed. *)
Definition closed_block (size : Z) (bd : list byte) (cbs : list callback) : Prop :=
  len bd = size ∧ Z.land (block_status bd) TP_STATUS_USER ≠ 0 ∧
  ∃ k, chain bd size (offset_to_first_pkt bd) k cbs ∧ Z.of_nat k = num_pkts bd.

Definition units_ok (zs : RxSocket) : Prop :=
  if rx_version3 zs then
    0 < numBlocks zs ∧ 48 <= blockSize zs ∧ len (rx_raw zs) = numBlocks zs * blockSize zs ∧
    ∀ j, 0 <= j < numBlocks zs → unit_full zs j = true →
      ∃ cbs, closed_block (blockSize zs) (block (blockSize zs) (rx_raw zs) j) cbs
  else rx_ok zs 0.

(** The kernel fills unit [j], which it owns, with packets. *)
Inductive kernel_fills (zs : RxSocket) (j : Z) : RxSocket → list callback → Prop :=
| fill_frame f : rx_version3 zs = false → tp_status (slot (rxFrames zs) j) = TP_STATUS_KERNEL →
    rx_frame_ok f → has_packet f = true →
    kernel_fills zs j (zs <| rxFrames := <[Z.to_nat j := f]> (rxFrames zs) |>) [frame_call f]
| fill_block bd cbs : rx_version3 zs = true →
    Z.land (block_status (block (blockSize zs) (rx_raw zs) j)) TP_STATUS_USER = 0 →
    closed_block (blockSize zs) bd cbs →
    kernel_fills zs j (zs <| rx_raw := put_block (blockSize zs) (rx_raw zs) j bd |>) cbs.

(** [zs'] is [zs] but for unit [j], which is full exactly when [b] is true. *)
Record unit_set (zs : RxSocket) (j : Z) (b : bool) (zs' : RxSocket) : Prop := {
  us_ok : units_ok zs';
  us_units : units zs' = units zs;
  us_full i : 0 <= i < units zs → unit_full zs' i = if i =? j then b else unit_full zs i;
  us_calls i : 0 <= i < units zs → i ≠ j → unit_calls zs' i = unit_calls zs i
}.

Lemma units_pos zs : units_ok zs → 0 < units zs.
Proof. unfold units_ok, units. destruct (rx_version3 zs); [tauto|]. intros [? _ _ _]. lia. Qed.

(** ** Frames *)

Lemma set_frame zs j f : rx_version3 zs = false → rx_ok zs 0 → 0 <= j < rx_frameNum zs → rx_frame_ok f →
  unit_set zs j (has_packet f) (zs <| rxFrames := <[Z.to_nat j := f]> (rxFrames zs) |>).
Proof.
  intros Hv [Hn Hl Hf Hi] Hj Hok. split; unfold units_ok, units, unit_full, unit_calls;
    cbn [rx_version3 rx_frameNum rxFrames update]; rewrite Hv.
  - constructor; cbn [rx_frameNum rxFrames update]; [done|by rewrite len_insert| |done].
    intros i Hi'. rewrite slot_insert by lia. zcase; [done|by apply Hf].
  - done.
  - intros i Hi'. rewrite slot_insert by lia. by zcase.
  - intros i Hi' Hne. rewrite slot_insert by lia. by rewrite (proj2 (Z.eqb_neq i j)).
Qed.

Lemma has_packet_kernel f : tp_status f = TP_STATUS_KERNEL → has_packet f = false.
Proof. unfold has_packet. by intros ->. Qed.

(** ** Blocks *)

Lemma set_block zs j bd b : rx_version3 zs = true → units_ok zs → 0 <= j < numBlocks zs →
  len bd = blockSize zs → negb (Z.land (block_status bd) TP_STATUS_USER =? 0) = b →
  (b = true → ∃ cbs, closed_block (blockSize zs) bd cbs) →
  unit_set zs j b (zs <| rx_raw := put_block (blockSize zs) (rx_raw zs) j bd |>).
Proof.
  unfold units_ok. intros Hv Hok Hj Hbd Hb Hc. rewrite Hv in Hok. destruct Hok as (Hn & Hs & Hr & Hcl).
  unfold unit_full in Hcl. rewrite Hv in Hcl.
  split; unfold units_ok, units, unit_full, unit_calls; cbn [rx_version3 numBlocks blockSize rx_raw update]; rewrite Hv.
  - split_and!; [done|done|by rewrite length_put_block with (n := numBlocks zs) by lia|].
    intros i Hi. rewrite (block_put (numBlocks zs)) by lia. zcase; [|by apply Hcl]. intros E'. apply Hc. congruence.
  - done.
  - intros i Hi. rewrite (block_put (numBlocks zs)) by lia. by zcase.
  - intros i Hi Hne. rewrite (block_put (numBlocks zs)) by lia. by rewrite (proj2 (Z.eqb_neq i j)).
Qed.

Lemma closed_calls size bd cbs : closed_block size bd cbs →
  walkBlock bd size = Ret (cbs, set_block_status TP_STATUS_KERNEL bd).
Proof. intros (_ & _ & k & Hc & Hk). by eapply walk_chain. Qed.

(** ** The kernel and the listener *)

Lemma fill_sets zs j zs' cbs : units_ok zs → 0 <= j < units zs → kernel_fills zs j zs' cbs →
  unit_full zs j = false ∧ unit_set zs j true zs' ∧ unit_calls zs' j = cbs.
Proof.
  intros Hok Hj Hf. unfold units, unit_full, unit_calls in *.
  destruct Hf as [f Hv Hst Hf Hp|bd cbs Hv Hst Hc]; rewrite Hv in *; cbn [rx_version3 blockSize rx_raw rxFrames update].
  - unfold units_ok in Hok. rewrite Hv in Hok. split; [by apply has_packet_kernel|].
    split; [rewrite <- Hp; by apply set_frame|]. destruct Hok as [Hn Hl _ _].
    rewrite Hv, slot_insert, Z.eqb_refl by lia. done.
  - rewrite Hst. split; [done|]. pose proof Hc as (Hl & Hu & _). split.
    + apply set_block; [done..| |by eexists]. by rewrite (proj2 (Z.eqb_neq _ 0)).
    + unfold units_ok in Hok. rewrite Hv in Hok. destruct Hok as (Hn & Hs & Hr & _).
      rewrite Hv, (block_put (numBlocks zs)), Z.eqb_refl by lia. by rewrite (closed_calls _ _ _ Hc).
Qed.

(** The counters of the socket do not matter. *)
Lemma counters_unit_set zs i b zs' p q : unit_set zs i b zs' →
  unit_set zs i b (zs' <| rx_Packets := p |> <| rx_Polls := q |>).
Proof.
  intros [H1 H2 H3 H4]. split; [|done..]. unfold units_ok in *. cbn [rx_version3 update].
  destruct (rx_version3 zs'); [exact H1|]. by destruct H1.
Qed.

Lemma listenV3_frame zs i n e zs' r cbs : listenV3_turn zs i n e = Ret (zs', r, cbs) →
  ∃ raw p q, zs' = (zs <| rx_raw := raw |>) <| rx_Packets := p |> <| rx_Polls := q |>.
Proof.
  unfold listenV3_turn. intros E. inv_bind E. destruct (_ =? 0).
  - destruct (n =? 0); [|destruct e]; injection E as <- _ _; exists (rx_raw zs), (rx_Packets zs); eexists; by destruct zs.
  - inv_bind E. destruct a0 as [cbs0 bd0]. inv_bind E. cbn [numBlocks update] in E.
    destruct (numBlocks zs =? 0); [done|]. injection E as <- _ _.
    by exists a0, (i64 (rx_Packets zs + len cbs0)), (rx_Polls zs).
Qed.

(** A turn of the listener at a full unit: its calls, and the unit goes back. *)
Lemma turn_full zs i np e : units_ok zs → 0 <= i < units zs → unit_full zs i = true →
  ∃ zs', listen_turn zs i np e = Ret (zs', inl ((i + 1) mod units zs), unit_calls zs i) ∧ unit_set zs i false zs'.
Proof.
  intros Hok Hi Hf. unfold listen_turn, units, unit_calls in *. destruct (rx_version3 zs) eqn:Hv.
  - pose proof Hok as Hok'. unfold units_ok in Hok. rewrite Hv in Hok. destruct Hok as (Hn & Hs & Hr & Hcl).
    destruct (Hcl i Hi Hf) as (cbs & Hc). rewrite (closed_calls _ _ _ Hc).
    pose proof Hc as (Hl & Hu & k & Hch & Hk).
    destruct (listenV3_turn_block zs i np e k cbs) as [Hturn _]; [done|lia|done|].
    destruct (Hturn Hu Hch Hk) as (zs' & E & Hraw). exists zs'. rewrite next_mod in E by done. split; [exact E|].
    destruct (listenV3_frame _ _ _ _ _ _ _ E) as (raw & p & q & ->). cbn [rx_raw update] in Hraw.
    apply counters_unit_set. rewrite Hraw. apply (set_block zs i (set_block_status TP_STATUS_KERNEL _)); [done|done|done| | |done].
    + unfold set_block_status, block, len in *. rewrite length_hdr_set by lia. done.
    + unfold block_status, set_block_status, block, len in *. rewrite hdr_get_set by lia. done.
  - unfold units_ok in Hok. rewrite Hv in Hok. unfold unit_full in Hf. rewrite Hv in Hf.
    pose proof Hok as [Hn Hl Hfr _]. assert (rx_ok zs i) as Hoki by (by split).
    destruct (listenV1_turn_ready zs i e Hoki Hf) as (p & ->). rewrite next_mod by done. eexists. split; [reflexivity|].
    destruct (rxSet_ok _ (Hfr i Hi)) as [Hfo Hst].
    pose proof (set_frame zs i _ Hv Hok Hi Hfo) as Hset. rewrite (has_packet_kernel _ Hst) in Hset.
    exact (counters_unit_set zs i false _ p (rx_Polls zs) Hset).
Qed.

(** At a unit of the kernel it only polls. *)
Lemma turn_empty zs i np e : units_ok zs → 0 <= i < units zs → unit_full zs i = false →
  ∃ q r, listen_turn zs i np e = Ret (zs <| rx_Polls := q |>, r, []) ∧ ∀ i', r = inl i' → i' = i.
Proof.
  intros Hok Hi Hf. unfold listen_turn, units, unit_full, units_ok in *. destruct (rx_version3 zs) eqn:Hv.
  - destruct Hok as (Hn & Hs & Hr & _). apply negb_false_iff in Hf. zbool. unfold listenV3_turn.
    rewrite (slice_Ret (i * blockSize zs)) by nia. cbn [mbind outcome_mbind].
    replace (i * blockSize zs + blockSize zs - i * blockSize zs) with (blockSize zs) by lia.
    fold (block (blockSize zs) (rx_raw zs) i). rewrite Hf. cbn [Z.eqb].
    destruct (np =? 0); [|destruct e]; eexists _, _; (split; [reflexivity|]); intros i' Hi'; by inversion Hi'.
  - destruct Hok as [Hn Hl _ _]. unfold listenV1_turn. rewrite idx_slot by lia. cbn [mbind outcome_mbind].
    unfold rxReady, has_packet in *. rewrite Hf.
    destruct e; eexists _, _; (split; [reflexivity|]); intros i' Hi'; by inversion Hi'.
Qed.

Lemma turn_returns zs i np e : units_ok zs → 0 <= i < units zs → returns (listen_turn zs i np e).
Proof.
  intros Hok Hi. destruct (unit_full zs i) eqn:Ef.
  - destruct (turn_full zs i np e Hok Hi Ef) as (zs' & -> & _). by eexists.
  - destruct (turn_empty zs i np e Hok Hi Ef) as (q & r & -> & _). by eexists.
Qed.

(** ** The transition system *)

(** The socket, the unit the listener stands at, the unit the kernel fills next,
    the packets the kernel has put in the ring and the calls of the callback. *)
Record rxrun : Type := mkRun {
  rr_zs : RxSocket;
  rr_index : Z;
  rr_head : Z;
  rr_arrived : list callback;
  rr_calls : list callback
}.

Inductive rxstep : rxrun → rxrun → Prop :=
| rx_fill zs i h arrived calls zs' cbs : kernel_fills zs h zs' cbs →
    rxstep (mkRun zs i h arrived calls) (mkRun zs' i ((h + 1) mod units zs) (arrived ++ cbs) calls)
| rx_turn zs i h arrived calls np e zs' i' cbs : listen_turn zs i np e = Ret (zs', inl i', cbs) →
    rxstep (mkRun zs i h arrived calls) (mkRun zs' i' h arrived (calls ++ cbs)).

Inductive rxreach (zs0 : RxSocket) : rxrun → Prop :=
| rxreach_init : rxreach zs0 (mkRun zs0 0 0 [] [])
| rxreach_step s s' : rxreach zs0 s → rxstep s s' → rxreach zs0 s'.

(** The units from the listener to the kernel, [m] of them, are the full ones,
    and hold what has arrived and is not delivered. *)
Record rx_inv (s : rxrun) (m : Z) : Prop := {
  ri_ok : units_ok (rr_zs s);
  ri_index : 0 <= rr_index s < units (rr_zs s);
  ri_m : 0 <= m <= units (rr_zs s);
  ri_head : rr_head s = (rr_index s + m) mod units (rr_zs s);
  ri_full j : 0 <= j < units (rr_zs s) → unit_full (rr_zs s) j = in_run (units (rr_zs s)) (rr_index s) m j;
  ri_calls : rr_calls s ++ concat (run_of (units (rr_zs s)) (rr_index s) m (unit_calls (rr_zs s))) = rr_arrived s
}.

Lemma index_full s m : rx_inv s m → unit_full (rr_zs s) (rr_index s) = (0 <? m).
Proof.
  intros [Hok Hi Hm Hh Hf Hc]. rewrite Hf by done. rewrite <- (Z.mod_small (rr_index s) (units (rr_zs s))) at 2 by lia.
  rewrite <- (Z.add_0_r (rr_index s)) at 2. apply in_run_at. lia.
Qed.

Lemma rx_inv_fill zs i h arrived calls zs' cbs m : rx_inv (mkRun zs i h arrived calls) m →
  kernel_fills zs h zs' cbs → rx_inv (mkRun zs' i ((h + 1) mod units zs) (arrived ++ cbs) calls) (m + 1).
Proof.
  intros [Hok Hi Hm Hh Hf Hc] Hk. cbn [rr_zs rr_index rr_head rr_arrived rr_calls] in *.
  pose proof (units_pos zs Hok) as Hn.
  assert (0 <= h < units zs) as Hhr by (rewrite Hh; by apply Z.mod_pos_bound).
  destruct (fill_sets zs h zs' cbs Hok Hhr Hk) as (Hno & [Hok' Hu Hf' Hc'] & Hcalls).
  assert (m < units zs) as Hlt.
  { destruct (decide (m = units zs)) as [E|]; [|lia]. rewrite Hf in Hno by done.
    unfold in_run in Hno. pose proof (Z.mod_pos_bound (h - i) (units zs) Hn). zbool. lia. }
  assert (in_run (units zs) i m h = false) as Hnin by (rewrite <- Hf; done).
  constructor; cbn [rr_zs rr_index rr_head rr_arrived rr_calls]; rewrite ?Hu; try done; try lia.
  - rewrite Hh, Zplus_mod_idemp_l. f_equal. lia.
  - intros j Hj. rewrite Hf', Hf, in_run_push, <- Hh by lia. by destruct (j =? h).
  - rewrite run_of_push, concat_app, app_assoc, <- Hh, Hcalls by lia. f_equal; [|cbn; by rewrite app_nil_r].
    rewrite <- Hc. do 2 f_equal. apply run_of_ext; [done|lia|]. intros j Hj Hin. apply Hc'; [done|]. congruence.
Qed.

Lemma rx_inv_turn zs i h arrived calls np e zs' i' cbs m : rx_inv (mkRun zs i h arrived calls) m →
  listen_turn zs i np e = Ret (zs', inl i', cbs) →
  rx_inv (mkRun zs' i' h arrived (calls ++ cbs)) (if 0 <? m then m - 1 else m).
Proof.
  intros Hinv E. pose proof (index_full _ _ Hinv) as Hfi. destruct Hinv as [Hok Hi Hm Hh Hf Hc].
  cbn [rr_zs rr_index rr_head rr_arrived rr_calls] in *. pose proof (units_pos zs Hok) as Hn.
  destruct (0 <? m) eqn:Em; zbool.
  - destruct (turn_full zs i np e Hok Hi Hfi) as (zs1 & E1 & [Hok' Hu Hf' Hc']). rewrite E in E1. injection E1 as <- -> ->.
    assert (∀ j, 0 <= j < units zs → in_run (units zs) i m j =
      (j =? i) || in_run (units zs) ((i + 1) mod units zs) (m - 1) j) as Hstep.
    { intros j Hj. replace m with (m - 1 + 1) at 1 by lia. rewrite in_run_step, next_mod by lia. done. }
    pose proof (in_run_self (units zs) i (m - 1) Hi ltac:(lia)) as Hself. rewrite next_mod in Hself by done.
    constructor; cbn [rr_zs rr_index rr_head rr_arrived rr_calls]; rewrite ?Hu; try done; try lia.
    + by apply Z.mod_pos_bound.
    + rewrite Hh, Zplus_mod_idemp_l. f_equal. lia.
    + intros j Hj. rewrite Hf', Hf, Hstep by done. destruct (j =? i) eqn:Ej; zbool; [by subst|done].
    + rewrite <- Hc, <- app_assoc. f_equal. rewrite (run_of_pop _ i m) by lia. cbn [concat]. f_equal. f_equal.
      apply run_of_ext; [done|lia|]. intros j Hj Hin. apply Hc'; [done|]. congruence.
  - destruct (turn_empty zs i np e Hok Hi Hfi) as (q & r & E1 & Hr). rewrite E in E1. injection E1 as -> <- ->.
    rewrite (Hr i' eq_refl), app_nil_r. constructor; try done. unfold units_ok in *. cbn [rx_version3 rr_zs update].
    destruct (rx_version3 zs); [exact Hok|]. by destruct Hok.
Qed.

Lemma rx_inv_reach zs0 s : units_ok zs0 → (∀ j, 0 <= j < units zs0 → unit_full zs0 j = false) → rxreach zs0 s →
  ∃ m, rx_inv s m.
Proof.
  intros Hok Hno Hr. induction Hr as [|s s' _ [m IH] Hst].
  - exists 0. pose proof (units_pos _ Hok). constructor; cbn; try done; try lia.
    intros j Hj. rewrite Hno by done. symmetry. apply Z.ltb_ge. apply Z.mod_pos_bound. lia.
  - destruct Hst; [eexists; by eapply rx_inv_fill|eexists; by eapply rx_inv_turn].
Qed.

(** ** Properties *)

(** C10: nothing is lost between kernel and listener.  The kernel fills frames (V1)
    or blocks (V3) in ring order, at any time and as long as it finds a free one;
    the listener makes its turns.  Then the calls of the callback are a prefix of
    the packets put in the ring, in order and each once; they are all of these
    packets whenever the listener stands at a unit without packets; and a turn
    never panics, at a unit with packets it makes at once the calls for them. *)
Theorem rx_ring_fifo zs0 s
    (Hok : units_ok zs0) (Hempty : ∀ j, 0 <= j < units zs0 → unit_full zs0 j = false)
    (Hreach : rxreach zs0 s) :
  (∃ waiting, rr_calls s ++ waiting = rr_arrived s) ∧
  (unit_full (rr_zs s) (rr_index s) = false → rr_calls s = rr_arrived s) ∧
  ∀ np e, ∃ zs' r, listen_turn (rr_zs s) (rr_index s) np e =
    Ret (zs', r, if unit_full (rr_zs s) (rr_index s) then unit_calls (rr_zs s) (rr_index s) else []).
Proof.
  destruct (rx_inv_reach zs0 s Hok Hempty Hreach) as (m & Hinv). pose proof (index_full _ _ Hinv) as Hfi.
  destruct Hinv as [Hok' Hi Hm Hh Hf Hc]. split; [by eexists|]. split.
  - rewrite Hfi. intros Hz. zbool. assert (m = 0) as -> by lia. cbn in Hc. by rewrite app_nil_r in Hc.
  - intros np e. destruct (unit_full _ _) eqn:Ef.
    + destruct (turn_full _ _ np e Hok' Hi Ef) as (zs' & -> & _). by eexists _, _.
    + destruct (turn_empty _ _ np e Hok' Hi Ef) as (q & r & -> & _). by eexists _, _.
Qed.

(** ** Witness: a ring of one block of 83 octets, which the kernel fills with one
    packet; the listener delivers it. *)

Definition ex_rx3 : RxSocket := mkRxSocket 0 0 1 83 (replicate 83 x00) true true 0 true [].

Lemma ex_rx3_empty j : 0 <= j < units ex_rx3 → unit_full ex_rx3 j = false.
Proof. intros Hj. assert (j = 0) as -> by (cbn in Hj; lia). vm_compute. reflexivity. Qed.

Lemma ex_rx3_ok : units_ok ex_rx3.
Proof. split_and!; [done..|]. intros j Hj E. by rewrite ex_rx3_empty in E. Qed.

Definition ex_rx3_full : RxSocket := ex_rx3 <| rx_raw := put_block 83 (replicate 83 x00) 0 ex_block |>.

Lemma ex_rx3_run : ∃ zs, rxreach ex_rx3 (mkRun zs 0 0 [([x41; x42; x43], 3, 3)] [([x41; x42; x43], 3, 3)]) ∧
  unit_full zs 0 = false.
Proof.
  assert (rxreach ex_rx3 (mkRun ex_rx3_full 0 0 [([x41; x42; x43], 3, 3)] [])) as Hr.
  { eapply (rxreach_step _ (mkRun ex_rx3 0 0 [] [])); [apply rxreach_init|].
    apply (rx_fill ex_rx3 0 0 [] [] ex_rx3_full), fill_block; [done|vm_compute; reflexivity|].
    split_and!; [vm_compute; reflexivity|vm_compute; congruence|]. exists 1%nat. split; [apply ex_chain|vm_compute; reflexivity]. }
  destruct (listen_turn ex_rx3_full 0 0 None) as [[[zs' [i'|]] cbs]| |] eqn:E; vm_compute in E; try discriminate.
  injection E as <- <- <-. eexists. split; [eapply rxreach_step; [exact Hr|]|].
  - apply (rx_turn ex_rx3_full 0 0 [([x41; x42; x43], 3, 3)] [] 0 None). vm_compute. reflexivity.
  - vm_compute. reflexivity.
Qed.

Lemma rx_ring_fifo_witness : ∃ s, rxreach ex_rx3 s ∧ rr_calls s = rr_arrived s ∧ len (rr_calls s) = 1.
Proof.
  destruct ex_rx3_run as (zs & Hr & Hf).
  destruct (rx_ring_fifo ex_rx3 _ ex_rx3_ok ex_rx3_empty Hr) as (_ & Hall & _).
  eexists. split; [exact Hr|]. split; [exact (Hall Hf)|reflexivity].
Defined.
