(* ===== verification/ZListen.v ===== *)
(** * Receiving through the ring (src/zsockif.go, src/client.go)

    [Listen] of [zsockIf]: every frame of the ring is checked (Ethernet type,
    protocol, lengths, destination port) and its UDP payload handed to the
    client.  The headers are read through package nettypes, which is a parameter
    ([NetTypes]); its laws ([NetTypesSpec]) say where the fields of complete
    headers are.  The kernel, the listener of the ring ([ZRxRun]) and the
    other goroutines of the client are a transition system ([zstep]) that refines
    [Delivery]. *)

From Stdlib Require Import Strings.Byte.
From S2P Require Import Prelude.
From S2P Require Import GoBytes.
From S2P Require Import NetAddr.
From S2P Require Import Codec.
From S2P Require Import RawUdp.
From S2P Require Import Bpf.
From S2P Require Import ZRing.
From S2P Require Import ZRx.
From S2P Require Import ZRxRun.
From S2P Require Import MsgCache.
From S2P Require Import Client.
From S2P Require Import ClientLemmas.
From S2P Require Import Delivery.
From S2P Require Import DeliveryProps.
From S2P Require Import RequestProps.

(** ** Package nettypes *)

Class NetTypes := {
  MACEthertype : list byte → outcome (list byte);
  MACPayload : list byte → outcome (list byte * Z);
  IP_Protocol : list byte → outcome Z;
  IP_Length : list byte → outcome Z;
  IP_Payload : list byte → outcome (list byte * Z);
  IP_SourceIP : list byte → outcome (list byte);
  UDP_DestinationPort : list byte → outcome Z;
  UDP_SourcePort : list byte → outcome Z;
  UDP_Length : list byte → outcome Z;
  UDP_Payload : list byte → outcome (list byte * Z)
}.

(** A 16-bit field in network order. *)
Definition field16 (off : nat) (l : list byte) : Z := be_get (take 2 (drop off l)).

(** The length of an IPv4 header. *)
Definition ihl (ip : list byte) : Z := 4 * Z.land (b2z (default x00 (ip !! 0%nat))) 15.

(** Fields of complete headers.  The payload of a UDP datagram holds at least
    what its length field announces; whether octets behind it are cut off is
    left open. *)
Class NetTypesSpec `{NetTypes} : Prop := {
  nt_ethertype f : 14 <= len f → MACEthertype f = Ret (take 2 (drop 12 f));
  nt_macpayload f : 14 <= len f → MACPayload f = Ret (drop 14 f, 14);
  nt_protocol ip : 20 <= len ip → IP_Protocol ip = Ret (b2z (default x00 (ip !! 9%nat)));
  nt_iplength ip : 20 <= len ip → IP_Length ip = Ret (field16 2 ip);
  nt_source ip : 20 <= len ip → IP_SourceIP ip = Ret (take 4 (drop 12 ip));
  nt_ippayload ip : 20 <= ihl ip <= len ip → IP_Payload ip = Ret (drop (Z.to_nat (ihl ip)) ip, ihl ip);
  nt_dport udp : 8 <= len udp → UDP_DestinationPort udp = Ret (field16 2 udp);
  nt_sport udp : 8 <= len udp → UDP_SourcePort udp = Ret (field16 0 udp);
  nt_udplength udp : 8 <= len udp → UDP_Length udp = Ret (field16 4 udp);
  nt_udppayload udp : 8 <= field16 4 udp <= len udp → ∃ k,
    field16 4 udp - 8 <= Z.of_nat k ∧ UDP_Payload udp = Ret (take k (drop 8 udp), 8)
}.

Definition ETHER_IPv4 : list byte := [x08; x00].
Definition PROTO_UDP : Z := 17.

(** ** Frames *)

(** [tryLog] at time [now]: the time of the last line. *)
Definition tryLog (logTime now : Z) : Z := if logTime <? now then now else logTime.

(** The sender's address, which all calls of the closure share, and the time of
    the last log line. *)
Record listen_state : Type := mkListen { ls_rAddr : UDPAddr; ls_logTime : Z }.
#[export] Instance listen_eta : Eta listen_state := λ s, mkListen (ls_rAddr s) (ls_logTime s).

Section Frames.
Context `{NetTypes}.

(** The closure of [Listen] on a frame: the datagram and sender it passes to
    [fx], if any. *)
Definition on_frame (port : Z) (s : listen_state) (cb : callback) (now : Z)
    : outcome (option (list byte * UDPAddr) * listen_state) :=
  let '(fb, frameLen, capturedLen) := cb in
  let logged s := s <| ls_logTime := tryLog (ls_logTime s) now |> in
  let ln := capturedLen in
  f ← slice 0 ln fb;
  et ← MACEthertype f;
  if negb (bool_decide (et = ETHER_IPv4)) then Ret (None, logged s)
  else
    '(ip, mOff) ← MACPayload f;
    let ln := u16 (ln - mOff) in
    proto ← IP_Protocol ip;
    if negb (proto =? PROTO_UDP) then Ret (None, logged s)
    else
      ipLen ← IP_Length ip;
      if ln <? ipLen then Ret (None, logged s)
      else
        '(udp, iOff) ← IP_Payload ip;
        ips ← IP_SourceIP ip;
        a ← idx ips 0; b ← idx ips 1; c ← idx ips 2; d ← idx ips 3;
        let s := s <| ls_rAddr := mkUDPAddr (IPv4 a b c d) (Port (ls_rAddr s)) |> in
        dport ← UDP_DestinationPort udp;
        if negb (dport =? port) then Ret (None, logged s)
        else
          sport ← UDP_SourcePort udp;
          let s := s <| ls_rAddr := mkUDPAddr (IPv4 a b c d) sport |> in
          let ln := u16 (ln - iOff) in
          udpLen ← UDP_Length udp;
          if ln <? udpLen then Ret (None, logged s)
          else
            '(uBuff, uOff) ← UDP_Payload udp;
            Ret (Some (uBuff, ls_rAddr s), s).
End Frames.

(** The state of the closure before the first frame. *)
Definition listen0 (logTime : Z) : listen_state := mkListen (mkUDPAddr IPv4zero 0) logTime.

(** ** The client among its goroutines *)

Section System.
Context {K Cache : Type} `{SeqCacheSpec Cache} `{NetTypes}.
Context (D : list byte → Prop) (port : Z) (ovl : bool).

(** The client, the ring between kernel and listener, the calls of the callback
    still to be made, and the closure's state. *)
Record zstate : Type := mkZstate {
  zr_sys : sys K Cache;
  zr_run : rxrun;
  zr_todo : list callback;
  zr_listen : listen_state
}.

(** A frame of the network: what is taken from it is a datagram of [D]. *)
Definition frame_ok (cb : callback) : Prop :=
  ∀ s now p a s', on_frame port s cb now = Ret (Some (p, a), s') → len p < 65536 ∧ D p.

Inductive zstep : zstate → zstate → Prop :=
| zstep_kernel s zs i h arrived calls zs' cbs todo l :
    kernel_fills zs h zs' cbs → Forall frame_ok cbs →
    zstep (mkZstate s (mkRun zs i h arrived calls) todo l)
      (mkZstate s (mkRun zs' i ((h + 1) mod units zs) (arrived ++ cbs) calls) todo l)
| zstep_turn s zs i h arrived calls n e zs' i' cbs l :
    listen_turn zs i n e = Ret (zs', inl i', cbs) →
    zstep (mkZstate s (mkRun zs i h arrived calls) [] l)
      (mkZstate s (mkRun zs' i' h arrived (calls ++ cbs)) cbs l)
| zstep_frame s r cb cbs l now p a l' c' :
    on_frame port l cb now = Ret (Some (p, a), l') →
    len (ch (cl s)) < chanCap → onPacket (cl s) p (len p) a now = Ret c' →
    zstep (mkZstate s r (cb :: cbs) l) (mkZstate (s <| cl := c' |>) r cbs l')
| zstep_ignored s r cb cbs l now l' :
    on_frame port l cb now = Ret (None, l') →
    zstep (mkZstate s r (cb :: cbs) l) (mkZstate s r cbs l')
| zstep_other a s s' r cbs l :
    step (λ _ _, False) ovl a s s' → zstep (mkZstate s r cbs l) (mkZstate s' r cbs l).

Inductive zreach (c0 : Client K Cache) (zs0 : RxSocket) (t0 : Z) : zstate → Prop :=
| zreach_init : zreach c0 zs0 t0 (mkZstate (sys_init c0) (mkRun zs0 0 0 [] []) [] (listen0 t0))
| zreach_step z z' : zreach c0 zs0 t0 z → zstep z z' → zreach c0 zs0 t0 z'.

Lemma zreach_steps c0 zs0 t0 s s' r cbs l : zreach c0 zs0 t0 (mkZstate s r cbs l) →
  steps (λ _ _, False) ovl s s' → zreach c0 zs0 t0 (mkZstate s' r cbs l).
Proof.
  intros Hr Hst. induction Hst as [|s1 s2 s3 [a Hst] _ IH]; [done|]. apply IH.
  eapply zreach_step; [exact Hr|]. by eapply zstep_other.
Qed.

(** The ring runs as in [ZRxRun], and only frames of the network come from it. *)
Lemma zreach_ring c0 zs0 t0 z : units_ok zs0 → (∀ j, 0 <= j < units zs0 → unit_full zs0 j = false) →
  zreach c0 zs0 t0 z →
  rxreach zs0 (zr_run z) ∧ Forall frame_ok (rr_arrived (zr_run z)) ∧ Forall frame_ok (zr_todo z).
Proof.
  intros Hok Hno Hr. induction Hr as [|z z' _ (Hrx & Ha & Hf) Hst]; [split; [apply rxreach_init|by split]|].
  destruct Hst as [s zs i h ar ca zs' cbs todo l Hk Hcb|s zs i h ar ca n e zs' i' cbs l Ht
    |s r cb cbs l now p a l' c' _ _ _|s r cb cbs l now l' _|act s s' r cbs l _]; cbn [zr_todo zr_run] in *.
  - split; [eapply rxreach_step; [done|]; by apply rx_fill|]. split; [by apply Forall_app|done].
  - assert (rxreach zs0 (mkRun zs' i' h ar (ca ++ cbs))) as Hrx'
      by (eapply rxreach_step; [done|]; by eapply rx_turn).
    split; [done|]. split; [done|]. destruct (rx_inv_reach _ _ Hok Hno Hrx') as (m & Hinv).
    pose proof (ri_calls _ _ Hinv) as Hc. cbn [rr_calls rr_arrived] in Hc, Ha. rewrite <- Hc in Ha.
    by apply Forall_app in Ha as [[_ Ha]%Forall_app _].
  - by apply Forall_cons in Hf as [_ Hf].
  - by apply Forall_cons in Hf as [_ Hf].
  - done.
Qed.

Lemma zreach_refines (allowed : Client K Cache → list byte → Prop) c0 zs0 t0 z :
  (∀ c b, D b → allowed c b) → units_ok zs0 → (∀ j, 0 <= j < units zs0 → unit_full zs0 j = false) →
  zreach c0 zs0 t0 z → reachable allowed ovl c0 (zr_sys z).
Proof.
  intros HD Hok Hno Hr. induction Hr as [|z z' Hr Hre Hst]; [apply reach_init|].
  destruct (zreach_ring _ _ _ _ Hok Hno Hr) as (_ & _ & Hf).
  destruct Hst as [| |s r cb cbs l now p a l' c' Hon Hroom Hp| |act s s' r cbs l Hst]; cbn [zr_todo zr_sys] in *; [done..| |done|].
  - apply Forall_cons in Hf as [Hcb _]. destruct (Hcb _ _ _ _ _ Hon) as [Hl Hd].
    pose proof (len_nonneg p). eapply reach_step; [exact Hre|].
    eapply (step_packet _ _ _ p (len p) a now); [done|lia|done| |exact Hp].
    unfold len. rewrite Nat2Z.id, firstn_all. by apply HD.
  - eapply reach_step; [exact Hre|].
    eapply step_mono; [|done]. done.
Qed.
End System.

(** ** Own frames *)

Section Roundtrip.
Context `{NetTypesSpec}.

Lemma field16_be v l1 l2 : field16 (length l1) (l1 ++ be_put 2 v ++ l2) = u16 v.
Proof.
  unfold field16. rewrite drop_app_length, take_app_length' by (by rewrite length_be_put).
  by rewrite be_get_put.
Qed.

(** The parts of a frame written by [copyFx]. *)
Section Parts.
Context (c : ZAddr) (payload : list byte) (Hc : wf_addr c) (Hport : 0 <= za_port c < 65535).
Context (Hsize : 42 + len payload < 65536).

Definition udp_part : list byte := udp_header (za_port c) (len payload) ++ payload.
Definition ip_part : list byte :=
  ip_header (len payload) (ip_ck (len payload) (za_srcIP c) (za_dstIP c)) (za_srcIP c) (za_dstIP c) ++ udp_part.

Lemma len_udp_part : len udp_part = 8 + len payload.
Proof. unfold udp_part, len. rewrite length_app, length_udp_header. lia. Qed.

Lemma len_ip_part : len ip_part = 28 + len payload.
Proof.
  destruct Hc as (_ & _ & H3 & H4). unfold ip_part, len. rewrite length_app, length_ip_header by done.
  pose proof len_udp_part as Hu. unfold len in Hu. lia.
Qed.

Lemma frame_parts : raw_frame c (len payload) payload = (za_dst c ++ za_src c) ++ ETHER_IPv4 ++ ip_part.
Proof. unfold raw_frame, ip_part, udp_part. by rewrite <- !app_assoc. Qed.

Lemma len_own_frame : len (raw_frame c (len payload) payload) = 42 + len payload.
Proof.
  destruct Hc as (H1 & H2 & _). rewrite frame_parts. autorewrite with golen. rewrite len_ip_part.
  change (len ETHER_IPv4) with 2. unfold len. lia.
Qed.

Lemma drop_12_frame : drop 12 (raw_frame c (len payload) payload) = ETHER_IPv4 ++ ip_part.
Proof.
  destruct Hc as (H1 & H2 & _). rewrite frame_parts, drop_app_length' by (rewrite length_app; lia). done.
Qed.

Lemma drop_14_frame : drop 14 (raw_frame c (len payload) payload) = ip_part.
Proof. rewrite <- (drop_drop _ 2 12), drop_12_frame. done. Qed.

Lemma ip_part_length : field16 2 ip_part = 28 + len payload.
Proof.
  pose proof (len_nonneg payload). unfold ip_part, ip_header. rewrite <- !app_assoc.
  change 2%nat with (length [x45; x00]) at 1. rewrite field16_be, u16_small; lia.
Qed.

Lemma ip_part_source : take 4 (drop 12 ip_part) = za_srcIP c.
Proof.
  destruct Hc as (_ & _ & H3 & H4). unfold ip_part. rewrite ip_header_split, <- !app_assoc.
  rewrite (app_assoc (ip_front _)), drop_app_length' by (rewrite length_app, length_ip_front; done).
  by rewrite take_app_length' by done.
Qed.

Lemma drop_20_ip : drop (Z.to_nat 20) ip_part = udp_part.
Proof.
  destruct Hc as (_ & _ & H3 & H4). unfold ip_part. rewrite drop_app_length' by (by rewrite length_ip_header). done.
Qed.

Lemma udp_part_fields : field16 0 udp_part = za_port c + 1 ∧ field16 2 udp_part = za_port c ∧
  field16 4 udp_part = len payload + 8.
Proof.
  pose proof (len_nonneg payload). unfold udp_part, udp_header. rewrite <- !app_assoc. split_and!.
  - pose proof (field16_be (za_port c + 1) []) as Hf. cbn [length app] in Hf. rewrite Hf, u16_small; lia.
  - rewrite <- (length_be_put 2 (za_port c + 1)) at 1. rewrite field16_be, u16_small; lia.
  - rewrite (app_assoc (be_put 2 (za_port c + 1))).
    change 4%nat with (length (be_put 2 (za_port c + 1) ++ be_put 2 (za_port c))).
    rewrite field16_be, u16_small; lia.
Qed.

Lemma udp_part_payload : UDP_Payload udp_part = Ret (payload, 8).
Proof.
  destruct udp_part_fields as (_ & _ & Hf). pose proof len_udp_part. pose proof (len_nonneg payload).
  destruct (nt_udppayload udp_part) as (k & Hk & ->); [lia|]. rewrite Hf in Hk. unfold udp_part.
  rewrite drop_app_length' by (by rewrite length_udp_header). rewrite take_ge by (unfold len in Hk; lia). done.
Qed.

(** The closure on such a frame, with anything behind it in the ring. *)
Lemma on_own_frame port rest s now tl :
  on_frame port s (raw_frame c (len payload) payload ++ rest, tl, 42 + len payload) now =
    let ip := v4InV6Prefix ++ za_srcIP c in
    if za_port c =? port
    then Ret (Some (payload, mkUDPAddr ip (za_port c + 1)), s <| ls_rAddr := mkUDPAddr ip (za_port c + 1) |>)
    else Ret (None, s <| ls_rAddr := mkUDPAddr ip (Port (ls_rAddr s)) |>
                      <| ls_logTime := tryLog (ls_logTime s) now |>).
Proof.
  pose proof (len_nonneg payload). pose proof len_own_frame as HF. pose proof len_ip_part as Hip.
  pose proof len_udp_part as Hul. destruct udp_part_fields as (Hf0 & Hf2 & Hf4).
  unfold on_frame. rewrite (slice_app [] (raw_frame c (len payload) payload) rest) by (cbn; lia || done).
  cbn [mbind outcome_mbind]. rewrite nt_ethertype, drop_12_frame by lia. cbn [mbind outcome_mbind].
  rewrite bool_decide_eq_true_2 by done. cbn [negb].
  rewrite nt_macpayload, drop_14_frame by lia. cbn [mbind outcome_mbind].
  rewrite (u16_small (42 + len payload - 14)) by lia.
  rewrite nt_protocol by lia. cbn [mbind outcome_mbind].
  change (negb (b2z (default x00 (ip_part !! 9%nat)) =? PROTO_UDP)) with false. cbv iota.
  rewrite nt_iplength, ip_part_length by lia. cbn [mbind outcome_mbind].
  rewrite (proj2 (Z.ltb_ge _ _)) by lia.
  rewrite nt_ippayload by (change (ihl ip_part) with 20; lia). change (ihl ip_part) with 20.
  cbn [mbind outcome_mbind]. rewrite drop_20_ip, nt_source, ip_part_source by lia. cbn [mbind outcome_mbind].
  destruct Hc as (_ & _ & _ & H4). destruct (za_srcIP c) as [|b0 [|b1 [|b2 [|b3 [|]]]]] eqn:Es; try done.
  cbn [idx Z.leb Z.compare Z.to_nat lookup list_lookup Pos.to_nat Pos.iter_op Nat.add mbind outcome_mbind].
  rewrite nt_dport, Hf2 by lia. cbn [mbind outcome_mbind].
  destruct (za_port c =? port) eqn:Ep; cbn [negb]; [|reflexivity].
  rewrite nt_sport, Hf0 by lia. cbn [mbind outcome_mbind].
  rewrite nt_udplength, Hf4 by lia. cbn [mbind outcome_mbind].
  rewrite (u16_small (42 + len payload - 14 - 20)), (proj2 (Z.ltb_ge _ _)) by lia.
  rewrite udp_part_payload. done.
Qed.

(** A frame of a sender that sends only datagrams of [D] is a frame of the
    network. *)
Lemma own_frame_ok (D : list byte → Prop) port rest tl : D payload →
  frame_ok D port (raw_frame c (len payload) payload ++ rest, tl, 42 + len payload).
Proof.
  intros Hd s now p a s' Hon. rewrite on_own_frame in Hon. cbv zeta in Hon.
  destruct (za_port c =? port); [|done]. injection Hon as <- _ _. split; [lia|done].
Qed.
End Parts.
End Roundtrip.

(** ** Properties *)

(** C15: from ring to ring.  A payload that fits is framed by the sender's
    [copyFx]; the filter of a receiver keeps the frame exactly when it listens on
    the sender's port; and the closure of [Listen] then hands over exactly the
    payload, with the sender's address and the port after the sender's, whatever
    follows the frame in the ring.  For another port it hands over nothing. *)
Theorem ring_roundtrip `{NetTypesSpec} CalculateChecksum c dst payload port s now tl
    (Hck : checksum_law CalculateChecksum) (Hc : wf_addr c) (Hport : 0 <= za_port c < 65535)
    (Hne : 0 < len payload) (Hsize : 42 + len payload < 65536) (Hroom : 42 + len payload <= len dst) :
  ∃ slot, RawUdp.copyFx CalculateChecksum c dst payload (len payload) = Ret (slot, 42 + len payload) ∧
    bpf (filter_for port) (take (Z.to_nat (42 + len payload)) slot) =
      Some (if za_port c =? port then 0x40000 else 0) ∧
    ∃ s', on_frame port s (slot, tl, 42 + len payload) now =
      Ret (if za_port c =? port
           then Some (payload, mkUDPAddr (v4InV6Prefix ++ za_srcIP c) (za_port c + 1)) else None, s').
Proof.
  rewrite (copyFx_spec CalculateChecksum Hck) by (done || lia). cbv zeta.
  rewrite (proj2 (Z.leb_gt (len payload) 0)), u16_small by lia.
  assert (frame_head c (len payload) ++ go_copy (drop 42 dst) payload =
    raw_frame c (len payload) payload ++ drop (length payload) (drop 42 dst)) as ->.
  { unfold frame_head, raw_frame, go_copy, len in *. rewrite <- !app_assoc.
    rewrite (take_ge payload) by (rewrite length_drop; lia). done. }
  eexists. split; [f_equal; f_equal; lia|].
  pose proof (len_own_frame c payload Hc) as Hl.
  rewrite take_app_length' by (unfold len in *; lia). split; [apply filter_own_frames; [done|lia]|].
  rewrite on_own_frame by done. cbv zeta. destruct (za_port c =? port); by eexists.
Qed.

(** C6: delivery through the ring.  The kernel fills the ring with frames, of
    which those for the client's port carry datagrams of a session made with the
    encoder; the listener walks the ring in either version and hands the UDP
    payloads to the client, among its worker, ticker and application.  Then what
    [Read] returned is the session's messages in order, each once.  Once the
    client has stopped it has received all of them, and what [Read] returned
    lacks only the messages still on their way to the application; none are when
    no body of [Read] overlapped the processing of a packet and none is in
    progress.  The next turn of the listener and the handling of every datagram
    return without a panic. *)
Theorem ring_delivery {K Cache : Type} `{SeqCacheSpec Cache} `{NetTypes}
    (stream : Z → Message) sess start fin nextSeq (k : K) ip port srvs now zs t0 ovl (z : @zstate K Cache)
    (Hsession : 0 <= start <= fin) (Hfin : fin < 2 ^ 63) (Hsess : wf_session sess)
    (Hmsgs : ∀ z, wf_message (stream z))
    (Hstart : start = if nextSeq =? 0 then 1 else nextSeq) (Hnext : 0 <= nextSeq <= max_u64)
    (Hring : units_ok zs) (Hempty : ∀ j, 0 <= j < units zs → unit_full zs j = false)
    (Hreach : zreach (sends stream fin sess) port ovl (newClientState k nextSeq ip port srvs now) zs t0 z) :
  let s := zr_sys z in
  out s = map stream (seqZ start (len (out s))) ∧
  (Running (cl s) = false →
     out s ++ unread s = map stream (seqZ start (fin - start)) ∧
     (ovl = false → rd s = None → out s = map stream (seqZ start (fin - start)))) ∧
  (∀ n e, returns (listen_turn (rr_zs (zr_run z)) (rr_index (zr_run z)) n e)) ∧
  ∀ cb t p a l', cb ∈ zr_todo z → on_frame port (zr_listen z) cb t = Ret (Some (p, a), l') →
    returns (onPacket (cl s) p (len p) a t).
Proof.
  pose proof (zreach_refines (sends stream fin sess) port ovl (genuine stream fin) _ zs t0 z
    (λ c b, sends_genuine stream fin Hmsgs ltac:(lia) c sess b Hsess) Hring Hempty Hreach) as Hre.
  destruct (zreach_ring _ _ _ _ _ _ _ Hring Hempty Hreach) as (Hrx & _ & Hf).
  pose proof (inv_reachable stream start fin Hsession Hfin false ovl k ip port srvs now nextSeq _ Hstart Hre) as Hinv.
  destruct (safe_reachable _ _ _ _ _ _ _ _ _ Hnext Hre) as [Hs _]. cbv zeta.
  split; [by eapply out_prefix|]. split.
  { intros Hstop. destruct (inv_all stream start fin false ovl _ eq_refl Hinv Hstop) as (_ & Hall & Hno).
    split; [done|]. intros Ho Hr. by apply Hno. }
  split.
  - intros n e. destruct (rx_inv_reach _ _ Hring Hempty Hrx) as (m & [Hok Hi _ _ _ _]). by apply turn_returns.
  - intros cb t p a l' Hin Hon. rewrite Forall_forall in Hf. destruct (Hf cb Hin _ _ _ _ _ Hon) as [Hl _].
    pose proof (len_nonneg p).
    destruct (onPacket_spec (cl (zr_sys z)) p (len p) a t Hs) as (c' & E & _); [lia|done|]. by exists c'.
Qed.

(** ** Witnesses *)

(** Header fields read where the formats put them. *)
Definition ex_nettypes : NetTypes := {|
  MACEthertype := λ f, Ret (take 2 (drop 12 f));
  MACPayload := λ f, Ret (drop 14 f, 14);
  IP_Protocol := λ ip, Ret (b2z (default x00 (ip !! 9%nat)));
  IP_Length := λ ip, Ret (field16 2 ip);
  IP_Payload := λ ip, Ret (drop (Z.to_nat (ihl ip)) ip, ihl ip);
  IP_SourceIP := λ ip, Ret (take 4 (drop 12 ip));
  UDP_DestinationPort := λ udp, Ret (field16 2 udp);
  UDP_SourcePort := λ udp, Ret (field16 0 udp);
  UDP_Length := λ udp, Ret (field16 4 udp);
  UDP_Payload := λ udp, Ret (drop 8 udp, 8)
|}.
#[local] Existing Instance ex_nettypes.
#[local] Existing Instance ex_memory.

#[local] Instance ex_nettypes_spec : NetTypesSpec.
Proof.
  split; try done. intros udp Hl. exists (length udp).
  split; [unfold len in Hl; lia|]. cbn. by rewrite take_ge by (rewrite length_drop; lia).
Qed.

Lemma ring_roundtrip_witness :
  ∃ slot, RawUdp.copyFx ex_checksum ex_zaddr (replicate 64 x00) [x41; x42] 2 = Ret (slot, 44) ∧
    ∃ s', on_frame 5858 (listen0 0) (slot, 44, 44) 100 =
      Ret (Some ([x41; x42], mkUDPAddr (v4InV6Prefix ++ za_srcIP ex_zaddr) 5859), s').
Proof.
  destruct (ring_roundtrip ex_checksum ex_zaddr (replicate 64 x00) [x41; x42] 5858 (listen0 0) 100 44 ex_checksum_law)
    as (slot & H1 & _ & s' & H2); [vm_compute; intuition congruence..|].
  exists slot. split; [exact H1|]. exists s'. exact H2.
Defined.

(** A ring of one frame in which the kernel puts the first datagram. *)
Definition ex_own_frame : list byte := raw_frame ex_zaddr 23 (ex_dgram 1).
Definition ex_rx_frame : ringFrame :=
  mkRingFrame (le_put 8 1 ++ le_put 4 65 ++ le_put 4 65 ++ le_put 2 32 ++ replicate 14 x00 ++ ex_own_frame) 0.
Definition ex_rx : RxSocket := mkRxSocket 0 0 0 0 [] true false 1 true [mkRingFrame (replicate 100 x00) 0].
Definition ex_call : callback := (ex_own_frame, 65, 65).

Lemma ex_call_ok : frame_ok (sends ex_stream 3 ex_sess) 5858 ex_call.
Proof.
  unfold ex_call, ex_own_frame. rewrite <- (app_nil_r (raw_frame _ _ _)).
  apply (own_frame_ok ex_zaddr (ex_dgram 1)); [vm_compute; intuition congruence..|]. apply ex_sends_data. by left.
Qed.

Lemma ex_rx_empty j : 0 <= j < units ex_rx → unit_full ex_rx j = false.
Proof. intros Hj. assert (j = 0) as -> by (cbn in Hj; lia). vm_compute. reflexivity. Qed.

Lemma ex_rx_ok : units_ok ex_rx.
Proof.
  constructor; [done|done| |done].
  intros j Hj. assert (j = 0) as -> by (cbn in Hj; lia). vm_compute. intuition congruence.
Qed.

(** The kernel fills the frame, the listener finds it and hands its datagram to
    the client; the worker processes it and the application reads. *)
Definition ex_z1 : Client unit msgCache :=
  ret_or ex_client0 (onPacket ex_client0 (ex_dgram 1) 23 (mkUDPAddr (v4InV6Prefix ++ za_srcIP ex_zaddr) 5859) 100).
Definition ex_z2 : Client unit msgCache := (ret_or (None, ex_client0) (requestLoop_msg ex_z1 0 101 None None)).2.
Definition ex_z3 : Client unit msgCache := (Read_iter ex_z2).2.

Lemma ex_listened : ∃ z : @zstate unit msgCache,
  zreach (sends ex_stream 3 ex_sess) 5858 true ex_client0 ex_rx 0 z ∧ out (zr_sys z) = [ex_stream 1].
Proof.
  set (zs := ex_rx <| rxFrames := <[Z.to_nat 0 := ex_rx_frame]> (rxFrames ex_rx) |>).
  destruct (listen_turn zs 0 0 None) as [[[zs' [i'|]] cbs]| |] eqn:E; try (vm_compute in E; discriminate).
  assert (cbs = [ex_call]) as -> by (vm_compute in E; injection E as _ _ <-; reflexivity).
  destruct (on_frame 5858 (listen0 0) ex_call 100) as [[[[p a]|] l']| |] eqn:Eo; try (vm_compute in Eo; discriminate).
  assert (p = ex_dgram 1 ∧ a = mkUDPAddr (v4InV6Prefix ++ za_srcIP ex_zaddr) 5859) as [-> ->]
    by (vm_compute in Eo; injection Eo as <- <- _; vm_compute; split; reflexivity).
  exists (mkZstate (mkSys ex_z3 [ex_stream 1] []) (mkRun zs' i' 0 [ex_call] [ex_call]) [] l'). split; [|reflexivity].
  apply (zreach_steps _ _ _ _ _ _ (mkSys ex_z2 [] []));
    [|apply (steps_read _ _ ex_z2 [] [] (ReadMsgs [ex_stream 1] 1)); vm_compute; reflexivity].
  apply (zreach_steps _ _ _ _ _ _ (mkSys ex_z1 [] []));
    [|apply (steps_msg _ _ ex_z1 [] [] 0 101 None None None); [vm_compute; congruence|vm_compute; reflexivity]].
  eapply zreach_step; [eapply zreach_step; [eapply zreach_step; [apply zreach_init|]|]|].
  - apply (zstep_kernel _ _ _ _ ex_rx 0 0 [] [] zs [ex_call]); [|apply Forall_singleton; exact ex_call_ok].
    apply (fill_frame ex_rx 0 ex_rx_frame); [reflexivity|vm_compute; reflexivity|vm_compute; intuition congruence|vm_compute; reflexivity].
  - apply (zstep_turn _ _ _ _ zs 0 0 [ex_call] [] 0 None). exact E.
  - apply (zstep_frame _ _ _ (sys_init ex_client0) _ ex_call [] (listen0 0) 100 (ex_dgram 1) _ l' ex_z1 Eo);
      [vm_compute; reflexivity|vm_compute; reflexivity].
Qed.

Lemma ring_delivery_witness :
  ∃ z : @zstate unit msgCache, out (zr_sys z) = [ex_stream 1] ∧
    out (zr_sys z) = map ex_stream (seqZ 1 (len (out (zr_sys z)))).
Proof.
  destruct ex_listened as (z & Hr & Ht). exists z. split; [exact Ht|].
  apply (ring_delivery ex_stream ex_sess 1 3 0 tt [] 5858 [] 100 ex_rx 0 true z);
    [lia|lia|right; vm_compute; intuition congruence|intros q; vm_compute; congruence|reflexivity|unfold max_u64; lia|exact ex_rx_ok|exact ex_rx_empty|exact Hr].
Defined.
