(* ===== verification/ZWire.v ===== *)
(** * From [Send] to the receiver (src/zsockif.go, src/zsocket.go)

    A sender that calls [Send] again and again, with the kernel that sends its
    frames ([ZTxRun]), and the frame parser of a receiver ([ZListen]): the
    datagrams that come out of the frames on the wire are those sent. *)

From Stdlib Require Import Strings.Byte.
From S2P Require Import Prelude.
From S2P Require Import GoBytes.
From S2P Require Import NetAddr.
From S2P Require Import RawUdp.
From S2P Require Import ZRing.
From S2P Require Import ZRingProps.
From S2P Require Import ZTxRun.
From S2P Require Import ZSend.
From S2P Require Import ZRx.
From S2P Require Import Client.
From S2P Require Import ZListen.

Section Wire.
Context (CalculateChecksum : list byte → Z) (Hck : checksum_law CalculateChecksum).

(** The interface, the kernel's place in its ring, the frames on the wire and the
    datagrams sent. *)
Record sender : Type := mkSender {
  sd_if : zsockIf;
  sd_head : Z;
  sd_wire : list (list byte);
  sd_sent : list (list byte)
}.

(** [Send] of a payload that fits returns without an error; the kernel runs during its polls and during
    [Sendto], and at any time between the calls. *)
Inductive sdstep : sender → sender → Prop :=
| sd_kernel c zs h wire sent fs' h' w : zi_zs c = Some zs → kstep (txFrames zs) h fs' h' w →
    sdstep (mkSender c h wire sent) (mkSender (c <| zi_zs := Some (zs <| txFrames := fs' |>) |>) h' (wire ++ w) sent)
| sd_send c zs h wire sent buff env fs h1 w1 i zs1 fs2 h2 w2 n c' :
    zi_zs c = Some zs → packet_fits zs buff → polled (txIndex zs) (txFrames zs) h (se_polls env) fs h1 w1 →
    copy_packet CalculateChecksum c buff env zs = Ret (i, None, zs1) →
    flush_set (frameNum zs1) (txFrames zs1) (txWrittenIndex zs1) (Z.to_nat (txWritten zs1)) = Ret fs2 →
    krun fs2 h1 (se_send env fs2) h2 w2 → se_err env = None →
    Send CalculateChecksum c buff env = Ret (n, None, c') →
    sdstep (mkSender c h wire sent) (mkSender c' h2 (wire ++ w1 ++ w2) (sent ++ [buff])).

Inductive sdreach (c0 : zsockIf) (h0 : Z) : sender → Prop :=
| sdreach_init : sdreach c0 h0 (mkSender c0 h0 [] [])
| sdreach_step s s' : sdreach c0 h0 s → sdstep s s' → sdreach c0 h0 s'.

(** A send is a copy and a flush of [ZTxRun]. *)
Lemma Send_flushes c zs buff env i zs1 n c' : zi_zs c = Some zs → se_err env = None →
  copy_packet CalculateChecksum c buff env zs = Ret (i, None, zs1) →
  Send CalculateChecksum c buff env = Ret (n, None, c') →
  ∃ flushed errs zs2, FlushFrames zs1 (se_send env) None (se_stats env) = Ret (flushed, None, errs, zs2) ∧
    c' = c <| zi_zs := Some zs2 |>.
Proof.
  intros Hzs Herr Hc E. unfold Send, the_socket in E. destruct (zi_bRead c); [done|]. rewrite Hzs in E.
  cbn [mbind outcome_mbind] in E. rewrite Hc in E. cbn [mbind outcome_mbind] in E. rewrite Herr in E.
  inv_bind E. destruct a as [[[fl [e|]] errs] zs2]; [done|]. injection E as _ <-. by exists fl, errs, zs2.
Qed.

(** What is kept: the address, what [ZTxRun] keeps of the ring, and that every
    datagram sent has a frame the receiver can read. *)
Record sender_ok (a : ZAddr) (s : sender) : Prop := {
  so_addr : zi_addr (sd_if s) = a;
  so_ring : ∃ zs r, zi_zs (sd_if s) = Some zs ∧
    tx_inv (mkTx zs (sd_head s) (sd_wire s) (map (λ b, raw_frame a (len b) b) (sd_sent s))) r;
  so_fits : Forall (λ b, 42 + len b < 65536) (sd_sent s)
}.

Lemma sender_ok_step a s s' : wf_addr a → sender_ok a s → sdstep s s' → sender_ok a s'.
Proof.
  intros Ha [Had (zs0 & r & Hzs0 & Hinv) Hfit] Hst.
  destruct Hst as [c zs h wire sent fs' h' w Hzs Hk|c zs h wire sent buff env fs h1 w1 i zs1 fs2 h2 w2 n c' Hzs Hpf Hpo Hc Hfs Hkr Herr E];
    cbn [sd_if sd_head sd_wire sd_sent] in *; rewrite Hzs in Hzs0; injection Hzs0 as <-.
  - split; [done| |done]. destruct (tx_inv_kernel _ _ _ _ _ _ _ _ Hinv Hk) as (r' & Hinv'). by exists (zs <| txFrames := fs' |>), r'.
  - destruct (Send_flushes c zs buff env i zs1 n c' Hzs Herr Hc E) as (fl & errs & zs2 & Ef & ->).
    pose proof (tk_size _ (ti_ok _ _ Hinv)) as Hsz. destruct Hpf as [Hpos Hroom]. cbn [tr_zs] in Hsz.
    pose proof (frame_puts CalculateChecksum Hck c buff (txFrameSize zs) ltac:(by rewrite Had) Hpos Hroom ltac:(lia)) as Hputs.
    unfold copy_packet in Hc.
    destruct (copy_polled zs h r _ _ _ _ _ _ _ _ _ _ _ (ti_ok _ _ Hinv) (ti_queue _ _ Hinv) Hputs Hpo Hc)
      as (_ & _ & _ & _ & f' & _ & _ & _ & _ & _ & _ & _ & Hw1).
    pose proof (tk_written _ (ti_ok _ _ Hinv)) as Hwr. cbn [tr_zs] in Hwr.
    destruct (tx_inv_copy _ _ _ _ _ _ _ _ _ _ _ _ _ _ _ _ Hinv Hputs Hpo Hc) as (r1 & Hinv1).
    destruct (tx_inv_flush _ _ _ _ _ _ _ _ _ _ _ _ _ Hinv1 ltac:(lia) Hfs Hkr Ef) as (r2 & Hinv2).
    split; cbn [sd_if sd_head sd_wire sd_sent].
    + done.
    + exists zs2, r2. split; [done|]. rewrite map_app, app_assoc. unfold frame_of in Hinv2. by rewrite Had in Hinv2.
    + apply Forall_app. split; [done|]. apply Forall_singleton. lia.
Qed.

Lemma sender_ok_reach c0 zs0 s : zi_zs c0 = Some zs0 → wf_addr (zi_addr c0) → tx_ok zs0 → txWritten zs0 = 0 →
  (∀ i, 0 <= i < frameNum zs0 → tp_status (slot (txFrames zs0) i) ≠ TP_STATUS_SEND_REQUEST) →
  sdreach c0 (txIndex zs0) s → sender_ok (zi_addr c0) s.
Proof.
  intros Hzs Ha Hok Hw Hno Hr. induction Hr as [|s s' _ IH Hst]; [|by eapply sender_ok_step].
  split; [done| |constructor]. exists zs0. destruct (tx_inv_reach zs0 _ Hok Hw Hno (txreach_init zs0)) as (r & Hinv).
  by exists r.
Qed.
End Wire.

(** ** Properties *)

(** C25: what is sent is what is received.  The calls of [Send] are those that
    return without an error, with payloads that fit a frame of the ring (a longer
    payload is cut, and a frame whose [Sendto] failed may go out later).  In every
    interleaving of such calls with the kernel, the frames on the wire are the
    frames of a prefix of the datagrams sent, in order and each once; and the frame parser of a receiver,
    with anything behind the frame in its ring, gets from each frame exactly the
    datagram, when it listens on the sender's port, and nothing otherwise.  So
    what a receiver on that port takes from the wire is a prefix of what was
    sent. *)
Theorem Send_reaches_receiver `{NetTypesSpec} CalculateChecksum c0 zs0 (s : sender)
    (Hck : checksum_law CalculateChecksum) (Hzs : zi_zs c0 = Some zs0) (Haddr : wf_addr (zi_addr c0))
    (Hport : 0 <= za_port (zi_addr c0) < 65535) (Hok : tx_ok zs0) (Hw : txWritten zs0 = 0)
    (Hno : ∀ i, 0 <= i < frameNum zs0 → tp_status (slot (txFrames zs0) i) ≠ TP_STATUS_SEND_REQUEST)
    (Hreach : sdreach CalculateChecksum c0 (txIndex zs0) s) :
  sd_wire s = map (frame_of c0) (take (length (sd_wire s)) (sd_sent s)) ∧
  ∀ i f, sd_wire s !! i = Some f → ∃ b, sd_sent s !! i = Some b ∧
    ∀ port rest tl st now, ∃ st', on_frame port st (f ++ rest, tl, len f) now =
      Ret (if za_port (zi_addr c0) =? port
           then Some (b, mkUDPAddr (v4InV6Prefix ++ za_srcIP (zi_addr c0)) (za_port (zi_addr c0) + 1)) else None, st').
Proof.
  destruct (sender_ok_reach CalculateChecksum Hck c0 zs0 s Hzs Haddr Hok Hw Hno Hreach) as [_ (zs & r & _ & Hinv) Hfit].
  pose proof (ti_order _ _ Hinv) as Ho. cbn [tr_wire tr_copied] in Ho.
  assert (sd_wire s = map (frame_of c0) (take (length (sd_wire s)) (sd_sent s))) as Hpre.
  { unfold frame_of. rewrite <- firstn_map, <- Ho. by rewrite take_app_length. }
  split; [done|]. intros i f Hi. rewrite Hpre, list_lookup_fmap in Hi.
  destruct (take (length (sd_wire s)) (sd_sent s) !! i) as [b|] eqn:Eb; [|done]. injection Hi as <-.
  exists b. apply lookup_take_Some in Eb as [Eb _]. split; [done|]. intros port rest tl st now.
  rewrite Forall_lookup in Hfit. specialize (Hfit i b Eb).
  unfold frame_of. rewrite (len_own_frame (zi_addr c0) b Haddr).
  rewrite on_own_frame by done. cbv zeta. destruct (_ =? port); by eexists.
Qed.

(** ** Witness: one datagram of two octets is sent. *)

#[local] Existing Instance ex_nettypes.
#[local] Existing Instance ex_nettypes_spec.

Definition ex_send_env : send_env := mkSendEnv [] [] ex_send None None.
Definition ex_w1 : ZSocket :=
  match copy_packet ex_checksum ex_zif [x41; x42] ex_send_env ex_ring with Ret (_, _, zs) => zs | _ => ex_ring end.
Definition ex_w_handed : list ringFrame :=
  match flush_set 2 (txFrames ex_w1) 0 1 with Ret fs => fs | _ => [] end.
Definition ex_w2 : zsockIf :=
  match Send ex_checksum ex_zif [x41; x42] ex_send_env with Ret (_, _, c) => c | _ => ex_zif end.
Definition ex_frame : list byte := frame_of ex_zif [x41; x42].

Lemma ex_wire : sdreach ex_checksum ex_zif 0 (mkSender ex_w2 1 [ex_frame] [[x41; x42]]).
Proof.
  eapply sdreach_step; [apply sdreach_init|].
  apply (sd_send ex_checksum ex_zif ex_ring 0 [] [] [x41; x42] ex_send_env (txFrames ex_ring) 0 [] 0 ex_w1 ex_w_handed 1 [ex_frame] 2 ex_w2);
    [reflexivity|vm_compute; intuition congruence|apply polled_ready; vm_compute; reflexivity|vm_compute; reflexivity..| |reflexivity|vm_compute; reflexivity].
  assert (frame_data (slot ex_w_handed 0) = ex_frame) as <- by (vm_compute; reflexivity).
  apply (krun_cons _ _ (ex_send ex_w_handed) 1 [frame_data (slot ex_w_handed 0)] _ _ []); [|apply krun_nil].
  apply (k_send ex_w_handed 0). vm_compute. reflexivity.
Qed.

Lemma Send_reaches_receiver_witness :
  ∃ st', on_frame 5858 (listen0 0) (ex_frame ++ [x00], 44, len ex_frame) 100 =
    Ret (Some ([x41; x42], mkUDPAddr (v4InV6Prefix ++ za_srcIP ex_zaddr) 5859), st').
Proof.
  destruct (Send_reaches_receiver ex_checksum ex_zif ex_ring (mkSender ex_w2 1 [ex_frame] [[x41; x42]]) ex_checksum_law)
    as [_ Hrec]; [reflexivity|vm_compute; intuition congruence|vm_compute; intuition congruence|exact ex_ring_ok|reflexivity| |exact ex_wire|].
  - intros i Hi. assert (i = 0 ∨ i = 1) as [-> | ->] by (cbn in Hi; lia); vm_compute; congruence.
  - destruct (Hrec 0%nat ex_frame eq_refl) as (b & Hb & Hon). injection Hb as <-.
    exact (Hon 5858 [x00] 44 (listen0 0) 100).
Defined.
