(* ===== verification/ZSetup.v ===== *)
(** * Opening a ring (src/zsocket.go)

    [NewZSocket]: checking the sizes, negotiating the packet version, computing
    the layout of the ring, and cutting the mapped memory into frames.  The
    results of the system calls are an argument. *)

From Stdlib Require Import Strings.Byte.
From S2P Require Import Prelude.
From S2P Require Import GoBytes.
From S2P Require Import ZRing.
From S2P Require Import ZRx.

Definition framesPerBlock : Z := 1024.
Definition MINIMUM_FRAME_SIZE : Z := Z.shiftl TPACKET_ALIGNMENT 6.
Definition MAXIMUM_FRAME_SIZE : Z := Z.shiftl TPACKET_ALIGNMENT 11.
Definition ENABLE_RX : Z := 1.
Definition ENABLE_TX : Z := 2.
Definition DISABLE_TX_LOSS : Z := 4.
Definition TPacketVersion1 : Z := 0.
Definition TPacketVersion3 : Z := 2.

Definition calculateLargestFrame (ceil : Z) : outcome Z :=
  for_loop go_fuel (λ i, if i <? ceil then Ret (inl (u64 (Z.shiftl i 1))) else Ret (inr i)) MINIMUM_FRAME_SIZE.

(** The struct [tpacketReq]. *)
Record tpacketReq : Type := mkTpacketReq {
  req_blockSize : Z;
  req_blockNum : Z;
  req_frameSize : Z;
  req_frameNum : Z
}.

(** The layout [NewZSocket] computes, for a version and a page size. *)
Definition ring_layout (v3 : bool) (pageSize maxFrameSize maxTotalFrames : Z) : outcome tpacketReq :=
  frameSize ← (if maxFrameSize <? pageSize then calculateLargestFrame maxFrameSize
               else if pageSize =? 0 then Panic else Ret (maxFrameSize / pageSize * pageSize));
  let perBlock := if v3 then framesPerBlock else 8 in
  let blockSize := u64 (frameSize * perBlock) in
  let blockNum := maxTotalFrames / perBlock in
  if frameSize =? 0 then Panic
  else Ret (mkTpacketReq blockSize blockNum frameSize (u64 (blockSize / frameSize * blockNum))).

(** [n] frames of [size] octets from frame [i] of the mapped memory on; a
    transmit frame is sliced again at [start] for its [txStart].  A slice of the
    mapping stands in the ring as its octets: the slices do not overlap
    ([cut_frames_spec]), so a write through one is not seen through another. *)
Fixpoint cut_frames (mem : list byte) (size start i : Z) (n : nat) : outcome (list ringFrame) :=
  match n with
  | O => Ret []
  | S n' =>
      r ← slice (i * size) (i * size + size) mem;
      _ ← slice start (len r) r;
      rest ← cut_frames mem size start (i + 1) n';
      Ret (mkRingFrame r 0 :: rest)
  end.

(** The system calls of [NewZSocket]. *)
Record zcalls : Type := mkZcalls {
  zc_socket : zerror + Z;
  zc_bind : option zerror;
  zc_version : zerror + Z;
  zc_setversion : option zerror;
  zc_pagesize : Z;
  zc_rxring : option zerror;
  zc_txring : option zerror;
  zc_mmap : zerror + list byte;
  zc_stats : option (Z * Z)
}.

(** A [ZSocket] with both of its sides. *)
Record ZSock : Type := mkZSock {
  zk_fd : Z;
  zk_ifIndex : Z;
  zk_frameSize : Z;
  zk_tx : ZSocket;
  zk_rx : RxSocket
}.

Definition has_flag (options flag : Z) : bool := Z.land options flag =? flag.

(** The end of [NewZSocket]: the struct over the mapped memory [mem]; [st] are the
    kernel's counters. *)
Definition build_zsocket (ethIndex sock : Z) (rx tx lossDisabled v3 : bool) (req : tpacketReq)
    (mem : list byte) (st : option (Z * Z)) : outcome (zerror + ZSock) :=
  let frameNum := i32 (req_frameNum req) in
  let frameSize := u16 (req_frameSize req) in
  rxfs ← (if rx && negb v3 then cut_frames mem frameSize 0 0 (Z.to_nat frameNum) else Ret []);
  txfs ← (if tx then cut_frames mem frameSize TX_START 0 (Z.to_nat frameNum) else Ret []);
  let txz := mkZSocket 0 0 0 frameNum tx lossDisabled
    (if tx then u16 (frameSize - u16 TX_START) else 0) 0 0 (if tx then -1 else 0) txfs 0 0 in
  let rxz := mkRxSocket 0 0 (i64 (req_blockNum req)) (i64 (req_blockSize req)) mem false v3 frameNum rx rxfs in
  Ret (inr (mkZSock sock ethIndex frameSize (updateSocketStats txz st) rxz)).

Definition NewZSocket (ethIndex options maxFrameSize maxTotalFrames : Z) (os : zcalls)
    : outcome (zerror + ZSock) :=
  if (maxFrameSize <? MINIMUM_FRAME_SIZE) || (MAXIMUM_FRAME_SIZE <? maxFrameSize)
     || (0 <? Z.land maxFrameSize (u64 (maxFrameSize - 1)))
  then Ret (inl zBadFrameSize)
  else if (maxTotalFrames <? 16) && (maxTotalFrames mod 8 =? 0)
  then Ret (inl zBadTotalFrames)
  else
    let tx := has_flag options ENABLE_TX in
    let rx := if tx then false else has_flag options ENABLE_RX in
    let lossDisabled := has_flag options DISABLE_TX_LOSS in
    match zc_socket os with
    | inl e => Ret (inl e)
    | inr sock =>
        match zc_bind os with
        | Some e => Ret (inl e)
        | None =>
            match zc_version os with
            | inl e => Ret (inl e)
            | inr vv =>
                let v3 := rx && negb (vv =? TPacketVersion3) && bool_decide (zc_setversion os = None) in
                req ← ring_layout v3 (zc_pagesize os) maxFrameSize maxTotalFrames;
                match (if rx then zc_rxring os else None) with
                | Some e => Ret (inl e)
                | None =>
                    match (if tx then zc_txring os else None) with
                    | Some e => Ret (inl e)
                    | None =>
                        match zc_mmap os with
                        | inl e => Ret (inl e)
                        | inr mem =>
                            build_zsocket ethIndex sock rx tx lossDisabled v3 req mem (zc_stats os)
                        end
                    end
                end
            end
        end
    end.

(** [MaxPacketSize]: [TPACKET_HDRLEN] is the aligned header and a
    [struct sockaddr_ll] of 20 octets. *)
Definition TPACKET_HDRLEN : Z := tpAlign sizeof_tpacket_hdr + 20.
Definition MaxPacketSize (z : ZSock) : Z := u16 (zk_frameSize z - u16 TPACKET_HDRLEN).

(** ** Lemmas *)

(** The sizes [calculateLargestFrame] goes through. *)
Definition frame_sizes : list Z := [1024; 2048; 4096; 8192; 16384; 32768].

Lemma calculateLargestFrame_spec c : 0 <= c <= 32768 →
  ∃ r, calculateLargestFrame c = Ret r ∧ r ∈ frame_sizes ∧ c <= r ∧ (r = 1024 ∨ r < 2 * c).
Proof.
  intros Hc. unfold calculateLargestFrame. change MINIMUM_FRAME_SIZE with 1024.
  apply (for_loop_spec _ (λ i, i ∈ frame_sizes ∧ (i = 1024 ∨ i < 2 * c))
    (λ r, r ∈ frame_sizes ∧ c <= r ∧ (r = 1024 ∨ r < 2 * c)) (λ i, 65536 - i)).
  - intros i [Hi Hor]. destruct (i <? c) eqn:E; zbool; [left|right; by exists i].
    eexists. split; [done|]. unfold frame_sizes in *. rewrite !elem_of_cons, elem_of_nil in Hi.
    rewrite Z.shiftl_mul_pow2, u64_small by (unfold max_u64; lia).
    split; [|lia]. split; [|lia]. rewrite !elem_of_cons. lia.
  - intros i [Hi _]. unfold frame_sizes in Hi. rewrite !elem_of_cons, elem_of_nil in Hi. lia.
  - split; [by left|by left].
  - unfold go_fuel. lia.
Qed.

(** The frame size the layout ends up with. *)
Lemma ring_layout_spec (v3 : bool) ps mfs total : 0 < ps → 1024 <= mfs <= 32768 → 0 <= total < 2147483648 →
  let per := if v3 then 1024 else 8 in
  ∃ fs, 512 <= fs <= 32768 ∧ ring_layout v3 ps mfs total =
    Ret (mkTpacketReq (fs * per) (total / per) fs (per * (total / per))).
Proof.
  intros Hps Hm Ht per. unfold ring_layout.
  assert (∃ fs, 512 <= fs <= 32768 ∧
    (if mfs <? ps then calculateLargestFrame mfs
     else if ps =? 0 then Panic else Ret (mfs / ps * ps)) = Ret fs) as (fs & Hfs & ->).
  { destruct (mfs <? ps) eqn:E; zbool.
    - destruct (calculateLargestFrame_spec mfs) as (r & -> & Hr & Hle & _); [lia|].
      exists r. split; [|done]. unfold frame_sizes in Hr. rewrite !elem_of_cons, elem_of_nil in Hr. lia.
    - rewrite (proj2 (Z.eqb_neq ps 0)) by lia. eexists. split; [|done].
      pose proof (Z.div_mod mfs ps). pose proof (Z.mod_pos_bound mfs ps).
      assert (1 <= mfs / ps) by (apply Z.div_le_lower_bound; lia). nia. }
  exists fs. split; [done|]. cbn [mbind outcome_mbind]. change framesPerBlock with 1024. fold per.
  rewrite (proj2 (Z.eqb_neq fs 0)) by lia.
  assert (0 < per <= 1024) as Hper by (unfold per; destruct v3; lia).
  rewrite (u64_small (fs * per)) by (unfold max_u64; nia).
  rewrite (Z.mul_comm fs per) at 2. rewrite Z.div_mul by lia.
  assert (0 <= per * (total / per) <= total) as Hb.
  { pose proof (Z.div_pos total per). pose proof (Z.mul_div_le total per). nia. }
  rewrite u64_small by (unfold max_u64; lia). done.
Qed.

Lemma cut_frames_spec mem size start n : ∀ i, 0 <= i → 0 <= start <= size → (i + Z.of_nat n) * size <= len mem →
  ∃ fs, cut_frames mem size start i n = Ret fs ∧ len fs = Z.of_nat n ∧
    concat (map raw fs) = take (Z.to_nat (Z.of_nat n * size)) (drop (Z.to_nat (i * size)) mem) ∧
    ∀ k f, fs !! k = Some f →
      f = mkRingFrame (take (Z.to_nat size) (drop (Z.to_nat ((i + Z.of_nat k) * size)) mem)) 0 ∧
      len (raw f) = size.
Proof.
  induction n as [|n IH]; intros i Hi Hs Hm; [exists []; split; [done|]; split; [done|]; split; [done|]; by intros [|k]|].
  cbn [cut_frames]. rewrite (slice_Ret (i * size)) by nia. cbn [mbind outcome_mbind].
  replace (i * size + size - i * size) with size by lia.
  set (r := take (Z.to_nat size) (drop (Z.to_nat (i * size)) mem)).
  assert (len r = size) as Hr by (unfold r, len in *; rewrite length_take, length_drop; nia).
  rewrite (slice_Ret start) by lia. cbn [mbind outcome_mbind].
  destruct (IH (i + 1)) as (fs & -> & Hl & Hc & Hf); [lia|lia|nia|]. cbn [mbind outcome_mbind].
  eexists. split; [done|]. split; [rewrite len_cons; lia|].
  split.
  { cbn [map concat raw]. rewrite Hc. unfold r.
    replace (Z.to_nat (Z.of_nat (S n) * size)) with (Z.to_nat size + Z.to_nat (Z.of_nat n * size))%nat by nia.
    rewrite <- take_take_drop, drop_drop. do 3 f_equal. nia. }
  intros [|k] f Hk; cbn in Hk; [simplify_eq; rewrite Z.add_0_r; done|].
  apply Hf in Hk as [-> Hlr]. split; [|done]. do 4 f_equal. lia.
Qed.

(** A fresh ring: nothing written, every frame free. *)
Lemma fresh_tx_ok zs : 0 < frameNum zs < 2147483648 → len (txFrames zs) = frameNum zs →
  0 <= txFrameSize zs < 65536 →
  (∀ k f, txFrames zs !! k = Some f → mb f = 0 ∧ len (raw f) = TX_START + txFrameSize zs) →
  txIndex zs = 0 → txWritten zs = 0 → txWrittenIndex zs = -1 → tx_ok zs ∧ pending zs = [].
Proof.
  intros Hn Hl Hs Hf Hi Hw Hwi. split; [|unfold pending, pending_in; by rewrite Hw].
  assert (∀ i, in_window zs i = false) as Hno.
  { intros i. unfold in_window, age. rewrite Hw. apply Z.ltb_ge, Z.mod_pos_bound. lia. }
  constructor; rewrite ?Hi, ?Hw, ?Hwi; try done; try lia.
  - apply Forall_lookup. intros k f Hk. by apply (Hf k).
  - intros i f _ Hg. rewrite Hno. by apply (Hf (Z.to_nat i)).
  - intros i f _ _ Hin. by rewrite Hno in Hin.
Qed.

(** Opening for transmission when the system calls succeed. *)
Section OpenTx.
Context (ethIndex options mfs total : Z) (os : zcalls) (sock vv : Z) (mem : list byte).
Context (Htx : has_flag options ENABLE_TX = true).
Context (Hmfs : 1024 <= mfs <= 32768) (Hpow : Z.land mfs (mfs - 1) = 0).
Context (Htotal : 0 <= total < 2147483648) (Hguard : 16 <= total ∨ total mod 8 ≠ 0).
Context (Hps : 0 < zc_pagesize os).
Context (Hsock : zc_socket os = inr sock) (Hbind : zc_bind os = None) (Hver : zc_version os = inr vv).
Context (Hring : zc_txring os = None) (Hmap : zc_mmap os = inr mem).
Context (Hmem : ∀ req, ring_layout false (zc_pagesize os) mfs total = Ret req →
  len mem = req_blockSize req * req_blockNum req).

Lemma NewZSocket_opens : ∃ z, NewZSocket ethIndex options mfs total os = Ret (inr z) ∧
  frameNum (zk_tx z) = 8 * (total / 8) ∧ len (txFrames (zk_tx z)) = frameNum (zk_tx z) ∧
  0 <= txFrameSize (zk_tx z) < 65536 ∧
  (∀ k f, txFrames (zk_tx z) !! k = Some f → mb f = 0 ∧ len (raw f) = TX_START + txFrameSize (zk_tx z) ∧
     raw f = take (Z.to_nat (zk_frameSize z)) (drop (k * Z.to_nat (zk_frameSize z)) mem)) ∧
  zk_frameSize z = TX_START + txFrameSize (zk_tx z) ∧ concat (map raw (txFrames (zk_tx z))) = mem ∧
  txIndex (zk_tx z) = 0 ∧ txWritten (zk_tx z) = 0 ∧ txWrittenIndex (zk_tx z) = -1 ∧
  txEnabled (zk_tx z) = true ∧ rxEnabled (zk_rx z) = false.
Proof.
  destruct (ring_layout_spec false (zc_pagesize os) mfs total) as (fs & Hfs & Elay); [lia..|].
  specialize (Hmem _ Elay). cbn [req_blockSize req_blockNum] in Hmem.
  pose proof (Z.mul_div_le total 8 ltac:(lia)). pose proof (Z.div_pos total 8).
  unfold NewZSocket. change MINIMUM_FRAME_SIZE with 1024. change MAXIMUM_FRAME_SIZE with 32768.
  rewrite (u64_small (mfs - 1)) by (unfold max_u64; lia). rewrite Hpow.
  rewrite (proj2 (Z.ltb_ge mfs 1024)), (proj2 (Z.ltb_ge 32768 mfs)) by lia.
  assert ((total <? 16) && (total mod 8 =? 0) = false) as ->.
  { destruct (total <? 16) eqn:E1, (total mod 8 =? 0) eqn:E2; zbool; done || lia. }
  cbn [orb Z.ltb Z.compare]. rewrite Htx, Hsock, Hbind, Hver. cbn [andb]. rewrite Elay.
  cbn [mbind outcome_mbind]. rewrite Hring, Hmap. unfold build_zsocket. cbn [req_frameNum req_frameSize req_blockNum req_blockSize].
  rewrite (i32_small (8 * (total / 8))), (u16_small fs) by lia.
  destruct (cut_frames_spec mem fs TX_START (Z.to_nat (8 * (total / 8))) 0) as (frs & -> & Hl & Hcat & Hf);
    [lia|change TX_START with 32; lia|rewrite Z2Nat.id by lia; lia|].
  cbn [mbind outcome_mbind]. change (u16 TX_START) with 32. rewrite (u16_small (fs - 32)) by lia.
  eexists. split; [done|]. cbn [zk_tx zk_rx zk_frameSize rxEnabled]. rewrite Z2Nat.id in Hl by lia.
  set (txz := updateSocketStats _ (zc_stats os)).
  assert (frameNum txz = 8 * (total / 8) ∧ txFrames txz = frs ∧ txFrameSize txz = fs - 32 ∧ txIndex txz = 0 ∧
    txWritten txz = 0 ∧ txWrittenIndex txz = -1 ∧ txEnabled txz = true)
    as (E1 & E2 & E3 & E4 & E5 & E6 & E7) by (unfold txz; by destruct (zc_stats os) as [[p d]|]).
  rewrite E1, E2, E3. split_and!; try done; try lia.
  - intros k f Hk. destruct (Hf k f Hk) as [-> Hr]. split; [done|]. rewrite Hr. change TX_START with 32.
    split; [lia|]. cbn [raw]. do 2 f_equal. nia.
  - change TX_START with 32. lia.
  - rewrite Hcat. change (Z.to_nat (0 * fs)) with 0%nat. rewrite drop_0. apply take_ge. unfold len in Hmem. nia.
Qed.
End OpenTx.

(** ** Properties *)

(** C28: opening for transmission.  For a frame size that is a power of two from
    1024 to 32768 and at least 16 frames, when the system calls succeed and the
    mapping has the size asked for, [NewZSocket] does not panic and gives a
    transmit ring that satisfies the ring's invariant: an empty queue, with the
    receive ring off.  Its frames are as many as asked for, rounded down to a
    multiple of 8, and they tile the mapping: frame [k] is the mapping from
    [k * frameSize] on for [frameSize] octets, and the frames one after the other
    are the whole mapping, so that no two share an octet and none is left over. *)
Theorem NewZSocket_tx ethIndex options mfs total os sock vv mem
    (Htx : has_flag options ENABLE_TX = true)
    (Hmfs : 1024 <= mfs <= 32768) (Hpow : Z.land mfs (mfs - 1) = 0)
    (Htotal : 16 <= total < 2147483648) (Hps : 0 < zc_pagesize os)
    (Hsock : zc_socket os = inr sock) (Hbind : zc_bind os = None) (Hver : zc_version os = inr vv)
    (Hring : zc_txring os = None) (Hmap : zc_mmap os = inr mem)
    (Hmem : ∀ req, ring_layout false (zc_pagesize os) mfs total = Ret req →
       len mem = req_blockSize req * req_blockNum req) :
  ∃ z, NewZSocket ethIndex options mfs total os = Ret (inr z) ∧
    tx_ok (zk_tx z) ∧ pending (zk_tx z) = [] ∧ txEnabled (zk_tx z) = true ∧
    frameNum (zk_tx z) = 8 * (total / 8) ∧ rxEnabled (zk_rx z) = false ∧
    zk_frameSize z = TX_START + txFrameSize (zk_tx z) ∧
    (∀ k f, txFrames (zk_tx z) !! k = Some f →
       raw f = take (Z.to_nat (zk_frameSize z)) (drop (k * Z.to_nat (zk_frameSize z)) mem)) ∧
    concat (map raw (txFrames (zk_tx z))) = mem.
Proof.
  destruct (NewZSocket_opens ethIndex options mfs total os sock vv mem)
    as (z & E & En & El & Es & Ef & Efs & Ecat & Ei & Ew & Ewi & Et & Er); [done|done|done|lia|left; lia|done..|].
  exists z. split; [done|].
  assert (2 <= total / 8) by (apply Z.div_le_lower_bound; lia).
  pose proof (Z.mul_div_le total 8 ltac:(lia)).
  destruct (fresh_tx_ok (zk_tx z)) as [Hok Hp]; [lia|done|done|intros k f Hk; by destruct (Ef k f Hk) as (? & ? & _)|done..|].
  split_and!; try done. intros k f Hk. by destruct (Ef k f Hk) as (_ & _ & ->).
Qed.

(** The guard on the number of frames.  A count from 1 to 7, which the error
    message of [NewZSocket] rules out, passes its guard: the call succeeds with
    a ring of no frames, on which every copy fails as if the ring were full. *)
Lemma tiny_ring_accepted ethIndex options mfs total os sock vv mem
    (Htx : has_flag options ENABLE_TX = true)
    (Hmfs : 1024 <= mfs <= 32768) (Hpow : Z.land mfs (mfs - 1) = 0)
    (Htotal : 0 < total < 8) (Hps : 0 < zc_pagesize os)
    (Hsock : zc_socket os = inr sock) (Hbind : zc_bind os = None) (Hver : zc_version os = inr vv)
    (Hring : zc_txring os = None) (Hmap : zc_mmap os = inr mem)
    (Hmem : ∀ req, ring_layout false (zc_pagesize os) mfs total = Ret req →
       len mem = req_blockSize req * req_blockNum req) :
  ∃ z, NewZSocket ethIndex options mfs total os = Ret (inr z) ∧ txFrames (zk_tx z) = [] ∧
    ∀ buf l fx evs ys, CopyToBuffer (zk_tx z) buf l fx evs ys = Ret (-1, Some zFull, zk_tx z).
Proof.
  destruct (NewZSocket_opens ethIndex options mfs total os sock vv mem)
    as (z & E & En & El & Es & Ef & Efs & Ecat & Ei & Ew & Ewi & Et & Er);
    [done|done|done|lia|right; rewrite Z.mod_small by lia; lia|done..|].
  exists z. split; [done|]. rewrite Z.div_small in En by lia. rewrite En in El. split; [by apply len_zero|].
  intros buf l fx evs ys. unfold CopyToBuffer, getFreeTx. rewrite Et, Ew, En. done.
Qed.

(** ** Witnesses *)

(** System calls that succeed, with the mapping [mem]. *)
Definition ex_calls (mem : list byte) : zcalls :=
  mkZcalls (inr 3) None (inr 0) None 4096 None None (inr mem) None.

(** A mapping of 16 frames of 1024 octets, each filled with its number. *)
Definition ex_mapping : list byte := concat (map (λ k, replicate 1024 (z2b k)) (seqZ 0 16)).

(** Sixteen frames of 1024 octets are opened; the fourth has the octets of the
    fourth part of the mapping. *)
Lemma NewZSocket_tx_witness :
  ∃ z, NewZSocket 2 6 1024 16 (ex_calls ex_mapping) = Ret (inr z) ∧ tx_ok (zk_tx z) ∧
    frameNum (zk_tx z) = 16 ∧
    ∃ f, txFrames (zk_tx z) !! 3%nat = Some f ∧ raw f = replicate 1024 (z2b 3).
Proof.
  destruct (NewZSocket_tx 2 6 1024 16 (ex_calls ex_mapping) 3 0 ex_mapping) as (z & E & Hok & _ & _ & Hn & _ & _ & Hf & _);
    [reflexivity|lia|reflexivity|lia|reflexivity..| |].
  { intros req Hreq. vm_compute in Hreq. injection Hreq as <-. vm_compute. reflexivity. }
  exists z. split; [exact E|]. split; [exact Hok|]. split; [exact Hn|].
  assert (match NewZSocket 2 6 1024 16 (ex_calls ex_mapping) with
          | Ret (inr z) => zk_frameSize z = 1024 ∧ is_Some (txFrames (zk_tx z) !! 3%nat)
          | _ => False end) as H3 by (vm_compute; eauto).
  rewrite E in H3. destruct H3 as [Hz [f Hk]]. exists f. split; [exact Hk|].
  rewrite (Hf 3%nat f Hk), Hz. vm_compute. reflexivity.
Defined.

Lemma tiny_ring_accepted_witness :
  ∃ z, NewZSocket 2 6 1024 7 (ex_calls []) = Ret (inr z) ∧ txFrames (zk_tx z) = [].
Proof.
  destruct (tiny_ring_accepted 2 6 1024 7 (ex_calls []) 3 0 []) as (z & E & Hf & _);
    [reflexivity|lia|reflexivity|lia|reflexivity..| |].
  { intros req Hreq. vm_compute in Hreq. injection Hreq as <-. reflexivity. }
  exists z. split; [exact E|exact Hf].
Defined.
