(* ===== verification/Diag.v ===== *)
(** * Printing and counters (src/zsocket.go, src/socket.go)

    The accessors and the printing functions of the ring and of addresses.  What
    is printed is kept as octets ([Sprintf] of addresses) or as the list of words
    (the status of a frame). *)

From Stdlib Require Import Strings.Byte.
From stdpp Require Import strings.
From S2P Require Import Prelude.
From S2P Require Import GoBytes.
From S2P Require Import NetAddr.
From S2P Require Import UnixSock.
From S2P Require Import ZRing.
From S2P Require Import ZRx.
From S2P Require Import ZSetup.

#[local] Open Scope string_scope.
#[local] Open Scope Z_scope.

(** ** Numbers as text *)

Definition digit (d : Z) : byte := z2b (48 + d).

Fixpoint dec_digits (fuel : nat) (n : Z) : gostring :=
  match fuel with
  | O => []
  | S f => if n <? 10 then [digit n] else (dec_digits f (n / 10) ++ [digit (n mod 10)])%list
  end.

(** The verb [%d]; twenty digits hold every 64-bit integer. *)
Definition fmt_d (z : Z) : gostring := if z <? 0 then x2d :: dec_digits 20 (- z) else dec_digits 20 z.

(** The verb [%02x] of an octet. *)
Definition hex_digit (d : Z) : byte := if d <? 10 then z2b (48 + d) else z2b (87 + d).
Definition fmt_02x (b : byte) : gostring := [hex_digit (b2z b / 16); hex_digit (b2z b mod 16)].

(** ** Addresses *)

Definition dot : byte := x2e.
Definition colon : byte := x3a.

(** [SockaddrInet4.IP] *)
Definition sa_IP (a : SockaddrInet4) : outcome gostring :=
  a0 ← idx (sa_Addr a) 0; a1 ← idx (sa_Addr a) 1; a2 ← idx (sa_Addr a) 2; a3 ← idx (sa_Addr a) 3;
  Ret (fmt_d (b2z a0) ++ dot :: fmt_d (b2z a1) ++ dot :: fmt_d (b2z a2) ++ dot :: fmt_d (b2z a3))%list.

(** [SockaddrInet4.String] *)
Definition sa_String (a : SockaddrInet4) : outcome gostring :=
  ip ← sa_IP a; Ret (ip ++ colon :: fmt_d (sa_Port a))%list.

(** [HardwareAddr.String] *)
Definition hw_String (a : list byte) : outcome gostring :=
  a0 ← idx a 0; a1 ← idx a 1; a2 ← idx a 2; a3 ← idx a 3; a4 ← idx a 4; a5 ← idx a 5;
  Ret (fmt_02x a0 ++ colon :: fmt_02x a1 ++ colon :: fmt_02x a2 ++ colon ::
       fmt_02x a3 ++ colon :: fmt_02x a4 ++ colon :: fmt_02x a5)%list.

(** ** The ring *)

Definition TPacketVersion2 : Z := 1.
Definition TPacketVersionHighestAvailable : Z := -1.

(** [OptTPacketVersion.String] *)
Definition version_String (t : Z) : string :=
  if t =? TPacketVersion1 then "V1"
  else if t =? TPacketVersion2 then "V2"
  else if t =? TPacketVersion3 then "V3"
  else if t =? TPacketVersionHighestAvailable then "HighestAvailable"
  else "InvalidVersion".

(** An error: a text or the number of the system. *)
Inductive errtext : Type :=
| Text (s : string)
| Number (e : Z).

(** [errnoErr], with the numbers of Linux. *)
Definition errnoErr (e : Z) : option errtext :=
  if e =? 0 then None
  else if e =? 11 then Some (Text "try again")
  else if e =? 22 then Some (Text "invalid argument")
  else if e =? 2 then Some (Text "no such file or directory")
  else Some (Number e).

Definition Fd (z : ZSock) : Z := zk_fd z.
Definition MaxPackets (z : ZSock) : Z := frameNum (zk_tx z).
Definition WrittenPackets (z : ZSock) : Z := txWritten (zk_tx z).
Definition PacketOffset : Z := TX_START.

(** [Stats]: the polls and the packets of the listener. *)
Definition Stats (z : ZSock) : Z * Z := (rx_Polls (zk_rx z), rx_Packets (zk_rx z)).

(** Further values of [tp_status] (linux/if_packet.h). *)
Definition TP_STATUS_COPY : Z := 2.
Definition TP_STATUS_LOSING : Z := 4.
Definition TP_STATUS_CSUMNOTREADY : Z := 8.
Definition TP_STATUS_VLAN_VALID : Z := 16.
Definition TP_STATUS_BLK_TMO : Z := 32.
Definition TP_STATUS_VLAN_TPID_VALID : Z := 64.
Definition TP_STATUS_CSUM_VALID : Z := 128.
Definition TP_STATUS_TS_SOFTWARE : Z := 2 ^ 29.
Definition TP_STATUS_TS_RAW_HARDWARE : Z := 2 ^ 31.

Definition word (b : bool) (s : string) : list string := if b then [s] else [].
Definition flag (mask s : Z) : bool := 0 <? Z.land mask s.

Definition printRxTxStatus (s : Z) : list string :=
  (word (flag s TP_STATUS_TS_SOFTWARE) "Software" ++
   word (flag s TP_STATUS_TS_RAW_HARDWARE) "Hardware")%list.

Definition printRxStatus (f : ringFrame) : list string :=
  let s := tp_status f in
  (word (s =? 0) "Kernel" ++
   word (flag TP_STATUS_USER s) "User" ++
   word (flag TP_STATUS_COPY s) "Copy" ++
   word (flag TP_STATUS_LOSING s) "Losing" ++
   word (flag TP_STATUS_CSUMNOTREADY s) "CSUM-NotReady" ++
   word (flag TP_STATUS_VLAN_VALID s) "VlanValid" ++
   word (flag TP_STATUS_BLK_TMO s) "BlkTMO" ++
   word (flag TP_STATUS_VLAN_TPID_VALID s) "VlanTPIDValid" ++
   word (flag TP_STATUS_CSUMNOTREADY s) "CSUM-Valid" ++
   printRxTxStatus s)%list.

Definition printTxStatus (f : ringFrame) : list string :=
  let s := tp_status f in
  (word (s =? 0) "Available" ++
   word (flag s TP_STATUS_SEND_REQUEST) "SendRequest" ++
   word (flag s TP_STATUS_SENDING) "Sending" ++
   word (flag s TP_STATUS_WRONG_FORMAT) "WrongFormat" ++
   printRxTxStatus s)%list.

(** The status of a frame of version 3, at its place in [struct tpacket3_hdr]. *)
Definition tp3_rxReady (raw : list byte) : bool := Z.land (hdr_get 20 4 raw) TP_STATUS_USER =? TP_STATUS_USER.
Definition tp3_rxSet (raw : list byte) : list byte := hdr_set 20 4 TP_STATUS_KERNEL raw.

(** ** Lemmas *)

(** The value of decimal digits. *)
Definition dec_value (s : gostring) : Z := fold_left (λ v c, v * 10 + (b2z c - 48)) s 0.

Lemma b2z_digit d : 0 <= d < 10 → b2z (digit d) = 48 + d.
Proof. intros Hd. unfold digit. rewrite b2z_z2b. unfold u8. apply Z.mod_small. lia. Qed.

Lemma dec_value_digits f n : 0 <= n < 10 ^ Z.of_nat f → dec_value (dec_digits f n) = n.
Proof.
  revert n. induction f as [|f IH]; intros n Hn; cbn [dec_digits]; [cbn in *; lia|].
  rewrite Nat2Z.inj_succ, Z.pow_succ_r in Hn by lia. zcase.
  - unfold dec_value. cbn [fold_left]. rewrite b2z_digit by lia. lia.
  - unfold dec_value. rewrite fold_left_app. fold (dec_value (dec_digits f (n / 10))).
    pose proof (Z.div_mod n 10 ltac:(lia)). pose proof (Z.mod_pos_bound n 10 ltac:(lia)).
    rewrite IH by (split; [apply Z.div_pos; lia|apply Z.div_lt_upper_bound; lia]).
    cbn [fold_left]. rewrite b2z_digit by lia. lia.
Qed.

Lemma digits_no_sep f n sep : 0 <= n → (b2z sep < 48) → sep ∉ dec_digits f n.
Proof.
  intros Hn Hs. revert n Hn. induction f as [|f IH]; intros n Hn; cbn [dec_digits]; [apply not_elem_of_nil|].
  pose proof (Z.mod_pos_bound n 10 ltac:(lia)). zcase.
  - intros Hin. apply list_elem_of_singleton in Hin as ->. rewrite b2z_digit in Hs by lia. lia.
  - rewrite elem_of_app. intros [Hin|Hin]; [by apply IH in Hin; [|apply Z.div_pos; lia]|].
    apply list_elem_of_singleton in Hin as ->. rewrite b2z_digit in Hs by lia. lia.
Qed.

Lemma Split_cons sep s t : sep ∉ s → Split sep (s ++ sep :: t)%list = s :: Split sep t.
Proof.
  intros Hs. induction s as [|x s IH]; cbn; [by rewrite decide_True|].
  apply not_elem_of_cons in Hs as [Hx Hs]. rewrite decide_False by congruence. by rewrite IH.
Qed.

(** The text of an address is its octets in decimal, separated by dots. *)
Lemma sa_IP_roundtrip a : length (sa_Addr a) = 4%nat →
  ∃ s, sa_IP a = Ret s ∧ map dec_value (Split dot s) = map b2z (sa_Addr a).
Proof.
  destruct a as [p addr]. cbn. intros Hl. destruct addr as [|a0 [|a1 [|a2 [|a3 [|]]]]]; try done.
  eexists. split; [reflexivity|]. unfold fmt_d.
  assert (∀ b, (b2z b <? 0) = false ∧ 0 <= b2z b < 10 ^ Z.of_nat 20 ∧ dot ∉ dec_digits 20 (b2z b)) as Hb.
  { intros b. pose proof (b2z_range b). split; [apply Z.ltb_ge; lia|]. split; [lia|].
    apply digits_no_sep; [lia|done]. }
  destruct (Hb a0) as (-> & H0 & N0), (Hb a1) as (-> & H1 & N1), (Hb a2) as (-> & H2 & N2), (Hb a3) as (-> & H3 & N3).
  rewrite !Split_cons, Split_one by done. cbn [map]. by rewrite !dec_value_digits.
Qed.

Lemma elem_of_word b s t : s ∈ word b t ↔ b = true ∧ s = t.
Proof. unfold word. destruct b; rewrite ?list_elem_of_singleton, ?elem_of_nil; intuition congruence. Qed.

Ltac words := repeat match goal with
  | H : _ ∨ _ |- _ => destruct H
  | H : _ ∧ _ |- _ => destruct H
  | H : _ =@{string} _ |- _ => discriminate H
  end.

(** The two words on the checksum always come together. *)
Lemma csum_words f : ("CSUM-Valid" ∈ printRxStatus f) ↔ ("CSUM-NotReady" ∈ printRxStatus f).
Proof.
  unfold printRxStatus, printRxTxStatus. cbv zeta. rewrite !elem_of_app, !elem_of_word.
  split; intros Hin; words; tauto.
Qed.

Lemma flag_false s m : 0 <= m → flag s m = false ↔ Z.land s m = 0.
Proof. intros Hm. unfold flag. rewrite Z.ltb_ge. pose proof (proj2 (Z.land_nonneg s m) (or_intror Hm)). lia. Qed.

(** A frame printed without a pending send is one that a copy may use. *)
Lemma printTx_ready f : txReady f = true ↔
  ("SendRequest" ∉ printTxStatus f) ∧ ("Sending" ∉ printTxStatus f).
Proof.
  unfold txReady. rewrite Z.eqb_eq, Z.land_lor_distr_r, Z.lor_eq_0_iff, <- !flag_false by done.
  unfold printTxStatus, printRxTxStatus. cbv zeta. rewrite !elem_of_app, !elem_of_word, <- !not_true_iff_false.
  split; intros [H1 H2]; split; intros Hin; words; tauto.
Qed.
