(* ===== verification/Flags.v ===== *)
(** * Flags of the command line client (src/cmd/client/main.go)

    The flags [main] declares, read by [flag.Parse] of Go's standard library.
    An error, [-h] and [-help] call the usage function of [main], which ends the
    process with status 2. *)

From Stdlib Require Import Strings.Byte.
From S2P Require Import Prelude.
From S2P Require Import GoBytes.
From S2P Require Import NetAddr.
From S2P Require Import Diag.

(** ** [strconv.ParseInt(s, 0, 64)] *)

(** An ASCII letter in lower case ([c | 0x20]). *)
Definition lower (b : byte) : Z := Z.lor (b2z b) 32.

(** The value of a digit: 0 to 9, a to z in either case. *)
Definition digit_value (c : byte) : option Z :=
  let z := b2z c in
  if (48 <=? z) && (z <=? 57) then Some (z - 48)
  else if (97 <=? lower c) && (lower c <=? 122) then Some (lower c - 97 + 10)
  else None.

(** The base of a number and its digits: a prefix 0b, 0o or 0x, a leading 0 for
    octal, decimal otherwise. *)
Definition base_of (s : gostring) : Z * gostring :=
  match s with
  | x30 :: s1 =>
      match s1 with
      | c :: _ :: _ =>
          if lower c =? 98 then (2, drop 1 s1)
          else if lower c =? 111 then (8, drop 1 s1)
          else if lower c =? 120 then (16, drop 1 s1)
          else (8, s1)
      | _ => (8, s1)
      end
  | _ => (10, s)
  end.

(** The digits, underscores skipped; the number may be of any size. *)
Fixpoint digits_value (base acc : Z) (s : gostring) : option Z :=
  match s with
  | [] => Some acc
  | c :: s' =>
      if decide (c = x5f) then digits_value base acc s'
      else match digit_value c with
           | Some d => if d <? base then digits_value base (acc * base + d) s' else None
           | None => None
           end
  end.

(** What [underscoreOK] has seen last. *)
Inductive saw : Type := SawStart | SawDigit | SawUnderscore | SawOther.
#[export] Instance saw_eq_dec : EqDecision saw.
Proof. solve_decision. Defined.

(** Its loop: an underscore stands between digits, or between prefix and digit. *)
Fixpoint underscore_loop (hex : bool) (st : saw) (s : gostring) : bool :=
  match s with
  | [] => negb (bool_decide (st = SawUnderscore))
  | c :: s' =>
      if (48 <=? b2z c) && (b2z c <=? 57) || hex && (97 <=? lower c) && (lower c <=? 102)
      then underscore_loop hex SawDigit s'
      else if decide (c = x5f) then
        if bool_decide (st = SawDigit) then underscore_loop hex SawUnderscore s' else false
      else if bool_decide (st = SawUnderscore) then false
      else underscore_loop hex SawOther s'
  end.

(** The number without its sign, after the sign is cut. *)
Definition underscoreOK (s : gostring) : bool :=
  match s with
  | x30 :: c :: s' =>
      if (lower c =? 98) || (lower c =? 111) || (lower c =? 120)
      then underscore_loop (lower c =? 120) SawDigit s'
      else underscore_loop false SawStart s
  | _ => underscore_loop false SawStart s
  end.

Definition ParseUint (s : gostring) : option Z :=
  match s with
  | [] => None
  | _ =>
      let '(base, ds) := base_of s in
      match digits_value base 0 ds with
      | None => None
      | Some n =>
          if bool_decide (x5f ∈ ds) && negb (underscoreOK s) then None
          else if max_u64 <? n then None else Some n
      end
  end.

(** [None] is an error of syntax or of range. *)
Definition ParseInt (s : gostring) : option Z :=
  match s with
  | [] => None
  | c :: s' =>
      let '(neg, s) := if decide (c = x2b) then (false, s') else if decide (c = x2d) then (true, s') else (false, s) in
      match ParseUint s with
      | None => None
      | Some un =>
          if negb neg && (2 ^ 63 <=? un) then None
          else if neg && (2 ^ 63 <? un) then None
          else Some (if neg then - un else un)
      end
  end.

(** ** The flags *)

Record flags : Type := mkFlags {
  f_maddr : gostring;
  f_IfName : gostring;
  f_port : Z;
  f_waits : Z;
  f_netMode : gostring
}.
#[export] Instance flags_eta : Eta flags := λ f,
  mkFlags (f_maddr f) (f_IfName f) (f_port f) (f_waits f) (f_netMode f).

Definition str_m : gostring := [x6d].
Definition str_i : gostring := [x69].
Definition str_p : gostring := [x70].
Definition str_w : gostring := [x77].
Definition str_netflag : gostring := [x6e; x65; x74].

(** 239.192.168.1, no interface, port 5858, 30 seconds, net. *)
Definition default_flags : flags :=
  mkFlags [x32; x33; x39; x2e; x31; x39; x32; x2e; x31; x36; x38; x2e; x31] [] 5858 30 str_netflag.

(** [flag.Value.Set] of the flag with a name: [None] when there is no such flag
    or its value is refused. *)
Definition set_flag (name value : gostring) (f : flags) : option flags :=
  if decide (name = str_m) then Some (f <| f_maddr := value |>)
  else if decide (name = str_i) then Some (f <| f_IfName := value |>)
  else if decide (name = str_p) then v ← ParseInt value; Some (f <| f_port := v |>)
  else if decide (name = str_w) then v ← ParseInt value; Some (f <| f_waits := v |>)
  else if decide (name = str_netflag) then Some (f <| f_netMode := value |>)
  else None.

Definition is_flag (name : gostring) : bool :=
  bool_decide (name ∈ [str_m; str_i; str_p; str_w; str_netflag]).

(** The name and the value of [name=value]; the first octet is not looked at. *)
Fixpoint cut_eq (s : gostring) : gostring * option gostring :=
  match s with
  | [] => ([], None)
  | c :: s' =>
      if decide (c = x3d) then ([], Some s')
      else let '(n, v) := cut_eq s' in (c :: n, v)
  end.
Definition cut_name (name : gostring) : gostring * option gostring :=
  match name with
  | [] => ([], None)
  | c :: s' => let '(n, v) := cut_eq s' in (c :: n, v)
  end.

(** What an argument is: not a flag, the end mark, a malformed flag, or a flag. *)
Inductive arg : Type :=
| NotFlag
| EndMark
| BadFlag
| FlagArg (name : gostring) (value : option gostring).

Definition classify (s : gostring) : arg :=
  match s with
  | c :: d :: rest =>
      if decide (c = x2d) then
        let name := if decide (d = x2d) then rest else d :: rest in
        if decide (d = x2d ∧ rest = []) then EndMark
        else match name with
             | [] => BadFlag
             | e :: _ =>
                 if decide (e = x2d ∨ e = x3d) then BadFlag
                 else let '(n, v) := cut_name name in FlagArg n v
             end
      else NotFlag
  | _ => NotFlag
  end.

(** [flag.Parse] on the arguments: the flags, or [None] where the process ends
    with status 2. *)
Fixpoint Parse (args : list gostring) (f : flags) : option flags :=
  match args with
  | [] => Some f
  | s :: rest =>
      match classify s with
      | NotFlag | EndMark => Some f
      | BadFlag => None
      | FlagArg name value =>
          if is_flag name then
            match value with
            | Some v => f ← set_flag name v f; Parse rest f
            | None =>
                match rest with
                | v :: rest' => f ← set_flag name v f; Parse rest' f
                | [] => None
                end
            end
          else None
      end
  end.

(** ** Lemmas *)

Lemma digits_value_snoc base acc s d : 0 <= d < 10 → d < base →
  digits_value base acc (s ++ [digit d]) = (v ← digits_value base acc s; Some (v * base + d)).
Proof.
  intros Hd Hb. revert acc. induction s as [|c s IH]; intros acc; cbn [digits_value app].
  - assert (digit_value (digit d) = Some d) as Hv.
    { unfold digit_value. rewrite b2z_digit by done. rewrite (proj2 (Z.leb_le 48 _)), (proj2 (Z.leb_le _ 57)) by lia.
      cbn. f_equal. lia. }
    rewrite decide_False; [by rewrite Hv, (proj2 (Z.ltb_lt d base))|].
    intros E. apply (f_equal b2z) in E. rewrite b2z_digit in E by done. change (b2z x5f) with 95 in E. lia.
  - destruct (decide (c = x5f)); [apply IH|]. destruct (digit_value c); [|done]. destruct (_ <? base); [apply IH|done].
Qed.

Lemma digits_value_dec f n : 0 <= n < 10 ^ Z.of_nat f → digits_value 10 0 (dec_digits f n) = Some n.
Proof.
  revert n. induction f as [|f IH]; intros n Hn; cbn [dec_digits]; [cbn in *; f_equal; lia|].
  rewrite Nat2Z.inj_succ, Z.pow_succ_r in Hn by lia. zcase.
  - rewrite <- (app_nil_l [digit n]), digits_value_snoc by lia. done.
  - pose proof (Z.div_mod n 10 ltac:(lia)). pose proof (Z.mod_pos_bound n 10 ltac:(lia)).
    rewrite digits_value_snoc by lia.
    rewrite IH by (split; [apply Z.div_pos; lia|apply Z.div_lt_upper_bound; lia]).
    cbn. f_equal. lia.
Qed.

(** The first digit of a number that is not 0. *)
Lemma dec_head f n : 0 < n < 10 ^ Z.of_nat f → ∃ d s, dec_digits f n = digit d :: s ∧ 0 < d < 10.
Proof.
  revert n. induction f as [|f IH]; intros n Hn; [cbn in Hn; lia|].
  rewrite Nat2Z.inj_succ, Z.pow_succ_r in Hn by lia. cbn [dec_digits]. zcase; [exists n, []; split; [done|lia]|].
  destruct (IH (n / 10)) as (d & s & -> & Hd); [|by exists d, (s ++ [digit (n mod 10)])%list].
  split; [apply Z.div_str_pos; lia|apply Z.div_lt_upper_bound; lia].
Qed.

Lemma digit_ne d b : 0 <= d < 10 → b2z b < 48 ∨ 57 < b2z b → digit d ≠ b.
Proof. intros Hd Hb <-. rewrite b2z_digit in Hb by done. lia. Qed.

Lemma dec_no_underscore f n : 0 <= n → x5f ∉ dec_digits f n.
Proof.
  revert n. induction f as [|f IH]; intros n Hn; cbn [dec_digits]; [apply not_elem_of_nil|].
  pose proof (Z.mod_pos_bound n 10 ltac:(lia)). zcase.
  - rewrite list_elem_of_singleton. intros E'. symmetry in E'. revert E'. apply digit_ne; [lia|vm_compute; auto].
  - rewrite elem_of_app, list_elem_of_singleton. intros [Hin|E'].
    + revert Hin. apply IH, Z.div_pos; lia.
    + symmetry in E'. revert E'. apply digit_ne; [lia|vm_compute; auto].
Qed.

(** A number that does not start with 0 is decimal. *)
Lemma base_of_decimal c s : c ≠ x30 → base_of (c :: s) = (10, c :: s).
Proof. by destruct c. Qed.

Lemma ParseUint_dec n : 0 <= n <= max_u64 → ParseUint (dec_digits 20 n) = Some n.
Proof.
  intros Hn. destruct (decide (n = 0)) as [->|Hz]; [reflexivity|]. unfold max_u64 in Hn.
  assert (0 <= n < 10 ^ Z.of_nat 20) as Hr by (change (Z.of_nat 20) with 20; lia).
  destruct (dec_head 20 n) as (d & s & E & Hd); [lia|].
  pose proof (digits_value_dec 20 n Hr) as Hv. pose proof (dec_no_underscore 20 n ltac:(lia)) as Hnu.
  rewrite E in *. unfold ParseUint. rewrite base_of_decimal.
  - rewrite Hv, bool_decide_eq_false_2 by done. cbn [andb]. by rewrite (proj2 (Z.ltb_ge _ _)) by (unfold max_u64; lia).
  - intros E'. apply (f_equal b2z) in E'. rewrite b2z_digit in E' by lia. change (b2z x30) with 48 in E'. lia.
Qed.

(** The decimal text of an integer is read back. *)
Lemma ParseInt_fmt_d z : - 2 ^ 63 <= z < 2 ^ 63 → ParseInt (fmt_d z) = Some z.
Proof.
  intros Hz. unfold fmt_d. zcase.
  - cbn [ParseInt]. rewrite decide_False, decide_True by done.
    rewrite ParseUint_dec by (unfold max_u64; lia). cbn [negb andb].
    rewrite (proj2 (Z.ltb_ge _ _)) by lia. f_equal. lia.
  - assert (∃ d s, dec_digits 20 z = digit d :: s ∧ 0 <= d < 10) as (d & s & E' & Hd).
    { destruct (decide (z = 0)) as [->|]; [by exists 0, []|].
      destruct (dec_head 20 z) as (d & s & ? & ?); [change (Z.of_nat 20) with 20; lia|]. exists d, s. split; [done|lia]. }
    pose proof (ParseUint_dec z ltac:(unfold max_u64; lia)) as Hu. rewrite E' in *. cbn [ParseInt].
    rewrite !decide_False by (apply digit_ne; [done|vm_compute; auto]). rewrite Hu. cbn [negb andb].
    by rewrite (proj2 (Z.leb_gt _ _)) by lia.
Qed.

(** One flag with its value as the next argument, or after an equals sign. *)
Lemma Parse_flag s name v rest f : classify s = FlagArg name None → is_flag name = true →
  Parse (s :: v :: rest) f = (f ← set_flag name v f; Parse rest f).
Proof. intros Hc Hf. cbn [Parse]. by rewrite Hc, Hf. Qed.

Lemma Parse_flag_eq s name v rest f : classify s = FlagArg name (Some v) → is_flag name = true →
  Parse (s :: rest) f = (f ← set_flag name v f; Parse rest f).
Proof. intros Hc Hf. cbn [Parse]. by rewrite Hc, Hf. Qed.

(** Any flags can be given on the command line, whatever was set before. *)
Lemma Parse_roundtrip f f0 : - 2 ^ 63 <= f_port f < 2 ^ 63 → - 2 ^ 63 <= f_waits f < 2 ^ 63 →
  Parse [x2d :: str_m; f_maddr f; x2d :: str_i; f_IfName f; x2d :: str_p; fmt_d (f_port f);
         x2d :: x2d :: str_w ++ x3d :: fmt_d (f_waits f); x2d :: str_netflag; f_netMode f] f0 = Some f.
Proof.
  intros Hp Hw.
  rewrite (Parse_flag _ str_m) by done. change (set_flag str_m ?v ?g) with (Some (g <| f_maddr := v |>)).
  cbn [mbind option_bind]. rewrite (Parse_flag _ str_i) by done.
  change (set_flag str_i ?v ?g) with (Some (g <| f_IfName := v |>)).
  cbn [mbind option_bind]. rewrite (Parse_flag _ str_p) by done.
  change (set_flag str_p ?v ?g) with (x ← ParseInt v; Some (g <| f_port := x |>)).
  rewrite ParseInt_fmt_d by done. cbn [mbind option_bind].
  rewrite (Parse_flag_eq _ str_w (fmt_d (f_waits f))) by done.
  change (set_flag str_w ?v ?g) with (x ← ParseInt v; Some (g <| f_waits := x |>)).
  rewrite ParseInt_fmt_d by done. cbn [mbind option_bind].
  rewrite (Parse_flag _ str_netflag) by done.
  change (set_flag str_netflag ?v ?g) with (Some (g <| f_netMode := v |>)).
  by destruct f.
Qed.

(** Numbers in other forms, and refused ones. *)
Example ParseInt_forms :
  map ParseInt [[x30; x78; x31; x46]; [x31; x5f; x30; x30; x30]; [x2d; x30; x31; x37]; [x5f; x31]; [x31; x61]; []] =
    [Some 31; Some 1000; Some (-15); None; None; None].
Proof. reflexivity. Qed.
