(* ===== verification/ZOpen.v ===== *)
(** * Opening and closing the ring interface (src/zsockif.go, src/zsocket.go)

    [NewZSocket] with its system calls, in the order of the source, and [Open],
    [OpenSend], [Close] of [zsockIf].  What [NewZSocket] computes from the replies
    is the function of [ZSetup]. *)

From Stdlib Require Import Strings.Byte.
From S2P Require Import Prelude.
From S2P Require Import GoBytes.
From S2P Require Import NetAddr.
From S2P Require Import Codec.
From S2P Require Import Sys.
From S2P Require Import UnixSock.
From S2P Require Import Mcast.
From S2P Require Import RawUdp.
From S2P Require Import Bpf.
From S2P Require Import ZRing.
From S2P Require Import ZRingProps.
From S2P Require Import ZRx.
From S2P Require Import ZSetup.
From S2P Require Import ZSend.

(** ** The socket *)

(** An error of a wrapper as an error of the ring. *)
Definition zof (e : error) : zerror := match e with Errno n => zErrno n | _ => zErrno 0 end.

(** [C.htons(C.ushort(v))] as a number of a little-endian host. *)
Definition htons (v : Z) : Z := le_get (be_put 2 v).

(** [getPointer]: [struct tpacket_req], or [struct tpacket_req3] with a block
    timeout of 50 ms. *)
Definition req_bytes (isV3 : bool) (r : tpacketReq) : list byte :=
  le_put 4 (req_blockSize r) ++ le_put 4 (req_blockNum r) ++ le_put 4 (req_frameSize r) ++ le_put 4 (req_frameNum r) ++
  if isV3 then le_put 4 50 ++ le_put 4 0 ++ le_put 4 0 else [].

(** The counters of [updateSocketStats]: [struct tpacket_stats], or the longer
    one of version 3. *)
Definition read_stats (sock : Z) (v3 : bool) : prog (option (Z * Z)) :=
  let n := if v3 then 12 else 8 in
  '(err, val, _) ← Getsockopt sock SOL_PACKET PACKET_STATISTICS (replicate (Z.to_nat n) x00) n;
  match err with
  | Some _ => Done None
  | None => Done (Some (hdr_get 0 4 val, hdr_get 4 4 val))
  end.

(** The choice of the packet version: true for version 3. *)
Definition set_version (sock : Z) (rx : bool) (vv : Z) : prog bool :=
  if rx && negb (vv =? TPacketVersion3) then
    err ← SetsockoptInt sock SOL_PACKET PACKET_VERSION TPacketVersion3;
    match err with
    | Some _ =>
        _ ← SetsockoptInt sock SOL_PACKET PACKET_VERSION TPacketVersion1;
        Done false
    | None => Done true
    end
  else Done false.

(** The ring requests; [None] is success. *)
Definition set_rings (sock : Z) (rx tx lossDisabled v3 : bool) (req : tpacketReq) : prog (option zerror) :=
  e ← (if rx then
         r ← sys (sys_setsockopt sock SOL_PACKET PACKET_RX_RING (req_bytes v3 req));
         Done (if r_ret r <? 0 then Some (zErrno (r_errno r)) else None)
       else Done None);
  match e with
  | Some e => Done (Some e)
  | None =>
      if tx then
        r ← sys (sys_setsockopt sock SOL_PACKET PACKET_TX_RING (req_bytes v3 req));
        if r_ret r <? 0 then Done (Some (zErrno (r_errno r)))
        else
          _ ← (if lossDisabled then Done None else SetsockoptInt sock SOL_PACKET PACKET_LOSS 1);
          Done None
      else Done None
  end.

Definition NewZSocket (ethIndex options maxFrameSize maxTotalFrames ethType : Z) : prog (zerror + ZSock) :=
  if (maxFrameSize <? MINIMUM_FRAME_SIZE) || (MAXIMUM_FRAME_SIZE <? maxFrameSize)
     || (0 <? Z.land maxFrameSize (u64 (maxFrameSize - 1)))
  then Done (inl zBadFrameSize)
  else if (maxTotalFrames <? 16) && (maxTotalFrames mod 8 =? 0)
  then Done (inl zBadTotalFrames)
  else
    let tx := has_flag options ENABLE_TX in
    let rx := if tx then false else has_flag options ENABLE_RX in
    let lossDisabled := has_flag options DISABLE_TX_LOSS in
    let eT := if tx then 0 else htons ethType in
    '(sock, err) ← Socket AF_PACKET SOCK_RAW eT;
    match err with
    | Some e => Done (inl (zof e))
    | None =>
        rb ← sys (sys_bind sock (Sll (mkSockaddrLl (le_put 2 eT) ethIndex 6 (replicate 8 x00))));
        if r_ret rb <? 0 then Done (inl (zErrno (r_errno rb)))
        else
          '(vv, err) ← GetsockoptInt sock SOL_PACKET PACKET_VERSION;
          match err with
          | Some e => Done (inl (zof e))
          | None =>
              v3 ← set_version sock rx vv;
              rp ← sys os_Getpagesize;
              req ← pure (ring_layout v3 (r_ret rp) maxFrameSize maxTotalFrames);
              e ← set_rings sock rx tx lossDisabled v3 req;
              match e with
              | Some e => Done (inl e)
              | None =>
                  rm ← sys (sys_mmap sock (u64 (req_blockSize req * req_blockNum req)));
                  if r_ret rm <? 0 then Done (inl (zErrno (r_errno rm)))
                  else
                    st ← read_stats sock v3;
                    pure (build_zsocket ethIndex sock rx tx lossDisabled v3 req (r_data rm) st)
              end
          end
    end.

(** [ZSocket.Close]; the counters it logs are those of [updateSocketStats]. *)
Definition Close_socket (z : ZSock) : prog (option error) :=
  _ ← read_stats (zk_fd z) (rx_version3 (zk_rx z));
  r ← sys (sys_close (zk_fd z));
  Done (errno_if (r_ret r <? 0) r).

(** ** The interface *)

(** The struct [zsockIf], with the package's filter table.  The field [fake] is
    never set in the program and is left out. *)
Record ZConn : Type := mkZConn {
  zn_zs : option ZSock;
  zn_addr : ZAddr;
  zn_bRead : bool;
  zn_filter : list insn
}.
#[export] Instance ZConn_eta : Eta ZConn := λ c, mkZConn (zn_zs c) (zn_addr c) (zn_bRead c) (zn_filter c).
#[export] Instance ZAddr_eta : Eta ZAddr := λ a,
  mkZAddr (za_dst a) (za_src a) (za_dstIP a) (za_srcIP a) (za_port a).

Definition newZSockIf (fl : list insn) : ZConn :=
  mkZConn None (mkZAddr [] [] (replicate 4 x00) (replicate 4 x00) 0) false fl.

Definition Enabled (c : ZConn) (opts : Z) : bool :=
  if negb (Z.land opts HasRingBuffer =? 0) then true
  else if negb (Z.land opts HasMmsg =? 0) then true
  else false.

Definition Close (c : ZConn) : prog (option error * ZConn) :=
  match zn_zs c with
  | None => Done (Some errClosed, c)
  | Some z =>
      err ← Close_socket z;
      Done (err, c <| zn_zs := None |>)
  end.

(** [struct sock_filter] in memory. *)
Definition filter_bytes (fl : list insn) : list byte :=
  concat (map (λ i, le_put 2 (i_code i) ++ [z2b (Z.of_nat (i_jt i)); z2b (Z.of_nat (i_jf i))] ++ le_put 4 (i_k i)) fl).

(** [setBPF] with its call: the table is patched, then attached. *)
Definition setBPF (fl : list insn) (fd port : Z) : prog (option error * list insn) :=
  '(fl, _) ← pure (Bpf.setBPF fl port 0 0);
  r ← sys (sys_setsockopt (i32 fd) SOL_SOCKET SO_ATTACH_FILTER (filter_bytes fl));
  Done (errno_if (negb (r_ret r =? 0)) r, fl).

Definition ETH_IP : Z := 0x0800.

(** An error of the ring as an error of the interface. *)
Definition of_zerror (e : zerror) : error := match e with zErrno n => Errno n | _ => OtherError 0 end.

(** The octets of the interface's hardware address. *)
Definition hwaddr (i : Interface) : list byte := go_copy (replicate 6 x00) (ifi_HardwareAddr i).

Section Open.
Context (ParseIP : gostring → list byte) (pad : list byte).

(** [Open]: the nil interface is dereferenced. *)
Definition Open (c : ZConn) (ip : list byte) (port : Z) (ifn : option Interface)
    : prog (option error * ZConn) :=
  match zn_zs c with
  | Some _ => Done (Some errOpened, c)
  | None =>
      i ← pure (match ifn with Some i => Ret i | None => Panic end);
      rz ← NewZSocket (ifi_Index i) ENABLE_RX 2048 8192 ETH_IP;
      match rz with
      | inl e => Done (Some (of_zerror e), c <| zn_zs := None |>)
      | inr z =>
          let c := c <| zn_zs := Some z |>
            <| zn_addr := (zn_addr c) <| za_port := port |> <| za_src := hwaddr i |> |> in
          let fd := zk_fd z in
          '(_, fl) ← setBPF (zn_filter c) fd port;
          let c := c <| zn_filter := fl |> in
          err ← JoinPacketMulticast fd (default [] (To4 ip)) ifn pad;
          let c := match err with
                   | Some _ => c
                   | None => c <| zn_addr := (zn_addr c)
                       <| za_dstIP := go_copy (za_dstIP (zn_addr c)) (default [] (To4 ip)) |> |>
                   end in
          Done (None, c <| zn_bRead := true |>)
      end
  end.

Definition OpenSend (c : ZConn) (ip : list byte) (port : Z) (bLoop : bool) (ifn : option Interface)
    : prog (option error * ZConn) :=
  match zn_zs c with
  | Some _ => Done (Some errOpened, c)
  | None =>
      i ← pure (match ifn with Some i => Ret i | None => Panic end);
      rz ← NewZSocket (ifi_Index i) (Z.lor ENABLE_TX DISABLE_TX_LOSS) 2048 4096 ETH_IP;
      match rz with
      | inl e => Done (Some (of_zerror e), c <| zn_zs := None |>)
      | inr z =>
          let c := c <| zn_zs := Some z |>
            <| zn_addr := (zn_addr c) <| za_port := port |> <| za_src := hwaddr i |> |> in
          '(adr, err) ← getIfAddr ParseIP ifn;
          let c := match err with
                   | Some _ => c
                   | None => c <| zn_addr := (zn_addr c)
                       <| za_srcIP := go_copy (za_srcIP (zn_addr c)) (default [] (To4 adr)) |> |>
                   end in
          let c := match To4 ip with
                   | None => c
                   | Some dst => c <| zn_addr := (zn_addr c) <| za_dstIP := go_copy (za_dstIP (zn_addr c)) dst |> |>
                   end in
          hw ← pure (GetMulticastHWAddr (To4 ip));
          let c := c <| zn_addr := (zn_addr c) <| za_dst := default [] hw |> |> in
          Done (None, c <| zn_bRead := false |>)
      end
  end.
End Open.

Definition Recv (c : ZConn) (buff : list byte) : prog (Z * option UDPAddr * option error * list byte * ZConn) :=
  if negb (zn_bRead c) then Done (0, None, Some errModeRW, buff, c)
  else Done (0, None, Some errNotSupport, buff, c).

Definition MRecv (c : ZConn) : prog (list Packet * option UDPAddr * option error * ZConn) :=
  Done ([], None, Some errNotSupport, c).

(** The sending half, as [ZSend] sees it. *)
Definition tx_half (c : ZConn) : zsockIf := mkZsockIf (zk_tx <$> zn_zs c) (zn_addr c) (zn_bRead c).

#[export] Instance zsockIf_lifecycle (ParseIP : gostring → list byte) (pad : list byte) : Lifecycle ZConn := {|
  lc_opened := λ c, bool_decide (is_Some (zn_zs c));
  lc_reading := zn_bRead;
  lc_Open := Open pad;
  lc_OpenSend := OpenSend ParseIP;
  lc_Close := Close
|}.

Lemma zsockIf_lifecycle_spec ParseIP pad : @LifecycleSpec ZConn (zsockIf_lifecycle ParseIP pad).
Proof.
  split; cbn; unfold Open, OpenSend, Close.
  - intros c ip port ifn Ho. apply bool_decide_eq_true in Ho as [k ->]. done.
  - intros c ip port b ifn Ho. apply bool_decide_eq_true in Ho as [k ->]. done.
  - intros c Ho. apply bool_decide_eq_false, eq_None_not_Some in Ho. by rewrite Ho.
  - intros c Ho. apply bool_decide_eq_true in Ho as [k ->]. apply wlp_bind, wlp_true. done.
  - intros c ip port ifn Ho. apply bool_decide_eq_false, eq_None_not_Some in Ho. rewrite Ho.
    apply wlp_bind, wlp_true. intros i. apply wlp_bind, wlp_true. intros [e|z]; [done|].
    apply wlp_bind, wlp_true. intros [e fl]. apply wlp_bind, wlp_true. by intros [e'|].
  - intros c ip port b ifn Ho. apply bool_decide_eq_false, eq_None_not_Some in Ho. rewrite Ho.
    apply wlp_bind, wlp_true. intros i. apply wlp_bind, wlp_true. intros [e|z]; [done|].
    apply wlp_bind, wlp_true. intros [adr [e|]]; apply wlp_bind, wlp_true; intros hw; by destruct (To4 ip).
Qed.
