(* ===== verification/ZOpenProps.v ===== *)
(** * Properties of opening the ring interface

    Opening for sending makes an interface that [ZSend] can send on; the contract
    of opening and closing; what a failed opening leaves behind. *)

From Stdlib Require Import Strings.Byte.
From S2P Require Import Prelude.
From S2P Require Import GoBytes.
From S2P Require Import NetAddr.
From S2P Require Import Codec.
From S2P Require Import Sys.
From S2P Require Import UnixSock.
From S2P Require Import UnixSockProps.
From S2P Require Import Mcast.
From S2P Require Import RawUdp.
From S2P Require Import Bpf.
From S2P Require Import ZRing.
From S2P Require Import ZRingProps.
From S2P Require Import ZRx.
From S2P Require Import ZSetup.
From S2P Require Import ZSend.
From S2P Require Import ZOpen.

(** ** Opening for sending *)

(** A system in which the calls succeed: pages have a size, and a mapping is as
    long as it was asked for. *)
Definition ring_law : trace → call → reply → Prop := λ _ c r,
  match c with
  | sys_mmap _ size => 0 <= r_ret r ∧ (0 <= size → len (r_data r) = size)
  | os_Getpagesize => 0 < r_ret r
  | sys_getsockopt _ _ _ _ | sys_setsockopt _ _ _ _ => r_ret r = 0
  | _ => 0 <= r_ret r
  end.

(** The options of [OpenSend]. *)
Definition tx_options : Z := Z.lor ENABLE_TX DISABLE_TX_LOSS.

(** The guards of [NewZSocket] for the arguments of [OpenSend]. *)
Lemma tx_guards :
  (2048 <? MINIMUM_FRAME_SIZE) || (MAXIMUM_FRAME_SIZE <? 2048) || (0 <? Z.land 2048 (u64 (2048 - 1))) = false ∧
  (4096 <? 16) && (4096 mod 8 =? 0) = false ∧
  has_flag tx_options ENABLE_TX = true ∧ has_flag tx_options DISABLE_TX_LOSS = true.
Proof. done. Qed.

(** [NewZSocket] for sending, when the calls succeed. *)
Lemma NewZSocket_tail ethIndex sock ps mem st :
  ZSetup.NewZSocket ethIndex tx_options 2048 4096 (mkZcalls (inr sock) None (inr 0) None ps None None (inr mem) st) =
    (req ← ring_layout false ps 2048 4096; build_zsocket ethIndex sock false true true false req mem st).
Proof.
  destruct tx_guards as (G1 & G2 & G3 & G4). unfold ZSetup.NewZSocket. rewrite G1, G2, G3, G4. reflexivity.
Qed.

(** The struct built over a mapping of the size asked for. *)
Lemma build_tx ethIndex sock ps mem st : 0 < ps →
  ∃ fs z, 512 <= fs <= 32768 ∧
    let req := mkTpacketReq (fs * 8) 512 fs 4096 in
    ring_layout false ps 2048 4096 = Ret req ∧
    (len mem = fs * 8 * 512 →
     build_zsocket ethIndex sock false true true false req mem st = Ret (inr z) ∧
     tx_ok (zk_tx z) ∧ pending (zk_tx z) = [] ∧ txEnabled (zk_tx z) = true ∧ frameNum (zk_tx z) = 4096).
Proof.
  intros Hps. destruct (ring_layout_spec false ps 2048 4096) as (fs & Hfs & El); [lia..|].
  change (if false then 1024 else 8) with 8 in El. change (4096 / 8) with 512 in El. change (8 * 512) with 4096 in El.
  destruct (decide (len mem = fs * 8 * 512)) as [Hm|Hm].
  - set (os := mkZcalls (inr sock) None (inr 0) None ps None None (inr mem) st).
    destruct (NewZSocket_opens ethIndex tx_options 2048 4096 os sock 0 mem)
      as (z & E & En & Elen & Es & Ef & _ & _ & Ei & Ew & Ewi & Et & _); [done|lia|done|lia|left; lia|done..| |].
    { intros req Hreq. cbn [zc_pagesize os] in Hreq. rewrite El in Hreq. injection Hreq as <-. exact Hm. }
    exists fs, z. split; [done|]. split; [done|]. intros _.
    destruct (fresh_tx_ok (zk_tx z)) as [Hok Hp]; [rewrite En; done|done|done|intros k f Hk; by destruct (Ef k f Hk) as (? & ? & _)|done..|].
    split; [|by split_and!].
    unfold os in E. rewrite NewZSocket_tail, El, bind_Ret in E. exact E.
  - exists fs, (mkZSock 0 0 0 (mkZSocket 0 0 0 0 false false 0 0 0 0 [] 0 0) (mkRxSocket 0 0 0 0 [] false false 0 false [])).
    split; [done|]. split; [done|]. intros Hm'. contradiction.
Qed.

Lemma NewZSocket_wp ethIndex h :
  wp ring_law (ZOpen.NewZSocket ethIndex tx_options 2048 4096 ETH_IP) h (λ rz _,
    ∃ z, rz = inr z ∧ tx_ok (zk_tx z) ∧ pending (zk_tx z) = [] ∧ txEnabled (zk_tx z) = true ∧ frameNum (zk_tx z) = 4096).
Proof.
  unfold ZOpen.NewZSocket.
  destruct tx_guards as (G1 & G2 & G3 & G4). rewrite G1, G2, G3, G4. cbv zeta.
  unfold Socket. cbn -[GetsockoptInt set_version ring_layout set_rings read_stats build_zsocket Z.ltb].
  intros r Hr. rewrite (proj2 (Z.ltb_ge (r_ret r) 0)) by done. cbn -[GetsockoptInt set_version ring_layout set_rings read_stats build_zsocket Z.ltb].
  intros rb Hb. rewrite (proj2 (Z.ltb_ge (r_ret rb) 0)) by done.
  unfold GetsockoptInt. cbn -[set_version ring_layout set_rings read_stats build_zsocket Z.ltb le_get go_copy].
  intros rv Hv. rewrite Hv. cbn -[ring_layout set_rings read_stats build_zsocket Z.ltb].
  intros rp Hp.
  destruct (r_ret rp) as [|ps|] eqn:Eps; try lia. rewrite <- Eps in *.
  destruct (build_tx ethIndex (r_ret r) (r_ret rp) [] None Hp) as (fs & _ & Hfs & El & _). rewrite El.
  cbn -[read_stats build_zsocket Z.ltb req_bytes Z.mul].
  intros rt Ht. rewrite Ht. cbn -[read_stats build_zsocket Z.ltb Z.mul u64].
  intros rm [Hm1 Hm2]. rewrite (proj2 (Z.ltb_ge (r_ret rm) 0)) by done.
  rewrite u64_small in Hm2 by (unfold max_u64; lia). specialize (Hm2 ltac:(lia)).
  unfold read_stats, Getsockopt. cbn -[build_zsocket Z.ltb Z.mul hdr_get go_copy].
  intros rs Hs. rewrite Hs. cbn -[build_zsocket Z.mul hdr_get go_copy].
  set (st := Some _).
  destruct (build_tx ethIndex (r_ret r) (r_ret rp) (r_data rm) st Hp) as (fs' & z & _ & El' & Hz).
  rewrite El in El'. injection El' as E1 E2. subst fs'. destruct (Hz Hm2) as (-> & Hok). cbn. by exists z.
Qed.

(** An address with its arrays of four octets. *)
Definition arrays_ok (c : ZConn) : Prop :=
  length (za_dstIP (zn_addr c)) = 4%nat ∧ length (za_srcIP (zn_addr c)) = 4%nat.

Lemma hw_4 a b c d : GetMulticastHWAddr (Some [a; b; c; d]) =
  Ret (Some [x01; x00; x5e; z2b (Z.land (b2z b) 0x7f); c; d]).
Proof. reflexivity. Qed.

Lemma OpenSend_wp ParseIP c ip q port bLoop i : zn_zs c = None → arrays_ok c → To4 ip = Some q →
  wp ring_law (OpenSend ParseIP c ip port bLoop (Some i)) [] (λ '(e, c') _,
    e = None ∧ wf_addr (zn_addr c') ∧ za_port (zn_addr c') = port ∧ za_dstIP (zn_addr c') = q ∧
    zi_bRead (tx_half c') = false ∧
    ∃ zs, zi_zs (tx_half c') = Some zs ∧ tx_ok zs ∧ pending zs = [] ∧ txEnabled zs = true ∧ frameNum zs = 4096).
Proof.
  intros Hc [Hd Hs] Hq. unfold OpenSend. rewrite Hc, Hq. cbn [pure]. apply wp_bind. cbn [wp].
  apply wp_bind. fold tx_options. eapply wp_mono; [|apply NewZSocket_wp].
  intros rz h (z & -> & Hok & Hp & He & Hn). cbv zeta. apply wp_bind.
  apply crashfree_wp; [apply unix_getIfAddr_safe|]. intros [adr err] h'. cbv zeta.
  pose proof (To4_length ip q Hq) as Hlq. destruct q as [|q0 [|q1 [|q2 [|q3 [|]]]]]; try done.
  rewrite hw_4. cbn [pure]. apply wp_bind. cbn [wp].
  assert (length (hwaddr i) = 6%nat) as Hh by (unfold hwaddr; by rewrite length_go_copy).
  assert (go_copy (za_dstIP (zn_addr c)) [q0; q1; q2; q3] = [q0; q1; q2; q3]) as Ecp by (by apply go_copy_same).
  split; [done|]. destruct err; cbn -[go_copy hwaddr]; rewrite ?Ecp;
    (split; [|split; [done|split; [done|split; [done|by exists (zk_tx z)]]]]);
    unfold wf_addr; cbn -[go_copy hwaddr]; rewrite ?Ecp, ?length_go_copy, ?Hs; done.
Qed.

(** ** What a failed opening leaves behind *)

Definition not_close (c : call) : Prop := match c with sys_close _ => False | _ => True end.

Lemma NewZSocket_no_close ix options mfs total et : only_calls not_close (ZOpen.NewZSocket ix options mfs total et).
Proof.
  unfold ZOpen.NewZSocket, Socket, set_version, SetsockoptInt, GetsockoptInt, set_rings, read_stats, Getsockopt.
  repeat first
    [ apply only_bind; [|intros ?]
    | apply only_sys; exact I
    | apply only_pure
    | exact I
    | match goal with |- only_calls _ (match ?x with _ => _ end) => destruct x end ].
Qed.

(** ** Properties *)

(** C27: opening for sending.  When the system calls succeed, opening the ring
    interface for a multicast group through an interface gives one that can
    send: its ring of 4096 frames is empty and satisfies the invariant of the
    ring, its addresses are complete and name the group and the port. *)
Theorem OpenSend_ready ParseIP c ip q port bLoop i E
    (Hc : zn_zs c = None) (Ha : arrays_ok c) (Hq : To4 ip = Some q) (HE : ∀ h c, ring_law h c (E h c)) :
  ∃ c' h zs, exec E (OpenSend ParseIP c ip port bLoop (Some i)) [] = (Ret (None, c'), h) ∧
    zi_bRead (tx_half c') = false ∧ zi_zs (tx_half c') = Some zs ∧
    wf_addr (zi_addr (tx_half c')) ∧ za_port (zn_addr c') = port ∧ za_dstIP (zn_addr c') = q ∧
    tx_ok zs ∧ pending zs = [] ∧ txEnabled zs = true ∧ frameNum zs = 4096.
Proof.
  destruct (wp_exec _ _ E [] _ HE (OpenSend_wp ParseIP c ip q port bLoop i Hc Ha Hq))
    as ([e c'] & h & He & -> & Hw & Hp & Hd & Hm & zs & Hz & Hok & Hpe & Hen & Hn).
  exists c', h, zs. by split_and!.
Qed.

(** C37: a failed opening leaks.  When [Open] of the ring interface fails, the
    interface has no socket to close afterwards, and the socket was not closed
    on the way: no call of [close] is ever made, whichever call failed. *)
Theorem failed_open_leaks pad c ip port i E e c' h
    (Hc : zn_zs c = None) (Hrun : exec E (Open pad c ip port (Some i)) [] = (Ret (Some e, c'), h)) :
  zn_zs c' = None ∧ Close c' = Done (Some errClosed, c') ∧ ∀ fd, sys_close fd ∉ calls h.
Proof.
  unfold Open in Hrun. rewrite Hc in Hrun. cbn [pure] in Hrun. rewrite exec_bind in Hrun. cbn [exec] in Hrun.
  rewrite exec_bind in Hrun.
  pose proof (only_exec not_close _ E [] (NewZSocket_no_close (ifi_Index i) ENABLE_RX 2048 8192 ETH_IP) ltac:(constructor)) as Hn.
  destruct (exec E (ZOpen.NewZSocket _ _ _ _ _) []) as [[[ze|z]| |] h1]; try done.
  - injection Hrun as _ <- <-. split; [done|]. split; [done|]. intros fd Hin.
    unfold calls in Hin. apply list_elem_of_fmap in Hin as ([c1 r1] & Heq & Hin). cbn in Heq. subst c1.
    rewrite Forall_forall in Hn. exact (Hn _ Hin).
  - exfalso. rewrite exec_bind in Hrun. destruct (exec E (setBPF _ _ _) h1) as [[[e2 fl]| |] h2]; try done.
    rewrite exec_bind in Hrun. by destruct (exec E (JoinPacketMulticast _ _ _ _) h2) as [[[e3|]| |] h3].
Qed.

(** C36: the contract of the ring interface.  Any sequence of [Open], [OpenSend]
    and [Close] on a new [zsockIf] that runs through answers as the abstract
    machine of the other interfaces does.  It does not run through when no
    network interface is given: both ways of opening then panic, before any
    call, and a client without an interface name gives none. *)
Theorem zsock_lifecycle ParseIP pad fl os E es c h ip port b
    (Hrun : exec E (@lc_run _ (zsockIf_lifecycle ParseIP pad) os (newZSockIf fl)) [] = (Ret (es, c), h)) :
  lc_steps os LcClosed es (@lc_abs _ (zsockIf_lifecycle ParseIP pad) c) ∧
  Open pad (newZSockIf fl) ip port None = Crash ∧
  OpenSend ParseIP (newZSockIf fl) ip port b None = Crash.
Proof.
  split; [|done]. pose proof (zsockIf_lifecycle_spec ParseIP pad) as Hspec.
  exact (wlp_exec _ _ _ _ _ _ (lc_run_refines os (newZSockIf fl)) Hrun).
Qed.

(** ** Witnesses *)

Definition ex_iface : Interface := mkInterface 2 [x65; x30] [x02; x00; x00; x00; x00; x07].

(** Calls that succeed, with mappings of the size asked for. *)
Definition ex_ring_env : env := λ _ c,
  match c with
  | sys_mmap _ size => mkReply 0 0 (replicate (Z.to_nat size) x00) None [] None [] None
  | os_Getpagesize => ret_reply 4096
  | sys_getsockopt _ _ _ _ | sys_setsockopt _ _ _ _ => ret_reply 0
  | _ => ret_reply 3
  end.

Lemma ex_ring_env_law h c : ring_law h c (ex_ring_env h c).
Proof.
  destruct c; cbn -[replicate Z.to_nat]; try lia.
  split; [lia|]. intros Hs. unfold len. rewrite length_replicate. lia.
Qed.

Definition ex_group : list byte := IPv4 xe0 x00 x00 x01.

Lemma OpenSend_ready_witness : ∃ c' h zs,
  exec ex_ring_env (OpenSend (λ _, []) (newZSockIf []) ex_group 5858 false (Some ex_iface)) [] = (Ret (None, c'), h) ∧
  zi_bRead (tx_half c') = false ∧ zi_zs (tx_half c') = Some zs ∧
  wf_addr (zi_addr (tx_half c')) ∧ za_port (zn_addr c') = 5858 ∧ za_dstIP (zn_addr c') = [xe0; x00; x00; x01] ∧
  tx_ok zs ∧ pending zs = [] ∧ txEnabled zs = true ∧ frameNum zs = 4096.
Proof.
  apply (OpenSend_ready (λ _, []) (newZSockIf []) ex_group [xe0; x00; x00; x01] 5858 false ex_iface ex_ring_env);
    [reflexivity|split; reflexivity|reflexivity|exact ex_ring_env_law].
Defined.

(** A system that refuses to map the ring: [ENOMEM]. *)
Definition ex_nomem_env : env := λ h c,
  match c with
  | sys_mmap _ _ => mkReply (-1) 12 [] None [] None [] None
  | _ => ex_ring_env h c
  end.

Definition ex_failed_run : outcome (option error * ZConn) * trace :=
  Eval vm_compute in exec ex_nomem_env (Open [] (newZSockIf []) ex_group 5858 (Some ex_iface)) [].

Lemma failed_open_leaks_witness :
  exec ex_nomem_env (Open [] (newZSockIf []) ex_group 5858 (Some ex_iface)) [] =
    (Ret (Some (Errno 12), newZSockIf []), ex_failed_run.2) ∧
  sys_mmap 3 16777216 ∈ calls ex_failed_run.2 ∧
  ∀ fd, sys_close fd ∉ calls ex_failed_run.2.
Proof.
  assert (exec ex_nomem_env (Open [] (newZSockIf []) ex_group 5858 (Some ex_iface)) [] =
    (Ret (Some (Errno 12), newZSockIf []), ex_failed_run.2)) as Hrun by (vm_compute; reflexivity).
  split; [exact Hrun|]. split; [vm_compute; repeat (first [apply list_elem_of_here | apply list_elem_of_further])|].
  apply (failed_open_leaks [] (newZSockIf []) ex_group 5858 ex_iface ex_nomem_env (Errno 12) (newZSockIf []) _ eq_refl Hrun).
Defined.

Lemma zsock_lifecycle_witness :
  lc_steps [OpOpen ex_group 5858 (Some ex_iface); OpClose] LcClosed [Some (Errno 12); Some errClosed] LcClosed.
Proof.
  apply (zsock_lifecycle (λ _, []) [] [] [OpOpen ex_group 5858 (Some ex_iface); OpClose] ex_nomem_env
    [Some (Errno 12); Some errClosed] (newZSockIf []) ex_failed_run.2 ex_group 5858 false).
  vm_compute. reflexivity.
Defined.
