(* ===== verification/Main.v ===== *)
(** * The command line client (src/cmd/client/main.go)

    The goroutines of [main] around the client: the reader that keeps the first
    and the last tick, the loop that watches for silence, the handler of signals.
    They run beside the goroutines of the client ([Delivery]) as one transition
    system ([astep]).  [ats.Bytes2TickFX] of package go-ats and its type of ticks
    are parameters. *)

From Stdlib Require Import Strings.Byte.
From S2P Require Import Prelude.
From S2P Require Import GoBytes.
From S2P Require Import NetAddr.
From S2P Require Import Codec.
From S2P Require Import MsgCache.
From S2P Require Import Client.
From S2P Require Import ClientLemmas.
From S2P Require Import Delivery.

(** ** The state *)

Section Main.
Context {Conn Cache Tick : Type} `{SeqCache Cache}.
(** [ats.Bytes2TickFX] ([None] is nil) and the zero value of [ats.TickFX]. *)
Context (Bytes2TickFX : list byte → option Tick) (zeroTick : Tick).
Abbreviation client := (Client Conn Cache).

(** The numbers [DumpStats] prints, in its order. *)
Definition DumpStats (c : client) : list Z :=
  [nRecvs c; seqNo c; seqMax c; nError c; nMissed c; nRequest c; nRepeats c; sc_maxPageNo (cache c); nMerges c].

(** The lines [main] logs. *)
Inductive log_line : Type :=
| LogGotFirst (n : Z)
| LogNull (n seq : Z)
| LogNoRecv (waits : Z)
| LogFirst (t : Tick)
| LogLast (t : Tick)
| LogBlock (lastSeq lastSeqN lastN : Z)
| LogStats (l : list Z)
| LogExit (s : Z)
| LogSignal (s : Z).

(** Where the goroutine of [main] is: at the test of its loop, in its [select],
    or past the end of the process with a status. *)
Inductive phase : Type :=
| Testing
| Waiting
| Exited (status : Z).

(** The variables of [main], with the client's system; what the last [Read] gave
    and the reader has still to handle, and the messages it has handled; whether
    the handler of signals is in [ExitFunc]. *)
Record app : Type := mkApp {
  a_sys : sys Conn Cache;
  firstTic : option Tick;
  lastTic : option Tick;
  fTic : Tick;
  lTic : Tick;
  a_lastSeq : Z;
  nextDisp : Z;
  a_log : list log_line;
  a_phase : phase;
  a_hand : option read_result;
  a_done : list Message;
  a_quit : bool
}.
#[export] Instance app_eta : Eta app := λ a,
  mkApp (a_sys a) (firstTic a) (lastTic a) (fTic a) (lTic a) (a_lastSeq a) (nextDisp a) (a_log a)
    (a_phase a) (a_hand a) (a_done a) (a_quit a).

Definition set_cl (a : app) (c : client) : app :=
  a <| a_sys := (a_sys a) <| cl := c |> |>.

Definition logs (a : app) (l : log_line) : app := a <| a_log := a_log a ++ [l] |>.

(** [cc.Running = false]. *)
Definition stop (a : app) : app := set_cl a ((cl (a_sys a)) <| Running := false |>).

(** ** The goroutines *)

(** Where [main] starts its loops, at time [now]. *)
Definition main_init (c : client) (now : Z) : app :=
  let c := if LastRecv c =? 0 then c <| LastRecv := now |> else c in
  mkApp (sys_init c) None None zeroTick zeroTick 0 0 [] Testing None [] false.

(** The first batch: its first tick is kept, and while there is none the next
    batch counts as the first. *)
Definition note_first (a : app) (mess : list Message) : outcome app :=
  match firstTic a with
  | Some _ => Ret a
  | None =>
      let a := logs a (LogGotFirst (len mess)) in
      m ← idx mess 0;
      let a := a <| firstTic := Bytes2TickFX (Data m) |> in
      match firstTic a with
      | Some t => Ret (a <| fTic := t |>)
      | None => Ret a
      end
  end.

(** The last tick of a batch. *)
Definition note_last (a : app) (mess : list Message) : outcome app :=
  let n := len mess in
  if 0 <? n then
    m ← idx mess (n - 1);
    let a := a <| lastTic := Bytes2TickFX (Data m) |> in
    match lastTic a with
    | Some t => Ret (a <| lTic := t |>)
    | None => Ret (logs a (LogNull n (SeqNo_get (cl (a_sys a)))))
    end
  else Ret a.

(** What the reader does with the result of a turn of [Read]. *)
Definition reader_turn (a : app) (r : read_result) : outcome app :=
  match r with
  | ReadAgain => Ret a
  | ReadEnd => Ret (stop a)
  | ReadMsgs mess lastS =>
      if len mess =? 0 then Ret a
      else
        let a := a <| a_lastSeq := lastS |> in
        a ← note_first a mess;
        note_last a mess
  end.

(** A turn of the watching loop when the ticker fires at time [tt]. *)
Definition watch_turn (waits tt : Z) (a : app) : app :=
  let a := if (0 <? waits) && (i64 (LastRecv (cl (a_sys a)) + waits) <? tt)
           then logs (stop a) (LogNoRecv waits) else a in
  if nextDisp a =? 0 then
    match firstTic a with
    | Some _ => (logs a (LogFirst (fTic a))) <| nextDisp := i64 (tt + 30) |>
    | None => a
    end
  else if nextDisp a <? tt then
    (logs a (LogStats (DumpStats (cl (a_sys a))))) <| nextDisp := i64 (tt + 30) |>
  else a.

(** After the loop. *)
Definition main_end (a : app) : app :=
  let a := match lastTic a with Some _ => logs a (LogLast (lTic a)) | None => a end in
  let '(lastSeqN, lastN) := LastSeq (cl (a_sys a)) in
  let a := logs a (LogBlock (a_lastSeq a) lastSeqN lastN) in
  logs a (LogStats (DumpStats (cl (a_sys a)))).

(** The deferred [cc.Close()], as far as the client's fields go. *)
Definition closed (c : client) : client :=
  match conn c with
  | None => c
  | Some _ =>
      let c := c <| conn := None |> in
      match connReq c with Some _ => c <| connReq := None |> | None => c end
  end.

(** [main] returns: the last report, the deferred call, status 0. *)
Definition main_return (a : app) : app :=
  let a := main_end a in
  (set_cl a (closed (cl (a_sys a)))) <| a_phase := Exited 0 |>.

(** The handler of signals; [SIGKILL], [SIGINT], [SIGTERM] and [SIGQUIT] take it
    to [ExitFunc]. *)
Definition on_signal (s : Z) (a : app) : app :=
  if (s =? 9) || (s =? 2) || (s =? 15) then (stop (logs a (LogExit s))) <| a_quit := true |>
  else if s =? 3 then (stop (logs a (LogExit s))) <| a_quit := true |>
  else logs a (LogSignal s).

(** The end of [ExitFunc], after its five seconds: [os.Exit(1)]. *)
Definition ExitFunc_end (a : app) : app := a <| a_phase := Exited 1 |>.

(** ** The transition system

    The steps of the client's goroutines are those of [Delivery]; the reader
    calls [Read] when it has handled what the turn before ended with.  The tests of [Running] at the heads
    of the loops and the bodies of the loops are separate steps; the loops of the
    client and of the reader may run their body whatever [Running] is by then. *)

Inductive event : Type :=
| EvClient (l : action)
| EvReader
| EvTest
| EvTick (tt : Z)
| EvSignal (s : Z)
| EvExit.

#[export] Instance event_eq_dec : EqDecision event.
Proof. solve_decision. Defined.

Inductive astep (allowed : client → list byte → Prop) (ovl : bool) (waits : Z) : event → app → app → Prop :=
| as_client a l s' :
    step allowed ovl l (a_sys a) s' → (∀ r, l ≠ AReturn r) → (l = ATake → a_hand a = None) →
    astep allowed ovl waits (EvClient l) a (a <| a_sys := s' |>)
| as_read a r s' :
    step allowed ovl (AReturn r) (a_sys a) s' → a_hand a = None →
    astep allowed ovl waits (EvClient (AReturn r)) a (a <| a_sys := s' |> <| a_hand := Some r |>)
| as_reader a r a' :
    a_hand a = Some r →
    reader_turn (a <| a_hand := None |> <| a_done := a_done a ++ msgs_of r |>) r = Ret a' →
    astep allowed ovl waits EvReader a a'
| as_test a :
    a_phase a = Testing → Running (cl (a_sys a)) = true →
    astep allowed ovl waits EvTest a (a <| a_phase := Waiting |>)
| as_return a :
    a_phase a = Testing → Running (cl (a_sys a)) = false →
    astep allowed ovl waits EvTest a (main_return a)
| as_watch a tt :
    a_phase a = Waiting →
    astep allowed ovl waits (EvTick tt) a ((watch_turn waits tt a) <| a_phase := Testing |>)
| as_signal a s :
    a_quit a = false →
    astep allowed ovl waits (EvSignal s) a (on_signal s a)
| as_exit a :
    a_quit a = true →
    astep allowed ovl waits EvExit a (ExitFunc_end a).

Definition alive (a : app) : Prop := match a_phase a with Exited _ => False | _ => True end.

(** Runs of the process; nothing runs after its end. *)
Inductive arun (allowed : client → list byte → Prop) (ovl : bool) (waits : Z) : list event → app → app → Prop :=
| arun_nil a : arun allowed ovl waits [] a a
| arun_snoc es e a a' a'' :
    arun allowed ovl waits es a a' → alive a' → astep allowed ovl waits e a' a'' →
    arun allowed ovl waits (es ++ [e]) a a''.

(** The times of the turns of the watching loop. *)
Definition tick_times (es : list event) : list Z :=
  omap (λ e, match e with EvTick t => Some t | _ => None end) es.

(** The log tells that the program was stopped from outside: by silence or by a
    signal. *)
Definition forced_line (l : log_line) : bool :=
  match l with LogNoRecv _ | LogExit _ => true | _ => false end.
Definition forced (a : app) : bool := existsb forced_line (a_log a).
End Main.
Arguments app : clear implicits.
Arguments log_line : clear implicits.
