(* ===== verification/MainProps.v ===== *)
(** * Properties of the command line client

    The program stops when nothing is received; what it reports as first and
    last tick; and that it stops by itself only when the whole session has been
    received. *)

From Stdlib Require Import Strings.Byte.
From S2P Require Import Prelude.
From S2P Require Import GoBytes.
From S2P Require Import NetAddr.
From S2P Require Import Codec.
From S2P Require Import MsgCache.
From S2P Require Import Client.
From S2P Require Import ClientLemmas.
From S2P Require Import Delivery.
From S2P Require Import DeliveryProps.
From S2P Require Import Main.

(** ** What the client's steps do to the fields [main] watches *)

Section Frames.
Context {Conn Cache : Type} `{SeqCacheSpec Cache}.
Abbreviation client := (Client Conn Cache).
Implicit Types (c : client).

Lemma gotBuff_times c buff n now e c' : gotBuff c buff n now = Ret (e, c') →
  LastRecv c' = LastRecv c ∨ LastRecv c' = now.
Proof.
  unfold gotBuff. intros Hg. inv_bind Hg. inv_bind Hg. destruct a0 as [head [er|]]; [simplify_eq; by left|].
  destruct (negb (MessageCnt head =? 0xffff) && _); [simplify_eq; by left|].
  cbn [session update] in Hg. right.
  destruct (negb (bool_decide (session c = [])) && _); [by simplify_eq|].
  destruct (bool_decide _); (destruct (negb _ && negb _); [|by simplify_eq];
    destruct (n =? headSize); [by simplify_eq|]; destruct (n <? headSize); [done|]; inv_bind Hg; by simplify_eq).
Qed.

Lemma onPacket_times c buff n rAddr now c' : safe c → 0 <= n <= len buff →
  onPacket c buff n rAddr now = Ret c' →
  Running c' = Running c ∧ (LastRecv c' = LastRecv c ∨ LastRecv c' = now).
Proof.
  intros Hs Hn Hp. unfold onPacket in Hp.
  destruct (gotBuff_spec c buff n now Hn) as (e & c1 & Hg & Hf & _); [apply Hs|].
  pose proof (gotBuff_times _ _ _ _ _ _ Hg) as Ht. pose proof (rf_Running _ _ Hf) as Hr.
  rewrite Hg in Hp. cbn [mbind outcome_mbind] in Hp.
  destruct e; [destruct (negb _)|destruct (_ =? 0)]; simplify_eq; cbn; by rewrite Hr.
Qed.

(** The worker leaves the time of the last receive, and never sets [Running]. *)
Definition watch_frame c c' : Prop :=
  LastRecv c' = LastRecv c ∧ (Running c = false → Running c' = false).

#[export] Instance watch_frame_preorder : PreOrder watch_frame.
Proof. split; [by intros c|]. intros c1 c2 c3 [E1 F1] [E2 F2]. split; [congruence|auto]. Qed.

Lemma newReq_times c seq tt r c' : newReq c seq tt = Ret (r, c') → watch_frame c c'.
Proof. rewrite newReq_eq. cbv zeta. intros [= E]. repeat case_match; by simplify_eq. Qed.

Lemma request_times c buff dial write o c' : request c buff dial write = Ret (o, c') → watch_frame c c'.
Proof. intros Hr. by destruct (request_frame _ _ _ _ _ _ Hr) as (? & ? & ? & -> & _). Qed.

Lemma gotEndSession_times c mb : watch_frame c (gotEndSession c mb).
Proof. unfold gotEndSession. split; repeat (case_match; try done). Qed.

Lemma doMsgBuf_times c mb tt req e p c' : doMsgBuf_result c mb tt req e p c' → watch_frame c c'.
Proof.
  intros Hres. destruct Hres as [| | |l ms ? ? ? ? ? l' s1 ?|req c1 c2 _ -> Hc2]; [done..|by rewrite publish_eq|].
  set (c1 := if mb_msgCnt mb =? 0xffff then gotEndSession c mb else c) in *.
  transitivity c1; [unfold c1; destruct (_ =? _); [apply gotEndSession_times|done]|].
  destruct (_ <? _); [|by simplify_eq].
  destruct (newReq c1 (mb_seqNo mb) tt) as [[r c3]| |] eqn:En; [|by simplify_eq..].
  simplify_eq. apply newReq_times in En. exact En.
Qed.

Lemma worker_tick_times c tt dial write o c' : requestLoop_tick c tt dial write = Ret (o, c') → watch_frame c c'.
Proof.
  unfold requestLoop_tick. destruct (_ <? _); [|by intros [= _ <-]]. intros Hr. inv_bind Hr.
  destruct a as [req c1]. apply newReq_times in Hb. transitivity c1; [done|].
  destruct req; [by eapply request_times|by simplify_eq].
Qed.

Lemma worker_msg_times c tt now dial write o p c' : safe c →
  requestLoop_publish c tt now dial write = Ret (o, p, c') → watch_frame c c'.
Proof.
  intros (Hc & Hch & _). unfold requestLoop_publish. destruct (ch c) as [|mb rest] eqn:Ech; [by intros [= _ _ <-]|].
  apply Forall_cons in Hch as [Hmb _]. intros E. inv_bind E. destruct a as [[[req e] p1] c1].
  apply doMsgBuf_returned, doMsgBuf_times in Hb; [|done|done]. transitivity c1; [exact Hb|].
  destruct p1; [by simplify_eq|]. destruct e; [injection E as _ _ <-; by destruct (_ <? _)|].
  destruct req; [|by simplify_eq]. inv_bind E. destruct a as [o1 c2]. simplify_eq. by eapply request_times.
Qed.

(** A step of the client that is not the receipt of a datagram. *)
Lemma step_times allowed ovl l s s' : safe_sys s → step allowed ovl l s s' →
  watch_frame (cl s) (cl s') ∨
  ∃ now, l = APacket now ∧ Running (cl s') = Running (cl s) ∧ (LastRecv (cl s') = LastRecv (cl s) ∨ LastRecv (cl s') = now).
Proof.
  intros [Hs _] Hst. destruct Hst as [s buff n ra now c' Hroom Hn Hsm Hg E|s tt now dial write o p c' _ _ Hne E
    |s res _|s tt dial write o c' _ E|s res seq c' _ _ E|s res seq r c' _ E|s _ _|s now]; cbn [cl update].
  - right. exists now. split; [done|]. by eapply onPacket_times.
  - left. by eapply worker_msg_times.
  - left. by destruct (append_frame (cl s) res) as (a & ->).
  - left. by eapply worker_tick_times.
  - left. by injection E as _ _ <-.
  - left. unfold Read_test in E. destruct (_ && _), res; by simplify_eq.
  - by left.
  - by left.
Qed.
End Frames.

(** ** The reader *)

Section Reader.
Context {Conn Cache Tick : Type} `{SeqCacheSpec Cache}.
Context (B : list byte → option Tick) (zeroTick : Tick).
Abbreviation client := (Client Conn Cache).
Abbreviation app := (app Conn Cache Tick).
Implicit Types (a : app) (c : client) (o : list Message).

(** What the variables of [main] say of the messages [o] handled so far. *)
Record ticks_ok a o : Prop := {
  tk_none : o = [] → firstTic a = None;
  tk_first m l t : o = m :: l → B (Data m) = Some t → firstTic a = Some t ∧ fTic a = t;
  tk_last x : last o = Some x → lastTic a = B (Data x) ∧ ∀ t, B (Data x) = Some t → lTic a = t
}.

Lemma idx_0 {A} (x : A) l : idx (x :: l) 0 = Ret x.
Proof. reflexivity. Qed.

Lemma idx_last {A} (l : list A) x : last l = Some x → idx l (len l - 1) = Ret x.
Proof.
  intros Hl. rewrite last_lookup in Hl. unfold idx, len.
  pose proof (lookup_lt_Some _ _ _ Hl) as Hlt. rewrite (proj2 (Z.leb_le 0 _)) by lia.
  replace (Z.to_nat _) with (pred (length l)) by lia. by rewrite Hl.
Qed.

Lemma forced_logs a l : forced (logs a l) = forced a || forced_line l.
Proof. unfold forced, logs. cbn. rewrite existsb_app. cbn. by rewrite orb_false_r. Qed.

Lemma note_first_spec a m l :
  ∃ a', note_first B a (m :: l) = Ret a' ∧ a_sys a' = a_sys a ∧ forced a' = forced a ∧
    firstTic a' = (match firstTic a with Some t => Some t | None => B (Data m) end) ∧
    fTic a' = (match firstTic a with Some _ => fTic a | None => default (fTic a) (B (Data m)) end).
Proof.
  unfold note_first. destruct (firstTic a) as [t|] eqn:E; [eexists; by split_and!|].
  rewrite idx_0, bind_Ret. cbn [firstTic update]. pose proof (forced_logs a (LogGotFirst (len (m :: l)))) as Hf.
  rewrite orb_false_r in Hf. destruct (B (Data m)); eexists; by split_and!.
Qed.

Lemma note_last_spec a ms x : last ms = Some x →
  ∃ a', note_last B a ms = Ret a' ∧ a_sys a' = a_sys a ∧ forced a' = forced a ∧
    firstTic a' = firstTic a ∧ fTic a' = fTic a ∧
    lastTic a' = B (Data x) ∧ ∀ t, B (Data x) = Some t → lTic a' = t.
Proof.
  intros Hx. assert (0 < len ms) as Hpos by (destruct ms; [done|]; rewrite len_cons; pose proof (len_nonneg ms); lia).
  unfold note_last. rewrite (proj2 (Z.ltb_lt 0 _) Hpos), (idx_last _ x), bind_Ret by done.
  cbn [lastTic update]. destruct (B (Data x)) as [t|]; eexists; (split; [done|]).
  - split_and!; try done. by intros ? [= ->].
  - split_and!; try done. by rewrite forced_logs, orb_false_r.
Qed.

(** The reader returns, changes nothing of the client but [Running] when [Read]
    has ended, and keeps the ticks. *)
Lemma reader_turn_spec a r :
  ∃ a', reader_turn B a r = Ret a' ∧
    a_sys a' = (match r with
                | ReadEnd => (a_sys a) <| cl := (cl (a_sys a)) <| Running := false |> |>
                | _ => a_sys a
                end) ∧
    forced a' = forced a ∧ ∀ o, ticks_ok a o → ticks_ok a' (o ++ msgs_of r).
Proof.
  destruct r as [[|m l] seq| |]; cbn [reader_turn msgs_of];
    [eexists; split_and!; try done; intros o; by rewrite app_nil_r|
    |eexists; split_and!; try done; intros o Hok; rewrite app_nil_r; by destruct Hok..].
  rewrite (proj2 (Z.eqb_neq (len (m :: l)) 0)) by (rewrite len_cons; pose proof (len_nonneg l); lia).
  destruct (note_first_spec (a <| a_lastSeq := seq |>) m l) as (a1 & -> & Es & Ef & Eft & Eff).
  rewrite bind_Ret. destruct (last (m :: l)) as [x|] eqn:Ex; [|by apply last_None in Ex].
  destruct (note_last_spec a1 (m :: l) x Ex) as (a2 & -> & Es2 & Ef2 & E1 & E2 & E3 & E4).
  exists a2. split; [done|]. rewrite Es2, Es, Ef2, Ef. split_and!; try done.
  intros o [Hn Hfi Hla]. cbn [firstTic fTic update] in Eft, Eff. constructor.
  - by destruct o.
  - intros m' l' t Ho Ht. rewrite E1, E2, Eft, Eff. destruct o as [|m0 o'].
    + injection Ho as -> _. by rewrite Hn, Ht.
    + injection Ho as -> _. by destruct (Hfi m' o' t eq_refl Ht) as [-> ->].
  - rewrite last_app, Ex. by intros ? [= <-].
Qed.

(** It stays where it is otherwise. *)
Lemma reader_turn_phase a r a' : reader_turn B a r = Ret a' →
  a_phase a' = a_phase a ∧ a_quit a' = a_quit a ∧ a_hand a' = a_hand a ∧ a_done a' = a_done a.
Proof.
  unfold reader_turn, note_first, note_last. destruct r as [ms seq| |]; [|by intros [= <-]..].
  destruct (len ms =? 0); [by intros [= <-]|]. cbv zeta. intros Hr. inv_bind Hr.
  assert (a_phase a0 = a_phase a ∧ a_quit a0 = a_quit a ∧ a_hand a0 = a_hand a ∧ a_done a0 = a_done a) as (<- & <- & <- & <-).
  { cbn [firstTic update] in Hb. destruct (firstTic a); [by simplify_eq|].
    inv_bind Hb. cbn [firstTic update] in Hb. destruct (B _); by simplify_eq. }
  destruct (0 <? len ms); [|by simplify_eq]. inv_bind Hr. cbn [lastTic update] in Hr. destruct (B _); by simplify_eq.
Qed.
End Reader.

(** ** The watching loop *)

Section Watch.
Context {Conn Cache Tick : Type} `{SeqCacheSpec Cache}.
Context (B : list byte → option Tick).
Abbreviation client := (Client Conn Cache).
Abbreviation app := (app Conn Cache Tick).
Implicit Types (a : app) (c : client).

(** A turn of [main] that does not read messages: it only reads the client, or
    stops it ([b]) and logs why. *)
Record bystander (b : bool) a a' : Prop := {
  by_sys : a_sys a' = if b then (a_sys a) <| cl := (cl (a_sys a)) <| Running := false |> |> else a_sys a;
  by_ticks : firstTic a' = firstTic a ∧ lastTic a' = lastTic a ∧ fTic a' = fTic a ∧ lTic a' = lTic a;
  by_hand : a_hand a' = a_hand a ∧ a_done a' = a_done a;
  by_forced : forced a' = forced a || b
}.

Lemma bystander_logs b a a' l : bystander b a a' → forced_line l = false → bystander b a (logs a' l).
Proof. intros [? ? ? Hf] Hl. constructor; try done. by rewrite forced_logs, Hl, orb_false_r. Qed.

Lemma watch_turn_spec waits tt a :
  bystander ((0 <? waits) && (i64 (LastRecv (cl (a_sys a)) + waits) <? tt)) a (watch_turn waits tt a).
Proof.
  unfold watch_turn. set (late := (0 <? waits) && _). set (a1 := if late then _ else a).
  assert (bystander late a a1) as Ha1.
  { unfold a1. destruct late; constructor; try done; [|by rewrite orb_false_r].
    by rewrite forced_logs, !orb_true_r. }
  clearbody a1. destruct (nextDisp a1 =? 0).
  - destruct (firstTic a1); [|done].
    destruct (bystander_logs late a a1 (LogFirst (fTic a1)) Ha1 eq_refl). by constructor.
  - destruct (nextDisp a1 <? tt); [|done].
    destruct (bystander_logs late a a1 (LogStats (DumpStats (cl (a_sys a1)))) Ha1 eq_refl). by constructor.
Qed.

Lemma watch_turn_phase waits tt a : a_phase (watch_turn waits tt a) = a_phase a ∧ a_quit (watch_turn waits tt a) = a_quit a.
Proof. unfold watch_turn. destruct (_ && _); cbn; repeat case_match; done. Qed.

Definition kills (s : Z) : bool := (s =? 9) || (s =? 2) || (s =? 15) || (s =? 3).

Lemma on_signal_spec s a : bystander (kills s) a (on_signal s a) ∧
  a_phase (on_signal s a) = a_phase a ∧ a_quit (on_signal s a) = a_quit a || kills s.
Proof.
  unfold on_signal, kills.
  destruct ((s =? 9) || (s =? 2) || (s =? 15)) eqn:E; cbn [orb]; [|destruct (s =? 3)];
    (split; [constructor; try done|]); try (cbn; by rewrite ?orb_true_r, ?orb_false_r).
  - change (forced ((stop ?x) <| a_quit := true |>)) with (forced x). by rewrite forced_logs.
  - change (forced ((stop ?x) <| a_quit := true |>)) with (forced x). by rewrite forced_logs.
  - by rewrite forced_logs.
Qed.

(** [main] returns: the client keeps what the theorems speak of. *)
Lemma closed_fields c : ∃ k p, closed c = c <| conn := k |> <| connReq := p |>.
Proof.
  unfold closed. destruct c as [? ? req cn]; cbn. destruct cn; [|by eexists None, req].
  destruct req; [by exists None, None|by eexists None, None].
Qed.

Lemma main_return_spec a :
  (∃ k p, a_sys (main_return a) = (a_sys a) <| cl := (cl (a_sys a)) <| conn := k |> <| connReq := p |> |>) ∧
  (firstTic (main_return a) = firstTic a ∧ lastTic (main_return a) = lastTic a ∧
   fTic (main_return a) = fTic a ∧ lTic (main_return a) = lTic a) ∧
  (a_hand (main_return a) = a_hand a ∧ a_done (main_return a) = a_done a) ∧
  forced (main_return a) = forced a ∧ a_quit (main_return a) = a_quit a.
Proof.
  unfold main_return, main_end.
  set (a1 := match lastTic a with Some _ => logs a (LogLast (lTic a)) | None => a end).
  assert (bystander false a a1 ∧ a_quit a1 = a_quit a) as [Ha1 Hq].
  { unfold a1. assert (bystander false a a) as Ha by (constructor; rewrite ?orb_false_r; done).
    destruct (lastTic a); [|done]. split; [by apply bystander_logs|done]. }
  clearbody a1. cbn [LastSeq]. set (a3 := logs (logs a1 _) _).
  assert (bystander false a a3) as [Es Et Eh Ef] by (by apply bystander_logs, eq_refl; apply bystander_logs).
  assert (a_quit a3 = a_quit a) as Hq3 by done. clearbody a3. destruct (closed_fields (cl (a_sys a3))) as (k & p & Ek).
  rewrite orb_false_r in Ef. split; [|done].
  exists k, p. cbn [set_cl a_sys update]. by rewrite Ek, Es.
Qed.

(** The client stays safe as long as the process lives, a packet sets the time of
    the last receive, and a stopped client stays stopped. *)
Definition watched (T : Z) a : Prop := (alive a → safe_sys (a_sys a)) ∧ 0 <= LastRecv (cl (a_sys a)) <= T.

Lemma safe_sys_ext (s : sys Conn Cache) c : safe_sys s → safe c → connReq c = connReq (cl s) → safe_sys (s <| cl := c |>).
Proof. intros [_ Hp] Hs E. split; [done|]. cbn. by rewrite E. Qed.

Lemma safe_halted (s : sys Conn Cache) : safe_sys s → safe_sys (s <| cl := (cl s) <| Running := false |> |>).
Proof. intros Hs. apply safe_sys_ext; [done| |done]. by apply (safe_ext (cl s)); [apply Hs|..]. Qed.

Lemma bystander_safe b a a' : safe_sys (a_sys a) → bystander b a a' → safe_sys (a_sys a').
Proof. intros Hs [-> _ _ _]. destruct b; [by apply safe_halted|done]. Qed.

Lemma astep_safe allowed ovl waits e a a' : safe_sys (a_sys a) → astep B allowed ovl waits e a a' →
  alive a' → safe_sys (a_sys a').
Proof.
  intros Hs Hst Hal.
  destruct Hst as [a l s' Hst _ _|a r s' Hst _|a r a' Hh Ht|a Hp Hr|a Hp Hr|a tt Hp|a s Hq|a Hq]; try done.
  - by apply (safe_step _ _ _ _ _ Hs) in Hst.
  - by apply (safe_step _ _ _ _ _ Hs) in Hst.
  - destruct (reader_turn_spec B (a <| a_hand := None |> <| a_done := a_done a ++ msgs_of r |>) r) as (a2 & Ht' & Es & _).
    rewrite Ht in Ht'. injection Ht' as <-. rewrite Es. destruct r; [done|by apply safe_halted|done].
  - exact (bystander_safe _ _ _ Hs (watch_turn_spec waits tt a)).
  - exact (bystander_safe _ _ _ Hs (proj1 (on_signal_spec s a))).
Qed.

Lemma bystander_frame b a a' : bystander b a a' → watch_frame (cl (a_sys a)) (cl (a_sys a')).
Proof. intros [-> _ _ _]. by destruct b. Qed.

Lemma astep_watched allowed ovl waits T e a a' :
  watched T a → alive a → (∀ now, e = EvClient (APacket now) → 0 <= now <= T) → astep B allowed ovl waits e a a' →
  watched T a' ∧ (Running (cl (a_sys a)) = false → Running (cl (a_sys a')) = false).
Proof.
  intros [Hs HT] Hal He Hst. specialize (Hs Hal).
  assert (watch_frame (cl (a_sys a)) (cl (a_sys a')) ∨
    ∃ now, 0 <= now <= T ∧ Running (cl (a_sys a')) = Running (cl (a_sys a)) ∧
      (LastRecv (cl (a_sys a')) = LastRecv (cl (a_sys a)) ∨ LastRecv (cl (a_sys a')) = now)) as Hf.
  { destruct Hst as [a l s' Hst _ _|a r s' Hst _|a r a' Hh Ht|a Hp Hr|a Hp Hr|a tt Hp|a s Hq|a Hq]; try (by left).
    - destruct (step_times _ _ _ _ _ Hs Hst) as [Hf|(now & -> & Hrun & Hlr)]; [by left|right].
      exists now. split; [by apply He|done].
    - destruct (step_times _ _ _ _ _ Hs Hst) as [Hf|(now & E & _)]; [by left|done].
    - left. destruct (reader_turn_spec B (a <| a_hand := None |> <| a_done := a_done a ++ msgs_of r |>) r) as (a2 & Ht' & Es & _).
      rewrite Ht in Ht'. injection Ht' as <-. rewrite Es. by destruct r.
    - left. destruct (main_return_spec a) as ((k & p & ->) & _). done.
    - left. exact (bystander_frame _ _ _ (watch_turn_spec waits tt a)).
    - left. exact (bystander_frame _ _ _ (proj1 (on_signal_spec s a))). }
  pose proof (astep_safe _ _ _ _ _ _ Hs Hst) as Hs'.
  destruct Hf as [[E F]|(now & Hn & -> & Hlr)].
  - split; [|done]. split; [done|]. by rewrite E.
  - split; [|done]. split; [done|]. destruct Hlr as [-> | ->]; lia.
Qed.

(** A late tick stops the client. *)
Lemma tick_stops waits tt a : 0 < waits → i64 (LastRecv (cl (a_sys a)) + waits) < tt →
  Running (cl (a_sys (watch_turn waits tt a))) = false.
Proof.
  intros Hw Hlt. rewrite (by_sys _ _ _ (watch_turn_spec waits tt a)).
  rewrite (proj2 (Z.ltb_lt 0 waits)), (proj2 (Z.ltb_lt _ tt)) by done. done.
Qed.

Lemma tick_times_snoc es e : tick_times (es ++ [e]) =
  tick_times es ++ match e with EvTick t => [t] | _ => [] end.
Proof. unfold tick_times. rewrite omap_app. by destruct e. Qed.

(** How the goroutine of [main] moves: only a tick takes it from its [select]
    back to its test, only the test of a running client takes it there. *)
Lemma astep_phase allowed ovl waits e a a' : astep B allowed ovl waits e a a' →
  (a_phase a' = a_phase a ∧ (∀ t, e ≠ EvTick t)) ∨
  (a_phase a' = Waiting ∧ Running (cl (a_sys a)) = true ∧ (∀ t, e ≠ EvTick t)) ∨
  (a_phase a = Waiting ∧ a_phase a' = Testing ∧ ∃ t, e = EvTick t ∧ a' = (watch_turn waits t a) <| a_phase := Testing |>) ∨
  ((∀ t, e ≠ EvTick t) ∧ ∃ st, a_phase a' = Exited st).
Proof.
  intros Hst. destruct Hst as [a l s' _ _ _|a r s' _ _|a r a' Hh Ht|a Hp Hr|a Hp Hr|a tt Hp|a s Hq|a Hq].
  - by left.
  - by left.
  - left. apply reader_turn_phase in Ht as [-> _]. done.
  - right. by left.
  - right. right. right. split; [done|]. by eexists.
  - right. right. left. split; [done|]. split; [done|]. by exists tt.
  - left. by rewrite (proj1 (proj2 (on_signal_spec s a))).
  - right. right. right. split; [done|]. by eexists.
Qed.

(** All turns but the last one of a stopped loop are early; after a late one
    [main] is at its test or has returned. *)
Lemma arun_ticks allowed ovl waits T es a a' : 0 < waits → T + waits < 2 ^ 63 →
  watched T a → (∀ now, EvClient (APacket now) ∈ es → 0 <= now <= T) → arun B allowed ovl waits es a a' →
  watched T a' ∧ ∃ pre post, tick_times es = pre ++ post ∧ Forall (λ t, t <= T + waits) pre ∧
    (post = [] ∨ Running (cl (a_sys a')) = false ∧ a_phase a' ≠ Waiting ∧ ∃ t, post = [t]).
Proof.
  intros Hw HT2 Ha Hpk Hrun. induction Hrun as [|es e a a1 a2 Hr IH Hal Hst].
  - split; [done|]. exists [], []. split; [done|]. split; [done|]. by left.
  - destruct IH as (Hw1 & pre & post & Ep & Hpre & Hpost); [done|intros now Hin; apply Hpk, elem_of_app; by left|].
    destruct (astep_watched allowed ovl waits T e a1 a2 Hw1 Hal) as (Hw2 & Hmon); [|done|].
    { intros now ->. apply Hpk, elem_of_app. right. by apply list_elem_of_singleton. }
    split; [done|]. rewrite tick_times_snoc, Ep.
    assert ((∀ t, e ≠ EvTick t) → match e with EvTick t => [t] | _ => [] end = []) as Hno
      by (intros Hn; destruct e as [| | |t| |]; try done; by destruct (Hn t)).
    destruct (astep_phase _ _ _ _ _ _ Hst) as [[Eph Hn]|[(Eph & Hrun' & Hn)|[(Ew & Eph & t & -> & ->)|(Hn & st & Eph)]]].
    1,2,4: rewrite Hno by done; exists pre, post; rewrite app_nil_r; split; [done|]; split; [done|];
      destruct Hpost as [->|(Hf & Hph & Hp)]; [by left|right].
    + split; [auto|]. by rewrite Eph.
    + congruence.
    + split; [auto|]. by rewrite Eph.
    + destruct Hpost as [->|(_ & Hph & _)]; [|done]. rewrite app_nil_r.
      destruct (decide (t <= T + waits)) as [Hle|Hgt].
      * exists (pre ++ [t]), []. rewrite app_nil_r. split; [done|]. split; [|by left].
        apply Forall_app. split; [done|]. by apply Forall_singleton.
      * exists pre, [t]. split; [done|]. split; [done|]. right. split; [|by split; [|exists t]].
        apply tick_stops; [done|]. destruct Hw1 as [_ Hlr]. rewrite i64_small by lia. lia.
Qed.
End Watch.

(** ** The session and the reports *)

Section Reports.
Context {Conn Cache Tick : Type} `{SeqCacheSpec Cache}.
Context (B : list byte → option Tick).
Context (stream : Z → Message) (start fin : Z) (Hsession : 0 <= start <= fin) (Hfin : fin < 2 ^ 63) (ovl : bool).
Abbreviation app := (app Conn Cache Tick).
Implicit Types (a : app).

(** The messages of the batch the reader is still to handle. *)
Definition in_hand a : list Message := from_option msgs_of [] (a_hand a).

(** What was read is the start of the session, and the client satisfies its
    invariant; a stop from outside is logged. *)
Record reports_ok a : Prop := {
  ro_ticks : ticks_ok B a (a_done a);
  ro_out : out (a_sys a) = a_done a ++ in_hand a;
  ro_inv : sys_inv stream start fin (forced a) ovl (a_sys a);
  ro_quit : a_quit a = true → forced a = true;
  ro_status0 : a_phase a = Exited 0 → Running (cl (a_sys a)) = false;
  ro_status1 st : a_phase a = Exited st → st = 0 ∨ st = 1 ∧ a_quit a = true
}.

Lemma inv_weaken (b : bool) (s : sys Conn Cache) : sys_inv stream start fin b ovl s → sys_inv stream start fin true ovl s.
Proof. intros []. by constructor. Qed.

Lemma sys_inv_halted b (s : sys Conn Cache) : sys_inv stream start fin b ovl s →
  sys_inv stream start fin true ovl (s <| cl := (cl s) <| Running := false |> |>).
Proof.
  intros Hi. apply (inv_external stream start fin true ovl (cl s) (out s) (pend s) (rd s) false); [done|].
  exact (inv_weaken b s Hi).
Qed.

Lemma ticks_ext a a' o : ticks_ok B a o →
  firstTic a' = firstTic a ∧ lastTic a' = lastTic a ∧ fTic a' = fTic a ∧ lTic a' = lTic a → ticks_ok B a' o.
Proof. intros [? ? ?] (E1 & E2 & E3 & E4). constructor; by rewrite ?E1, ?E2, ?E3, ?E4. Qed.

(** A step of the client's goroutines: only a return of [Read] hands over
    messages. *)
Lemma step_out allowed l (s s' : sys Conn Cache) : step allowed ovl l s s' →
  out s' = out s ++ match l with AReturn r => msgs_of r | _ => [] end.
Proof. intros Hst. destruct Hst; cbn; by rewrite ?app_nil_r. Qed.

Lemma reports_client a l s' h : reports_ok a → alive a → step (genuine stream fin) ovl l (a_sys a) s' →
  (h = a_hand a ∧ (∀ r, l ≠ AReturn r) ∨ a_hand a = None ∧ ∃ r, h = Some r ∧ l = AReturn r) →
  reports_ok (a <| a_sys := s' |> <| a_hand := h |>).
Proof.
  intros [Ht Ho Hi Hq Hs0 Hs1] Hal Hst Hh. unfold alive in Hal.
  constructor; cbn [a_sys a_phase a_quit a_done update]; try done.
  - by apply (ticks_ext a).
  - rewrite (step_out _ _ _ _ Hst), Ho. unfold in_hand. cbn [a_hand update].
    destruct Hh as [[-> Hl]|[-> (r & -> & ->)]]; [|by rewrite <- app_assoc].
    destruct l as [| | | |r]; try (by rewrite app_nil_r). by destruct (Hl r).
  - by eapply inv_step.
  - intros E. by rewrite E in Hal.
Qed.

(** A turn of [main] that does not read. *)
Lemma reports_bystander b a a' : reports_ok a → bystander b a a' → alive a' →
  (a_quit a' = true → forced a' = true) → reports_ok a'.
Proof.
  intros [Ht Ho Hi Hq Hs0 Hs1] [Es Et [Eh Ed] Ef] Hal' Hq'. unfold alive in *. constructor.
  - rewrite Ed. by apply (ticks_ext a).
  - unfold in_hand. rewrite Es, Ed, Eh. by destruct b.
  - rewrite Ef, Es. destruct b; [rewrite orb_true_r; by eapply sys_inv_halted|by rewrite orb_false_r].
  - done.
  - intros E. by rewrite E in Hal'.
  - intros st E. by rewrite E in Hal'.
Qed.

(** The reader handles a batch; after the end it stops a client that has
    stopped. *)
Lemma reports_reader a r a' : reports_ok a → alive a → a_hand a = Some r →
  (r = ReadEnd → Running (cl (a_sys a)) = false) →
  reader_turn B (a <| a_hand := None |> <| a_done := a_done a ++ msgs_of r |>) r = Ret a' → reports_ok a'.
Proof.
  intros [Ht Ho Hi Hq Hs0 Hs1] Hal Hh Hend Hrt. unfold alive in Hal.
  destruct (reader_turn_phase B _ _ _ Hrt) as (Eph & Eq & Eh & Ed).
  destruct (reader_turn_spec B (a <| a_hand := None |> <| a_done := a_done a ++ msgs_of r |>) r)
    as (a2 & Hrt' & Es & Ef & Hticks). rewrite Hrt in Hrt'. injection Hrt' as <-.
  change (forced (a <| a_hand := _ |> <| a_done := _ |>)) with (forced a) in Ef.
  cbn [a_sys a_phase a_quit a_hand a_done update] in *.
  constructor; rewrite ?Ef, ?Eph, ?Eq; try done.
  - rewrite Ed. apply Hticks. by apply (ticks_ext a).
  - unfold in_hand in *. rewrite Ed, Eh, Es. rewrite Hh in Ho. cbn in *. rewrite app_nil_r, <- Ho. by destruct r.
  - rewrite Es. destruct r; try done. specialize (Hend eq_refl). unfold sys_inv in *. cbn [cl out pend rd update].
    apply (inv_ext _ _ _ _ _ _ _ _ _ _ Hi); try done; apply Hi.
  - intros E. by rewrite E in Hal.
Qed.

(** What the reader has of an ended [Read] is a client that has stopped. *)
Definition ended a : Prop := a_hand a = Some ReadEnd → Running (cl (a_sys a)) = false.

Lemma astep_ended waits e a a' : safe_sys (a_sys a) → ended a → astep B (genuine stream fin) ovl waits e a a' → ended a'.
Proof.
  unfold ended. intros Hs He Hst.
  destruct Hst as [a l s' Hst Hl _|a r s' Hst Hh|a r a' Hh Ht|a Hp Hr|a Hp Hr|a tt Hp|a s Hq|a Hq]; cbn [a_hand a_sys update]; try done.
  - intros Hh. specialize (He Hh). destruct (step_times _ _ _ _ _ Hs Hst) as [[_ Hf]|(? & _ & -> & _)]; auto.
  - intros [= ->]. inversion Hst as [| | | | |? ? ? ? ? ? E| |]; subst; [|done]. unfold Read_test in E. by destruct res.
  - destruct (reader_turn_phase B _ _ _ Ht) as (_ & _ & Eh & _). by rewrite Eh.
  - destruct (main_return_spec a) as ((k & p & ->) & _ & (-> & _) & _). done.
  - destruct (watch_turn_spec waits tt a) as [Es _ [Eh _] _]. rewrite Eh, Es. intros Hh.
    destruct (_ && _); [done|by apply He].
  - destruct (proj1 (on_signal_spec s a)) as [Es _ [Eh _] _]. rewrite Eh, Es. intros Hh. destruct (kills s); [done|by apply He].
Qed.

Lemma astep_reports waits e a a' : reports_ok a → ended a → alive a → astep B (genuine stream fin) ovl waits e a a' → reports_ok a'.
Proof.
  intros Ha He Hal Hst. pose proof (ro_inv _ Ha) as Hinv.
  destruct Hst as [a l s' Hst Hl _|a r s' Hst Hh|a r a' Hh Ht|a Hp Hr|a Hp Hr|a tt Hp|a s Hq|a Hq].
  - replace (a <| a_sys := s' |>) with (a <| a_sys := s' |> <| a_hand := a_hand a |>) by (by destruct a).
    eapply reports_client; [done|done|done|]. by left.
  - eapply reports_client; [done|done|done|]. right. split; [done|]. by exists r.
  - eapply (reports_reader a r); [done|done|done| |done]. intros ->. by apply He.
  - apply (reports_bystander false a); [done| |done|apply Ha]. constructor; rewrite ?orb_false_r; done.
  - destruct (main_return_spec a) as ((k & p & Es) & Et & (Eh & Ed) & Ef & Eq). destruct Ha as [Ht Ho Hi Hq Hs0 Hs1].
    constructor; rewrite ?Ef, ?Eq, ?Ed, ?Es; try done.
    + by apply (ticks_ext a).
    + unfold in_hand. by rewrite Eh.
    + apply (inv_ext _ _ _ _ _ _ _ _ _ _ Hinv); try done; apply Hinv.
    + intros st [= <-]. by left.
  - destruct (watch_turn_phase waits tt a) as [_ Eq].
    destruct (watch_turn_spec waits tt a) as [Es Et Eh Ef].
    eapply (reports_bystander _ a); [done|by constructor|done|]. cbn. rewrite Eq. intros Hq.
    change (forced (watch_turn waits tt a) = true). by rewrite Ef, (ro_quit _ Ha Hq).
  - destruct (on_signal_spec s a) as (Hb & Eph & Eq). eapply (reports_bystander _ a); [done|done| |].
    + unfold alive. by rewrite Eph.
    + rewrite Eq, (by_forced _ _ _ Hb), Hq. cbn. intros ->. apply orb_true_r.
  - destruct Ha as [Ht Ho Hi Hq' Hs0 Hs1]. constructor; try done; [by apply (ticks_ext a)|].
    intros st [= <-]. by right.
Qed.

Lemma arun_reports waits es a a' : reports_ok a → ended a → (alive a → safe_sys (a_sys a)) → 
  arun B (genuine stream fin) ovl waits es a a' → reports_ok a' ∧ ended a' ∧ (alive a' → safe_sys (a_sys a')).
Proof.
  intros Ha He Hs Hr. induction Hr as [|es e a a1 a2 _ IH Hal Hst]; [done|].
  destruct IH as (Ha1 & He1 & Hs1); [done..|]. specialize (Hs1 Hal).
  split; [by eapply astep_reports|]. split; [by eapply astep_ended|].
  by eapply astep_safe.
Qed.
End Reports.

(** ** Properties *)

Section Theorems.
Context {Conn Cache Tick : Type} `{SeqCacheSpec Cache}.

(** C13: the program ends when the network is silent.  Whatever the other
    goroutines do, let no datagram come after time [T].  With a positive [waits]
    the first turn of the watching loop at a time later than [T + waits] (no other
    demand is made on the clock) stops the client and is the last turn: then the
    process has ended, or the next test of the loop ends it with status 0.  With
    [waits] zero or negative no turn of the loop ever stops the client. *)
Theorem silence_stops (B : list byte → option Tick) allowed ovl waits T es (a a' : app Conn Cache Tick)
    (HT : T + waits < 2 ^ 63) (Hsafe : safe_sys (a_sys a))
    (Hlast : 0 <= LastRecv (cl (a_sys a)) <= T)
    (Hpackets : ∀ now, EvClient (APacket now) ∈ es → 0 <= now <= T)
    (Hrun : arun B allowed ovl waits es a a') :
  (0 < waits → ∀ t, t ∈ tick_times es → T + waits < t →
     last (tick_times es) = Some t ∧ Running (cl (a_sys a')) = false ∧
     (¬ alive a' ∨ ∃ a'', astep B allowed ovl waits EvTest a' a'' ∧ a_phase a'' = Exited 0)) ∧
  (waits <= 0 → ∀ tt (x : app Conn Cache Tick), a_sys (watch_turn waits tt x) = a_sys x).
Proof.
  split.
  - intros Hwaits t Hin Hlate.
    destruct (arun_ticks B allowed ovl waits T es a a' Hwaits HT (conj (λ _, Hsafe) Hlast) Hpackets Hrun)
      as (_ & pre & post & E & Hpre & Hpost). rewrite E in *.
    assert (t ∉ pre) as Hno by (intros Hp; rewrite Forall_forall in Hpre; specialize (Hpre t Hp); lia).
    apply elem_of_app in Hin as [?|Hin]; [done|].
    destruct Hpost as [->|(Hf & Hph & x & ->)]; [by apply elem_of_nil in Hin|].
    apply list_elem_of_singleton in Hin as <-. split; [by rewrite last_snoc|]. split; [done|].
    unfold alive. destruct (a_phase a') eqn:Eph; [right|done|left; tauto].
    exists (main_return a'). split; [by apply as_return|done].
  - intros Hw tt x. rewrite (by_sys _ _ _ (watch_turn_spec waits tt x)).
    by rewrite (proj2 (Z.ltb_ge 0 waits)) by lia.
Qed.

(** What the program reports.  For a session of genuine datagrams, in every
    interleaving of the goroutines, the messages read are the session's from the
    first one on, and those of the batch in the reader's hand are the last of
    them; of the [n] messages the reader has handled the first tick is that of the
    first and the last tick that of the last one (when these messages are ticks
    at all), also when silence or a signal has stopped the client.  The process
    ends with status 0 or 1; status 1 comes after a logged signal.  When the
    client has stopped, or the process has ended with status 0, and neither
    silence nor a signal is logged, the whole session was received: what was read
    and what is on its way to the reader make it up. *)
Lemma program_reports (B : list byte → option Tick) zeroTick (stream : Z → Message) start fin nextSeq (cn : Conn)
    ip port srvs now now' ovl waits es (a : app Conn Cache Tick)
    (Hsession : 0 <= start <= fin) (Hfin : fin < 2 ^ 63)
    (Hstart : start = if nextSeq =? 0 then 1 else nextSeq)
    (Hrun : arun B (genuine stream fin) ovl waits es
      (main_init zeroTick (newClientState cn nextSeq ip port srvs now) now') a) :
  let n := len (a_done a) in
  let s := a_sys a in
  out s = segment stream start (len (out s)) ∧ out s = a_done a ++ in_hand a ∧
  (0 < n → lastTic a = B (Data (stream (start + n - 1))) ∧
     ∀ t, B (Data (stream start)) = Some t → firstTic a = Some t ∧ fTic a = t) ∧
  (∀ st, a_phase a = Exited st → st = 0 ∨ st = 1 ∧ forced a = true) ∧
  (Running (cl s) = false ∨ a_phase a = Exited 0 → forced a = false →
     out s ++ unread s = segment stream start (fin - start) ∧
     (ovl = false → rd s = None → out s = segment stream start (fin - start))).
Proof.
  assert (reports_ok B stream start fin ovl a) as [Htk Hout Hc Hq H0' H1].
  { pose proof (inv_init stream start fin Hsession Hfin false ovl cn ip port srvs now nextSeq Hstart) as Hinv.
    eapply arun_reports; [done|done| | | |exact Hrun].
    - constructor; [by constructor|done| |done..].
      change (forced (main_init zeroTick (newClientState cn nextSeq ip port srvs now) now')) with false.
      unfold main_init, sys_inv. cbn [a_sys cl out pend rd sys_init]. destruct (LastRecv _ =? 0); [|done].
      apply (inv_ext _ _ _ _ _ _ _ _ _ _ Hinv); try done; apply Hinv.
    - done.
    - intros _. assert (safe (newClientState (Cache := Cache) cn nextSeq ip port srvs now)) as Hs
        by (apply safe_init; unfold max_u64; destruct (nextSeq =? 0) eqn:E; zbool; lia).
      split; [|constructor]. unfold main_init. cbn [a_sys cl sys_init].
      destruct (LastRecv _ =? 0); [by apply (safe_ext _ _ Hs)|done]. }
  pose proof (out_prefix _ _ _ _ _ _ _ _ _ Hc) as Ho.
  cbv zeta. split; [done|]. split; [done|]. split; [|split].
  - intros Hpos. set (n := len (a_done a)) in *.
    assert (a_done a = segment stream start n) as Hdone.
    { apply segment_intro. intros i m Hi. apply (lookup_segment stream _ (len (out (a_sys a)))).
      rewrite <- Ho, Hout. by apply lookup_app_l_Some. }
    rewrite Hdone in Htk. split.
    + apply (tk_last _ _ _ Htk). rewrite last_lookup. unfold segment.
      rewrite length_map, length_seqZ, list_lookup_fmap, lookup_seqZ_lt by lia. cbn. do 2 f_equal. lia.
    + intros t Ht. apply (tk_first _ _ _ Htk (stream start) (segment stream (start + 1) (n - 1))); [|done].
      change (stream start :: ?l) with ([stream start] ++ l). change [stream start] with (segment stream start 1).
      rewrite <- segment_app by lia. f_equal. lia.
  - intros st Hst. destruct (H1 st Hst) as [->|[-> Hqu]]; [by left|right]. split; [done|]. by apply Hq.
  - intros Hf Hno. assert (Running (cl (a_sys a)) = false) as Hf' by (destruct Hf as [Hf|Hf]; [done|by apply H0']).
    rewrite Hno in Hc. destruct (inv_all stream start fin false ovl _ eq_refl Hc Hf') as (_ & Hall & Hov).
    split; [done|]. intros Hov' Hr. by apply Hov.
Qed.
End Theorems.

(** ** Witnesses *)

#[local] Existing Instance ex_memory.

Definition ex_app0 : app unit msgCache (list byte) := main_init [] ex_client0 100.
Definition ex_turn (t : Z) (a : app unit msgCache (list byte)) : app unit msgCache (list byte) :=
  (watch_turn 2 t (a <| a_phase := Waiting |>)) <| a_phase := Testing |>.
Definition ex_app3 : app unit msgCache (list byte) := ex_turn 103 (ex_turn 102 (ex_turn 102 ex_app0)).
Definition ex_events : list event := [EvTest; EvTick 102; EvTest; EvTick 102; EvTest; EvTick 103].

Lemma ex_turn_run es t a : arun Some (λ _ _, True) true 2 es ex_app0 a → a_phase a = Testing → Running (cl (a_sys a)) = true →
  arun Some (λ _ _, True) true 2 ((es ++ [EvTest]) ++ [EvTick t]) ex_app0 (ex_turn t a).
Proof.
  intros Hr Hp Hrun. eapply arun_snoc; [eapply arun_snoc; [exact Hr|by unfold alive; rewrite Hp|by apply as_test]|done|].
  by apply (as_watch _ _ _ _ (a <| a_phase := Waiting |>)).
Qed.

Lemma ex_silent : arun Some (λ _ _, True) true 2 ex_events ex_app0 ex_app3.
Proof.
  apply (ex_turn_run [EvTest; EvTick 102; EvTest; EvTick 102]); [|reflexivity|reflexivity].
  apply (ex_turn_run [EvTest; EvTick 102]); [|reflexivity|reflexivity].
  apply (ex_turn_run []); [constructor|reflexivity|reflexivity].
Qed.

(** Two ticks in the same second, then a late one. *)
Lemma silence_stops_witness : last (tick_times ex_events) = Some 103 ∧ Running (cl (a_sys ex_app3)) = false ∧
  (¬ alive ex_app3 ∨ ∃ a'', astep Some (λ _ _, True) true 2 EvTest ex_app3 a'' ∧ a_phase a'' = Exited 0).
Proof.
  destruct (silence_stops Some (λ _ _, True) true 2 100 ex_events ex_app0 ex_app3) as [Hst _].
  - lia.
  - split; [apply (safe_init tt 0 [] 5858 [] 100); unfold max_u64; lia|constructor].
  - vm_compute. intuition congruence.
  - intros now Hin. exfalso. unfold ex_events in Hin.
    repeat (apply elem_of_cons in Hin as [Hin|Hin]; [discriminate|]). by apply elem_of_nil in Hin.
  - exact ex_silent.
  - apply Hst; [lia| |lia]. vm_compute. do 2 apply list_elem_of_further. apply list_elem_of_here.
Defined.
