(* ===== verification/Program.v ===== *)
(** * The program from its start (src/cmd/client/main.go)

    [main] up to its loops: the flags, the interface they select, the client.
    Then all goroutines together over an interface: the receive loop of the
    client ([Receiver]), its worker, and the goroutines of [main] ([Main]). *)

From Stdlib Require Import Strings.Byte.
From S2P Require Import Prelude.
From S2P Require Import GoBytes.
From S2P Require Import NetAddr.
From S2P Require Import Codec.
From S2P Require Import Sys.
From S2P Require Import UnixSock.
From S2P Require Import UnixSockProps.
From S2P Require Import Mcast.
From S2P Require Import NetIf.
From S2P Require Import SockIf.
From S2P Require Import McastProps.
From S2P Require Import MsgCache.
From S2P Require Import Client.
From S2P Require Import ClientLemmas.
From S2P Require Import ClientOpen.
From S2P Require Import Receiver.
From S2P Require Import Delivery.
From S2P Require Import DeliveryProps.
From S2P Require Import RequestProps.
From S2P Require Import ReceiverProps.
From S2P Require Import Flags.
From S2P Require Import Main.
From S2P Require Import MainProps.

(** ** The start *)

Section Start.
Context {C Cache Tick : Type} `{Lifecycle C} `{SeqCache Cache}.
Context (ParseIP : gostring → list byte) (InterfaceByName : gostring → option Interface) (toInt : gostring → Z).
Context (zeroTick : Tick).
Abbreviation app := (app unit Cache Tick).

(** From the arguments to the loops of [main], over the new interface [cn] that
    the flags select; a status when the process ends before.  [now] and [now']
    are the times [NewClient] and [main] read. *)
Definition main_start (args : list gostring) (newIf : gostring → C) (now now' : Z)
    : prog (Z + flags * app * C) :=
  match Parse args default_flags with
  | None => Done (inl 2)
  | Some f =>
      let opt := mkOption [] (f_IfName f) 0 in
      '(r, cn) ← NewClient ParseIP InterfaceByName toInt (f_maddr f) (f_port f) opt (newIf (f_netMode f)) now;
      match r with
      | inl _ => Done (inl 1)
      | inr c => Done (inr (f, main_init zeroTick c now', cn))
      end
  end.
End Start.

(** ** All goroutines *)

(** Opening a closed interface brings it into the state the receive loop needs. *)
Class McastOpenSpec (C : Type) `{Lifecycle C} `{McastConn C} (D : list byte → Prop) `{!McastRecvSpec C D} : Prop := {
  rc_open cn ip port ifn : lc_opened cn = false →
    wlp (lc_Open cn ip port ifn) (λ '(e, cn'), e = None → rc_ok cn')
}.

Section Program.
Context {C Cache Tick : Type} `{McastConn C} `{SeqCacheSpec Cache} (B : list byte → option Tick).
Context (D : list byte → Prop) `{!McastRecvSpec C D} (ovl : bool) (waits : Z).
Abbreviation app := (app unit Cache Tick).

(** The program, its interface, the buffer of the receive loop and the datagrams
    of its current turn that are still to be handled. *)
Record pstate : Type := mkPstate {
  p_app : app;
  p_conn : C;
  p_buff : list byte;
  p_todo : list dgram;
  p_from : option UDPAddr
}.

Inductive pstep : list event → pstate → pstate → Prop :=
| pstep_recv a cn buff ra0 E ds ra buff' cn' h :
    (∀ h c, rc_law h c (E h c)) →
    exec E (recv_call (mc_Enabled cn HasMmsg) cn buff) [] = (Ret (None, ds, ra, buff', cn'), h) →
    pstep [] (mkPstate a cn buff [] ra0) (mkPstate a cn' buff' ds ra)
| pstep_failed a cn buff ra0 E e ds ra buff' cn' h now :
    (∀ h c, rc_law h c (E h c)) →
    exec E (recv_call (mc_Enabled cn HasMmsg) cn buff) [] = (Ret (Some e, ds, ra, buff', cn'), h) →
    pstep [] (mkPstate a cn buff [] ra0)
      (mkPstate (set_cl a (recv_failed (mc_Enabled cn HasMmsg) (cl (a_sys a)) now)) cn' buff' [] ra)
| pstep_datagram a cn buff d ds ra now c' :
    len (ch (cl (a_sys a))) < chanCap → on_datagram (cl (a_sys a)) d ra now = Ret c' →
    pstep [EvClient (APacket now)] (mkPstate a cn buff (d :: ds) ra) (mkPstate (set_cl a c') cn buff ds ra)
| pstep_app e a a' cn buff ds ra :
    astep B (λ _ _, False) ovl waits e a a' →
    pstep [e] (mkPstate a cn buff ds ra) (mkPstate a' cn buff ds ra).

(** Runs of the program from the start of its loops. *)
Inductive preach (a0 : app) (cn0 : C) : list event → pstate → Prop :=
| preach_init : preach a0 cn0 [] (mkPstate a0 cn0 (replicate (Z.to_nat 2048) x00) [] None)
| preach_step es es' p p' :
    preach a0 cn0 es p → alive (p_app p) → pstep es' p p' → preach a0 cn0 (es ++ es') p'.

Definition pgood (p : pstate) : Prop :=
  rc_ok (p_conn p) ∧ len (p_buff p) = 2048 ∧ Forall (dgram_ok D) (p_todo p) ∧
  (p_todo p ≠ [] → is_Some (p_from p)).

Lemma pstep_good es p p' : pgood p → pstep es p p' → pgood p'.
Proof.
  intros (Hok & Hb & Hd & Hf) Hst.
  destruct Hst as [a cn buff ra0 E ds ra buff' cn' h HE He|a cn buff ra0 E e ds ra buff' cn' h now HE He
    |a cn buff d ds ra now c' _ _|e a a' cn buff ds ra _]; unfold pgood in *; cbn [p_conn p_buff p_todo p_from] in *.
  - destruct (recv_call_good D cn buff E _ _ Hok Hb HE He) as (? & ? & ? & ? & ? & [= <- <- <- <- <-] & ? & ? & Hds).
    by destruct (Hds eq_refl).
  - destruct (recv_call_good D cn buff E _ _ Hok Hb HE He) as (? & ? & ? & ? & ? & [= <- <- <- <- <-] & ? & ? & _). done.
  - apply Forall_cons in Hd as [_ Hd]. split_and!; try done. intros _. by apply Hf.
  - done.
Qed.

(** The program over an interface refines the system of [Main]; a receive that
    failed is a step that only logs. *)
Lemma preach_refines (allowed : Client unit Cache → list byte → Prop) a0 cn0 es p :
  (∀ c, allowed c []) → (∀ c b, cut_to 2048 D b → allowed c b) → rc_ok cn0 → preach a0 cn0 es p →
  pgood p ∧ ∃ es', arun B allowed ovl waits es' a0 (p_app p) ∧
    filter (λ e, e ≠ EvClient ALog) es' = filter (λ e, e ≠ EvClient ALog) es.
Proof.
  intros Hnil HD Hok Hr. induction Hr as [|es es' p p' _ [Hg (ls & Hrun & Hls)] Hal Hst].
  - split; [by split_and!; try constructor|]. exists []. split; [constructor|done].
  - split; [by eapply pstep_good|]. rewrite filter_app, <- Hls. destruct Hg as (_ & _ & Hd & Hf).
    destruct Hst as [a cn buff ra0 E ds ra buff' cn' h HE He|a cn buff ra0 E e ds ra buff' cn' h now HE He
      |a cn buff d ds ra now c' Hroom Hon|e a a' cn buff ds ra Hst]; cbn [p_app p_todo p_from] in *.
    + exists ls. split; [done|]. by rewrite app_nil_r.
    + unfold recv_failed. destruct (_ && _).
      * exists (ls ++ [EvClient ALog]). split; [|by rewrite filter_app].
        eapply arun_snoc; [done|done|]. apply as_client; [apply step_log|done|done].
      * exists ls. rewrite app_nil_r. split; [|done]. by destruct a as [[]].
    + exists (ls ++ [EvClient (APacket now)]). rewrite filter_app. split; [|done].
      eapply arun_snoc; [done|done|]. destruct (Hf ltac:(done)) as [r ->].
      apply Forall_cons in Hd as [(Hn & Hs & Hdat) _].
      apply as_client; [|done|done]. eapply step_packet; [done|exact Hn|done| |exact Hon].
      destruct Hdat as [E|Hdat]; [rewrite E; apply Hnil|by apply HD].
    + exists (ls ++ [e]). rewrite filter_app. split; [|done]. eapply arun_snoc; [done|done|].
      destruct Hst as [a l s' Hst Hl Ht|a r s' Hst Hh|a r a' Hh Ht|a Hp Hr|a Hp Hr|a tt Hp|a s Hq|a Hq]; [| |by econstructor..].
      * apply as_client; [|done|done]. eapply step_mono; [|exact Hst]. done.
      * apply as_read; [|done]. eapply step_mono; [|exact Hst]. done.
Qed.
End Program.

(** ** The interfaces *)

#[export] Instance netIf_open_spec `{SockApi} D : McastOpenSpec netIf D.
Proof.
  split. intros cn ip port ifn Hc. eapply wlp_mono; [|by apply lc_open_closed].
  intros [e cn'] Hok He. by apply Hok.
Qed.

Lemma sockIf_open_reading `{SockApiSpec} cn ip port ifn : lc_opened cn = false →
  wlp (lc_Open cn ip port ifn) (λ '(e, cn'), e = None → si_bRead cn' = true ∧ bufs_ok cn').
Proof.
  cbn. unfold SockIf.Open. intros ->. apply wlp_bind, wlp_true. intros [fd [e|]]; [done|].
  do 2 (apply wlp_bind, wlp_true; intros ?). apply wlp_bind, wlp_true. intros [e|]; apply wlp_bind, wlp_true; intros ?; [done|].
  intros _. split; [done|]. apply (bufs_ok_opened cn fd).
Qed.

Section SockIfOpen.
Context `{Errnos} (ParseIP : gostring → list byte) (D : list byte → Prop).

#[export] Instance sockIf_linux_open :
  @McastOpenSpec sockIf (@sockIf_lifecycle (unix_api ParseIP)) (@sockIf_linux (unix_api ParseIP) _) D (sockIf_linux_recv D ParseIP).
Proof.
  pose proof (unix_api_spec ParseIP). split. intros cn ip port ifn Hc. by apply sockIf_open_reading.
Qed.

#[export] Instance sockIf_win_open :
  @McastOpenSpec sockIf (@sockIf_lifecycle (win_api ParseIP)) (@sockIf_notlnx (win_api ParseIP)) D (sockIf_win_recv D ParseIP).
Proof.
  pose proof (win_api_spec ParseIP). split. intros cn ip port ifn Hc.
  eapply wlp_mono; [|by apply sockIf_open_reading]. intros [e cn'] Hok He. by apply Hok.
Qed.
End SockIfOpen.

(** ** Properties *)

(** The start of the program: the status it ends with before its loops, and the
    state in which they begin. *)
Lemma main_start_spec {C Cache Tick : Type} `{McastConn C} `{Lifecycle C} `{SeqCache Cache} D `{!McastRecvSpec C D}
    `{!McastOpenSpec C D} ParseIP InterfaceByName toInt (zeroTick : Tick) args (newIf : gostring → C) now now' :
  (∀ mode, lc_opened (newIf mode) = false) →
  wlp (main_start (Cache := Cache) ParseIP InterfaceByName toInt zeroTick args newIf now now') (λ r,
    match r with
    | inl st => st = 2 ∧ Parse args default_flags = None ∨ st = 1 ∧ is_Some (Parse args default_flags)
    | inr (f, a, cn) => Parse args default_flags = Some f ∧ rc_ok cn ∧
        ∃ ip, IsMulticast ip = true ∧ a = main_init zeroTick (newClientState tt 0 ip (f_port f) [] now) now'
    end).
Proof.
  intros Hnew. unfold main_start. destruct (Parse args default_flags) as [f|]; [|by left].
  unfold NewClient. apply wlp_bind, wlp_bind. eapply wlp_mono; [|by apply rc_open].
  intros [[e|] cn] Hok; cbn; [by right|]. split; [done|]. split; [by apply Hok|].
  eexists. split; [|done]. by destruct (IsMulticast (ParseIP (f_maddr f))) eqn:E.
Qed.


(** ** Witness *)

#[local] Existing Instance linux_errnos.
#[local] Instance ex_sock_conn : McastConn sockIf := @sockIf_linux (unix_api id) _.
#[local] Instance ex_sock_lifecycle : Lifecycle sockIf := @sockIf_lifecycle (unix_api id).
#[local] Instance ex_sock_recv : McastRecvSpec sockIf (fitting ex_stream 3 ex_sess) :=
  sockIf_linux_recv (fitting ex_stream 3 ex_sess) id.
#[local] Instance ex_sock_open : McastOpenSpec sockIf (fitting ex_stream 3 ex_sess) :=
  sockIf_linux_open id (fitting ex_stream 3 ex_sess).
#[local] Existing Instance ex_memory.

(** The program is started with [-w 5]; the first datagram of the session is
    received, processed and read. *)
Definition ex_args : list gostring := [[x2d; x77]; [x35]].
Definition ex_open_env : env := λ _ c, match c with sys_socket _ _ _ => ret_reply 3 | _ => ret_reply 0 end.
Definition ex_flags : flags := default_flags <| f_waits := 5 |>.

Definition ex_started : outcome (Z + flags * app unit msgCache (list byte) * sockIf) * trace :=
  exec ex_open_env (main_start id (λ _, None) len [] ex_args (λ _, SockIf.newSockIf) 100 100) [].
Definition ex_p0 : app unit msgCache (list byte) :=
  main_init [] (newClientState tt 0 (IPv4 xe0 x00 x00 x01) 5858 [] 100) 100.

Definition ex_pc : sockIf := opened_reading (set_dst SockIf.newSockIf (IPv4 xe0 x00 x00 x01) 5858) 3.

Lemma ex_start_ok : ex_started = (Ret (inr (ex_flags, ex_p0, ex_pc)), ex_started.2).
Proof. vm_compute. reflexivity. Qed.

Definition ex_q1 : Client unit msgCache := ret_or ex_client0 (onPacket (cl (a_sys ex_p0)) (ex_dgram 1) 23 ex_addr 100).

Abbreviation ex_D := (fitting ex_stream 3 ex_sess).

Lemma ex_p_received : ∃ cn buff ra, preach Some ex_D true 5 ex_p0 ex_pc [] (mkPstate ex_p0 cn buff [(ex_dgram 1, 23)] (Some ra)) ∧
  onPacket (cl (a_sys ex_p0)) (ex_dgram 1) 23 ra 100 =
    Ret (ex_q1 <| reqSrv := [mkUDPAddr (IP ra) 5859] |>).
Proof.
  destruct (exec ex_recv_env (recv_call (mc_Enabled ex_pc HasMmsg) ex_pc (replicate (Z.to_nat 2048) x00)) [])
    as [o h] eqn:He.
  assert (∃ ra buff' cn', o = Ret (None, [(ex_dgram 1, 23)], Some ra, buff', cn')) as (ra & buff' & cn' & ->).
  { vm_compute in He. injection He as <- _. do 3 eexists. reflexivity. }
  exists cn', buff', ra. split; [|vm_compute; reflexivity].
  apply (preach_step _ _ _ _ _ _ [] [] (mkPstate ex_p0 ex_pc (replicate (Z.to_nat 2048) x00) [] None)); [apply preach_init|done|].
  eapply pstep_recv; [exact ex_recv_law|exact He].
Qed.

(** A step of the program's goroutines. *)
Lemma ex_app_step es e (a a' : app unit msgCache (list byte)) cn buff ds ra :
  preach Some ex_D true 5 ex_p0 ex_pc es (mkPstate a cn buff ds ra) → alive a →
  astep Some (λ _ _, False) true 5 e a a' →
  preach Some ex_D true 5 ex_p0 ex_pc (es ++ [e]) (mkPstate a' cn buff ds ra).
Proof. intros Hr Hal Hst. eapply preach_step; [exact Hr|done|]. by apply pstep_app. Qed.

(** The worker's two steps, the two of [Read], and the reader's. *)
Lemma ex_p_run : ∃ es p, preach Some ex_D true 5 ex_p0 ex_pc es p ∧
  out (a_sys (p_app p)) = [ex_stream 1] ∧ a_done (p_app p) = [ex_stream 1].
Proof.
  destruct ex_p_received as (cn & buff & ra & Hr & Hp).
  set (c1 := ex_q1 <| reqSrv := [mkUDPAddr (IP ra) 5859] |>) in *.
  assert (∃ c2, requestLoop_publish c1 0 101 None None = Ret (None, Some (Some [ex_stream 1]), c2) ∧ ready c2 = None ∧
    lastSeq c2 = 1) as (c2 & E2 & Er & El).
  { eexists. split; [vm_compute; reflexivity|]. split; vm_compute; reflexivity. }
  assert (∃ c4, Read_test ((commit_append c2 (Some [ex_stream 1])) <| ready := None |>) (Some [ex_stream 1]) 1 =
    (ReadMsgs [ex_stream 1] 1, c4)) as (c4 & E4) by (unfold Read_test; by eexists).
  assert (Read_take (commit_append c2 (Some [ex_stream 1])) =
    (Some [ex_stream 1], 1, (commit_append c2 (Some [ex_stream 1])) <| ready := None |>)) as E3.
  { unfold Read_take. f_equal. unfold commit_append. rewrite Er. cbn. by rewrite El. }
  set (a1 := set_cl ex_p0 c1).
  set (a2 := ex_p0 <| a_sys := mkSysAt c2 [] [] (Some (Some [ex_stream 1])) None |>).
  set (a3 := ex_p0 <| a_sys := mkSysAt (commit_append c2 (Some [ex_stream 1])) [] [] None None |>).
  set (a4 := ex_p0 <| a_sys := mkSysAt ((commit_append c2 (Some [ex_stream 1])) <| ready := None |>) [] [] None (Some (Some [ex_stream 1], 1)) |>).
  set (a5 := ex_p0 <| a_sys := mkSysAt c4 [ex_stream 1] [] None None |> <| a_hand := Some (ReadMsgs [ex_stream 1] 1) |>).
  assert (∃ a6, reader_turn Some (a5 <| a_hand := None |> <| a_done := a_done a5 ++ [ex_stream 1] |>) (ReadMsgs [ex_stream 1] 1) = Ret a6 ∧
    out (a_sys a6) = [ex_stream 1] ∧ a_done a6 = [ex_stream 1]) as (a6 & E6 & Ho & Hd).
  { eexists. split; [reflexivity|]. split; reflexivity. }
  assert (preach Some ex_D true 5 ex_p0 ex_pc [EvClient (APacket 100)] (mkPstate a1 cn buff [] (Some ra))) as H1.
  { apply (preach_step _ _ _ _ _ _ [] [EvClient (APacket 100)] _ (mkPstate a1 cn buff [] (Some ra)) Hr); [done|].
    apply (pstep_datagram _ _ _ _ ex_p0 cn buff (ex_dgram 1, 23) [] (Some ra)); [vm_compute; reflexivity|exact Hp]. }
  eexists _, (mkPstate a6 cn buff [] (Some ra)). split; [|by split].
  eapply (ex_app_step _ _ a5); [eapply (ex_app_step _ _ a4); [eapply (ex_app_step _ _ a3); [eapply (ex_app_step _ _ a2);
    [eapply (ex_app_step _ _ a1); [exact H1|done|]|done|]|done|]|done|]|done|].
  - apply (as_client _ _ _ _ a1 AWorker (mkSysAt c2 [] [] (Some (Some [ex_stream 1])) None)); [|done|done].
    by apply (step_publish _ _ (mkSys c1 [] []) 0 101 None None None (Some (Some [ex_stream 1])) c2).
  - apply (as_client _ _ _ _ a2 AWorker (mkSysAt (commit_append c2 (Some [ex_stream 1])) [] [] None None)); [|done|done].
    by apply (step_append _ _ (mkSysAt c2 [] [] (Some (Some [ex_stream 1])) None)).
  - apply (as_client _ _ _ _ a3 ATake (mkSysAt ((commit_append c2 (Some [ex_stream 1])) <| ready := None |>) [] [] None (Some (Some [ex_stream 1], 1))));
      [|done|done].
    apply (step_take _ _ (mkSysAt (commit_append c2 (Some [ex_stream 1])) [] [] None None)); [done|done|].
    exact E3.
  - apply (as_read _ _ _ _ a4 (ReadMsgs [ex_stream 1] 1) (mkSysAt c4 [ex_stream 1] [] None None)); [|done].
    by apply (step_test _ _ (mkSysAt ((commit_append c2 (Some [ex_stream 1])) <| ready := None |>) [] [] None (Some (Some [ex_stream 1], 1)))
      (Some [ex_stream 1]) 1).
  - apply (as_reader _ _ _ _ a5 (ReadMsgs [ex_stream 1] 1)); [done|exact E6].
Qed.

